(** * projectBirtedi: the scroll-driven logo animation and the canvas renderers

    A shallow embedding of the animation code of the home page
    (the [InteractiveLogoAnimation], [ParticlesCanvas], [AudioReactiveGrid],
    [EnhancedAudioReactiveGrid] and [DigitalPortal] components) together with
    the properties its specification states about them.  The other
    components of the page ([Home], [CustomCursor], [MagneticButton],
    [ServiceCard], [ParallaxText], [TiltImage], [GlowingParticlesEffect],
    [VRModeButton], [CinematicJourneyMode] and [MainMenu]) follow, with
    properties read off their code.

    Conventions.
    - A JavaScript [number] is idealised as a real number ([R]): rounding,
      infinities and NaN are outside the model.  [Math.sin], [Math.sqrt],
      [Math.PI], [Math.min], [Math.max] are [sin], [sqrt], [PI], [Rmin], [Rmax].
    - [Date.now()] is an integer number of milliseconds ([Z]).
    - React state is a record; an effect is a function from the values the
      render captured to the state writes it performs.
    - CSS values written as template strings are kept as the numbers that the
      string is built from. *)

From Stdlib Require Import Reals Lra Lia ZArith List Bool Sorted String
  DecimalString.
Import ListNotations.
Open Scope R_scope.

(** ** Comparisons of JavaScript numbers, as booleans *)

Definition Rltb (x y : R) : bool := if Rlt_dec x y then true else false.
Definition Rgtb (x y : R) : bool := Rltb y x.
Definition Rleb (x y : R) : bool := if Rle_dec x y then true else false.
Definition Rgeb (x y : R) : bool := Rleb y x.

Infix "<?" := Rltb : R_scope.
Infix ">?" := Rgtb (at level 70) : R_scope.
Infix "<=?" := Rleb : R_scope.
Infix ">=?" := Rgeb (at level 70) : R_scope.

(** ** InteractiveLogoAnimation *)

Module InteractiveLogoAnimation.

(** A range is the two-element array [[min, max]]; [lo] is index 0 and [hi]
    index 1. *)
Record Range : Type := mkRange { lo : R; hi : R }.

(** [ANIMATION_RANGES] *)
Definition initialToAbsorb : Range := mkRange 0 0.15.
Definition absorbToRelease : Range := mkRange 0.15 0.25.
Definition releaseToFloat : Range := mkRange 0.25 0.35.
Definition floatToFall : Range := mkRange 0.35 0.45.
Definition fallToExpand : Range := mkRange 0.45 0.55.
Definition expandToFinal : Range := mkRange 0.55 0.65.

(** The stage numbers passed to [setAnimationStage], with the names the
    source gives them in its comments. *)
Definition Initial : nat := 0.
Definition Absorb : nat := 1.
Definition Release : nat := 2.
Definition Float : nat := 3.
Definition Fall : nat := 4.
Definition Expand : nat := 5.
Definition Final : nat := 6.

Definition normalizeProgress (current min max : R) : R :=
  Rmin 1 (Rmax 0 ((current - min) / (max - min))).

Definition easeInOutCubic (x : R) : R :=
  if x <? 0.5 then 4 * x * x * x else 1 - (-2 * x + 2) ^ 3 / 2.

Definition easeOutQuint (x : R) : R := 1 - (1 - x) ^ 5.

Definition easeInQuint (x : R) : R := x * x * x * x * x.

(** *** The fall timer *)

Definition minFallDuration : Z := 1000.

(** A pending [setTimeout(checkFallDuration, remainingTime)]: the time at
    which it becomes due and the [fallStartTime] its closure captured. *)
Record Timeout : Type := mkTimeout { due : Z; startedAt : Z }.

(** *** The elements whose style the component writes *)

Inductive Transform : Type :=
| TranslateZ0                  (* 'translateZ(0)' *)
| TranslateY (floatY : R)      (* `translateY(${floatY}px) translateZ(0)` *)
| Rotate (deg : R)             (* `rotate(${rotation}deg) translateZ(0)` *)
| Scale (k : R).               (* `scale(${k}) translateZ(0)` *)

(** [rgb(r, g, b)] *)
Record Color : Type := rgb { red : R; green : R; blue : R }.

(** [0 <offsetY>px <blur>px rgba(0, 0, 0, <alpha>)] *)
Record Shadow : Type := shadow { offsetY : R; blur : R; alpha : R }.

Record SquareStyle : Type := mkSquare {
  opacity : R;
  width : R;
  height : R;
  left : R;
  top : R;
  backgroundColor : Color;
  transform : Transform;
  boxShadow : Shadow
}.

Record LogoStyle : Type := mkLogo {
  logoTransform : Transform;
  logoOpacity : R
}.

(** The refs of the component; a ref whose [current] is [null] is [None].
    [videoContainer] is [squareRef.current.querySelector('div')]. *)
Record Dom : Type := mkDom {
  square : option SquareStyle;
  videoContainer : option R;
  video : option R;
  smallLogo : option LogoStyle
}.

Definition setOpacity (v : R) (s : SquareStyle) : SquareStyle :=
  mkSquare v (width s) (height s) (left s) (top s) (backgroundColor s)
           (transform s) (boxShadow s).
Definition setWidth (v : R) (s : SquareStyle) : SquareStyle :=
  mkSquare (opacity s) v (height s) (left s) (top s) (backgroundColor s)
           (transform s) (boxShadow s).
Definition setHeight (v : R) (s : SquareStyle) : SquareStyle :=
  mkSquare (opacity s) (width s) v (left s) (top s) (backgroundColor s)
           (transform s) (boxShadow s).
Definition setLeft (v : R) (s : SquareStyle) : SquareStyle :=
  mkSquare (opacity s) (width s) (height s) v (top s) (backgroundColor s)
           (transform s) (boxShadow s).
Definition setTop (v : R) (s : SquareStyle) : SquareStyle :=
  mkSquare (opacity s) (width s) (height s) (left s) v (backgroundColor s)
           (transform s) (boxShadow s).
Definition setBackgroundColor (v : Color) (s : SquareStyle) : SquareStyle :=
  mkSquare (opacity s) (width s) (height s) (left s) (top s) v
           (transform s) (boxShadow s).
Definition setTransform (v : Transform) (s : SquareStyle) : SquareStyle :=
  mkSquare (opacity s) (width s) (height s) (left s) (top s)
           (backgroundColor s) v (boxShadow s).
Definition setBoxShadow (v : Shadow) (s : SquareStyle) : SquareStyle :=
  mkSquare (opacity s) (width s) (height s) (left s) (top s)
           (backgroundColor s) (transform s) v.

(** A write through [squareRef.current.style]; the callers have checked
    that the ref is set. *)
Definition onSquare (f : SquareStyle -> SquareStyle) (d : Dom) : Dom :=
  mkDom (option_map f (square d)) (videoContainer d) (video d) (smallLogo d).

Definition setVideoContainerOpacity (v : R) (d : Dom) : Dom :=
  mkDom (square d) (option_map (fun _ => v) (videoContainer d)) (video d)
        (smallLogo d).

Definition setVideoOpacity (v : R) (d : Dom) : Dom :=
  mkDom (square d) (videoContainer d) (option_map (fun _ => v) (video d))
        (smallLogo d).

Definition setSmallLogo (t : Transform) (o : R) (d : Dom) : Dom :=
  mkDom (square d) (videoContainer d) (video d)
        (option_map (fun _ => mkLogo t o) (smallLogo d)).

(** *** calculateStages *)

(** What one run of [calculateStages] reads: the state and props captured by
    the render, the viewport and the clock. *)
Record Inputs : Type := mkInputs {
  in_interpolatedScroll : R;
  in_canExpand : bool;
  in_animationStage : nat;
  in_previousScrollProgress : R;
  in_scale : R;
  innerWidth : R;
  innerHeight : R;
  in_now : Z
}.

(** The stage handed to [setAnimationStage]. *)
Definition stageFor (interpolatedScroll : R) (canExpand : bool) : nat :=
  if interpolatedScroll <? hi initialToAbsorb then Initial
  else if interpolatedScroll <? hi absorbToRelease then Absorb
  else if interpolatedScroll <? hi releaseToFloat then Release
  else if interpolatedScroll <? hi floatToFall then Float
  else if negb canExpand || (interpolatedScroll <? hi fallToExpand) then Fall
  else if interpolatedScroll <? hi expandToFinal then Expand
  else Final.

(** [displayFallProgress]: the fall progress shown while stage 4 is drawn. *)
Definition displayFallProgress (fallProgress : R) (canExpand : bool) : R :=
  if negb canExpand && (fallProgress >? 0.95) then 0.95 else fallProgress.

(** The writes of the [animationStage >= 5 && canExpand] branch. *)
Definition expansionWrites (i : Inputs) (expansionProgress : R) (d : Dom) : Dom :=
  let easedExpansionProgress := easeOutQuint expansionProgress in
  let width := 64 + easedExpansionProgress * (innerWidth i - 64) in
  let height := 64 + easedExpansionProgress * (innerHeight i - 64) in
  let left := (innerWidth i - width) / 2 in
  let startTop := innerHeight i * 0.6 in
  let endTop := (innerHeight i - height) / 2 in
  let top := startTop + easedExpansionProgress * (endTop - startTop) in
  let red := Rmax 0 (255 * (1 - easedExpansionProgress)) in
  let backgroundColor := rgb red 0 0 in
  let d := onSquare (setWidth width) d in
  let d := onSquare (setHeight height) d in
  let d := onSquare (setLeft left) d in
  let d := onSquare (setTop top) d in
  let d := onSquare (setBackgroundColor backgroundColor) d in
  let d := onSquare (setTransform TranslateZ0) d in
  let videoOpacity :=
    if easedExpansionProgress >? 0.7
    then easeInOutCubic (Rmin 1 ((easedExpansionProgress - 0.7) * 3.33))
    else 0 in
  let d := setVideoContainerOpacity videoOpacity d in
  setVideoOpacity videoOpacity d.

(** The writes of the [animationStage === 4] branch. *)
Definition fallWrites (i : Inputs) (fallProgress : R) (d : Dom) : Dom :=
  let startY := 96 in
  let endY := innerHeight i * 0.6 in
  let displayFallProgress := displayFallProgress fallProgress (in_canExpand i) in
  let easedProgress := easeInQuint displayFallProgress in
  let currentY := startY + easedProgress * (endY - startY) in
  let rotationAngle := 8 * sin (displayFallProgress * PI) in
  let rotationDirection :=
    if in_previousScrollProgress i >? in_interpolatedScroll i then -1 else 1 in
  let rotation := rotationDirection * rotationAngle in
  let d := onSquare (setWidth 64) d in
  let d := onSquare (setHeight 64) d in
  let d := onSquare (setTop currentY) d in
  let d := onSquare (setTransform (Rotate rotation)) d in
  let d := onSquare (setLeft (innerWidth i * 0.4)) d in
  let d := onSquare (setBackgroundColor (rgb 220 38 38)) d in
  onSquare (setBoxShadow (shadow (easedProgress * 20) 15 (easedProgress * 0.3))) d.

(** The writes of the [animationStage === 2 || animationStage === 3] branch. *)
Definition releaseFloatWrites (i : Inputs) (d : Dom) : Dom :=
  let d := onSquare (setWidth 64) d in
  let d := onSquare (setHeight 64) d in
  let d := onSquare (setLeft (innerWidth i * 0.4)) d in
  let d := onSquare (setTop 96) d in
  let d := onSquare (setBackgroundColor (rgb 220 38 38)) d in
  let d := onSquare (setBoxShadow (shadow 5 15 0.1)) d in
  if Nat.eqb (in_animationStage i) 3 then
    let floatTime := IZR (in_now i) / 500 in
    let primaryWave := sin floatTime * 8 in
    let secondaryWave := sin (floatTime * 1.5) * 2 in
    let floatY := primaryWave + secondaryWave in
    onSquare (setTransform (TranslateY floatY)) d
  else onSquare (setTransform TranslateZ0) d.

(** The writes to the small logo ([smallLogoRef]). *)
Definition smallLogoWrites (i : Inputs) (absorbProgress : R) (d : Dom) : Dom :=
  if Nat.eqb (in_animationStage i) 0 then
    let relativeScale := Rmax 0.3 (in_scale i) in
    setSmallLogo (Scale relativeScale) 1 d
  else if Nat.eqb (in_animationStage i) 1 then
    let easedAbsorbProgress := easeInOutCubic absorbProgress in
    let absorptionScale := Rmax 0.01 ((1 - easedAbsorbProgress) * in_scale i) in
    setSmallLogo (Scale absorptionScale) (1 - easedAbsorbProgress) d
  else setSmallLogo (Scale 0) 0 d.

(** The writes of the [animationStage < 2] branch. *)
Definition hideWrites (d : Dom) : Dom :=
  let d := onSquare (setWidth 0) d in
  let d := onSquare (setHeight 0) d in
  let d := onSquare (setOpacity 0) d in
  onSquare (setTransform TranslateZ0) d.

(** What one run of [calculateStages] does: the two state writes and the
    style writes. *)
Record Outputs : Type := mkOutputs {
  setAnimationStage : nat;
  setPreviousScrollProgress : R;
  out_dom : Dom
}.

Definition calculateStages (i : Inputs) (d : Dom) : Outputs :=
  let interpolatedScroll := in_interpolatedScroll i in
  let canExpand := in_canExpand i in
  let animationStage := in_animationStage i in
  let absorbProgress :=
    normalizeProgress interpolatedScroll (lo initialToAbsorb) (hi initialToAbsorb) in
  let fallProgress :=
    normalizeProgress interpolatedScroll (lo floatToFall) (hi floatToFall) in
  let expandProgress :=
    if canExpand
    then normalizeProgress interpolatedScroll (lo fallToExpand) (hi fallToExpand)
    else 0 in
  let finalProgress :=
    if canExpand
    then normalizeProgress interpolatedScroll (lo expandToFinal) (hi expandToFinal)
    else 0 in
  let d' :=
    match square d with
    | None => d
    | Some _ =>
      let d := if Nat.leb 2 animationStage && Nat.leb animationStage 5
               then onSquare (setOpacity 1) d else d in
      let d := if Nat.leb 5 animationStage && canExpand
               then expansionWrites i
                      (if Nat.eqb animationStage 5 then expandProgress
                       else finalProgress) d
               else d in
      let d := if Nat.eqb animationStage 4 then fallWrites i fallProgress d
               else d in
      let d := if Nat.eqb animationStage 2 || Nat.eqb animationStage 3
               then releaseFloatWrites i d else d in
      let d := smallLogoWrites i absorbProgress d in
      if Nat.ltb animationStage 2 then hideWrites d else d
    end in
  mkOutputs (stageFor interpolatedScroll canExpand) interpolatedScroll d'.

Arguments calculateStages : simpl never.

(** *** animateEffects *)

(** [parseFloat(currentTransform.replace(/[^0-9.-]+/g, ''))] on the string
    [`rotate(${deg}deg) translateZ(0)`]: the characters kept are the digits of
    [deg] followed by the [0] of [translateZ(0)].  After a fractional part the
    extra digit changes nothing; after a whole number it is a further digit.
    (Numbers printed in positional notation; exponent notation is outside the
    model.) *)
Definition parsedRotation (deg : R) : R :=
  if Req_dec_T (frac_part deg) 0 then 10 * deg else deg.

(** One run of the frame callback [animateEffects], for the stage its
    closure captured; [squareRef.current] is checked in both branches. *)
Definition animateEffects (animationStage : nat) (now : Z) (d : Dom) : Dom :=
  if Nat.eqb animationStage 3 then
    let floatTime := IZR now / 500 in
    let primaryWave := sin floatTime * 8 in
    let secondaryWave := sin (floatTime * 1.5) * 2 in
    let floatY := primaryWave + secondaryWave in
    onSquare (setTransform (TranslateY floatY)) d
  else if Nat.eqb animationStage 4 then
    match square d with
    | Some s =>
      match transform s with
      | Rotate deg =>
        let base := parsedRotation deg in
        let rotationAmount := sin (IZR now / 200) * 1.5 in
        let newRotation := base + rotationAmount * 0.1 in
        onSquare (setTransform (Rotate newRotation)) d
      | _ => d
      end
    | None => d
    end
  else d.

(** *** The component as a transition system

    The React state of the component, the timeouts it has scheduled and the
    elements it writes to.  [fallStartDep] is the value of [fallStartTime]
    that the effect with dependency array [[fallStartTime]] saw at the last
    commit ([None] before the first commit). *)
Record State : Type := mkState {
  interpolatedScroll : R;
  fallStartTime : option Z;
  canExpand : bool;
  animationStage : nat;
  previousScrollProgress : R;
  timeouts : list Timeout;
  fallStartDep : option (option Z);
  dom : Dom
}.

(** The props and the viewport. *)
Record Env : Type := mkEnv { scale : R; viewportWidth : R; viewportHeight : R }.

Definition initialState (d : Dom) : State :=
  mkState 0 None false 0 0 [] None d.

(** A state write queued by an effect or by a timeout callback. *)
Inductive Write : Type :=
| SetFallStartTime (v : option Z)
| SetCanExpand (b : bool)
| SetAnimationStage (n : nat)
| SetPreviousScrollProgress (s : R)
| SetTimeout (t : Timeout).

Definition applyWrite (w : Write) (st : State) : State :=
  match w with
  | SetFallStartTime v =>
    mkState (interpolatedScroll st) v (canExpand st) (animationStage st)
            (previousScrollProgress st) (timeouts st) (fallStartDep st) (dom st)
  | SetCanExpand b =>
    mkState (interpolatedScroll st) (fallStartTime st) b (animationStage st)
            (previousScrollProgress st) (timeouts st) (fallStartDep st) (dom st)
  | SetAnimationStage n =>
    mkState (interpolatedScroll st) (fallStartTime st) (canExpand st) n
            (previousScrollProgress st) (timeouts st) (fallStartDep st) (dom st)
  | SetPreviousScrollProgress s =>
    mkState (interpolatedScroll st) (fallStartTime st) (canExpand st)
            (animationStage st) s (timeouts st) (fallStartDep st) (dom st)
  | SetTimeout t =>
    mkState (interpolatedScroll st) (fallStartTime st) (canExpand st)
            (animationStage st) (previousScrollProgress st)
            (timeouts st ++ [t]) (fallStartDep st) (dom st)
  end.

Definition applyWrites (ws : list Write) (st : State) : State :=
  fold_left (fun acc w => applyWrite w acc) ws st.

Definition isNull (v : option Z) : bool :=
  match v with None => true | Some _ => false end.

(** The effect "Track when fall animation begins", run with the
    [interpolatedScroll] and [fallStartTime] of the render. *)
Definition fallTimerEffect (interpolatedScroll : R) (fallStartTime : option Z)
    (now : Z) : list Write :=
  (if (interpolatedScroll >=? lo floatToFall) && isNull fallStartTime
   then [SetFallStartTime (Some now)] else [])
  ++
  (if (interpolatedScroll <? lo floatToFall) && negb (isNull fallStartTime)
   then [SetFallStartTime None; SetCanExpand false] else []).

(** [checkFallDuration], for the [fallStartTime] its closure captured, run
    when [Date.now()] is [currentTime]. *)
Definition checkFallDuration (fallStartTime : Z) (currentTime : Z) : list Write :=
  let fallDuration := (currentTime - fallStartTime)%Z in
  if (minFallDuration <=? fallDuration)%Z then [SetCanExpand true]
  else
    let remainingTime := (minFallDuration - fallDuration)%Z in
    [SetTimeout (mkTimeout (currentTime + remainingTime) fallStartTime)].

(** The effect "Ensure the fall animation plays for at least 1 second". *)
Definition minFallEffect (fallStartTime : option Z) (now : Z) : list Write :=
  match fallStartTime with
  | Some t => checkFallDuration t now
  | None => []
  end.

Definition sameDep (a : option (option Z)) (b : option Z) : bool :=
  match a, b with
  | Some (Some x), Some y => Z.eqb x y
  | Some None, None => true
  | _, _ => false
  end.

(** A stage handed to [setAnimationStage], with the time of the commit and
    the [interpolatedScroll] and [fallStartTime] of that render. *)
Record Emission : Type := mkEmission {
  em_at : Z;
  em_scroll : R;
  em_stage : nat;
  em_fallStartTime : option Z
}.

Definition inputsOf (env : Env) (now : Z) (st : State) : Inputs :=
  mkInputs (interpolatedScroll st) (canExpand st) (animationStage st)
           (previousScrollProgress st) (scale env) (viewportWidth env)
           (viewportHeight env) now.

(** One commit at time [now]: the three effects run in source order on the
    values of the render; their state writes are applied in the order they
    were queued.  The [fallStartTime] effect runs only when its dependency
    changed. *)
Definition commit (env : Env) (now : Z) (st : State) : State * Emission :=
  let w1 := fallTimerEffect (interpolatedScroll st) (fallStartTime st) now in
  let w2 := if sameDep (fallStartDep st) (fallStartTime st) then []
            else minFallEffect (fallStartTime st) now in
  let o := calculateStages (inputsOf env now st) (dom st) in
  let w3 := [SetAnimationStage (setAnimationStage o);
             SetPreviousScrollProgress (setPreviousScrollProgress o)] in
  let st1 :=
    mkState (interpolatedScroll st) (fallStartTime st) (canExpand st)
            (animationStage st) (previousScrollProgress st) (timeouts st)
            (Some (fallStartTime st)) (out_dom o) in
  (applyWrites (w1 ++ w2 ++ w3) st1,
   mkEmission now (interpolatedScroll st) (setAnimationStage o) (fallStartTime st)).

(** The timeouts that are due at [now] fire: each runs [checkFallDuration]
    with the start time it captured. *)
Definition fireTimeouts (now : Z) (st : State) : State :=
  let dueNow := filter (fun t => (due t <=? now)%Z) (timeouts st) in
  let later := filter (fun t => negb (due t <=? now)%Z) (timeouts st) in
  let st1 :=
    mkState (interpolatedScroll st) (fallStartTime st) (canExpand st)
            (animationStage st) (previousScrollProgress st) later
            (fallStartDep st) (dom st) in
  applyWrites (flat_map (fun t => checkFallDuration (startedAt t) now) dueNow) st1.

Inductive Event : Type :=
| ScrollTo (s : R)        (* setInterpolatedScroll(s) *)
| Commit (now : Z)        (* React commits a render; Date.now() = now *)
| Timers (now : Z).       (* the event loop runs the due timeouts *)

Definition step (env : Env) (e : Event) (st : State) : State * list Emission :=
  match e with
  | ScrollTo s =>
    (mkState s (fallStartTime st) (canExpand st) (animationStage st)
             (previousScrollProgress st) (timeouts st) (fallStartDep st)
             (dom st), [])
  | Commit now => let (st', em) := commit env now st in (st', [em])
  | Timers now => (fireTimeouts now st, [])
  end.

Fixpoint run (env : Env) (evs : list Event) (st : State) : State * list Emission :=
  match evs with
  | [] => (st, [])
  | e :: rest =>
    let (st1, out1) := step env e st in
    let (st2, out2) := run env rest st1 in
    (st2, out1 ++ out2)
  end.

Definition scrollsOf (evs : list Event) : list R :=
  flat_map (fun e => match e with ScrollTo s => [s] | _ => [] end) evs.

Definition timesOf (evs : list Event) : list Z :=
  flat_map (fun e => match e with
                     | ScrollTo _ => [] | Commit t => [t] | Timers t => [t]
                     end) evs.

(** *** The fall timer under forward scrolling

    [timer_inv T st]: at clock [T], a running fall timer was started at a
    scroll position of at least 0.35 and not after [T]; every pending timeout
    captured the running timer; the expand permission is granted only when
    the running timer is at least one second old. *)
Definition timer_inv (T : Z) (st : State) : Prop :=
  (forall t0, fallStartTime st = Some t0 -> 0.35 <= interpolatedScroll st) /\
  Forall (fun t => fallStartTime st = Some (startedAt t)) (timeouts st) /\
  (canExpand st = true ->
   exists t0, fallStartTime st = Some t0 /\ (t0 + 1000 <= T)%Z).

(** The gate, read off an emission. *)
Definition gated (e : Emission) : Prop :=
  (Expand <= em_stage e)%nat ->
  exists t0, em_fallStartTime e = Some t0 /\ (t0 + 1000 <= em_at e)%Z.

(** *** Sample runs *)

Definition env0 : Env := mkEnv 1 1280 720.

(** No ref is attached yet. *)
Definition dom0 : Dom := mkDom None None None None.

(** A forward scroll from 0 to 1 with renders and the timeout in between. *)
Definition forwardTrace : list Event :=
  [Commit 0; ScrollTo 0.2; Commit 100; ScrollTo 0.5; Commit 200; Commit 201;
   Timers 1200; Commit 1201; ScrollTo 0.6; Commit 1300; ScrollTo 1;
   Commit 1400].

(** Scroll to 0.50, let the timeout of the fall timer fire, render again. *)
Definition gateOpenTrace : list Event :=
  [ScrollTo 0.5; Commit 0; Commit 1; Timers 1000; Commit 1200].

(** Scroll to 0.50 and render twice. *)
Definition halfScrollTrace : list Event :=
  [ScrollTo 0.5; Commit 0; Commit 1].

(** Scroll to 0.40 and render twice. *)
Definition floatTrace : list Event :=
  [ScrollTo 0.4; Commit 0; Commit 1].

(** Scroll to 0.40, back to 0.30 after 500 ms, forward to 0.50 at 600 ms;
    the timeout scheduled at the first entry fires at 1000 ms; scroll to
    0.60. *)
Definition staleTimeoutTrace : list Event :=
  [ScrollTo 0.4; Commit 0; Commit 1; ScrollTo 0.3; Commit 500; Commit 501;
   ScrollTo 0.5; Commit 600; Commit 601; Timers 1000; ScrollTo 0.6;
   Commit 1001].

(** All refs attached; the square as the release stage leaves it. *)
Definition mountedSquare : SquareStyle :=
  mkSquare 1 64 64 512 96 (rgb 220 38 38) TranslateZ0 (shadow 5 15 0.1).

Definition mountedDom : Dom :=
  mkDom (Some mountedSquare) (Some 0) (Some 0) (Some (mkLogo (Scale 0) 0)).

(** A render in the Fall stage at scroll position 0.50, before the
    permission is granted. *)
Definition fallInputs : Inputs := mkInputs 0.5 false 4 0.5 1 1280 720 200.

(** A render in the Expand stage at scroll position 0.60. *)
Definition expandInputs : Inputs := mkInputs 0.6 true 5 0.6 1 1280 720 1300.

(** The elements after that render in the Fall stage. *)
Definition fallingDom : Dom := out_dom (calculateStages fallInputs mountedDom).

(** The expansion progress that [calculateStages] eases: [expandProgress] in
    stage 5, [finalProgress] otherwise. *)
Definition expansionProgressOf (i : Inputs) : R :=
  if Nat.eqb (in_animationStage i) 5
  then normalizeProgress (in_interpolatedScroll i) (lo fallToExpand) (hi fallToExpand)
  else normalizeProgress (in_interpolatedScroll i) (lo expandToFinal) (hi expandToFinal).

End InteractiveLogoAnimation.

(** ** The browser, as far as the renderers use it

    The pending [requestAnimationFrame] callbacks, the listeners registered
    on [window], what was written with [console.error], the calls made on a
    drawing context and the source of [Math.random()].  [C] is the type of
    the frame callbacks of the component under study (a closure is kept as
    the values it captured). *)

Module Browser.

(** A call [ctx.method(args)] or an assignment [ctx.method = ...]; of the
    arguments, the numbers are kept. *)
Inductive DrawCall : Type := Call (method : string) (args : list R).

Inductive Context : Type := Context2D | WebGL.

(** [window.addEventListener(eventType, handler)] *)
Record Listener : Type := mkListener { eventType : string; handler : string }.

Definition Listener_eqb (a b : Listener) : bool :=
  String.eqb (eventType a) (eventType b) && String.eqb (handler a) (handler b).

(** [{ x, y }], the value of [useMousePosition()] *)
Record Point : Type := mkPoint { x : R; y : R }.

Section World.

Variable C : Type.

Record World : Type := mkWorld {
  nextHandle : nat;
  frames : list (nat * C);
  listeners : list Listener;
  consoleErrors : list string;
  drawn : list DrawCall;
  randomSource : nat -> R;
  randomIndex : nat
}.

(** How a piece of JavaScript ends: normally with a value, or by throwing. *)
Inductive Completion (A : Type) : Type :=
| Normal (a : A) (w : World)
| Thrown (error : string) (w : World).

Definition JS (A : Type) : Type := World -> Completion A.

Definition ret {A : Type} (a : A) : JS A := fun w => Normal A a w.

Definition bind {A B : Type} (m : JS A) (k : A -> JS B) : JS B :=
  fun w => match m w with
           | Normal _ a w' => k a w'
           | Thrown _ e w' => Thrown B e w'
           end.

Definition throw {A : Type} (error : string) : JS A :=
  fun w => Thrown A error w.

(** Handles start at 1: the initial value 0 of a ref names no request. *)
Definition emptyWorld (random : nat -> R) : World :=
  mkWorld 1 [] [] [] [] random 0.

Definition requestAnimationFrame (callback : C) : JS nat :=
  fun w =>
    Normal nat (nextHandle w)
      (mkWorld (S (nextHandle w)) (frames w ++ [(nextHandle w, callback)])
               (listeners w) (consoleErrors w) (drawn w) (randomSource w)
               (randomIndex w)).

Definition cancelAnimationFrame (handle : nat) : JS unit :=
  fun w =>
    Normal unit tt
      (mkWorld (nextHandle w)
               (filter (fun f => negb (Nat.eqb (fst f) handle)) (frames w))
               (listeners w) (consoleErrors w) (drawn w) (randomSource w)
               (randomIndex w)).

(** Registering the same listener twice registers it once. *)
Definition addEventListener (l : Listener) : JS unit :=
  fun w =>
    Normal unit tt
      (mkWorld (nextHandle w) (frames w)
               (if existsb (Listener_eqb l) (listeners w) then listeners w
                else listeners w ++ [l])
               (consoleErrors w) (drawn w) (randomSource w) (randomIndex w)).

Definition removeEventListener (l : Listener) : JS unit :=
  fun w =>
    Normal unit tt
      (mkWorld (nextHandle w) (frames w)
               (filter (fun l' => negb (Listener_eqb l l')) (listeners w))
               (consoleErrors w) (drawn w) (randomSource w) (randomIndex w)).

Definition consoleError (message : string) : JS unit :=
  fun w =>
    Normal unit tt
      (mkWorld (nextHandle w) (frames w) (listeners w)
               (consoleErrors w ++ [message]) (drawn w) (randomSource w)
               (randomIndex w)).

Definition mathRandom : JS R :=
  fun w =>
    Normal R (randomSource w (randomIndex w))
      (mkWorld (nextHandle w) (frames w) (listeners w) (consoleErrors w)
               (drawn w) (randomSource w) (S (randomIndex w))).

(** A method call on a drawing context.  On [null] it throws a TypeError. *)
Definition invoke (ctx : option Context) (c : DrawCall) : JS unit :=
  fun w =>
    match ctx with
    | None => Thrown unit "TypeError" w
    | Some _ =>
      Normal unit tt
        (mkWorld (nextHandle w) (frames w) (listeners w) (consoleErrors w)
                 (drawn w ++ [c]) (randomSource w) (randomIndex w))
    end.

(** The browser takes the request [handle] off the pending list before it
    runs its callback. *)
Definition takeFrame (handle : nat) : JS unit := cancelAnimationFrame handle.

(** [for (const a of l) body(a)] *)
Fixpoint forEach {A : Type} (body : A -> JS unit) (l : list A) : JS unit :=
  match l with
  | [] => ret tt
  | a :: rest => bind (body a) (fun _ => forEach body rest)
  end.

(** A source of [Math.random()] for the samples. *)
Definition sampleRandom : nat -> R := fun _ => 0.5.

(** [m] ends normally, with a value satisfying [P], and leaves the frame
    requests, the listeners and the console as they were: it only draws or
    draws random numbers. *)
Definition paints {A : Type} (m : JS A) (P : A -> Prop) : Prop :=
  forall w, exists a w',
    m w = Normal A a w' /\ nextHandle w' = nextHandle w /\
    frames w' = frames w /\ listeners w' = listeners w /\
    consoleErrors w' = consoleErrors w /\ P a.

End World.

Arguments Normal {C A}.
Arguments Thrown {C A}.
Arguments ret {C A}.
Arguments bind {C A B}.
Arguments throw {C A}.
Arguments forEach {C A}.
Arguments paints {C A}.
Arguments requestAnimationFrame {C}.
Arguments cancelAnimationFrame {C}.
Arguments takeFrame {C}.
Arguments addEventListener {C}.
Arguments removeEventListener {C}.
Arguments consoleError {C}.
Arguments mathRandom {C}.
Arguments invoke {C}.
Arguments emptyWorld {C}.
Arguments nextHandle {C}.
Arguments frames {C}.
Arguments listeners {C}.
Arguments consoleErrors {C}.
Arguments drawn {C}.
Arguments randomSource {C}.
Arguments randomIndex {C}.

Declare Scope js_scope.
Delimit Scope js_scope with js.
Notation "x <- m ;; k" := (bind m (fun x => k))
  (at level 61, m at next level, right associativity) : js_scope.
Notation "m ;; k" := (bind m (fun _ => k))
  (at level 61, right associativity) : js_scope.

End Browser.

(** ** ParticlesCanvas *)

Module ParticlesCanvas.
Import Browser.
Local Open Scope js_scope.

Record Particle : Type := mkParticle {
  x : R;
  y : R;
  size : R;
  speedX : R;
  speedY : R;
  opacity : R;
  hue : R
}.

Record Dimensions : Type := mkDimensions { width : R; height : R }.

(** The canvas element: the context [getContext('2d')] returns, the box
    [getBoundingClientRect()] returns, and its [width] and [height]. *)
Record Canvas : Type := mkCanvas {
  context2d : option Context;
  rectWidth : R;
  rectHeight : R;
  canvasWidth : R;
  canvasHeight : R
}.

(** What the closure [animate] captured from its render. *)
Record Closure : Type := mkClosure {
  ctx : option Context;
  cl_dimensions : Dimensions;
  cl_mousePosition : Point;
  cl_scrollProgress : R
}.

Inductive Callback : Type := Animate (cl : Closure).

Record State : Type := mkState {
  canvas : option Canvas;          (* canvasRef.current *)
  dimensions : Dimensions;
  particles : list Particle;       (* particlesRef.current *)
  animationRef : nat;              (* animationRef.current *)
  mousePosition : Point;
  scrollProgress : R;
  loopCleanup : bool   (* the animation-loop effect returned its cleanup *)
}.

Definition initialState (cv : option Canvas) (scrollProgress : R) : State :=
  mkState cv (mkDimensions 0 0) [] 0 (mkPoint 0 0) scrollProgress false.

Definition mouseRadius : R := 100.
Definition mouseStrength : R := 1.

(** The body of [particlesRef.current.forEach] up to the boundary handling:
    the position of [p] after one frame. *)
Definition moveParticle (dimensions : Dimensions) (mousePosition : Point)
    (scrollProgress : R) (p : Particle) : Particle :=
  let scrollEffect := scrollProgress * 5 in
  let dx := Browser.x mousePosition - x p in
  let dy := Browser.y mousePosition - y p in
  let distance := sqrt (dx * dx + dy * dy) in
  let '(px, py) :=
    if distance <? mouseRadius then
      let influence := 1 - distance / mouseRadius in
      (x p - dx * influence * mouseStrength * 0.05,
       y p - dy * influence * mouseStrength * 0.05)
    else (x p, y p) in
  let py := py + scrollEffect * 0.1 in
  let px := px + speedX p in
  let py := py + speedY p in
  let px := if px <? 0 then width dimensions else px in
  let px := if px >? width dimensions then 0 else px in
  let py := if py <? 0 then height dimensions else py in
  let py := if py >? height dimensions then 0 else py in
  mkParticle px py (size p) (speedX p) (speedY p) (opacity p) (hue p).

Definition drawParticle (ctx : option Context) (lightness : R) (p : Particle)
  : JS Callback unit :=
  invoke ctx (Call "beginPath" []) ;;
  invoke ctx (Call "arc" [x p; y p; size p; 0; PI * 2]) ;;
  invoke ctx (Call "fillStyle" [hue p; lightness; opacity p]) ;;
  invoke ctx (Call "fill" []).

Definition drawLine (ctx : option Context) (lightness : R) (p p2 : Particle)
  : JS Callback unit :=
  let dx := x p - x p2 in
  let dy := y p - y p2 in
  let distance := sqrt (dx * dx + dy * dy) in
  if distance <? 100 then
    invoke ctx (Call "beginPath" []) ;;
    invoke ctx (Call "moveTo" [x p; y p]) ;;
    invoke ctx (Call "lineTo" [x p2; y p2]) ;;
    invoke ctx (Call "strokeStyle" [hue p; lightness; (1 - distance / 100) * 0.1]) ;;
    invoke ctx (Call "stroke" [])
  else ret tt.

(** [particlesRef.current.forEach(p => ...)]: the particles are updated in
    place, so the inner loop sees the new positions of [done] and of [p]
    and the old ones of the rest. *)
Fixpoint forEachParticle (cl : Closure) (done todo : list Particle)
  : JS Callback (list Particle) :=
  match todo with
  | [] => ret done
  | p :: rest =>
    let p' := moveParticle (cl_dimensions cl) (cl_mousePosition cl)
                           (cl_scrollProgress cl) p in
    let lightness := 70 + cl_scrollProgress cl * 10 in
    drawParticle (ctx cl) lightness p' ;;
    forEach (drawLine (ctx cl) lightness p') (done ++ p' :: rest) ;;
    forEachParticle cl (done ++ [p']) rest
  end.

Definition animate (cl : Closure) (st : State) : JS Callback State :=
  invoke (ctx cl)
         (Call "clearRect" [0; 0; width (cl_dimensions cl);
                            height (cl_dimensions cl)]) ;;
  ps <- forEachParticle cl [] (particles st) ;;
  handle <- requestAnimationFrame (Animate cl) ;;
  ret (mkState (canvas st) (dimensions st) ps handle (mousePosition st)
               (scrollProgress st) (loopCleanup st)).

(** [!v] for a number [v]. *)
Definition falsy (v : R) : bool := if Req_dec_T v 0 then true else false.

(** The effect "Animation loop", for a render with [dimensions],
    [mousePosition] and [scrollProgress] as in [st]. *)
Definition animationLoopEffect (st : State) : JS Callback State :=
  let noCleanup :=
    mkState (canvas st) (dimensions st) (particles st) (animationRef st)
            (mousePosition st) (scrollProgress st) false in
  match canvas st with
  | None => ret noCleanup
  | Some cv =>
    if falsy (width (dimensions st)) || falsy (height (dimensions st))
    then ret noCleanup
    else
      let ctx := context2d cv in
      match ctx with
      | None => ret noCleanup
      | Some _ =>
        st' <- animate (mkClosure ctx (dimensions st) (mousePosition st)
                                  (scrollProgress st)) st ;;
        ret (mkState (canvas st') (dimensions st') (particles st')
                     (animationRef st') (mousePosition st')
                     (scrollProgress st') true)
      end
  end.

(** The cleanup of that effect, when it returned one. *)
Definition animationLoopCleanup (st : State) : JS Callback unit :=
  if loopCleanup st then cancelAnimationFrame (animationRef st) else ret tt.

Definition newParticle (dimensions : Dimensions) : JS Callback Particle :=
  rx <- mathRandom ;;
  ry <- mathRandom ;;
  rsize <- mathRandom ;;
  rsx <- mathRandom ;;
  rsy <- mathRandom ;;
  ro <- mathRandom ;;
  rh <- mathRandom ;;
  hue <- (if rh >? 0.7 then ret 0
          else rh2 <- mathRandom ;; ret (if rh2 >? 0.5 then 350 else 220)) ;;
  ret (mkParticle (rx * width dimensions) (ry * height dimensions)
                  (rsize * 3 + 1) ((rsx - 0.5) * 0.5) ((rsy - 0.5) * 0.5)
                  (ro * 0.5 + 0.1) hue).

Fixpoint newParticles (n : nat) (dimensions : Dimensions)
  : JS Callback (list Particle) :=
  match n with
  | O => ret []
  | S n' =>
    p <- newParticle dimensions ;;
    ps <- newParticles n' dimensions ;;
    ret (p :: ps)
  end.

(** The effect "Initialize particles". *)
Definition initParticlesEffect (st : State) : JS Callback State :=
  if falsy (width (dimensions st)) || falsy (height (dimensions st))
  then ret st
  else
    let particleCount :=
      Z.to_nat (Int_part (width (dimensions st) * height (dimensions st) / 20000)) in
    ps <- newParticles particleCount (dimensions st) ;;
    ret (mkState (canvas st) (dimensions st) ps (animationRef st)
                 (mousePosition st) (scrollProgress st) (loopCleanup st)).

(** [handleResize]: the new [dimensions] and the resized canvas. *)
Definition handleResize (st : State) : State :=
  match canvas st with
  | Some cv =>
    mkState (Some (mkCanvas (context2d cv) (rectWidth cv) (rectHeight cv)
                            (rectWidth cv) (rectHeight cv)))
            (mkDimensions (rectWidth cv) (rectHeight cv))
            (particles st) (animationRef st) (mousePosition st)
            (scrollProgress st) (loopCleanup st)
  | None => st
  end.

Definition mouseMoveListener : Listener := mkListener "mousemove" "updateMousePosition".
Definition resizeListener : Listener := mkListener "resize" "handleResize".

(** The animation-loop effect runs again: its cleanup, then the effect. *)
Definition rerunAnimationLoop (st : State) : JS Callback State :=
  animationLoopCleanup st ;; animationLoopEffect st.

(** Mounting: the effects in source order.  The first commit still has the
    initial [dimensions] (0 by 0); [handleResize] sets the measured ones,
    and the render that follows runs the two effects that depend on them. *)
Definition mount (st : State) : JS Callback State :=
  addEventListener mouseMoveListener ;;
  addEventListener resizeListener ;;
  st <- initParticlesEffect st ;;
  st <- animationLoopEffect st ;;
  match canvas st with
  | Some _ =>
    st <- initParticlesEffect (handleResize st) ;;
    rerunAnimationLoop st
  | None => ret st
  end.

(** The events after mounting. *)
Inductive Event : Type :=
| Frame                        (* the browser runs the pending frame callbacks *)
| MouseMove (position : Point) (* updateMousePosition *)
| Scroll (scrollProgress : R)  (* the prop changes *)
| Resize.                      (* handleResize *)

Fixpoint runFrames (pending : list (nat * Callback)) (st : State)
  : JS Callback State :=
  match pending with
  | [] => ret st
  | (handle, Animate cl) :: rest =>
    takeFrame handle ;;
    st <- animate cl st ;;
    runFrames rest st
  end.

Definition handle (e : Event) (st : State) : JS Callback State :=
  match e with
  | Frame => fun w => runFrames (frames w) st w
  | MouseMove position =>
    rerunAnimationLoop
      (mkState (canvas st) (dimensions st) (particles st) (animationRef st)
               position (scrollProgress st) (loopCleanup st))
  | Scroll s =>
    if Req_dec_T s (scrollProgress st) then ret st
    else rerunAnimationLoop
           (mkState (canvas st) (dimensions st) (particles st)
                    (animationRef st) (mousePosition st) s (loopCleanup st))
  | Resize =>
    match canvas st with
    | Some _ =>
      animationLoopCleanup st ;;
      st <- initParticlesEffect (handleResize st) ;;
      animationLoopEffect st
    | None => ret st
    end
  end.

Fixpoint handleAll (evs : list Event) (st : State) : JS Callback State :=
  match evs with
  | [] => ret st
  | e :: rest => st <- handle e st ;; handleAll rest st
  end.

(** Unmounting: the cleanups of the effects. *)
Definition unmount (st : State) : JS Callback unit :=
  removeEventListener mouseMoveListener ;;
  removeEventListener resizeListener ;;
  animationLoopCleanup st.

(** Mount, live through [evs], unmount. *)
Definition lifecycle (evs : list Event) (st : State) : JS Callback unit :=
  st <- mount st ;;
  st <- handleAll evs st ;;
  unmount st.

(** The context the component can draw on, if any. *)
Definition contextOf (st : State) : option Context :=
  match canvas st with
  | Some cv => context2d cv
  | None => None
  end.

(** *** What holds between two events while the component is mounted *)

(** What holds between events while the component is mounted: both
    listeners are registered, and the only pending frame request, if any, is
    the one whose handle [animationRef] holds. *)
Definition mounted (st : State) (w : World Callback) : Prop :=
  listeners w = [mouseMoveListener; resizeListener] /\
  if loopCleanup st
  then exists cl c, frames w = [(animationRef st, Animate cl)] /\ ctx cl = Some c
  else frames w = [].

(** The invariant, with what holds when no context can be acquired: no
    cleanup is registered. *)
Definition mountedBlind (st : State) (w : World Callback) : Prop :=
  mounted st w /\ (contextOf st = None -> loopCleanup st = false).

(** *** Sample values *)

Definition sampleDimensions : Dimensions := mkDimensions 800 600.

(** A particle 0.1 px from the left edge, drifting left. *)
Definition edgeParticle : Particle := mkParticle 0.1 300 2 (-0.2) 0 0.3 220.

Definition farMouse : Point := mkPoint 300.1 700.

(** A canvas on which no 2D context can be acquired. *)
Definition blindCanvas : Canvas := mkCanvas None 800 600 300 150.

Definition sampleEvents : list Event :=
  [Frame; MouseMove (mkPoint 10 20); Scroll 0.5; Resize; Frame].

End ParticlesCanvas.

(** ** AudioReactiveGrid, with the VR wrapper EnhancedAudioReactiveGrid *)

Module AudioReactiveGrid.
Import Browser.
Local Open Scope js_scope.

(** What the WebGL implementation answers during the setup. *)
Record GLDriver : Type := mkGLDriver {
  createsVertexShader : bool;
  createsFragmentShader : bool;
  compilesVertexShader : bool;
  compilesFragmentShader : bool;
  createsProgram : bool;
  linksProgram : bool
}.

(** The canvas element: what [getContext('webgl')] and
    [getContext('experimental-webgl')] return, its bounding box and its
    [width] and [height]. *)
Record Canvas : Type := mkCanvas {
  webgl : option GLDriver;
  experimentalWebgl : option GLDriver;
  rectWidth : R;
  rectHeight : R;
  canvasWidth : R;
  canvasHeight : R
}.

(** [glContextRef.current], as far as the effects test it. *)
Record GLContextRef : Type := mkGLContextRef {
  gl : option Context;
  program : bool;          (* [program] is not null *)
  startTime : Z
}.

(** What the closure [animate] captured. *)
Record Closure : Type := mkClosure {
  cl_gl : option Context;
  cl_startTime : Z;
  cl_mousePosition : Point;
  cl_audioLevel : R;
  cl_scrollProgress : R
}.

(** The frame callbacks: [simulateAudio], [animate], and the [animate] of
    the head-tracking effect with the [beta] and [gamma] it captured. *)
Inductive Callback : Type :=
| SimulateAudio
| Animate (cl : Closure)
| HeadTracking (beta gamma : R).

(** The grid component.  [audioLevel] is the state [audioData.level];
    [renderedAudioLevel] is the value the current render captured, and
    [audioDirty] says that [setAudioData] was called since. *)
Record Grid : Type := mkGrid {
  canvas : option Canvas;          (* canvasRef.current *)
  glContextRef : GLContextRef;
  audioLevel : R;
  renderedAudioLevel : R;
  audioDirty : bool;
  animationFrameId : nat;          (* of the simulateAudio effect *)
  animationRef : nat;              (* animationRef.current *)
  mousePosition : Point;
  scrollProgress : R;
  devicePixelRatio : R;
  glCleanup : bool;     (* the WebGL effect returned its cleanup *)
  loopCleanup : bool    (* the animation-loop effect returned its cleanup *)
}.

Definition initialGrid (cv : option Canvas) (scrollProgress dpr : R)
    (now : Z) : Grid :=
  mkGrid cv (mkGLContextRef None false now) 0 0 false 0 0 (mkPoint 0 0)
         scrollProgress dpr false false.

(** *** simulateAudio *)

Definition simulatedLevel (now : Z) (random : R) : R :=
  let time := IZR now / 1000 in
  let primaryWave := sin (time * 0.5) * 0.3 in
  let secondaryWave := sin (time * 1.3) * 0.15 in
  let fastWave := sin (time * 3.7) * 0.05 in
  let noise := random * 0.1 in
  (primaryWave + secondaryWave + fastWave + 0.5) * 0.5 + noise * 0.2.

Definition normalizedLevel (now : Z) (random : R) : R :=
  Rmax 0 (Rmin 1 (simulatedLevel now random)).

Definition setAudioData (level : R) (g : Grid) : Grid :=
  mkGrid (canvas g) (glContextRef g) level (renderedAudioLevel g) true
         (animationFrameId g) (animationRef g) (mousePosition g)
         (scrollProgress g) (devicePixelRatio g) (glCleanup g) (loopCleanup g).

(** The next render captures the current [audioData]. *)
Definition renderAudioData (g : Grid) : Grid :=
  mkGrid (canvas g) (glContextRef g) (audioLevel g) (audioLevel g) false
         (animationFrameId g) (animationRef g) (mousePosition g)
         (scrollProgress g) (devicePixelRatio g) (glCleanup g) (loopCleanup g).

Definition setAnimationFrameId (handle : nat) (g : Grid) : Grid :=
  mkGrid (canvas g) (glContextRef g) (audioLevel g) (renderedAudioLevel g)
         (audioDirty g) handle (animationRef g) (mousePosition g)
         (scrollProgress g) (devicePixelRatio g) (glCleanup g) (loopCleanup g).

Definition setAnimationRef (handle : nat) (g : Grid) : Grid :=
  mkGrid (canvas g) (glContextRef g) (audioLevel g) (renderedAudioLevel g)
         (audioDirty g) (animationFrameId g) handle (mousePosition g)
         (scrollProgress g) (devicePixelRatio g) (glCleanup g) (loopCleanup g).

Definition setLoopCleanup (b : bool) (g : Grid) : Grid :=
  mkGrid (canvas g) (glContextRef g) (audioLevel g) (renderedAudioLevel g)
         (audioDirty g) (animationFrameId g) (animationRef g) (mousePosition g)
         (scrollProgress g) (devicePixelRatio g) (glCleanup g) b.

Definition setGL (cv : option Canvas) (ref : GLContextRef) (cleanup : bool)
    (g : Grid) : Grid :=
  mkGrid cv ref (audioLevel g) (renderedAudioLevel g)
         (audioDirty g) (animationFrameId g) (animationRef g) (mousePosition g)
         (scrollProgress g) (devicePixelRatio g) cleanup (loopCleanup g).

Definition setPointer (position : Point) (scroll : R) (g : Grid) : Grid :=
  mkGrid (canvas g) (glContextRef g) (audioLevel g) (renderedAudioLevel g)
         (audioDirty g) (animationFrameId g) (animationRef g) position
         scroll (devicePixelRatio g) (glCleanup g) (loopCleanup g).

Definition simulateAudio (now : Z) (g : Grid) : JS Callback Grid :=
  random <- mathRandom ;;
  let g := setAudioData (normalizedLevel now random) g in
  handle <- requestAnimationFrame SimulateAudio ;;
  ret (setAnimationFrameId handle g).

(** *** The grid geometry and the matrices *)

Definition gridSize : R := 20.
Definition gridDivisions : nat := 30.

Definition positions : list R :=
  flat_map (fun i =>
    let x := INR i / INR gridDivisions * gridSize - gridSize / 2 in
    flat_map (fun j =>
      let z := INR j / INR gridDivisions * gridSize - gridSize / 2 in
      [x; 0; z]) (seq 0 (S gridDivisions))) (seq 0 (S gridDivisions)).

Definition uvs : list R :=
  flat_map (fun i =>
    flat_map (fun j => [INR i / INR gridDivisions; INR j / INR gridDivisions])
             (seq 0 (S gridDivisions))) (seq 0 (S gridDivisions)).

Definition indices : list R :=
  flat_map (fun i =>
    flat_map (fun j =>
      let a := (i * (gridDivisions + 1) + j)%nat in
      let b := (a + 1)%nat in
      let c := (a + (gridDivisions + 1))%nat in
      let d := (c + 1)%nat in
      map INR [a; b; c; c; b; d]) (seq 0 gridDivisions)) (seq 0 gridDivisions).

Definition multiplyMatrices (a b : list R) : list R :=
  flat_map (fun i =>
    map (fun j =>
      fold_left (fun acc k => acc + nth (i * 4 + k) a 0 * nth (k * 4 + j) b 0)
                (seq 0 4) 0) (seq 0 4)) (seq 0 4).

Definition rotateMatrix (matrix : list R) (rotX rotY rotZ : R) : list R :=
  let cosX := cos rotX in let sinX := sin rotX in
  let cosY := cos rotY in let sinY := sin rotY in
  let cosZ := cos rotZ in let sinZ := sin rotZ in
  let rotationX := [1; 0; 0; 0;  0; cosX; sinX; 0;  0; - sinX; cosX; 0;  0; 0; 0; 1] in
  let rotationY := [cosY; 0; - sinY; 0;  0; 1; 0; 0;  sinY; 0; cosY; 0;  0; 0; 0; 1] in
  let rotationZ := [cosZ; sinZ; 0; 0;  - sinZ; cosZ; 0; 0;  0; 0; 1; 0;  0; 0; 0; 1] in
  let result := matrix in
  let result := multiplyMatrices result rotationX in
  let result := multiplyMatrices result rotationY in
  multiplyMatrices result rotationZ.

(** *** The WebGL setup effect *)

Definition handleResize (g : Grid) : JS Callback Grid :=
  match canvas g, gl (glContextRef g) with
  | Some cv, Some c =>
    let width := rectWidth cv * devicePixelRatio g in
    let height := rectHeight cv * devicePixelRatio g in
    invoke (Some c) (Call "viewport" [0; 0; width; height]) ;;
    ret (setGL (Some (mkCanvas (webgl cv) (experimentalWebgl cv) (rectWidth cv)
                               (rectHeight cv) width height))
               (glContextRef g) (glCleanup g) g)
  | _, _ => ret g
  end.

Definition createGeometry (c : option Context) : JS Callback unit :=
  invoke c (Call "createBuffer" []) ;;
  invoke c (Call "bindBuffer" []) ;;
  invoke c (Call "bufferData" positions) ;;
  invoke c (Call "createBuffer" []) ;;
  invoke c (Call "bindBuffer" []) ;;
  invoke c (Call "bufferData" uvs) ;;
  invoke c (Call "createBuffer" []) ;;
  invoke c (Call "bindBuffer" []) ;;
  invoke c (Call "bufferData" indices).

(** [canvas.getContext('webgl') || canvas.getContext('experimental-webgl')] *)
Definition getWebGL (cv : Canvas) : option GLDriver :=
  match webgl cv with
  | Some d => Some d
  | None => experimentalWebgl cv
  end.

(** The effect "Initialize WebGL context"; [now] is [Date.now()]. *)
Definition initWebGLEffect (now : Z) (g : Grid) : JS Callback Grid :=
  match canvas g with
  | None => ret g
  | Some cv =>
    match getWebGL cv with
    | None => consoleError "WebGL not supported" ;; ret g
    | Some d =>
      let c := Some WebGL in
      invoke c (Call "enable" []) ;;
      invoke c (Call "blendFunc" []) ;;
      invoke c (Call "createShader" []) ;;
      invoke c (Call "createShader" []) ;;
      if negb (createsVertexShader d) || negb (createsFragmentShader d)
      then consoleError "Could not create shaders" ;; ret g
      else
        invoke c (Call "shaderSource" []) ;;
        invoke c (Call "shaderSource" []) ;;
        invoke c (Call "compileShader" []) ;;
        if negb (compilesVertexShader d)
        then consoleError "Vertex shader compilation failed:" ;; ret g
        else
          invoke c (Call "compileShader" []) ;;
          if negb (compilesFragmentShader d)
          then consoleError "Fragment shader compilation failed:" ;; ret g
          else
            invoke c (Call "createProgram" []) ;;
            if negb (createsProgram d)
            then consoleError "Could not create program" ;; ret g
            else
              invoke c (Call "attachShader" []) ;;
              invoke c (Call "attachShader" []) ;;
              invoke c (Call "linkProgram" []) ;;
              if negb (linksProgram d)
              then consoleError "Program linking failed:" ;; ret g
              else
                invoke c (Call "useProgram" []) ;;
                createGeometry c ;;
                g <- handleResize
                       (setGL (canvas g) (mkGLContextRef c true now) false g) ;;
                ret (setGL (canvas g) (glContextRef g) true g)
    end
  end.

(** Its cleanup: the program, the shaders and the buffers are deleted. *)
Definition initWebGLCleanup (g : Grid) : JS Callback unit :=
  if glCleanup g then
    let c := gl (glContextRef g) in
    invoke c (Call "deleteProgram" []) ;;
    invoke c (Call "deleteShader" []) ;;
    invoke c (Call "deleteShader" []) ;;
    invoke c (Call "deleteBuffer" []) ;;
    invoke c (Call "deleteBuffer" []) ;;
    invoke c (Call "deleteBuffer" [])
  else ret tt.

(** *** The animation loop *)

(** The calls of one frame on the context. *)
Definition frameCalls (cl : Closure) (cv : Canvas) (now : Z) : list DrawCall :=
  let currentTime := IZR (now - cl_startTime cl) / 1000 in
  let aspect := canvasWidth cv / canvasHeight cv in
  let fov := PI / 4 in
  let near := 0.1 in
  let far := 100 in
  let f := 1.0 / tan (fov / 2) in
  let projectionMatrix :=
    [f / aspect; 0; 0; 0;
     0; f; 0; 0;
     0; 0; (far + near) / (near - far); -1;
     0; 0; (2 * far * near) / (near - far); 0] in
  let modelViewMatrix :=
    [1; 0; 0; 0;  0; 1; 0; 0;  0; 0; 1; 0;  0; 0; -10; 1] in
  let rotationX := cl_scrollProgress cl * PI * 0.1 in
  let rotationY := cl_scrollProgress cl * PI * 0.1 in
  let rotatedModelViewMatrix :=
    rotateMatrix modelViewMatrix rotationX rotationY 0 in
  let normalizedMouseX := (x (cl_mousePosition cl) / rectWidth cv) * 2 - 1 in
  let normalizedMouseY := (1 - y (cl_mousePosition cl) / rectHeight cv) * 2 - 1 in
  let vertexCount := (30 * 30) * 6 in
  [Call "clearColor" [0; 0; 0; 0];
   Call "clear" [];
   Call "bindBuffer" [];
   Call "vertexAttribPointer" [3; 0; 0];
   Call "enableVertexAttribArray" [];
   Call "bindBuffer" [];
   Call "vertexAttribPointer" [2; 0; 0];
   Call "enableVertexAttribArray" [];
   Call "bindBuffer" [];
   Call "uniformMatrix4fv projectionMatrix" projectionMatrix;
   Call "uniformMatrix4fv modelViewMatrix" rotatedModelViewMatrix;
   Call "uniform1f time" [currentTime];
   Call "uniform1f audioLevel" [cl_audioLevel cl];
   Call "uniform2f mousePosition" [normalizedMouseX; normalizedMouseY];
   Call "uniform3f baseColor" [0.1; 0.1; 0.15];
   Call "uniform3f accentColor" [0.9; 0.2; 0.2];
   Call "uniform1f scrollIntensity" [cl_scrollProgress cl];
   Call "drawElements" [vertexCount; 0]].

Definition animate (cl : Closure) (now : Z) (g : Grid) : JS Callback Grid :=
  match cl_gl cl, canvas g with
  | Some _, Some cv =>
    forEach (invoke (cl_gl cl)) (frameCalls cl cv now) ;;
    handle <- requestAnimationFrame (Animate cl) ;;
    ret (setAnimationRef handle g)
  | _, _ => ret g
  end.

(** The effect "Animation loop", for the render whose values are in [g]. *)
Definition animationLoopEffect (now : Z) (g : Grid) : JS Callback Grid :=
  match gl (glContextRef g) with
  | Some _ =>
    if program (glContextRef g) then
      g' <- animate (mkClosure (gl (glContextRef g))
                               (startTime (glContextRef g))
                               (mousePosition g) (renderedAudioLevel g)
                               (scrollProgress g)) now g ;;
      ret (setLoopCleanup true g')
    else ret (setLoopCleanup false g)
  | None => ret (setLoopCleanup false g)
  end.

Definition animationLoopCleanup (g : Grid) : JS Callback unit :=
  if loopCleanup g then cancelAnimationFrame (animationRef g) else ret tt.

Definition rerunAnimationLoop (now : Z) (g : Grid) : JS Callback Grid :=
  animationLoopCleanup g ;; animationLoopEffect now g.

(** The render after [setAudioData]: the animation-loop effect runs again
    with the new level. *)
Definition renderIfDirty (now : Z) (g : Grid) : JS Callback Grid :=
  if audioDirty g then rerunAnimationLoop now (renderAudioData g) else ret g.

(** *** The wrapper *)

Record Orientation : Type := mkOrientation { alpha : R; beta : R; gamma : R }.

(** The style of the element the wrapper's [canvasRef] points to. *)
Record VRStyle : Type := mkVRStyle {
  zIndex : R;
  blendNormal : bool;            (* mixBlendMode is 'normal', not 'screen' *)
  translate : option (R * R)     (* [translateX(..px) translateY(..px)] or '' *)
}.

Record Wrapper : Type := mkWrapper {
  isVRMode : bool;
  deviceOrientation : Orientation;
  vrCanvas : option VRStyle;       (* canvasRef.current of the wrapper *)
  orientationCleanup : bool;       (* the orientation effect returned its cleanup *)
  vrCleanup : option nat           (* the handle the VR cleanup will cancel *)
}.

(** The wrapper creates its [canvasRef] with [null] and renders only
    [<AudioReactiveGrid scrollProgress={scrollProgress} />], which takes no
    ref: [canvasRef.current] is [null] from the first render on. *)
Definition initialWrapper : Wrapper :=
  mkWrapper false (mkOrientation 0 0 0) None false None.

Definition mouseMoveListener : Listener := mkListener "mousemove" "updateMousePosition".
Definition resizeListener : Listener := mkListener "resize" "handleResize".
Definition vrToggleListener : Listener := mkListener "vr-mode-toggle" "handleVRModeToggle".
Definition orientationListener : Listener :=
  mkListener "deviceorientation" "handleDeviceOrientation".

Definition maxTilt : R := 15.

(** [applyHeadTracking], with the [beta] and [gamma] of its render. *)
Definition applyHeadTracking (beta gamma : R) (v : Wrapper) : Wrapper :=
  match vrCanvas v with
  | None => v
  | Some style =>
    let normalizedBeta := Rmax (- maxTilt) (Rmin maxTilt beta) / maxTilt in
    let normalizedGamma := Rmax (- maxTilt) (Rmin maxTilt gamma) / maxTilt in
    mkWrapper (isVRMode v) (deviceOrientation v)
              (Some (mkVRStyle (zIndex style) (blendNormal style)
                               (Some (normalizedGamma * -10, normalizedBeta * -10))))
              (orientationCleanup v) (vrCleanup v)
  end.

(** The frame callback of the head-tracking effect: it asks for the next
    frame and does not keep the handle. *)
Definition headTrackingFrame (beta gamma : R) (v : Wrapper) : JS Callback Wrapper :=
  let v := applyHeadTracking beta gamma v in
  _ <- requestAnimationFrame (HeadTracking beta gamma) ;;
  ret v.

(** The effect "Apply VR-specific styles when in VR mode". *)
Definition vrEffect (v : Wrapper) : JS Callback Wrapper :=
  match vrCanvas v with
  | None =>
    ret (mkWrapper (isVRMode v) (deviceOrientation v) (vrCanvas v)
                   (orientationCleanup v) None)
  | Some style =>
    if isVRMode v then
      animationFrame <-
        requestAnimationFrame
          (HeadTracking (beta (deviceOrientation v))
                        (gamma (deviceOrientation v))) ;;
      ret (mkWrapper (isVRMode v) (deviceOrientation v)
                     (Some (mkVRStyle 1000 true (translate style)))
                     (orientationCleanup v) (Some animationFrame))
    else
      ret (mkWrapper (isVRMode v) (deviceOrientation v) (vrCanvas v)
                     (orientationCleanup v) None)
  end.

Definition vrEffectCleanup (v : Wrapper) : JS Callback Wrapper :=
  match vrCleanup v with
  | Some animationFrame =>
    cancelAnimationFrame animationFrame ;;
    ret (mkWrapper (isVRMode v) (deviceOrientation v)
                   (match vrCanvas v with
                    | Some _ => Some (mkVRStyle 5 false None)
                    | None => None
                    end)
                   (orientationCleanup v) None)
  | None => ret v
  end.

(** The effect "Listen for device orientation events when in VR mode". *)
Definition orientationEffect (v : Wrapper) : JS Callback Wrapper :=
  if isVRMode v then
    addEventListener orientationListener ;;
    ret (mkWrapper (isVRMode v) (deviceOrientation v) (vrCanvas v) true
                   (vrCleanup v))
  else
    ret (mkWrapper (isVRMode v) (deviceOrientation v) (vrCanvas v) false
                   (vrCleanup v)).

Definition orientationEffectCleanup (v : Wrapper) : JS Callback unit :=
  if orientationCleanup v then removeEventListener orientationListener
  else ret tt.

(** *** The life of the component *)

Record State : Type := mkState { grid : Grid; wrapper : Wrapper }.

Definition initialState (cv : option Canvas) (scrollProgress dpr : R)
    (now : Z) : State :=
  mkState (initialGrid cv scrollProgress dpr now) initialWrapper.

(** Mounting: the effects of the grid in source order, then those of the
    wrapper, then the render that the first [setAudioData] causes. *)
Definition mount (now : Z) (st : State) : JS Callback State :=
  addEventListener mouseMoveListener ;;
  g <- simulateAudio now (grid st) ;;
  g <- initWebGLEffect now g ;;
  addEventListener resizeListener ;;
  g <- animationLoopEffect now g ;;
  addEventListener vrToggleListener ;;
  v <- orientationEffect (wrapper st) ;;
  v <- vrEffect v ;;
  g <- renderIfDirty now g ;;
  ret (mkState g v).

Inductive Event : Type :=
| Frame (now : Z)                   (* the browser runs the pending callbacks *)
| MouseMove (now : Z) (position : Point)
| Scroll (now : Z) (scrollProgress : R)
| Resize
| VRModeToggle (isVRMode : bool)    (* the 'vr-mode-toggle' event *)
| DeviceOrientation (o : Orientation).

Fixpoint runFrames (now : Z) (pending : list (nat * Callback)) (st : State)
  : JS Callback State :=
  match pending with
  | [] => ret st
  | (handle, callback) :: rest =>
    takeFrame handle ;;
    st <- match callback with
          | SimulateAudio =>
            g <- simulateAudio now (grid st) ;; ret (mkState g (wrapper st))
          | Animate cl =>
            g <- animate cl now (grid st) ;; ret (mkState g (wrapper st))
          | HeadTracking beta gamma =>
            v <- headTrackingFrame beta gamma (wrapper st) ;;
            ret (mkState (grid st) v)
          end ;;
    runFrames now rest st
  end.

Definition Bool_eqb (a b : bool) : bool := Bool.eqb a b.

Definition handle (e : Event) (st : State) : JS Callback State :=
  match e with
  | Frame now =>
    st <- (fun w => runFrames now (frames w) st w) ;;
    g <- renderIfDirty now (grid st) ;;
    ret (mkState g (wrapper st))
  | MouseMove now position =>
    g <- rerunAnimationLoop now
           (setPointer position (scrollProgress (grid st)) (grid st)) ;;
    ret (mkState g (wrapper st))
  | Scroll now s =>
    if Req_dec_T s (scrollProgress (grid st)) then ret st
    else
      g <- rerunAnimationLoop now
             (setPointer (mousePosition (grid st)) s (grid st)) ;;
      ret (mkState g (wrapper st))
  | Resize =>
    g <- handleResize (grid st) ;; ret (mkState g (wrapper st))
  | VRModeToggle b =>
    let v := wrapper st in
    if Bool_eqb b (isVRMode v) then ret st
    else
      orientationEffectCleanup v ;;
      v <- vrEffectCleanup v ;;
      v <- orientationEffect
             (mkWrapper b (deviceOrientation v) (vrCanvas v)
                        (orientationCleanup v) (vrCleanup v)) ;;
      v <- vrEffect v ;;
      ret (mkState (grid st) v)
  | DeviceOrientation o =>
    let v := wrapper st in
    if orientationCleanup v then
      v <- vrEffectCleanup v ;;
      v <- vrEffect (mkWrapper (isVRMode v) o (vrCanvas v)
                               (orientationCleanup v) (vrCleanup v)) ;;
      ret (mkState (grid st) v)
    else ret st
  end.

Fixpoint handleAll (evs : list Event) (st : State) : JS Callback State :=
  match evs with
  | [] => ret st
  | e :: rest => st <- handle e st ;; handleAll rest st
  end.

(** Unmounting: the cleanups of the wrapper and of the grid. *)
Definition unmount (st : State) : JS Callback unit :=
  removeEventListener vrToggleListener ;;
  orientationEffectCleanup (wrapper st) ;;
  _ <- vrEffectCleanup (wrapper st) ;;
  removeEventListener mouseMoveListener ;;
  cancelAnimationFrame (animationFrameId (grid st)) ;;
  initWebGLCleanup (grid st) ;;
  removeEventListener resizeListener ;;
  animationLoopCleanup (grid st).

(** Mount, live through [evs], unmount. *)
Definition lifecycle (now : Z) (evs : list Event) (st : State)
  : JS Callback unit :=
  st <- mount now st ;;
  st <- handleAll evs st ;;
  unmount st.

(** The WebGL context the grid can acquire, if any. *)
Definition contextOf (g : Grid) : option GLDriver :=
  match canvas g with
  | Some cv => getWebGL cv
  | None => None
  end.

(** *** What holds between two events while the component is mounted *)

Definition baseListeners : list Listener :=
  [mouseMoveListener; resizeListener; vrToggleListener].

(** The frame requests besides the one of [simulateAudio]: none, or the one
    of [animate] whose handle is in [animationRef]. *)
Definition loopPart (g : Grid) (rest : list (nat * Callback)) : Prop :=
  rest = [] \/
  (loopCleanup g = true /\
   exists cl c, rest = [(animationRef g, Animate cl)] /\ cl_gl cl = Some c /\
                0 <= cl_audioLevel cl <= 1).

(** A call on the context passes an audio level only from [0, 1]. *)
Definition levelCall (call : DrawCall) : Prop :=
  match call with
  | Call method args =>
    method = "uniform1f audioLevel"%string ->
    forall v, In v args -> 0 <= v <= 1
  end.

Definition levelsOk (w : World Callback) : Prop := Forall levelCall (drawn w).

Definition audioOk (g : Grid) : Prop :=
  0 <= audioLevel g <= 1 /\ 0 <= renderedAudioLevel g <= 1.

Definition gridMounted (g : Grid) (w : World Callback) : Prop :=
  (exists rest, frames w = (animationFrameId g, SimulateAudio) :: rest /\
                loopPart g rest) /\
  (animationFrameId g < nextHandle w)%nat /\
  (animationRef g < nextHandle w)%nat /\
  animationRef g <> animationFrameId g /\
  (glCleanup g = true -> exists c, gl (glContextRef g) = Some c) /\
  (gl (glContextRef g) = None -> loopCleanup g = false).

Definition wrapperMounted (v : Wrapper) (w : World Callback) : Prop :=
  vrCanvas v = None /\ vrCleanup v = None /\
  listeners w =
    baseListeners ++ (if orientationCleanup v then [orientationListener] else []).

Definition mounted (st : State) (w : World Callback) : Prop :=
  gridMounted (grid st) w /\ wrapperMounted (wrapper st) w /\
  audioDirty (grid st) = false /\ audioOk (grid st) /\ levelsOk w.

(** *** Sample values *)

(** A canvas on which no WebGL context can be acquired. *)
Definition blindCanvas : Canvas := mkCanvas None None 800 600 300 150.

Definition sampleEvents : list Event :=
  [Frame 16; MouseMove 20 (mkPoint 10 20); Scroll 30 0.5; Resize;
   VRModeToggle true; DeviceOrientation (mkOrientation 0 5 5); Frame 32].

(** A wrapper in VR mode whose [canvasRef] would point to an element. *)
Definition attachedWrapper : Wrapper :=
  mkWrapper true (mkOrientation 0 5 5) (Some (mkVRStyle 5 false None)) true None.

End AudioReactiveGrid.

(** ** DigitalPortal *)

Module DigitalPortal.
Import Browser.
Local Open Scope js_scope.

Record Size : Type := mkSize { width : R; height : R }.

(** The canvas element: the context [getContext('2d')] returns, and its
    [width] and [height]. *)
Record Canvas : Type := mkCanvas {
  context2d : option Context;
  canvasWidth : R;
  canvasHeight : R
}.

(** [portalRef.current.getBoundingClientRect()] *)
Record Rect : Type := mkRect { rectLeft : R; rectTop : R }.

(** What the closure [animate] captured: [ctx], which is not null there,
    and the [mousePosition] of the render that started the simulation. *)
Record Closure : Type := mkClosure {
  ctx : Context;
  cl_mousePosition : Point
}.

Inductive Callback : Type := Animate (cl : Closure).

Record State : Type := mkState {
  isPortalOpen : bool;
  portalPosition : Point;
  portalSize : Size;
  isDragging : bool;
  portalRef : option Rect;         (* portalRef.current *)
  canvas : option Canvas;          (* canvasRef.current *)
  mousePosition : Point;           (* useMousePosition() *)
  animationRef : nat;              (* animationRef.current *)
  innerWidth : R;                  (* window.innerWidth *)
  innerHeight : R;                 (* window.innerHeight *)
  simulationCleanup : bool;  (* the simulation effect returned its cleanup *)
  dragCleanup : option Listener;   (* the listener the drag cleanup removes *)
  dragRuns : nat             (* how many [handleMouseMove] closures were made *)
}.

Definition initialState (portal : option Rect) (cv : option Canvas)
    (innerWidth innerHeight : R) : State :=
  mkState false (mkPoint 0 0) (mkSize 300 400) false portal cv (mkPoint 0 0) 0
          innerWidth innerHeight false None 0.

Definition setIsPortalOpen (b : bool) (st : State) : State :=
  mkState b (portalPosition st) (portalSize st) (isDragging st) (portalRef st)
          (canvas st) (mousePosition st) (animationRef st) (innerWidth st)
          (innerHeight st) (simulationCleanup st) (dragCleanup st) (dragRuns st).

Definition setPortalPosition (p : Point) (st : State) : State :=
  mkState (isPortalOpen st) p (portalSize st) (isDragging st) (portalRef st)
          (canvas st) (mousePosition st) (animationRef st) (innerWidth st)
          (innerHeight st) (simulationCleanup st) (dragCleanup st) (dragRuns st).

Definition setIsDragging (b : bool) (st : State) : State :=
  mkState (isPortalOpen st) (portalPosition st) (portalSize st) b (portalRef st)
          (canvas st) (mousePosition st) (animationRef st) (innerWidth st)
          (innerHeight st) (simulationCleanup st) (dragCleanup st) (dragRuns st).

Definition setCanvas (cv : option Canvas) (st : State) : State :=
  mkState (isPortalOpen st) (portalPosition st) (portalSize st) (isDragging st)
          (portalRef st) cv (mousePosition st) (animationRef st) (innerWidth st)
          (innerHeight st) (simulationCleanup st) (dragCleanup st) (dragRuns st).

Definition setMousePosition (p : Point) (st : State) : State :=
  mkState (isPortalOpen st) (portalPosition st) (portalSize st) (isDragging st)
          (portalRef st) (canvas st) p (animationRef st) (innerWidth st)
          (innerHeight st) (simulationCleanup st) (dragCleanup st) (dragRuns st).

Definition setAnimationRef (handle : nat) (st : State) : State :=
  mkState (isPortalOpen st) (portalPosition st) (portalSize st) (isDragging st)
          (portalRef st) (canvas st) (mousePosition st) handle (innerWidth st)
          (innerHeight st) (simulationCleanup st) (dragCleanup st) (dragRuns st).

Definition setSimulationCleanup (b : bool) (st : State) : State :=
  mkState (isPortalOpen st) (portalPosition st) (portalSize st) (isDragging st)
          (portalRef st) (canvas st) (mousePosition st) (animationRef st)
          (innerWidth st) (innerHeight st) b (dragCleanup st) (dragRuns st).

Definition setDragCleanup (l : option Listener) (runs : nat) (st : State)
  : State :=
  mkState (isPortalOpen st) (portalPosition st) (portalSize st) (isDragging st)
          (portalRef st) (canvas st) (mousePosition st) (animationRef st)
          (innerWidth st) (innerHeight st) (simulationCleanup st) l runs.

(** *** The simulation *)

(** "Add noise texture": [n] iterations of the loop. *)
Fixpoint addNoise (c : option Context) (width height : R) (n : nat)
  : JS Callback unit :=
  match n with
  | O => ret tt
  | S n' =>
    rx <- mathRandom ;;
    ry <- mathRandom ;;
    ra <- mathRandom ;;
    invoke c (Call "fillStyle" [255; 255; 255; ra * 0.03]) ;;
    invoke c (Call "fillRect" [rx * width; ry * height; 1; 1]) ;;
    addNoise c width height n'
  end.

(** "Add floating objects": the body of the loop for the index [i]. *)
Definition floatingObject (c : option Context) (time width height : R)
    (i : nat) : JS Callback unit :=
  let x := sin (time + INR i * 0.3) * width * 0.4 + width * 0.5 in
  let y := cos (time + INR i * 0.5) * height * 0.4 + height * 0.5 in
  let size := sin (time * 0.5 + INR i) * 10 + 15 in
  invoke c (Call "beginPath" []) ;;
  invoke c (Call "arc" [x; y; size; 0; PI * 2]) ;;
  invoke c (Call "fillStyle" [INR i * 20 + time * 50]) ;;
  invoke c (Call "fill" []) ;;
  if (0 <? i)%nat then
    let prevX := sin (time + (INR i - 1) * 0.3) * width * 0.4 + width * 0.5 in
    let prevY := cos (time + (INR i - 1) * 0.5) * height * 0.4 + height * 0.5 in
    invoke c (Call "beginPath" []) ;;
    invoke c (Call "moveTo" [prevX; prevY]) ;;
    invoke c (Call "lineTo" [x; y]) ;;
    invoke c (Call "strokeStyle" [INR i * 20 + time * 50]) ;;
    invoke c (Call "stroke" [])
  else ret tt.

(** "Add a mouse-influenced distortion" *)
Definition ripple (c : option Context) (portal : option Rect)
    (mousePosition : Point) (time width height : R) : JS Callback unit :=
  match portal with
  | None => ret tt
  | Some portalRect =>
    let relativeX := x mousePosition - rectLeft portalRect in
    let relativeY := y mousePosition - rectTop portalRect - 30 in
    if (relativeX >=? 0) && (relativeX <=? width) &&
       (relativeY >=? 0) && (relativeY <=? height)
    then
      let radius := (sin (time * 3) * 20 + 50) * 0.5 in
      invoke c (Call "createRadialGradient"
                     [relativeX; relativeY; 0; relativeX; relativeY; radius]) ;;
      invoke c (Call "beginPath" []) ;;
      invoke c (Call "arc" [relativeX; relativeY; radius; 0; PI * 2]) ;;
      invoke c (Call "fillStyle" []) ;;
      invoke c (Call "fill" [])
    else ret tt
  end.

(** "Add cosmic dust particles": [n] iterations of the loop. *)
Fixpoint addDust (c : option Context) (width height : R) (n : nat)
  : JS Callback unit :=
  match n with
  | O => ret tt
  | S n' =>
    rx <- mathRandom ;;
    ry <- mathRandom ;;
    rsize <- mathRandom ;;
    invoke c (Call "beginPath" []) ;;
    invoke c (Call "arc" [rx * width; ry * height; rsize * 2 + 0.5; 0; PI * 2]) ;;
    ra <- mathRandom ;;
    invoke c (Call "fillStyle" [255; 255; 255; ra * 0.5 + 0.2]) ;;
    invoke c (Call "fill" []) ;;
    addDust c width height n'
  end.

(** What one frame draws.  The colour stops are set on the gradient
    objects, not on the context. *)
Definition drawFrame (c : option Context) (portal : option Rect)
    (mousePosition : Point) (time width height : R) : JS Callback unit :=
  invoke c (Call "clearRect" [0; 0; width; height]) ;;
  invoke c (Call "createLinearGradient" [0; 0; width; height]) ;;
  invoke c (Call "fillStyle" []) ;;
  invoke c (Call "fillRect" [0; 0; width; height]) ;;
  addNoise c width height (Z.to_nat 5000) ;;
  forEach (floatingObject c time width height) (seq 0 20) ;;
  ripple c portal mousePosition time width height ;;
  addDust c width height 50.

(** The closure [animate] of [startSimulation]; [now] is [Date.now()]. *)
Definition animate (cl : Closure) (now : Z) (st : State) : JS Callback State :=
  match canvas st with
  | None => ret st
  | Some cv =>
    let time := IZR now / 1000 in
    let width := canvasWidth cv in
    let height := canvasHeight cv in
    drawFrame (Some (ctx cl)) (portalRef st) (cl_mousePosition cl)
              time width height ;;
    handle <- requestAnimationFrame (Animate cl) ;;
    ret (setAnimationRef handle st)
  end.

Definition startSimulation (now : Z) (st : State) : JS Callback State :=
  match canvas st with
  | None => ret st
  | Some cv =>
    match context2d cv with
    | None => ret st
    | Some c =>
      let st :=
        setCanvas (Some (mkCanvas (context2d cv) (width (portalSize st))
                                  (height (portalSize st) - 30))) st in
      animate (mkClosure c (mousePosition st)) now st
    end
  end.

(** *** The effects *)

(** "Function to position the portal initially" *)
Definition positionEffect (st : State) : State :=
  match portalRef st with
  | None => st
  | Some _ =>
    setPortalPosition
      (mkPoint ((innerWidth st - width (portalSize st)) / 2)
               ((innerHeight st - height (portalSize st)) / 2)) st
  end.

(** "Start the visual simulation when portal is opened" *)
Definition simulationEffect (now : Z) (st : State) : JS Callback State :=
  match negb (isPortalOpen st), canvas st with
  | false, Some _ =>
    st <- startSimulation now st ;;
    ret (setSimulationCleanup true st)
  | _, _ => ret (setSimulationCleanup false st)
  end.

Definition simulationEffectCleanup (st : State) : JS Callback unit :=
  if simulationCleanup st then cancelAnimationFrame (animationRef st)
  else ret tt.

Definition mouseMoveListener : Listener :=
  mkListener "mousemove" "updateMousePosition".

(** The closure [handleMouseMove] made by the [run]-th run of the drag
    effect: every run makes a new function. *)
Definition dragListener (run : nat) : Listener :=
  mkListener "mousemove"
             ("handleMouseMove " ++ NilEmpty.string_of_uint (Nat.to_uint run)).

(** [handleMouseMove], with the [mousePosition] of its render. *)
Definition handleMouseMove (mousePosition : Point) (st : State) : State :=
  let offsetX := width (portalSize st) / 2 in
  let offsetY := height (portalSize st) / 2 in
  setPortalPosition
    (mkPoint (x mousePosition - offsetX) (y mousePosition - offsetY)) st.

(** "Update portal position when dragging" *)
Definition dragEffect (st : State) : JS Callback State :=
  if isDragging st then
    let st := handleMouseMove (mousePosition st) st in
    let l := dragListener (dragRuns st) in
    addEventListener l ;;
    ret (setDragCleanup (Some l) (S (dragRuns st)) st)
  else ret (setDragCleanup None (dragRuns st) st).

Definition dragEffectCleanup (st : State) : JS Callback unit :=
  match dragCleanup st with
  | Some l => removeEventListener l
  | None => ret tt
  end.

(** *** The life of the component *)

(** Mounting: the effects in source order.  The last effect stores
    [togglePortal] of this first render in [portalController.toggle]. *)
Definition mount (now : Z) (st : State) : JS Callback State :=
  addEventListener mouseMoveListener ;;
  st <- simulationEffect now (positionEffect st) ;;
  dragEffect st.

Inductive Event : Type :=
| Frame (now : Z)              (* the browser runs the pending frame callbacks *)
| MouseMove (position : Point) (* a 'mousemove' event on [window] *)
| Toggle (now : Z)             (* portalController.toggle() *)
| StartDrag                    (* onMouseDown *)
| StopDrag.                    (* onMouseUp, onMouseLeave *)

Fixpoint runFrames (now : Z) (pending : list (nat * Callback)) (st : State)
  : JS Callback State :=
  match pending with
  | [] => ret st
  | (handle, Animate cl) :: rest =>
    takeFrame handle ;;
    st <- animate cl now st ;;
    runFrames now rest st
  end.

Definition handle (e : Event) (st : State) : JS Callback State :=
  match e with
  | Frame now => fun w => runFrames now (frames w) st w
  | MouseMove position =>
    (* the listeners run: [updateMousePosition], and [handleMouseMove] if it
       is registered; then the drag effect, which depends on
       [mousePosition], runs again *)
    let st := match dragCleanup st with
              | Some _ => handleMouseMove (mousePosition st) st
              | None => st
              end in
    let st := setMousePosition position st in
    dragEffectCleanup st ;;
    dragEffect st
  | Toggle now =>
    (* the stored [togglePortal] saw [isPortalOpen = false]: it calls
       [setIsPortalOpen(true)] *)
    let isPortalOpen' := negb false in
    if Bool.eqb isPortalOpen' (isPortalOpen st) then ret st
    else
      simulationEffectCleanup st ;;
      simulationEffect now (setIsPortalOpen isPortalOpen' st)
  | StartDrag =>
    if isDragging st then ret st
    else dragEffectCleanup st ;; dragEffect (setIsDragging true st)
  | StopDrag =>
    if isDragging st
    then dragEffectCleanup st ;; dragEffect (setIsDragging false st)
    else ret st
  end.

Fixpoint handleAll (evs : list Event) (st : State) : JS Callback State :=
  match evs with
  | [] => ret st
  | e :: rest => st <- handle e st ;; handleAll rest st
  end.

(** Unmounting: the cleanups of the effects. *)
Definition unmount (st : State) : JS Callback unit :=
  removeEventListener mouseMoveListener ;;
  simulationEffectCleanup st ;;
  dragEffectCleanup st.

(** Mount, live through [evs], unmount. *)
Definition lifecycle (now : Z) (evs : list Event) (st : State)
  : JS Callback unit :=
  st <- mount now st ;;
  st <- handleAll evs st ;;
  unmount st.

(** The context the portal can draw on, if any. *)
Definition contextOf (st : State) : option Context :=
  match canvas st with
  | Some cv => context2d cv
  | None => None
  end.

(** *** What holds between two events while the component is mounted *)

(** The listener of [useMousePosition] is registered, and after it the
    [handleMouseMove] closure that the drag cleanup will remove, if any. *)
Definition listening (st : State) (w : World Callback) : Prop :=
  listeners w = mouseMoveListener ::
                match dragCleanup st with Some l => [l] | None => [] end /\
  (forall l, dragCleanup st = Some l -> exists run, l = dragListener run).

(** At most one frame request is pending: the one whose handle is in
    [animationRef], which the simulation cleanup will cancel.  Without a 2D
    context none is. *)
Definition looping (st : State) (w : World Callback) : Prop :=
  (frames w = [] \/
   (simulationCleanup st = true /\
    exists cl, frames w = [(animationRef st, Animate cl)])) /\
  (contextOf st = None -> frames w = []).

Definition mounted (st : State) (w : World Callback) : Prop :=
  listening st w /\ looping st w.

(** *** Sample values *)

(** A canvas on which no 2D context can be acquired. *)
Definition blindCanvas : Canvas := mkCanvas None 300 150.

Definition sampleEvents : list Event :=
  [Toggle 10; Frame 26; StartDrag; MouseMove (mkPoint 10 20); StopDrag;
   Frame 42].

End DigitalPortal.


(** ** ParticlesCanvas: the ranges of a new particle *)

Module ParticleRanges.
Import Browser ParticlesCanvas.

(** What "Initialize particles" promises of a particle on a canvas of the
    given dimensions. *)
Definition inRange (dimensions : Dimensions) (p : Particle) : Prop :=
  0 <= x p <= width dimensions /\ 0 <= y p <= height dimensions /\
  1 <= size p < 4 /\ -0.25 <= speedX p < 0.25 /\ -0.25 <= speedY p < 0.25 /\
  0.1 <= opacity p < 0.6 /\ (hue p = 0 \/ hue p = 350 \/ hue p = 220).

End ParticleRanges.

(** ** InteractiveLogoAnimation: its two frame loops *)

(** The effect "Smooth scroll interpolation", which depends on
    [scrollProgress] only. *)
Module ScrollInterpolation.
Import Browser.
Local Open Scope js_scope.

(** What the closure [smoothScrollInterpolation] captured from the render in
    which its effect ran. *)
Record Closure : Type := mkClosure {
  cl_scrollProgress : R;
  cl_interpolatedScroll : R
}.

Inductive Callback : Type := SmoothScrollInterpolation (cl : Closure).

Record State : Type := mkState {
  scrollProgress : R;          (* the prop *)
  interpolatedScroll : R;      (* the state *)
  animationFrameId : nat       (* the [let] of the current run of the effect *)
}.

Definition initialState (scrollProgress : R) : State :=
  mkState scrollProgress 0 0.

(** [setInterpolatedScroll(prev => prev + scrollDelta * smoothFactor)] reads
    the state at the time of the update; [scrollDelta] is computed from the
    captured values. *)
Definition smoothScrollInterpolation (cl : Closure) (st : State)
  : JS Callback State :=
  let scrollDelta := cl_scrollProgress cl - cl_interpolatedScroll cl in
  let smoothFactor := 0.12 in
  if Rabs scrollDelta >? 0.0001 then
    let interpolated := interpolatedScroll st + scrollDelta * smoothFactor in
    handle <- requestAnimationFrame (SmoothScrollInterpolation cl) ;;
    ret (mkState (scrollProgress st) interpolated handle)
  else
    ret (mkState (scrollProgress st) (cl_scrollProgress cl)
                 (animationFrameId st)).

Definition effect (st : State) : JS Callback State :=
  handle <- requestAnimationFrame
              (SmoothScrollInterpolation
                 (mkClosure (scrollProgress st) (interpolatedScroll st))) ;;
  ret (mkState (scrollProgress st) (interpolatedScroll st) handle).

Definition cleanup (st : State) : JS Callback unit :=
  cancelAnimationFrame (animationFrameId st).

Inductive Event : Type :=
| Frame                          (* the browser runs the pending callbacks *)
| SetScrollProgress (s : R).     (* the parent passes a new [scrollProgress] *)

Fixpoint runFrames (pending : list (nat * Callback)) (st : State)
  : JS Callback State :=
  match pending with
  | [] => ret st
  | (handle, SmoothScrollInterpolation cl) :: rest =>
    takeFrame handle ;;
    st <- smoothScrollInterpolation cl st ;;
    runFrames rest st
  end.

Definition handle (e : Event) (st : State) : JS Callback State :=
  match e with
  | Frame => fun w => runFrames (frames w) st w
  | SetScrollProgress s =>
    if Req_dec_T s (scrollProgress st) then ret st
    else
      cleanup st ;;
      effect (mkState s (interpolatedScroll st) (animationFrameId st))
  end.

Fixpoint handleAll (evs : list Event) (st : State) : JS Callback State :=
  match evs with
  | [] => ret st
  | e :: rest => st <- handle e st ;; handleAll rest st
  end.

Definition lifecycle (evs : list Event) (st : State) : JS Callback unit :=
  st <- effect st ;;
  st <- handleAll evs st ;;
  cleanup st.

(** While mounted at most the request of the current run is pending. *)
Definition mounted (st : State) (w : World Callback) : Prop :=
  frames w = [] \/ exists cl, frames w = [(animationFrameId st, SmoothScrollInterpolation cl)].

End ScrollInterpolation.

(** The effect that runs [calculateStages] and starts the frame callback
    [animateEffects]. *)
Module StageEffect.
Import Browser InteractiveLogoAnimation.
Local Open Scope js_scope.

(** The frame callback, with the [animationStage] its closure captured. *)
Inductive Callback : Type := AnimateEffects (animationStage : nat).

Record State : Type := mkState {
  dom : Dom;
  animationFrame : nat     (* the [const] of the current run of the effect *)
}.

(** One run of the frame callback: it asks for the next frame and does not
    keep the handle. *)
Definition animateEffectsFrame (animationStage : nat) (now : Z) (st : State)
  : JS Callback State :=
  let d := animateEffects animationStage now (dom st) in
  _ <- requestAnimationFrame (AnimateEffects animationStage) ;;
  ret (mkState d (animationFrame st)).

(** The effect, for the render whose values are [i]. *)
Definition effect (i : Inputs) (st : State) : JS Callback State :=
  let d := out_dom (calculateStages i (dom st)) in
  animationFrame <- requestAnimationFrame (AnimateEffects (in_animationStage i)) ;;
  ret (mkState d animationFrame).

Definition cleanup (st : State) : JS Callback unit :=
  cancelAnimationFrame (animationFrame st).

Inductive Event : Type :=
| Frame (now : Z)          (* the browser runs the pending callbacks *)
| Render (i : Inputs).     (* a render in which a dependency changed *)

Fixpoint runFrames (now : Z) (pending : list (nat * Callback)) (st : State)
  : JS Callback State :=
  match pending with
  | [] => ret st
  | (handle, AnimateEffects animationStage) :: rest =>
    takeFrame handle ;;
    st <- animateEffectsFrame animationStage now st ;;
    runFrames now rest st
  end.

Definition handle (e : Event) (st : State) : JS Callback State :=
  match e with
  | Frame now => fun w => runFrames now (frames w) st w
  | Render i => cleanup st ;; effect i st
  end.

Fixpoint handleAll (evs : list Event) (st : State) : JS Callback State :=
  match evs with
  | [] => ret st
  | e :: rest => st <- handle e st ;; handleAll rest st
  end.

(** Mount with the first render [i], live through [evs], unmount. *)
Definition lifecycle (i : Inputs) (evs : list Event) (d : Dom)
  : JS Callback unit :=
  st <- effect i (mkState d 0) ;;
  st <- handleAll evs st ;;
  cleanup st.

Definition isFrame (e : Event) : bool :=
  match e with Frame _ => true | Render _ => false end.

(** The handles the pending requests have. *)
Definition handles (w : World Callback) : list nat := map fst (frames w).

(** The requests that no cleanup can cancel any more after [evs]: one for
    every run of the effect that saw a frame before its cleanup.  [fresh]
    says that the request of the current run has not been served yet. *)
Fixpoint orphans (fresh : bool) (evs : list Event) : nat :=
  match evs with
  | [] => 0
  | Frame _ :: rest => (if fresh then 1 else 0) + orphans false rest
  | Render _ :: rest => orphans true rest
  end.

(** What holds between two events, [k] requests being beyond reach: the
    handles of the pending requests are distinct and were all handed out,
    and the request of the current run is pending or was served. *)
Definition mounted (k : nat) (fresh : bool) (st : State)
    (w : World Callback) : Prop :=
  NoDup (handles w) /\
  Forall (fun h => (h < nextHandle w)%nat) (handles w) /\
  (animationFrame st < nextHandle w)%nat /\
  (if fresh
   then In (animationFrame st) (handles w) /\ List.length (frames w) = S k
   else ~ In (animationFrame st) (handles w) /\ List.length (frames w) = k).

(** A frame, a render, a frame. *)
Definition sampleEvents : list Event := [Frame 16; Render fallInputs; Frame 32].

End StageEffect.

(** ** Home: the scroll loop and the mouse trail *)

Module Home.
Import Browser.
Local Open Scope js_scope.

Definition easeOutCubic (x : R) : R := 1 - (1 - x) ^ 3.

Inductive Callback : Type := AnimateScroll.

Record State : Type := mkState {
  scale : R;
  scrollProgress : R;
  requestRef : option nat;         (* requestRef.current; undefined at first *)
  previousScrollY : R;             (* previousScrollY.current *)
  mouseTrailPoints : list Point
}.

Definition initialState : State := mkState 1 0 None 0 [].

(** [animateScroll], with [window.scrollY] as it is in this frame. *)
Definition animateScroll (scrollY : R) (st : State) : JS Callback State :=
  let scrollPosition := scrollY in
  let st :=
    if Rabs (scrollPosition - previousScrollY st) >? 1 then
      let maxScroll := 400 in
      let minScale := 0.15 in
      let scrollRatio := Rmin 1 (scrollPosition / maxScroll) in
      let easedProgress := easeOutCubic scrollRatio in
      let newScale := Rmax minScale (1 - easedProgress * (1 - minScale)) in
      mkState newScale scrollRatio (requestRef st) scrollPosition
              (mouseTrailPoints st)
    else st in
  handle <- requestAnimationFrame AnimateScroll ;;
  ret (mkState (scale st) (scrollProgress st) (Some handle)
               (previousScrollY st) (mouseTrailPoints st)).

Definition effect (st : State) : JS Callback State :=
  handle <- requestAnimationFrame AnimateScroll ;;
  ret (mkState (scale st) (scrollProgress st) (Some handle)
               (previousScrollY st) (mouseTrailPoints st)).

(** [if (requestRef.current) cancelAnimationFrame(requestRef.current)] *)
Definition cleanup (st : State) : JS Callback unit :=
  match requestRef st with
  | Some (S n) => cancelAnimationFrame (S n)
  | _ => ret tt
  end.

(** "Smoother position calculation" *)
Definition yPosition (scale : R) : R :=
  let startPosition := -550 in
  let endPosition := -490 in
  startPosition + (1 - scale) * (startPosition - endPosition).

(** [mousePosition.x === 0 && mousePosition.y === 0] *)
Definition atOrigin (p : Point) : bool :=
  (if Req_dec_T (x p) 0 then true else false) &&
  (if Req_dec_T (y p) 0 then true else false).

(** The updater passed to [setMouseTrailPoints]. *)
Definition addTrailPoint (mousePosition : Point) (prev : list Point)
  : list Point :=
  let newPoints := prev ++ [mousePosition] in
  if (20 <? List.length newPoints)%nat
  then skipn (List.length newPoints - 20) newPoints
  else newPoints.

(** The effect "Update mouse trail", for the [mousePosition] of its render. *)
Definition trailEffect (mousePosition : Point) (st : State) : State :=
  if atOrigin mousePosition then st
  else mkState (scale st) (scrollProgress st) (requestRef st)
               (previousScrollY st)
               (addTrailPoint mousePosition (mouseTrailPoints st)).

Inductive Event : Type :=
| Frame (scrollY : R)            (* a frame; [window.scrollY] is [scrollY] *)
| MouseMove (position : Point).  (* [useMousePosition] yields a new object *)

Fixpoint runFrames (scrollY : R) (pending : list (nat * Callback)) (st : State)
  : JS Callback State :=
  match pending with
  | [] => ret st
  | (handle, AnimateScroll) :: rest =>
    takeFrame handle ;;
    st <- animateScroll scrollY st ;;
    runFrames scrollY rest st
  end.

Definition handle (e : Event) (st : State) : JS Callback State :=
  match e with
  | Frame scrollY => fun w => runFrames scrollY (frames w) st w
  | MouseMove position => ret (trailEffect position st)
  end.

Fixpoint handleAll (evs : list Event) (st : State) : JS Callback State :=
  match evs with
  | [] => ret st
  | e :: rest => st <- handle e st ;; handleAll rest st
  end.

(** Mounting runs the scroll effect and the trail effect (with the initial
    pointer position, the origin). *)
Definition mount (st : State) : JS Callback State :=
  st <- effect st ;;
  ret (trailEffect (mkPoint 0 0) st).

Definition lifecycle (evs : list Event) : JS Callback unit :=
  st <- mount initialState ;;
  st <- handleAll evs st ;;
  cleanup st.

(** The scroll positions of the frames of [evs], and its pointer
    positions. *)
Definition scrollsOf (evs : list Event) : list R :=
  flat_map (fun e => match e with Frame y => [y] | MouseMove _ => [] end) evs.

Definition positionsOf (evs : list Event) : list Point :=
  flat_map (fun e => match e with Frame _ => [] | MouseMove p => [p] end) evs.

(** While mounted exactly one request is pending, the one [requestRef]
    holds; and the state shows the scroll position recorded last. *)
Definition mounted (st : State) (w : World Callback) : Prop :=
  (exists n, requestRef st = Some (S n) /\ frames w = [(S n, AnimateScroll)]) /\
  (0 < nextHandle w)%nat.

Definition tracking (st : State) : Prop :=
  scrollProgress st = Rmin 1 (previousScrollY st / 400) /\
  scale st = Rmax 0.15 (1 - easeOutCubic (scrollProgress st) * (1 - 0.15)) /\
  0 <= previousScrollY st.

Definition sampleEvents : list Event :=
  [Frame 0.5; Frame 120; MouseMove (mkPoint 10 20); Frame 120.5; Frame 900].

End Home.


(** ** Dragging the portal *)

Module PortalDrag.
Import Browser DigitalPortal.

(** What the drag effect reads and writes. *)
Definition dragPart (st : State)
  : Point * Size * bool * Point * option Listener * nat :=
  (portalPosition st, portalSize st, isDragging st, mousePosition st,
   dragCleanup st, dragRuns st).

(** Between two events the drag effect has a cleanup exactly while
    [isDragging] holds, and nothing has resized the portal. *)
Definition dragInvariant (st : State) : Prop :=
  portalSize st = mkSize 300 400 /\
  (if isDragging st then dragCleanup st <> None else dragCleanup st = None).

(** The portal has its centre at [p]. *)
Definition centredOn (p : Point) (st : State) : Prop :=
  portalPosition st = mkPoint (x p - 150) (y p - 200).

End PortalDrag.

(** ** Components that follow the pointer *)

(** What [getBoundingClientRect()] returns. *)
Module Layout.

Record DOMRect : Type := mkDOMRect {
  left : R;
  top : R;
  width : R;
  height : R
}.

(** The pointer is over the element. *)
Definition over (r : DOMRect) (clientX clientY : R) : Prop :=
  left r <= clientX <= left r + width r /\
  top r <= clientY <= top r + height r.

End Layout.

Module MagneticButton.
Import Browser Layout.

Record State : Type := mkState {
  buttonRef : option DOMRect;      (* buttonRef.current *)
  position : Point
}.

Definition initialState (button : option DOMRect) : State :=
  mkState button (mkPoint 0 0).

Definition handleMouseMove (clientX clientY : R) (st : State) : State :=
  match buttonRef st with
  | None => st
  | Some r =>
    let centerX := left r + width r / 2 in
    let centerY := top r + height r / 2 in
    let distanceX := clientX - centerX in
    let distanceY := clientY - centerY in
    mkState (buttonRef st) (mkPoint (distanceX / 5) (distanceY / 5))
  end.

Definition handleMouseLeave (st : State) : State :=
  mkState (buttonRef st) (mkPoint 0 0).

End MagneticButton.

Module ServiceCard.
Import Browser Layout.

(** [rotation] is [{x, y}], in degrees. *)
Record State : Type := mkState {
  cardRef : option DOMRect;        (* cardRef.current *)
  rotation : Point;
  isHovered : bool
}.

Definition initialState (card : option DOMRect) : State :=
  mkState card (mkPoint 0 0) false.

Definition handleMouseMove (clientX clientY : R) (st : State) : State :=
  match cardRef st with
  | None => st
  | Some r =>
    let centerX := left r + width r / 2 in
    let centerY := top r + height r / 2 in
    let rotateY := (clientX - centerX) / width r * 20 in
    let rotateX := (centerY - clientY) / height r * 20 in
    mkState (cardRef st) (mkPoint rotateX rotateY) (isHovered st)
  end.

Definition resetRotation (st : State) : State :=
  mkState (cardRef st) (mkPoint 0 0) false.

End ServiceCard.

Module TiltImage.
Import Browser Layout.

Record Tilt : Type := mkTilt { tiltX : R; tiltY : R; tiltScale : R }.

Record State : Type := mkState {
  tiltRef : option DOMRect;        (* tiltRef.current *)
  tilt : Tilt;
  glowPosition : Point
}.

Definition initialState (element : option DOMRect) : State :=
  mkState element (mkTilt 0 0 1) (mkPoint 50 50).

(** The effect that runs when [mousePosition] changes. *)
Definition effect (mousePosition : Point) (st : State) : State :=
  match tiltRef st with
  | None => st
  | Some r =>
    if (x mousePosition >=? left r) &&
       (x mousePosition <=? left r + width r) &&
       (y mousePosition >=? top r) &&
       (y mousePosition <=? top r + height r)
    then
      let centerX := left r + width r / 2 in
      let centerY := top r + height r / 2 in
      let percentX := (x mousePosition - centerX) / (width r / 2) in
      let percentY := (y mousePosition - centerY) / (height r / 2) in
      let tiltX := percentY * 10 in
      let tiltY := percentX * -10 in
      let glowX := (x mousePosition - left r) / width r * 100 in
      let glowY := (y mousePosition - top r) / height r * 100 in
      mkState (tiltRef st) (mkTilt tiltX tiltY 1.05) (mkPoint glowX glowY)
    else
      mkState (tiltRef st) (mkTilt 0 0 1) (glowPosition st)
  end.

End TiltImage.

(** ** GlowingParticlesEffect *)

Module GlowingParticlesEffect.
Import Browser Layout.
Local Open Scope js_scope.

Record Particle : Type := mkParticle {
  x : R;
  y : R;
  size : R;
  life : R;
  color : string
}.

(** The callback given to [setInterval]. *)
Inductive Callback : Type := Tick.

Record State : Type := mkState {
  containerRef : option DOMRect;   (* containerRef.current *)
  particles : list Particle;
  intervalCleanup : option nat     (* the interval the cleanup will clear *)
}.

Definition initialState (container : option DOMRect) : State :=
  mkState container [] None.

(** The timers share the registry of pending callbacks: an interval stays
    there until it is cleared. *)
Definition setInterval (callback : Callback) : JS Callback nat :=
  requestAnimationFrame callback.

Definition clearInterval (id : nat) : JS Callback unit :=
  cancelAnimationFrame id.

(** [mousePosition.x === 0 && mousePosition.y === 0] *)
Definition atOrigin (p : Point) : bool :=
  (if Req_dec_T (Browser.x p) 0 then true else false) &&
  (if Req_dec_T (Browser.y p) 0 then true else false).

(** One element of [newParticles]: four calls of [Math.random()]. *)
Definition newParticle (relativeX relativeY : R) : JS Callback Particle :=
  rx <- mathRandom ;;
  ry <- mathRandom ;;
  rs <- mathRandom ;;
  rc <- mathRandom ;;
  ret (mkParticle (relativeX + (rx - 0.5) * 20)
                  (relativeY + (ry - 0.5) * 20)
                  (rs * 8 + 2)
                  1
                  (if rc >? 0.7 then "#ef4444" else "#ffffff")%string).

(** [Array.from({ length }).map(() => ...)] *)
Fixpoint newParticles (length : nat) (relativeX relativeY : R)
  : JS Callback (list Particle) :=
  match length with
  | O => ret []
  | S length' =>
    p <- newParticle relativeX relativeY ;;
    rest <- newParticles length' relativeX relativeY ;;
    ret (p :: rest)
  end.

(** "Add particles when mouse moves".  The result is [None] when the effect
    returns without calling [setParticles]. *)
Definition spawnEffect (mousePosition : Point) (st : State)
  : JS Callback (option State) :=
  match containerRef st with
  | None => ret None
  | Some r =>
    if atOrigin mousePosition then ret None
    else if (Browser.x mousePosition >=? left r) &&
            (Browser.x mousePosition <=? left r + width r) &&
            (Browser.y mousePosition >=? top r) &&
            (Browser.y mousePosition <=? top r + height r)
    then
      let relativeX := Browser.x mousePosition - left r in
      let relativeY := Browser.y mousePosition - top r in
      random <- mathRandom ;;
      let length := (Z.to_nat (Int_part (random * 3)) + 1)%nat in
      newParticles <- newParticles length relativeX relativeY ;;
      ret (Some (mkState (containerRef st) (particles st ++ newParticles)
                         (intervalCleanup st)))
    else ret None
  end.

(** The update the interval makes:
    [prev.map(p => ({...p, life: p.life - 0.02, size: p.size * 0.97}))
         .filter(p => p.life > 0)] *)
Definition tick (prev : list Particle) : list Particle :=
  filter (fun p => life p >? 0)
         (map (fun p => mkParticle (x p) (y p) (size p * 0.97)
                                   (life p - 0.02) (color p))
              prev).

(** "Update particle life and remove dead particles" *)
Definition intervalEffect (st : State) : JS Callback State :=
  match particles st with
  | [] => ret (mkState (containerRef st) (particles st) None)
  | _ :: _ =>
    interval <- setInterval Tick ;;
    ret (mkState (containerRef st) (particles st) (Some interval))
  end.

Definition intervalEffectCleanup (st : State) : JS Callback unit :=
  match intervalCleanup st with
  | Some interval => clearInterval interval
  | None => ret tt
  end.

(** *** The life of the component *)

Inductive Event : Type :=
| MouseMove (position : Point)   (* [useMousePosition()] has a new value *)
| Fire.                          (* 50 ms passed: the live interval fires *)

(** Mounting: [mousePosition] is [{x: 0, y: 0}] and [particles] is empty,
    so both effects return at once. *)
Definition mount (st : State) : JS Callback State :=
  spawned <- spawnEffect (mkPoint 0 0) st ;;
  intervalEffect match spawned with Some st' => st' | None => st end.

(** After [particles] changed the interval effect runs again. *)
Definition handle (e : Event) (st : State) : JS Callback State :=
  match e with
  | MouseMove position =>
    spawned <- spawnEffect position st ;;
    match spawned with
    | Some st' => intervalEffectCleanup st ;; intervalEffect st'
    | None => ret st
    end
  | Fire =>
    fun w =>
      match frames w with
      | [] => ret st w
      | (_, Tick) :: _ =>
        (let st' := mkState (containerRef st) (tick (particles st))
                            (intervalCleanup st) in
         intervalEffectCleanup st ;; intervalEffect st') w
      end
  end.

Fixpoint handleAll (evs : list Event) (st : State) : JS Callback State :=
  match evs with
  | [] => ret st
  | e :: rest => st <- handle e st ;; handleAll rest st
  end.

Definition unmount (st : State) : JS Callback unit :=
  intervalEffectCleanup st.

Definition lifecycle (evs : list Event) (st : State) : JS Callback unit :=
  st <- mount st ;;
  st <- handleAll evs st ;;
  unmount st.

(** A new particle for a pointer at [(relativeX, relativeY)] of the
    container. *)
Definition fresh (relativeX relativeY : R) (p : Particle) : Prop :=
  relativeX - 10 <= x p < relativeX + 10 /\
  relativeY - 10 <= y p < relativeY + 10 /\
  2 <= size p < 10 /\
  life p = 1 /\
  (color p = "#ef4444"%string \/ color p = "#ffffff"%string).

(** Between two events an interval is running exactly when there are
    particles, and it is the one the cleanup will clear. *)
Definition mounted (st : State) (w : World Callback) : Prop :=
  frames w = match intervalCleanup st with
             | Some interval => [(interval, Tick)]
             | None => []
             end /\
  (intervalCleanup st = None <-> particles st = []).

(** *** Sample values *)

Definition sampleContainer : DOMRect := mkDOMRect 0 0 800 600.

Definition sampleEvents : list Event :=
  [MouseMove (mkPoint 100 100); Fire; MouseMove (mkPoint 120 90); Fire].

End GlowingParticlesEffect.

(** ** ParallaxText *)

Module ParallaxText.
Import Browser.
Local Open Scope js_scope.

(** The frame callback [rotate] of the [run]-th run of the effect, with the
    [baseVelocity] its closure captured. *)
Inductive Callback : Type := Rotate (run : nat) (baseVelocity : R).

Record State : Type := mkState {
  baseX : R;                 (* baseX.get() *)
  directionFactor : R;       (* directionFactor.current *)
  baseVelocity : R;          (* the prop *)
  prevT : nat -> R;          (* the variable [prevT] of each run of the effect *)
  runs : nat                 (* how many times the effect has run *)
}.

Definition initialState (baseVelocity : R) : State :=
  mkState 0 1 baseVelocity (fun _ => 0) 0.

Definition setPrevT (run : nat) (t : R) (st : State) : State :=
  mkState (baseX st) (directionFactor st) (baseVelocity st)
          (fun r => if Nat.eqb r run then t else prevT st r) (runs st).

Definition setBaseX (v : R) (st : State) : State :=
  mkState v (directionFactor st) (baseVelocity st) (prevT st) (runs st).

(** [rotate(t)]; [velocityFactor] is what [velocityFactor.get()] returns in
    this frame. *)
Definition rotate (run : nat) (baseVelocity : R) (t velocityFactor : R)
    (st : State) : JS Callback State :=
  if Req_dec_T (prevT st run) 0 then
    let st := setPrevT run t st in
    requestAnimationFrame (Rotate run baseVelocity) ;;
    ret st
  else
    let timeDelta := t - prevT st run in
    let moveBy := directionFactor st * baseVelocity * (timeDelta / 1000) in
    let moveBy := moveBy + directionFactor st * moveBy * velocityFactor in
    let st := setBaseX (baseX st + moveBy) st in
    let st := if baseX st <? -10000 then setBaseX 0 st else st in
    let st := if baseX st >? 10000 then setBaseX 0 st else st in
    let st := setPrevT run t st in
    requestAnimationFrame (Rotate run baseVelocity) ;;
    ret st.

(** The effect: [let prevT = 0], then the first request.  It returns no
    cleanup. *)
Definition effect (st : State) : JS Callback State :=
  let run := runs st in
  let st := setPrevT run 0 st in
  requestAnimationFrame (Rotate run (baseVelocity st)) ;;
  ret (mkState (baseX st) (directionFactor st) (baseVelocity st) (prevT st)
               (S run)).

Inductive Event : Type :=
| Frame (t velocityFactor : R)   (* the browser runs the pending callbacks *)
| Render (baseVelocity : R).     (* a render with this value of the prop *)

Fixpoint runFrames (t velocityFactor : R) (pending : list (nat * Callback))
    (st : State) : JS Callback State :=
  match pending with
  | [] => ret st
  | (handle, Rotate run baseVelocity) :: rest =>
    takeFrame handle ;;
    st <- rotate run baseVelocity t velocityFactor st ;;
    runFrames t velocityFactor rest st
  end.

(** Of the dependencies of the effect only [baseVelocity] can change. *)
Definition handle (e : Event) (st : State) : JS Callback State :=
  match e with
  | Frame t velocityFactor =>
    fun w => runFrames t velocityFactor (frames w) st w
  | Render baseVelocity' =>
    if Req_dec_T baseVelocity' (baseVelocity st) then ret st
    else effect (mkState (baseX st) (directionFactor st) baseVelocity'
                         (prevT st) (runs st))
  end.

Fixpoint handleAll (evs : list Event) (st : State) : JS Callback State :=
  match evs with
  | [] => ret st
  | e :: rest => st <- handle e st ;; handleAll rest st
  end.

(** Unmounting runs the cleanups of the effects: there is none. *)
Definition unmount (st : State) : JS Callback State := ret st.

(** Mount, live through [evs], unmount. *)
Definition lifecycle (baseVelocity : R) (evs : list Event)
  : JS Callback State :=
  st <- effect (initialState baseVelocity) ;;
  st <- handleAll evs st ;;
  unmount st.

(** What holds between two events: the text is within its track, and one
    request is pending for every run of the effect. *)
Definition mounted (st : State) (w : World Callback) : Prop :=
  -10000 <= baseX st <= 10000 /\
  List.length (frames w) = runs st /\
  NoDup (map fst (frames w)) /\
  Forall (fun h => (h < nextHandle w)%nat) (map fst (frames w)).

Definition sampleEvents : list Event :=
  [Frame 16 0; Frame 32 0; Render 50; Frame 48 0.5].

End ParallaxText.

(** ** CustomCursor *)

Module CustomCursor.

(** Where a listener is registered: [document], or one of the elements that
    [querySelectorAll('a, button, [role="button"]')] returned. *)
Inductive Target : Type := Document | Element (index : nat).

Definition Target_eqb (a b : Target) : bool :=
  match a, b with
  | Document, Document => true
  | Element i, Element j => Nat.eqb i j
  | _, _ => false
  end.

(** What a listener of this component does when it is called. *)
Inductive Action : Type :=
| SetIsVisible (visible : bool)
| SetCursorType (cursorType : string).

(** A registered listener.  Two function values are the same listener only
    if they are the same object: [function] numbers the function objects in
    the order of their creation. *)
Record Registration : Type := mkRegistration {
  target : Target;
  eventType : string;
  function : nat;
  action : Action
}.

(** The page: the registered listeners and the number of function objects
    created so far. *)
Record Page : Type := mkPage {
  registry : list Registration;
  functions : nat
}.

Definition emptyPage : Page := mkPage [] 0.

Definition sameListener (t : Target) (type : string) (f : nat)
    (r : Registration) : bool :=
  Target_eqb t (target r) && String.eqb type (eventType r) &&
  Nat.eqb f (function r).

(** [t.addEventListener(type, f)] *)
Definition addEventListener (t : Target) (type : string) (f : nat)
    (a : Action) (p : Page) : Page :=
  if existsb (sameListener t type f) (registry p) then p
  else mkPage (registry p ++ [mkRegistration t type f a]) (functions p).

(** [t.removeEventListener(type, f)] *)
Definition removeEventListener (t : Target) (type : string) (f : nat)
    (p : Page) : Page :=
  mkPage (filter (fun r => negb (sameListener t type f r)) (registry p))
         (functions p).

(** Evaluating a function expression makes a new function object. *)
Definition newFunction (p : Page) : nat * Page :=
  (functions p, mkPage (registry p) (S (functions p))).

Record State : Type := mkState {
  cursorType : string;
  isVisible : bool;
  handleMouseEnter : nat;     (* the functions the cleanup has captured *)
  handleMouseLeave : nat;
  interactiveElements : nat   (* the length of the NodeList *)
}.

Definition initialState : State := mkState "default" false 0 0 0.

(** The body of the first [forEach], for the element [el]. *)
Definition listen (el : nat) (p : Page) : Page :=
  let (enter, p) := newFunction p in
  let p := addEventListener (Element el) "mouseenter" enter
                            (SetCursorType "pointer") p in
  let (leave, p) := newFunction p in
  addEventListener (Element el) "mouseleave" leave
                   (SetCursorType "default") p.

(** The body of the [forEach] of the cleanup, for the element [el]: the
    arrow functions are evaluated again. *)
Definition unlisten (el : nat) (p : Page) : Page :=
  let (enter, p) := newFunction p in
  let p := removeEventListener (Element el) "mouseenter" enter p in
  let (leave, p) := newFunction p in
  removeEventListener (Element el) "mouseleave" leave p.

(** The effect, on a page where the selector matches [elements] elements. *)
Definition effect (elements : nat) (st : State) (p : Page) : State * Page :=
  let (handleMouseEnter, p) := newFunction p in
  let (handleMouseLeave, p) := newFunction p in
  let p := addEventListener Document "mouseenter" handleMouseEnter
                            (SetIsVisible true) p in
  let p := addEventListener Document "mouseleave" handleMouseLeave
                            (SetIsVisible false) p in
  let p := fold_left (fun p el => listen el p) (seq 0 elements) p in
  (mkState (cursorType st) (isVisible st) handleMouseEnter handleMouseLeave
           elements, p).

Definition cleanup (st : State) (p : Page) : Page :=
  let p := removeEventListener Document "mouseenter" (handleMouseEnter st) p in
  let p := removeEventListener Document "mouseleave" (handleMouseLeave st) p in
  fold_left (fun p el => unlisten el p) (seq 0 (interactiveElements st)) p.

(** The state setters a listener calls. *)
Definition run (a : Action) (st : State) : State :=
  match a with
  | SetIsVisible visible =>
    mkState (cursorType st) visible (handleMouseEnter st)
            (handleMouseLeave st) (interactiveElements st)
  | SetCursorType cursorType =>
    mkState cursorType (isVisible st) (handleMouseEnter st)
            (handleMouseLeave st) (interactiveElements st)
  end.

(** The event [type] on [t]: the listeners registered for it are called in
    the order of their registration. *)
Definition dispatch (t : Target) (type : string) (p : Page) (st : State)
  : State :=
  fold_left (fun st r => run (action r) st)
            (filter (fun r => Target_eqb t (target r) &&
                              String.eqb type (eventType r))
                    (registry p))
            st.

(** Mounting and unmounting the component [cycles] times. *)
Fixpoint remount (cycles elements : nat) (p : Page) : Page :=
  match cycles with
  | O => p
  | S cycles' =>
    let (st, p) := effect elements initialState p in
    remount cycles' elements (cleanup st p)
  end.

(** The listeners registered on [t]. *)
Definition listenersOn (t : Target) (p : Page) : list Registration :=
  filter (fun r => Target_eqb t (target r)) (registry p).

(** Every function on the page was created before now. *)
Definition known (p : Page) : Prop :=
  Forall (fun r => (function r < functions p)%nat) (registry p).

(** A listener that the first [forEach] registers. *)
Definition hover (r : Registration) : Prop :=
  exists el, target r = Element el /\
    ((eventType r = "mouseenter"%string /\
      action r = SetCursorType "pointer") \/
     (eventType r = "mouseleave"%string /\
      action r = SetCursorType "default")).

End CustomCursor.

(** ** VRModeButton *)

Module VRModeButton.
Import Browser.
Local Open Scope js_scope.

(** How the document element can be put in fullscreen. *)
Inductive Fullscreen : Type :=
| RequestFullscreen
| WebkitRequestFullscreen
| MsRequestFullscreen
| NoFullscreen
| FullscreenThrows.

(** What the browser offers. *)
Record Platform : Type := mkPlatform {
  orientationSupported : bool;  (* [DeviceOrientationEvent] is a function *)
  hasRequestPermission : bool;  (* so is [DeviceOrientationEvent.requestPermission] *)
  fullscreen : Fullscreen
}.

(** How the promise of [requestPermission()] settles. *)
Inductive Outcome : Type :=
| Resolves (permission : string)
| Rejects.

Record State : Type := mkState {
  isVRMode : bool;
  isVRSupported : bool;
  deviceOrientationPermissionState : option string
}.

Definition initialState : State := mkState false false None.

Definition setIsVRMode (b : bool) (st : State) : State :=
  mkState b (isVRSupported st) (deviceOrientationPermissionState st).

Definition setDeviceOrientationPermissionState (s : string) (st : State)
  : State :=
  mkState (isVRMode st) (isVRSupported st) (Some s).

(** "Check if device supports orientation events" *)
Definition supportEffect (p : Platform) (st : State) : State :=
  let isOrientationSupported := orientationSupported p in
  let st := mkState (isVRMode st) isOrientationSupported
                    (deviceOrientationPermissionState st) in
  if isOrientationSupported && hasRequestPermission p then
    setDeviceOrientationPermissionState "need-permission" st
  else if isOrientationSupported then
    setDeviceOrientationPermissionState "granted" st
  else
    setDeviceOrientationPermissionState "not-supported" st.

(** Entering fullscreen, inside its [try]. *)
Definition enterFullscreen (p : Platform) : JS AudioReactiveGrid.Callback unit :=
  match fullscreen p with
  | FullscreenThrows => consoleError "Could not enter fullscreen mode:"
  | _ => ret tt
  end.

(** [requestOrientationPermission], from the point where the promise has
    settled. *)
Definition requestOrientationPermission (p : Platform) (outcome : Outcome)
    (st : State) : JS AudioReactiveGrid.Callback State :=
  if hasRequestPermission p then
    match outcome with
    | Resolves permission =>
      let st := setDeviceOrientationPermissionState permission st in
      ret (if String.eqb permission "granted" then setIsVRMode true st else st)
    | Rejects =>
      consoleError "Error requesting device orientation permission:" ;;
      ret (setDeviceOrientationPermissionState "denied" st)
    end
  else ret (setIsVRMode true st).

(** [window.dispatchEvent(new CustomEvent('vr-mode-toggle', ...))]: the
    listener of the grid runs, if it is registered. *)
Definition dispatchVRModeToggle (detail : bool)
    (grid : AudioReactiveGrid.State)
  : JS AudioReactiveGrid.Callback AudioReactiveGrid.State :=
  fun w =>
    if existsb (Listener_eqb AudioReactiveGrid.vrToggleListener) (listeners w)
    then AudioReactiveGrid.handle (AudioReactiveGrid.VRModeToggle detail)
                                  grid w
    else ret grid w.

Definition needsPermission (st : State) : bool :=
  match deviceOrientationPermissionState st with
  | Some s => String.eqb s "need-permission"
  | None => false
  end.

(** [toggleVRMode], called by a click on the button, which is rendered only
    if [isVRSupported]; the state of the grid is passed along.  The
    permission request settles after the rest of the function has run. *)
Definition toggleVRMode (p : Platform) (outcome : Outcome)
    (st : State) (grid : AudioReactiveGrid.State)
  : JS AudioReactiveGrid.Callback (State * AudioReactiveGrid.State) :=
  if negb (isVRSupported st) then ret (st, grid)
  else
    let asks := negb (isVRMode st) && needsPermission st in
    let st' := if negb (isVRMode st)
               then if needsPermission st then st else setIsVRMode true st
               else setIsVRMode false st in
    grid <- dispatchVRModeToggle (negb (isVRMode st)) grid ;;
    (if negb (isVRMode st) then enterFullscreen p else ret tt) ;;
    st' <- (if asks then requestOrientationPermission p outcome st'
            else ret st') ;;
    ret (st', grid).

(** The click asks for a permission that is not given. *)
Definition refused (p : Platform) (outcome : Outcome) (st : State) : bool :=
  negb (isVRMode st) && needsPermission st && hasRequestPermission p &&
  match outcome with
  | Resolves permission => negb (String.eqb permission "granted")
  | Rejects => true
  end.

Definition iOS : Platform := mkPlatform true true NoFullscreen.

End VRModeButton.

(** ** CinematicJourneyMode *)

Module CinematicJourneyMode.
Import Layout.

Record Camera : Type := mkCamera { x : R; y : R; zoom : R }.

Record Scene : Type := mkScene {
  name : string;
  target : option string;        (* a selector, or null *)
  camera : Camera;
  narrative : string;
  duration : R
}.

Definition journeyScenes : list Scene :=
  [mkScene "intro" None (mkCamera 0 0 1)
     "Begin your journey through the creative universe of BIRTEDI..." 4000;
   mkScene "logo" (Some "div[class*='fixed top-0 w-full']"%string)
     (mkCamera 0 (-100) 1.5)
     "Every masterpiece begins with a vision. BIRTEDI crafts experiences that move people."
     5000;
   mkScene "services" (Some "#services"%string) (mkCamera 0 0 1.2)
     "Discover how we transform ideas into compelling brand stories..." 5000;
   mkScene "artistry"
     (Some "div.overflow-hidden h2.text-7xl, div.overflow-hidden h2.md\:text-9xl"%string)
     (mkCamera (-50) 0 1.8)
     "Where artistry meets strategy, magic happens. This is our philosophy."
     4000;
   mkScene "method" (Some "#method"%string) (mkCamera 30 20 1.3)
     "Our methodology combines precision with creativity, expertise with innovation."
     5000;
   mkScene "contact" (Some "#contact"%string) (mkCamera 0 0 1.1)
     "Ready to transform your brand's story? Join us on a journey of discovery."
     4000].

Record Dimensions : Type := mkDimensions { width : R; height : R }.

(** The state of the component.  A render closes over these values: the
    functions a render creates are named by the state of that render. *)
Record State : Type := mkState {
  isActive : bool;
  currentScene : nat;
  isTransitioning : bool;
  cameraPosition : Camera;
  viewportDimensions : Dimensions;
  isIntroComplete : bool;
  narrativeText : string;
  showNarrative : bool
}.

Definition initialState : State :=
  mkState false 0 false (mkCamera 0 0 1) (mkDimensions 0 0) false "" false.

(** The callbacks given to [setTimeout]; [cl] is the render whose
    [transitionToScene] the callback calls. *)
Inductive Timer : Type :=
| IntroWelcome
| IntroZoom
| IntroReady
| IntroHide
| Begin (cl : State)
| TransitionEnd (cl : State) (index : nat)
| HideNarrative
| Advance (cl : State) (index : nat).

(** What the component reads and writes outside itself. *)
Record Page : Type := mkPage {
  bodyOverflow : string;                    (* document.body.style.overflow *)
  scrollY : R;
  innerWidth : R;
  innerHeight : R;
  querySelector : string -> option DOMRect  (* the first match, and its box *)
}.

(** The mounted component: its state, the page, the pending timeouts with
    their delays, and for each effect the render of its last run. *)
Record Machine : Type := mkMachine {
  state : State;
  page : Page;
  timers : list (R * Timer);
  resizeListener : bool;          (* [updateDimensions] is registered *)
  keyDownListener : option State; (* [handleKeyDown] of this render is registered *)
  introRender : State;
  beginRender : State;
  keyRender : State
}.

Definition setState (st : State) (m : Machine) : Machine :=
  mkMachine st (page m) (timers m) (resizeListener m) (keyDownListener m)
            (introRender m) (beginRender m) (keyRender m).

Definition setPage (p : Page) (m : Machine) : Machine :=
  mkMachine (state m) p (timers m) (resizeListener m) (keyDownListener m)
            (introRender m) (beginRender m) (keyRender m).

Definition setTimeout (callback : Timer) (delay : R) (m : Machine) : Machine :=
  mkMachine (state m) (page m) (timers m ++ [(delay, callback)])
            (resizeListener m) (keyDownListener m)
            (introRender m) (beginRender m) (keyRender m).

Definition setBodyOverflow (v : string) (m : Machine) : Machine :=
  setPage (mkPage v (scrollY (page m)) (innerWidth (page m))
                  (innerHeight (page m)) (querySelector (page m))) m.

(** [transitionToScene(index)] of the render [cl]. *)
Definition transitionToScene (cl : State) (index : nat) (m : Machine)
  : Machine :=
  if isTransitioning cl || Nat.eqb index (currentScene cl) then m
  else
    match nth_error journeyScenes index with
    | None => m
    | Some scene =>
      let targetElement :=
        match target scene with
        | Some selector => querySelector (page m) selector
        | None => None
        end in
      let newPosition :=
        match targetElement with
        | Some rect =>
          let centerX := Layout.left rect + Layout.width rect / 2
                         - width (viewportDimensions cl) / 2 in
          let centerY := Layout.top rect + Layout.height rect / 2
                         - height (viewportDimensions cl) / 2 in
          mkCamera (- centerX + x (camera scene)) (- centerY + y (camera scene))
                   (zoom (camera scene))
        | None => camera scene
        end in
      let st := state m in
      setTimeout (TransitionEnd cl index) 1500
        (setState (mkState (isActive st) index true newPosition
                           (viewportDimensions st) (isIntroComplete st)
                           (narrative scene) true) m)
    end.

(** [toggleJourneyMode] of the render [cl]. *)
Definition toggleJourneyMode (cl : State) (m : Machine) : Machine :=
  let st := state m in
  if isActive cl then
    setBodyOverflow ""
      (setState (mkState false 0 (isTransitioning st) (mkCamera 0 0 1)
                         (viewportDimensions st) false (narrativeText st)
                         (showNarrative st)) m)
  else
    setPage (mkPage (bodyOverflow (page m)) 0 (innerWidth (page m))
                    (innerHeight (page m)) (querySelector (page m)))
      (setState (mkState true (currentScene st) (isTransitioning st)
                         (cameraPosition st) (viewportDimensions st)
                         (isIntroComplete st) (narrativeText st)
                         (showNarrative st)) m).

(** [handleKeyDown] of the render [cl], for the key [key]. *)
Definition handleKeyDown (cl : State) (key : string) (m : Machine) : Machine :=
  if negb (isActive cl) || isTransitioning cl then m
  else if String.eqb key "Escape" then toggleJourneyMode cl m
  else if String.eqb key "ArrowRight" || String.eqb key " " then
    if (currentScene cl <? List.length journeyScenes - 1)%nat
    then transitionToScene cl (currentScene cl + 1) m
    else m
  else if String.eqb key "ArrowLeft" then
    if (1 <? currentScene cl)%nat
    then transitionToScene cl (currentScene cl - 1) m
    else m
  else m.

(** A timeout fires. *)
Definition fire (t : Timer) (m : Machine) : Machine :=
  let st := state m in
  match t with
  | IntroWelcome =>
    setState (mkState (isActive st) (currentScene st) (isTransitioning st)
                      (cameraPosition st) (viewportDimensions st)
                      (isIntroComplete st) "Welcome to BIRTEDI" true) m
  | IntroZoom =>
    setState (mkState (isActive st) (currentScene st) (isTransitioning st)
                      (mkCamera 0 0 1.2) (viewportDimensions st)
                      (isIntroComplete st)
                      "Prepare to experience creativity like never before"
                      (showNarrative st)) m
  | IntroReady =>
    setState (mkState (isActive st) (currentScene st) (isTransitioning st)
                      (mkCamera 0 0 1) (viewportDimensions st) true
                      "Click the focus points to navigate through our story"
                      (showNarrative st)) m
  | IntroHide | HideNarrative =>
    setState (mkState (isActive st) (currentScene st) (isTransitioning st)
                      (cameraPosition st) (viewportDimensions st)
                      (isIntroComplete st) (narrativeText st) false) m
  | Begin cl => transitionToScene cl 1 m
  | TransitionEnd cl index =>
    match nth_error journeyScenes index with
    | None => m
    | Some scene =>
      let m := setState (mkState (isActive st) (currentScene st) false
                                 (cameraPosition st) (viewportDimensions st)
                                 (isIntroComplete st) (narrativeText st)
                                 (showNarrative st)) m in
      let m := setTimeout HideNarrative (duration scene - 1000) m in
      if (index <? List.length journeyScenes - 1)%nat && isActive cl &&
         isIntroComplete cl
      then setTimeout (Advance cl (index + 1)) (duration scene) m
      else m
    end
  | Advance cl index => transitionToScene cl index m
  end.

(** *** The effects *)

(** "Initialize viewport dimensions" *)
Definition updateDimensions (m : Machine) : Machine :=
  let st := state m in
  setState (mkState (isActive st) (currentScene st) (isTransitioning st)
                    (cameraPosition st)
                    (mkDimensions (innerWidth (page m)) (innerHeight (page m)))
                    (isIntroComplete st) (narrativeText st) (showNarrative st))
           m.

Definition viewportEffect (m : Machine) : Machine :=
  let m := updateDimensions m in
  mkMachine (state m) (page m) (timers m) true (keyDownListener m)
            (introRender m) (beginRender m) (keyRender m).

(** "Handle intro sequence", for the render [cl]. *)
Definition introEffect (cl : State) (m : Machine) : Machine :=
  let m :=
    if isActive cl && negb (isIntroComplete cl) then
      let m := setBodyOverflow "hidden" m in
      let m := setTimeout IntroWelcome 800 m in
      let m := setTimeout IntroZoom 3000 m in
      let m := setTimeout IntroReady 6000 m in
      setTimeout IntroHide 8000 m
    else m in
  mkMachine (state m) (page m) (timers m) (resizeListener m)
            (keyDownListener m) cl (beginRender m) (keyRender m).

(** Its cleanup, made by the render [cl]. *)
Definition introCleanup (cl : State) (m : Machine) : Machine :=
  if negb (isActive cl) then setBodyOverflow "" m else m.

(** "Begin journey when activated", for the render [cl]. *)
Definition beginEffect (cl : State) (m : Machine) : Machine :=
  let m :=
    if isActive cl && isIntroComplete cl && negb (isTransitioning cl) &&
       Nat.eqb (currentScene cl) 0
    then setTimeout (Begin cl) 1000 m
    else m in
  mkMachine (state m) (page m) (timers m) (resizeListener m)
            (keyDownListener m) (introRender m) cl (keyRender m).

(** "Handle keyboard navigation", for the render [cl]; the cleanup removes
    the listener. *)
Definition keyEffect (cl : State) (m : Machine) : Machine :=
  mkMachine (state m) (page m) (timers m) (resizeListener m) (Some cl)
            (introRender m) (beginRender m) cl.

Definition keyCleanup (m : Machine) : Machine :=
  mkMachine (state m) (page m) (timers m) (resizeListener m) None
            (introRender m) (beginRender m) (keyRender m).

Definition introChanged (m : Machine) : bool :=
  negb (Bool.eqb (isActive (state m)) (isActive (introRender m)) &&
        Bool.eqb (isIntroComplete (state m)) (isIntroComplete (introRender m))).

Definition beginChanged (m : Machine) : bool :=
  negb (Bool.eqb (isActive (state m)) (isActive (beginRender m)) &&
        Bool.eqb (isIntroComplete (state m)) (isIntroComplete (beginRender m)) &&
        Bool.eqb (isTransitioning (state m)) (isTransitioning (beginRender m)) &&
        Nat.eqb (currentScene (state m)) (currentScene (beginRender m))).

Definition keyChanged (m : Machine) : bool :=
  negb (Bool.eqb (isActive (state m)) (isActive (keyRender m)) &&
        Nat.eqb (currentScene (state m)) (currentScene (keyRender m)) &&
        Bool.eqb (isTransitioning (state m)) (isTransitioning (keyRender m))).

(** The render after an event: the cleanups of the effects whose
    dependencies changed, then these effects, in the order of the source. *)
Definition render (m : Machine) : Machine :=
  let cl := state m in
  let intro := introChanged m in
  let begin := beginChanged m in
  let key := keyChanged m in
  let m := if intro then introCleanup (introRender m) m else m in
  let m := if key then keyCleanup m else m in
  let m := if intro then introEffect cl m else m in
  let m := if begin then beginEffect cl m else m in
  if key then keyEffect cl m else m.

(** Mounting: the first render and every effect, then the render that
    [updateDimensions] caused. *)
Definition mount (p : Page) : Machine :=
  let m := mkMachine initialState p [] false None initialState initialState
                     initialState in
  let m := viewportEffect m in
  let m := introEffect initialState m in
  let m := beginEffect initialState m in
  let m := keyEffect initialState m in
  render m.

(** Unmounting: the cleanups. *)
Definition unmount (m : Machine) : Machine :=
  let m := mkMachine (state m) (page m) (timers m) false (keyDownListener m)
                     (introRender m) (beginRender m) (keyRender m) in
  keyCleanup (introCleanup (introRender m) m).

(** *** The life of the component *)

Inductive Event : Type :=
| KeyDown (key : string)              (* a 'keydown' on [window] *)
| Resize (innerWidth innerHeight : R) (* the window is resized *)
| Relayout (querySelector : string -> option DOMRect)  (* the page changes *)
| Fire (n : nat)                      (* the [n]-th pending timeout fires *)
| ClickFocusPoint (realIndex : nat)   (* a click on a focus point *)
| ClickClose.                         (* a click on the close button *)

(** The focus point [realIndex] is in the document. *)
Definition focusPointRendered (realIndex : nat) (m : Machine) : bool :=
  isActive (state m) && isIntroComplete (state m) &&
  negb (isTransitioning (state m)) && (0 <? realIndex)%nat &&
  match nth_error journeyScenes realIndex with
  | Some scene =>
    match target scene with
    | Some selector =>
      match querySelector (page m) selector with
      | Some _ => true
      | None => false
      end
    | None => false
    end
  | None => false
  end.

Fixpoint remove {A : Type} (n : nat) (l : list A) : list A :=
  match n, l with
  | _, [] => []
  | O, _ :: rest => rest
  | S n', a :: rest => a :: remove n' rest
  end.

(** What the event does, before the render it causes. *)
Definition dispatch (e : Event) (m : Machine) : Machine :=
  match e with
  | KeyDown key =>
    match keyDownListener m with
    | Some cl => handleKeyDown cl key m
    | None => m
    end
  | Resize w h =>
    let m := setPage (mkPage (bodyOverflow (page m)) (scrollY (page m)) w h
                             (querySelector (page m))) m in
    if resizeListener m then updateDimensions m else m
  | Relayout q =>
    setPage (mkPage (bodyOverflow (page m)) (scrollY (page m))
                    (innerWidth (page m)) (innerHeight (page m)) q) m
  | Fire n =>
    match nth_error (timers m) n with
    | Some (_, t) =>
      fire t (mkMachine (state m) (page m) (remove n (timers m))
                        (resizeListener m) (keyDownListener m)
                        (introRender m) (beginRender m) (keyRender m))
    | None => m
    end
  | ClickFocusPoint realIndex =>
    if focusPointRendered realIndex m
    then transitionToScene (state m) realIndex m
    else m
  | ClickClose =>
    if isActive (state m) then toggleJourneyMode (state m) m else m
  end.

Definition handle (e : Event) (m : Machine) : Machine := render (dispatch e m).

Definition handleAll (evs : list Event) (m : Machine) : Machine :=
  fold_left (fun m e => handle e m) evs m.

(** The journey has not begun: the component renders [null], no timeout is
    pending, and every registered function belongs to such a render. *)
Definition idle (st : State) : Prop :=
  isActive st = false /\ currentScene st = 0%nat /\
  isTransitioning st = false /\ isIntroComplete st = false /\
  cameraPosition st = mkCamera 0 0 1 /\
  narrativeText st = ""%string /\ showNarrative st = false.

Definition dormant (m : Machine) : Prop :=
  idle (state m) /\ timers m = [] /\
  idle (introRender m) /\ idle (beginRender m) /\ idle (keyRender m) /\
  keyDownListener m = Some (keyRender m) /\ resizeListener m = true.

End CinematicJourneyMode.

(** ** MainMenu: opening and closing *)

Module MainMenu.
Import Browser.
Local Open Scope js_scope.

(** The component requests no frames. *)
Definition Callback : Type := Empty_set.

Record State : Type := mkState {
  isOpen : bool;
  clickOutsideCleanup : bool   (* the effect has run: its cleanup is pending *)
}.

Definition initialState : State := mkState false false.

Definition clickOutsideListener : Listener :=
  mkListener "mousedown" "handleClickOutside".

Definition setIsOpen (b : bool) (st : State) : State :=
  mkState b (clickOutsideCleanup st).

(** [toggleMenu] of the current render. *)
Definition toggleMenu (st : State) : State := setIsOpen (negb (isOpen st)) st.

(** [handleClickOutside]; the expanded menu, which carries [menuRef], is
    rendered while [isOpen] holds.  [inside] says that the target of the
    event is in the expanded menu. *)
Definition handleClickOutside (inside : bool) (st : State) : State :=
  let menuRef := isOpen st in
  if menuRef && negb inside then setIsOpen false st else st.

(** "Close menu when clicking outside" *)
Definition effect (st : State) : JS Callback State :=
  (if isOpen st then addEventListener clickOutsideListener else ret tt) ;;
  ret (mkState (isOpen st) true).

Definition cleanup (st : State) : JS Callback unit :=
  if clickOutsideCleanup st then removeEventListener clickOutsideListener
  else ret tt.

(** A render in which [isOpen] has the value [b]: the effect runs again if
    the value changed. *)
Definition render (b : bool) (st : State) : JS Callback State :=
  if Bool.eqb b (isOpen st) then ret st
  else cleanup st ;; effect (setIsOpen b st).

Inductive Event : Type :=
| MouseDown (inside : bool)  (* a 'mousedown' somewhere in the document *)
| ClickButton.               (* a 'click' on the menu button *)

Definition handle (e : Event) (st : State) : JS Callback State :=
  match e with
  | MouseDown inside =>
    fun w =>
      if existsb (Listener_eqb clickOutsideListener) (listeners w)
      then render (isOpen (handleClickOutside inside st)) st w
      else ret st w
  | ClickButton => render (isOpen (toggleMenu st)) st
  end.

Fixpoint handleAll (evs : list Event) (st : State) : JS Callback State :=
  match evs with
  | [] => ret st
  | e :: rest => st <- handle e st ;; handleAll rest st
  end.

Definition mount : JS Callback State := effect initialState.

Definition unmount (st : State) : JS Callback unit := cleanup st.

(** Pressing the menu button with the mouse: the button is not in the
    expanded menu. *)
Definition press : list Event := [MouseDown false; ClickButton].

(** What holds between two events. *)
Definition mounted (st : State) (w : World Callback) : Prop :=
  clickOutsideCleanup st = true /\
  listeners w = if isOpen st then [clickOutsideListener] else [].

End MainMenu.

(** ** Rows of a 4 x 4 matrix *)

Module MatrixRows.

(** The entry in row [i] and column [k] of a matrix stored row by row. *)
Definition entry (m : list R) (i k : nat) : R := nth (i * 4 + k) m 0.

(** The inner product of the first three entries of the rows [i] and [j]. *)
Definition dot3 (m : list R) (i j : nat) : R :=
  entry m i 0 * entry m j 0 + entry m i 1 * entry m j 1 +
  entry m i 2 * entry m j 2.

End MatrixRows.
(** * Properties *)

(** ** Comparisons *)

Lemma Rltb_true (x y : R) : (x <? y) = true <-> x < y.
Proof. unfold Rltb; destruct (Rlt_dec x y); split; intros; try easy. Qed.

Lemma Rltb_false (x y : R) : (x <? y) = false <-> y <= x.
Proof.
  unfold Rltb; destruct (Rlt_dec x y); split; intros; try easy; lra.
Qed.

Lemma Rleb_true (x y : R) : (x <=? y) = true <-> x <= y.
Proof. unfold Rleb; destruct (Rle_dec x y); split; intros; try easy. Qed.

Lemma Rleb_false (x y : R) : (x <=? y) = false <-> y < x.
Proof.
  unfold Rleb; destruct (Rle_dec x y); split; intros; try easy; lra.
Qed.

(** Decide every comparison of reals that occurs in the goal. *)
Ltac rcompare :=
  unfold Rgtb, Rgeb in *;
  repeat match goal with
         | |- context [Rltb ?x ?y] =>
           let E := fresh "E" in
           destruct (Rltb x y) eqn:E;
           [apply Rltb_true in E | apply Rltb_false in E]
         | |- context [Rleb ?x ?y] =>
           let E := fresh "E" in
           destruct (Rleb x y) eqn:E;
           [apply Rleb_true in E | apply Rleb_false in E]
         end.

(** ** The stage classifier and the fall timer *)

Module LogoProofs.
Import InteractiveLogoAnimation.

(** The stage as a function of the scroll position, range by range. *)
Lemma stageFor_cases (s : R) (ce : bool) :
  (s < 0.15 /\ stageFor s ce = Initial) \/
  (0.15 <= s < 0.25 /\ stageFor s ce = Absorb) \/
  (0.25 <= s < 0.35 /\ stageFor s ce = Release) \/
  (0.35 <= s < 0.45 /\ stageFor s ce = Float) \/
  (0.45 <= s /\ (ce = false \/ s < 0.55) /\ stageFor s ce = Fall) \/
  (0.55 <= s < 0.65 /\ ce = true /\ stageFor s ce = Expand) \/
  (0.65 <= s /\ ce = true /\ stageFor s ce = Final).
Proof.
  unfold stageFor; simpl hi.
  destruct (s <? 0.15) eqn:E1;
    [apply Rltb_true in E1; tauto | apply Rltb_false in E1].
  destruct (s <? 0.25) eqn:E2;
    [apply Rltb_true in E2; tauto | apply Rltb_false in E2].
  destruct (s <? 0.35) eqn:E3;
    [apply Rltb_true in E3; tauto | apply Rltb_false in E3].
  destruct (s <? 0.45) eqn:E4;
    [apply Rltb_true in E4; tauto | apply Rltb_false in E4].
  destruct (s <? 0.55) eqn:E5;
    [apply Rltb_true in E5 | apply Rltb_false in E5].
  - rewrite orb_true_r. tauto.
  - rewrite orb_false_r. destruct ce; simpl.
    + destruct (s <? 0.65) eqn:E6;
        [apply Rltb_true in E6 | apply Rltb_false in E6]; tauto.
    + tauto.
Qed.

(** The classifier is monotone in the scroll position and in the expand
    permission. *)
Lemma stageFor_mono (s s' : R) (ce ce' : bool) :
  s <= s' -> (ce = true -> ce' = true) ->
  (stageFor s ce <= stageFor s' ce')%nat.
Proof.
  intros Hs Hce.
  destruct (stageFor_cases s ce) as [H|[H|[H|[H|[H|[H|H]]]]]];
  destruct (stageFor_cases s' ce') as [H'|[H'|[H'|[H'|[H'|[H'|H']]]]]];
  decompose [and or] H; decompose [and or] H'; clear H H';
  repeat match goal with E : stageFor _ _ = _ |- _ => rewrite E; clear E end;
  unfold Initial, Absorb, Release, Float, Fall, Expand, Final;
  try lia; try lra;
  match goal with
  | E : ?c = true, F : ?c' = false |- _ =>
    specialize (Hce E); congruence
  end.
Qed.

(** Expand and Final are handed out only with the expand permission. *)
Lemma stageFor_gated (s : R) (ce : bool) :
  (Expand <= stageFor s ce)%nat -> ce = true.
Proof.
  destruct (stageFor_cases s ce) as [H|[H|[H|[H|[H|[H|H]]]]]];
  decompose [and or] H; clear H;
  repeat match goal with E : stageFor _ _ = _ |- _ => rewrite E; clear E end;
  unfold Initial, Absorb, Release, Float, Fall, Expand, Final; intros; try lia;
  auto.
Qed.

(** *** The fall timer under forward scrolling *)

Lemma timer_inv_initial (d : Dom) (T : Z) : timer_inv T (initialState d).
Proof.
  repeat split; simpl; try discriminate; constructor.
Qed.

Lemma timer_inv_later (T T' : Z) (st : State) :
  (T <= T')%Z -> timer_inv T st -> timer_inv T' st.
Proof.
  intros HT (Ha & Hb & Hc). repeat split; auto.
  intros Hce. destruct (Hc Hce) as (t0 & E & L). exists t0. split; auto; lia.
Qed.

Lemma applyWrites_app (a b : list Write) (st : State) :
  applyWrites (a ++ b) st = applyWrites b (applyWrites a st).
Proof. unfold applyWrites. apply fold_left_app. Qed.

(** [checkFallDuration] run for the running timer keeps the invariant and
    never withdraws the permission. *)
Lemma checkFallDuration_inv (now t0 : Z) (st : State) :
  timer_inv now st -> fallStartTime st = Some t0 ->
  let st' := applyWrites (checkFallDuration t0 now) st in
  timer_inv now st' /\ fallStartTime st' = Some t0 /\
  interpolatedScroll st' = interpolatedScroll st /\
  (canExpand st = true -> canExpand st' = true).
Proof.
  intros (Ha & Hb & Hc) E. unfold checkFallDuration, minFallDuration.
  destruct (1000 <=? now - t0)%Z eqn:L; simpl.
  - apply Z.leb_le in L. repeat split; simpl; auto.
    intros _. exists t0. split; auto; lia.
  - repeat split; simpl; auto.
    apply Forall_app. split; auto.
Qed.

Lemma timeouts_fire_inv (now : Z) (l : list Timeout) :
  forall st t0,
    timer_inv now st -> fallStartTime st = Some t0 ->
    Forall (fun t => startedAt t = t0) l ->
    let st' :=
      applyWrites (flat_map (fun t => checkFallDuration (startedAt t) now) l) st in
    timer_inv now st' /\ fallStartTime st' = Some t0 /\
    interpolatedScroll st' = interpolatedScroll st /\
    (canExpand st = true -> canExpand st' = true).
Proof.
  induction l as [|t l IH]; intros st t0 Hinv E Hl; simpl.
  - auto.
  - inversion Hl as [|? ? Ht Hl']; subst.
    rewrite applyWrites_app.
    destruct (checkFallDuration_inv now (startedAt t) st Hinv E)
      as (Hinv1 & E1 & S1 & C1).
    destruct (IH _ _ Hinv1 E1 Hl') as (Hinv2 & E2 & S2 & C2).
    split; [exact Hinv2|]. split; [exact E2|]. split; [congruence|auto].
Qed.

Lemma fireTimeouts_inv (now : Z) (st : State) :
  timer_inv now st ->
  let st' := fireTimeouts now st in
  timer_inv now st' /\ interpolatedScroll st' = interpolatedScroll st /\
  (canExpand st = true -> canExpand st' = true).
Proof.
  intros (Ha & Hb & Hc). unfold fireTimeouts.
  set (st1 := mkState _ _ _ _ _ (filter _ (timeouts st)) _ _).
  assert (Hinv1 : timer_inv now st1).
  { repeat split; simpl; auto.
    apply Forall_forall. intros t Ht. apply filter_In in Ht.
    rewrite Forall_forall in Hb. apply Hb. tauto. }
  destruct (fallStartTime st) as [t0|] eqn:E.
  - destruct (timeouts_fire_inv now
                (filter (fun t => (due t <=? now)%Z) (timeouts st)) st1 t0)
      as (H1 & _ & H3 & H4); auto.
    apply Forall_forall. intros t Ht. apply filter_In in Ht.
    rewrite Forall_forall in Hb. destruct Ht as [Ht _].
    specialize (Hb t Ht). congruence.
  - destruct (timeouts st) as [|t l].
    + simpl. auto.
    + inversion Hb; discriminate.
Qed.

(** One commit keeps the invariant; the stage it hands out is the
    classifier's for the state before the commit, and it is gated. *)
Lemma commit_inv (env : Env) (T now : Z) (st : State) :
  timer_inv T st -> (T <= now)%Z ->
  let (st', em) := commit env now st in
  timer_inv now st' /\ interpolatedScroll st' = interpolatedScroll st /\
  (canExpand st = true -> canExpand st' = true) /\
  em_stage em = stageFor (interpolatedScroll st) (canExpand st) /\
  em_at em = now /\ gated em.
Proof.
  intros Hinv HT. apply (timer_inv_later T now) in Hinv; auto.
  destruct Hinv as (Ha & Hb & Hc).
  unfold commit. cbv zeta.
  assert (Hgate : gated (mkEmission now (interpolatedScroll st)
            (setAnimationStage (calculateStages (inputsOf env now st) (dom st)))
            (fallStartTime st))).
  { unfold gated; simpl. intros Hs. apply stageFor_gated in Hs. auto. }
  destruct (fallStartTime st) as [t0|] eqn:E.
  - (* a timer is running: the scroll position is at least 0.35 *)
    assert (Hs : 0.35 <= interpolatedScroll st) by eauto.
    unfold fallTimerEffect. simpl isNull. rewrite andb_false_r.
    replace (interpolatedScroll st <? lo floatToFall) with false
      by (symmetry; apply Rltb_false; simpl; lra).
    simpl app.
    destruct (sameDep (fallStartDep st) (Some t0)).
    + simpl. repeat split; simpl; auto.
    + unfold minFallEffect, checkFallDuration, minFallDuration.
      destruct (1000 <=? now - t0)%Z eqn:L; simpl.
      * apply Z.leb_le in L. repeat split; simpl; auto.
        intros _. exists t0. split; auto; lia.
      * repeat split; simpl; auto. apply Forall_app. split; auto.
  - (* no timer: no timeout is pending and the permission is not granted *)
    assert (Hto : timeouts st = []).
    { destruct (timeouts st); auto. inversion Hb; discriminate. }
    assert (Hce : canExpand st = false).
    { destruct (canExpand st); auto. destruct Hc as (t0 & E0 & _); auto.
      discriminate. }
    unfold fallTimerEffect. simpl isNull. rewrite andb_true_r, andb_false_r.
    unfold minFallEffect.
    replace (if sameDep (fallStartDep st) None then [] else [])
      with (@nil Write) by (destruct (sameDep _ _); reflexivity).
    unfold Rgeb. simpl lo.
    destruct (0.35 <=? interpolatedScroll st) eqn:L;
      [apply Rleb_true in L | apply Rleb_false in L]; simpl;
      rewrite ?Hto, ?Hce; repeat split; simpl; auto; try discriminate;
      try (intros Hs; apply stageFor_gated in Hs; discriminate).
Qed.

Lemma step_inv (env : Env) (e : Event) (T : Z) (st : State) :
  timer_inv T st ->
  Sorted Rle (interpolatedScroll st :: scrollsOf [e]) ->
  Sorted Z.le (T :: timesOf [e]) ->
  let (st', out) := step env e st in
  let T' := match e with ScrollTo _ => T | Commit t => t | Timers t => t end in
  timer_inv T' st' /\
  interpolatedScroll st' =
    match e with ScrollTo s => s | _ => interpolatedScroll st end /\
  interpolatedScroll st <= interpolatedScroll st' /\
  (canExpand st = true -> canExpand st' = true) /\
  Forall (fun em =>
            em_stage em = stageFor (interpolatedScroll st) (canExpand st) /\
            gated em) out /\
  (List.length out <= 1)%nat.
Proof.
  intros Hinv Hs Ht. destruct e as [s|now|now]; simpl in Hs, Ht; unfold step.
  - apply Sorted_inv in Hs. destruct Hs as [_ Hs]. apply HdRel_inv in Hs.
    destruct Hinv as (Ha & Hb & Hc).
    repeat split; simpl; auto.
    intros t0 E. specialize (Ha t0 E). lra.
  - apply Sorted_inv in Ht. destruct Ht as [_ Ht]. apply HdRel_inv in Ht.
    pose proof (commit_inv env T now st Hinv Ht) as H.
    destruct (commit env now st) as [st' em].
    destruct H as (H1 & H2 & H3 & H4 & H5 & H6).
    split; [exact H1|]. split; [exact H2|]. split; [lra|].
    split; [exact H3|]. split; [constructor; auto|simpl; lia].
  - apply Sorted_inv in Ht. destruct Ht as [_ Ht]. apply HdRel_inv in Ht.
    apply (timer_inv_later T now) in Hinv; auto.
    destruct (fireTimeouts_inv now st Hinv) as (H1 & H2 & H3).
    split; [exact H1|]. split; [exact H2|]. split; [lra|].
    split; [exact H3|]. split; [constructor|simpl; lia].
Qed.

Lemma scrollsOf_cons (e : Event) (evs : list Event) :
  scrollsOf (e :: evs) = scrollsOf [e] ++ scrollsOf evs.
Proof. unfold scrollsOf. simpl. rewrite app_nil_r. reflexivity. Qed.

Lemma timesOf_cons (e : Event) (evs : list Event) :
  timesOf (e :: evs) = timesOf [e] ++ timesOf evs.
Proof. unfold timesOf. simpl. rewrite app_nil_r. reflexivity. Qed.

Lemma last_cons_default (l : list Z) (a d : Z) :
  last (a :: l) d = last l a.
Proof.
  revert a d. induction l as [|z l IH]; intros a d.
  - reflexivity.
  - change (last (a :: z :: l) d) with (last (z :: l) d).
    rewrite (IH z d), (IH z a). reflexivity.
Qed.

(** Along a forward scroll every stage handed out is at least the
    classifier's value for the state the run started from, each is gated, and
    the stages come out in non-decreasing order. *)
Lemma run_forward (env : Env) (evs : list Event) :
  forall (st : State) (T : Z),
    timer_inv T st ->
    Sorted Rle (interpolatedScroll st :: scrollsOf evs) ->
    Sorted Z.le (T :: timesOf evs) ->
    Forall (fun em =>
              (stageFor (interpolatedScroll st) (canExpand st) <= em_stage em)%nat
              /\ gated em) (snd (run env evs st)) /\
    Sorted le (map em_stage (snd (run env evs st))) /\
    timer_inv (last (timesOf evs) T) (fst (run env evs st)).
Proof.
  induction evs as [|e rest IH]; intros st T Hinv Hs Ht.
  - simpl. split; [constructor|]. split; [constructor|exact Hinv].
  - rewrite scrollsOf_cons in Hs. rewrite timesOf_cons in Ht.
    assert (Hs1 : Sorted Rle (interpolatedScroll st :: scrollsOf [e])).
    { destruct e; simpl in *; [|repeat constructor..].
      apply Sorted_inv in Hs. destruct Hs as [_ Hs]. apply HdRel_inv in Hs.
      constructor; [constructor; constructor|constructor; exact Hs]. }
    assert (Ht1 : Sorted Z.le (T :: timesOf [e])).
    { destruct e; simpl in *; [repeat constructor|..];
      apply Sorted_inv in Ht; destruct Ht as [_ Ht]; apply HdRel_inv in Ht;
      (constructor; [constructor; constructor|constructor; exact Ht]). }
    pose proof (step_inv env e T st Hinv Hs1 Ht1) as Hstep.
    simpl run. destruct (step env e st) as [st1 out1].
    cbv zeta in Hstep.
    destruct Hstep as (Hinv1 & Hsc & Hle & Hce & Hout & Hlen).
    set (T1 := match e with ScrollTo _ => T | Commit t => t | Timers t => t end)
      in *.
    assert (Hs2 : Sorted Rle (interpolatedScroll st1 :: scrollsOf rest)).
    { rewrite Hsc. destruct e; simpl in Hs; auto.
      apply Sorted_inv in Hs. tauto. }
    assert (Ht2 : Sorted Z.le (T1 :: timesOf rest)).
    { unfold T1. destruct e; simpl in Ht; auto;
      apply Sorted_inv in Ht; tauto. }
    specialize (IH st1 T1 Hinv1 Hs2 Ht2).
    destruct (run env rest st1) as [st2 out2]. simpl snd in *. simpl fst in *.
    destruct IH as (IHall & IHsorted & IHinv).
    assert (Hlast : last (timesOf [e] ++ timesOf rest) T = last (timesOf rest) T1).
    { unfold T1. destruct e; simpl app; auto; apply last_cons_default. }
    pose proof (stageFor_mono _ _ _ _ Hle Hce) as Hmono.
    assert (Hall2 : Forall (fun em =>
              (stageFor (interpolatedScroll st) (canExpand st) <= em_stage em)%nat
              /\ gated em) out2).
    { eapply Forall_impl; [|exact IHall]. simpl. intros em [H1 H2].
      split; auto; lia. }
    split.
    + apply Forall_app. split; auto.
      eapply Forall_impl; [|exact Hout]. simpl. intros em [H1 H2].
      split; auto; lia.
    + rewrite timesOf_cons, Hlast. split; [|exact IHinv].
      destruct out1 as [|em1 [|em1' out1']].
      * exact IHsorted.
      * simpl. constructor; auto.
        inversion Hout as [|? ? [Hem1 _] _]; subst.
        destruct out2 as [|em2 out2']; simpl; constructor.
        inversion IHall as [|? ? [Hem2 _] _]; subst. lia.
      * simpl in Hlen. lia.
Qed.

(** Sortedness of an explicit list of reals or of integers. *)
Ltac sorted_list :=
  repeat first [ apply Sorted_nil | apply Sorted_cons
               | apply HdRel_nil | apply HdRel_cons ];
  first [ lra | lia ].

(** C1.  When the scroll positions fed to the component only increase from
    0 and the clock does not run backwards, the stages handed to
    [setAnimationStage] come out in non-decreasing order
    (Initial < Absorb < Release < Float < Fall < Expand < Final), and a stage
    from Expand on is handed out only by a render whose fall timer was
    started at least 1000 ms before. *)
Theorem C1_forward_scroll_stages_ordered_and_gated
    (env : Env) (d : Dom) (evs : list Event) :
  Sorted Rle (0 :: scrollsOf evs) ->
  Sorted Z.le (timesOf evs) ->
  Sorted le (map em_stage (snd (run env evs (initialState d)))) /\
  Forall (fun em =>
            (Expand <= em_stage em)%nat ->
            exists t0, em_fallStartTime em = Some t0 /\
                       (t0 + 1000 <= em_at em)%Z)
         (snd (run env evs (initialState d))).
Proof.
  intros Hs Ht.
  set (T := match timesOf evs with [] => 0%Z | t :: _ => t end).
  assert (HT : Sorted Z.le (T :: timesOf evs)).
  { unfold T. destruct (timesOf evs) as [|t l].
    - repeat constructor.
    - constructor; auto. constructor. lia. }
  destruct (run_forward env evs (initialState d) T
              (timer_inv_initial d T) Hs HT) as (Hall & Hsorted & _).
  split; auto.
  eapply Forall_impl; [|exact Hall]. simpl. intros em [_ Hg]. exact Hg.
Qed.

Lemma C1_forward_scroll_witness :
  Sorted Rle (0 :: scrollsOf forwardTrace) /\
  Sorted Z.le (timesOf forwardTrace) /\
  Sorted le (map em_stage
    (snd (run env0 forwardTrace (initialState dom0)))) /\
  Forall (fun em =>
            (Expand <= em_stage em)%nat ->
            exists t0, em_fallStartTime em = Some t0 /\
                       (t0 + 1000 <= em_at em)%Z)
         (snd (run env0 forwardTrace (initialState dom0))).
Proof.
  assert (H1 : Sorted Rle (0 :: scrollsOf forwardTrace))
    by (simpl; sorted_list).
  assert (H2 : Sorted Z.le (timesOf forwardTrace))
    by (simpl; sorted_list).
  split; [exact H1|]. split; [exact H2|].
  exact (C1_forward_scroll_stages_ordered_and_gated
           env0 dom0 forwardTrace H1 H2).
Defined.

(** *** Running the component on an explicit trace *)

Lemma setAnimationStage_calculateStages (i : Inputs) (d : Dom) :
  setAnimationStage (calculateStages i d) =
  stageFor (in_interpolatedScroll i) (in_canExpand i).
Proof. reflexivity. Qed.

Lemma setPreviousScrollProgress_calculateStages (i : Inputs) (d : Dom) :
  setPreviousScrollProgress (calculateStages i d) = in_interpolatedScroll i.
Proof. reflexivity. Qed.

Lemma run_cons (env : Env) (e : Event) (rest : list Event)
    (st st1 : State) (out1 : list Emission) :
  step env e st = (st1, out1) ->
  run env (e :: rest) st =
  (fst (run env rest st1), out1 ++ snd (run env rest st1)).
Proof.
  intros E. simpl. rewrite E. destruct (run env rest st1). reflexivity.
Qed.

(** Decide the comparisons between explicit numbers in the goal. *)
Ltac rdecide :=
  unfold Rgtb, Rgeb;
  repeat match goal with
         | |- context [Rltb ?x ?y] =>
           first [ rewrite (proj2 (Rltb_true x y)) by lra
                 | rewrite (proj2 (Rltb_false x y)) by lra ]
         | |- context [Rleb ?x ?y] =>
           first [ rewrite (proj2 (Rleb_true x y)) by lra
                 | rewrite (proj2 (Rleb_false x y)) by lra ]
         | |- context [Z.leb ?x ?y] =>
           first [ rewrite (proj2 (Z.leb_le x y)) by lia
                 | rewrite (proj2 (Z.leb_gt x y)) by lia ]
         | |- context [Z.eqb ?x ?y] =>
           first [ rewrite (proj2 (Z.eqb_eq x y)) by lia
                 | rewrite (proj2 (Z.eqb_neq x y)) by lia ]
         end.

Ltac unfold_step :=
  unfold step, commit, fireTimeouts, fallTimerEffect, checkFallDuration,
         minFallEffect, minFallDuration, inputsOf, applyWrites, stageFor;
  cbn [sameDep isNull applyWrite fold_left app filter flat_map negb andb orb
       interpolatedScroll fallStartTime canExpand animationStage
       previousScrollProgress timeouts fallStartDep dom due startedAt
       in_interpolatedScroll in_canExpand
       lo hi initialToAbsorb absorbToRelease releaseToFloat floatToFall
       fallToExpand expandToFinal].

(** Evaluate one step from an explicit state. *)
Ltac eval_step :=
  rewrite ?setAnimationStage_calculateStages,
          ?setPreviousScrollProgress_calculateStages;
  repeat (progress (unfold_step;
          rewrite ?setAnimationStage_calculateStages,
                  ?setPreviousScrollProgress_calculateStages;
          rdecide));
  reflexivity.

(** Evaluate a run, one event after the other. *)
Ltac run_trace :=
  repeat (erewrite run_cons by eval_step);
  cbn [run snd fst app map em_stage em_at em_fallStartTime em_scroll
       canExpand fallStartTime interpolatedScroll].

Example forwardTrace_stages :
  map em_stage (snd (run env0 forwardTrace (initialState dom0))) =
  [Initial; Absorb; Fall; Fall; Fall; Expand; Final].
Proof. unfold forwardTrace, initialState. run_trace. reflexivity. Qed.

(** *** Scroll position 0.50 *)

Lemma normalizeProgress_half :
  normalizeProgress 0.5 (lo floatToFall) (hi floatToFall) = 1.
Proof.
  unfold normalizeProgress. simpl.
  replace ((0.5 - 0.35) / (0.45 - 0.35)) with 1.5 by lra.
  rewrite (Rmax_right 0 1.5) by lra. apply Rmin_left. lra.
Qed.

Lemma displayFallProgress_half (ce : bool) :
  displayFallProgress
    (normalizeProgress 0.5 (lo floatToFall) (hi floatToFall)) ce =
  if ce then 1 else 0.95.
Proof.
  rewrite normalizeProgress_half. unfold displayFallProgress.
  destruct ce; simpl; auto. rdecide. reflexivity.
Qed.

Lemma stageFor_half (ce : bool) : stageFor 0.5 ce = Fall.
Proof.
  unfold stageFor; simpl hi. rdecide. rewrite orb_true_r. reflexivity.
Qed.

Lemma stageFor_Expand_iff (s : R) (ce : bool) :
  stageFor s ce = Expand <-> ce = true /\ 0.55 <= s < 0.65.
Proof.
  destruct (stageFor_cases s ce) as [H|[H|[H|[H|[H|[H|H]]]]]];
  decompose [and or] H; clear H;
  repeat match goal with E : stageFor _ _ = _ |- _ => rewrite E; clear E end;
  unfold Initial, Absorb, Release, Float, Fall, Expand, Final;
  (split; [discriminate || tauto | intros [? ?]; try congruence; try lra]);
  auto.
Qed.

Lemma sorted_app_l (l1 l2 : list Z) :
  Sorted Z.le (l1 ++ l2) -> Sorted Z.le l1.
Proof.
  induction l1 as [|a l1 IH]; intros H.
  - constructor.
  - simpl in H. apply Sorted_inv in H. destruct H as [H1 H2].
    constructor; auto.
    destruct l1; simpl in *; constructor. apply HdRel_inv in H2. exact H2.
Qed.

Lemma sorted_snoc_last (l : list Z) :
  forall d now : Z,
    Sorted Z.le (l ++ [now]) -> (d <= now)%Z -> (last l d <= now)%Z.
Proof.
  induction l as [|a l IH]; intros d now Hs Hd.
  - exact Hd.
  - rewrite last_cons_default. simpl in Hs.
    apply Sorted_StronglySorted in Hs;
      [|intros x y z; apply Z.le_trans].
    inversion Hs as [|? ? Hs' Hall]; subst.
    apply IH.
    + apply StronglySorted_Sorted. exact Hs'.
    + rewrite Forall_forall in Hall. apply Hall.
      apply in_or_app. right. left. reflexivity.
Qed.

(** C2, as the code has it: at scroll position 0.50 the stage is
    Fall both before and after the fall timer is one second old; Expand
    needs a scroll position in [0.55, 0.65) together with the permission.
    On a run that has only scrolled forward, the fall progress that is
    displayed is capped at 0.95 as long as no fall timer is running or the
    running one is less than 1000 ms old, and it is 1 once the permission is
    granted. *)
Theorem C2_half_scroll_is_fall_with_capped_progress
    (env : Env) (d : Dom) (evs : list Event) (now : Z) :
  Sorted Rle (0 :: scrollsOf evs) ->
  Sorted Z.le (timesOf evs ++ [now]) ->
  interpolatedScroll (fst (run env evs (initialState d))) = 0.5 ->
  let st := fst (run env evs (initialState d)) in
  let fallProgress :=
    normalizeProgress (interpolatedScroll st) (lo floatToFall) (hi floatToFall) in
  em_stage (snd (commit env now st)) = Fall /\
  (fallStartTime st = None ->
   displayFallProgress fallProgress (canExpand st) = 0.95) /\
  (forall t0, fallStartTime st = Some t0 -> (now - t0 < 1000)%Z ->
              displayFallProgress fallProgress (canExpand st) = 0.95) /\
  (canExpand st = true ->
   displayFallProgress fallProgress (canExpand st) = 1) /\
  (forall s ce, stageFor s ce = Expand <-> ce = true /\ 0.55 <= s < 0.65).
Proof.
  intros Hs Ht Hhalf st fallProgress.
  set (T := hd now (timesOf evs)).
  assert (HT : Sorted Z.le (T :: timesOf evs) /\ (T <= now)%Z).
  { unfold T. destruct (timesOf evs) as [|t l]; simpl.
    - split; [repeat constructor | lia].
    - pose proof (sorted_app_l _ _ Ht) as Hl.
      simpl in Ht.
      apply Sorted_StronglySorted in Ht; [|intros x y z; apply Z.le_trans].
      inversion Ht as [|? ? Ht' Hall]; subst. split.
      + constructor; [exact Hl|]. constructor. lia.
      + rewrite Forall_forall in Hall. apply Hall.
        apply in_or_app. right. left. reflexivity. }
  destruct HT as [HT HTnow].
  destruct (run_forward env evs (initialState d) T
              (timer_inv_initial d T) Hs HT) as (_ & _ & Hinv).
  fold st in Hinv.
  apply (timer_inv_later _ now) in Hinv;
    [|apply sorted_snoc_last; assumption].
  destruct Hinv as (Ha & Hb & Hc).
  assert (Hfp : forall ce, displayFallProgress fallProgress ce
                           = if ce then 1 else 0.95).
  { intros ce. unfold fallProgress, st. rewrite Hhalf.
    apply displayFallProgress_half. }
  split; [|split; [|split; [|split]]].
  - unfold commit. simpl. fold st. unfold st at 1. rewrite Hhalf.
    apply stageFor_half.
  - intros Hnone. rewrite Hfp. destruct (canExpand st); auto.
    destruct Hc as (t0 & E & _); auto. congruence.
  - intros t0 E Hlt. rewrite Hfp. destruct (canExpand st); auto.
    destruct Hc as (t1 & E1 & L); auto. rewrite E in E1.
    injection E1 as <-. lia.
  - intros Hce. rewrite Hfp, Hce. reflexivity.
  - apply stageFor_Expand_iff.
Qed.

Lemma C2_half_scroll_witness :
  Sorted Rle (0 :: scrollsOf halfScrollTrace) /\
  Sorted Z.le (timesOf halfScrollTrace ++ [500%Z]) /\
  interpolatedScroll (fst (run env0 halfScrollTrace (initialState dom0))) = 0.5 /\
  em_stage (snd (commit env0 500
     (fst (run env0 halfScrollTrace (initialState dom0))))) = Fall.
Proof.
  assert (H1 : Sorted Rle (0 :: scrollsOf halfScrollTrace))
    by (simpl; sorted_list).
  assert (H2 : Sorted Z.le (timesOf halfScrollTrace ++ [500%Z]))
    by (simpl; sorted_list).
  assert (H3 : interpolatedScroll
                 (fst (run env0 halfScrollTrace (initialState dom0))) = 0.5)
    by (unfold halfScrollTrace, initialState; run_trace; reflexivity).
  split; [exact H1|]. split; [exact H2|]. split; [exact H3|].
  exact (proj1 (C2_half_scroll_is_fall_with_capped_progress
                  env0 dom0 halfScrollTrace 500 H1 H2 H3)).
Defined.

(** At scroll position 0.50 with the fall timer started 1200 ms before and
    the permission granted, the stage handed out is Fall, not Expand. *)
Lemma C2_counterexample_fall_after_gate_opened :
  snd (run env0 gateOpenTrace (initialState dom0)) =
    [mkEmission 0 0.5 Fall None; mkEmission 1 0.5 Fall (Some 0%Z);
     mkEmission 1200 0.5 Fall (Some 0%Z)] /\
  canExpand (fst (run env0 (halfScrollTrace ++ [Timers 1000])
                      (initialState dom0))) = true /\
  Fall <> Expand.
Proof.
  unfold gateOpenTrace, halfScrollTrace, initialState. simpl app. run_trace.
  split; [reflexivity|]. split; [reflexivity|discriminate].
Qed.

(** *** Setting and clearing the fall timer *)

(** The fall timer after a commit, from the timer and the scroll position
    of the render. *)
Lemma fallStartTime_commit (env : Env) (now : Z) (st : State) :
  fallStartTime (fst (commit env now st)) =
  match fallStartTime st with
  | None => if 0.35 <=? interpolatedScroll st then Some now else None
  | Some t0 => if interpolatedScroll st <? 0.35 then None else Some t0
  end.
Proof.
  unfold commit. cbv zeta. cbn [fst].
  rewrite !applyWrites_app.
  set (w2 := if sameDep _ _ then _ else _).
  assert (Hw2 : forall x, fallStartTime (applyWrites w2 x) = fallStartTime x).
  { intros x. unfold w2. destruct (sameDep _ _); auto.
    unfold minFallEffect. destruct (fallStartTime st); auto.
    unfold checkFallDuration. destruct (_ <=? _)%Z; reflexivity. }
  unfold applyWrites at 1. cbn [fold_left applyWrite fallStartTime].
  rewrite Hw2. unfold fallTimerEffect, Rgeb. cbn [lo floatToFall].
  destruct (fallStartTime st) as [t0|] eqn:E; cbn [isNull negb];
    rewrite ?andb_true_r, ?andb_false_r; cbn [app].
  - destruct (interpolatedScroll st <? 0.35); reflexivity.
  - rewrite app_nil_r.
    destruct (0.35 <=? interpolatedScroll st); reflexivity.
Qed.

(** After a commit the fall timer is unset exactly when the scroll position
    of the render is below 0.35. *)
Lemma fallStartTime_after_commit (env : Env) (now : Z) (st : State) :
  fallStartTime (fst (commit env now st)) = None <->
  interpolatedScroll st < 0.35.
Proof.
  rewrite fallStartTime_commit.
  destruct (fallStartTime st) as [t0|]; rcompare;
    split; intros; try discriminate; try lra; auto.
Qed.

(** The stages before Float are the scroll positions below 0.35. *)
Lemma stageFor_before_Float (s : R) (ce : bool) :
  (stageFor s ce <= Release)%nat <-> s < 0.35.
Proof.
  destruct (stageFor_cases s ce) as [H|[H|[H|[H|[H|[H|H]]]]]];
  decompose [and or] H; clear H;
  repeat match goal with E : stageFor _ _ = _ |- _ => rewrite E; clear E end;
  unfold Initial, Absorb, Release, Float, Fall, Expand, Final;
  split; intros; try lia; try lra.
Qed.

(** C4, as the code has it: the fall timer follows the start of
    the float-to-fall range, 0.35, not the start of the Fall stage.  After a
    commit it is unset exactly when the scroll position is below 0.35, that
    is exactly when the stage is Initial, Absorb or Release; it is started, at
    the time of the commit, by the first render at 0.35 or above. *)
Theorem C4_fall_timer_follows_float_to_fall_start
    (env : Env) (now : Z) (st : State) :
  (fallStartTime (fst (commit env now st)) = None <->
   (stageFor (interpolatedScroll st) (canExpand st) <= Release)%nat) /\
  (fallStartTime (fst (commit env now st)) = None <->
   interpolatedScroll st < lo floatToFall) /\
  (fallStartTime st = None /\ lo floatToFall <= interpolatedScroll st <->
   fallStartTime st = None /\
   fallStartTime (fst (commit env now st)) = Some now).
Proof.
  pose proof (fallStartTime_after_commit env now st) as H.
  split; [|split].
  - rewrite stageFor_before_Float. exact H.
  - exact H.
  - simpl lo. split; intros [E L]; split; auto.
    + rewrite fallStartTime_commit, E.
      rewrite (proj2 (Rleb_true _ _) L). reflexivity.
    + destruct (Rle_dec 0.35 (interpolatedScroll st)) as [|N]; auto.
      assert (fallStartTime (fst (commit env now st)) = None)
        by (apply H; lra).
      congruence.
Qed.

(** At scroll position 0.40 the stage handed out is Float, and the fall
    timer is running. *)
Lemma C4_counterexample_timer_running_in_float :
  snd (run env0 floatTrace (initialState dom0)) =
    [mkEmission 0 0.4 Float None; mkEmission 1 0.4 Float (Some 0%Z)] /\
  fallStartTime (fst (run env0 floatTrace (initialState dom0))) = Some 0%Z /\
  (Float < Fall)%nat.
Proof.
  unfold floatTrace, initialState. run_trace.
  split; [reflexivity|]. split; [reflexivity|]. unfold Float, Fall. lia.
Qed.

(** Scrolling back below 0.35 while the timer is less than a second old
    clears the timer and withdraws the permission; the next render at 0.35
    or above starts a new timer. *)
Lemma reset_then_restart (env : Env) (st : State) (t0 now now' : Z) (s' : R) :
  fallStartTime st = Some t0 -> (now - t0 < 1000)%Z ->
  interpolatedScroll st < 0.35 -> 0.35 <= s' ->
  let st1 := fst (commit env now st) in
  fallStartTime st1 = None /\ canExpand st1 = false /\
  fallStartTime (fst (run env [ScrollTo s'; Commit now'] st1)) = Some now'.
Proof.
  intros E Hlt Hs Hs' st1.
  assert (H1 : fallStartTime st1 = None)
    by (apply fallStartTime_after_commit; exact Hs).
  split; [exact H1|]. split.
  - unfold st1, commit. cbv zeta. cbn [fst]. rewrite E.
    unfold fallTimerEffect, Rgeb. cbn [isNull negb lo floatToFall].
    rewrite (proj2 (Rltb_true _ _) Hs), andb_false_r. cbn [andb app].
    destruct (sameDep (fallStartDep st) (Some t0)).
    + reflexivity.
    + unfold minFallEffect, checkFallDuration, minFallDuration.
      rewrite (proj2 (Z.leb_gt _ _)) by lia. reflexivity.
  - pose proof (fallStartTime_commit env now'
      (mkState s' (fallStartTime st1) (canExpand st1) (animationStage st1)
               (previousScrollProgress st1) (timeouts st1) (fallStartDep st1)
               (dom st1))) as H.
    cbn [fallStartTime interpolatedScroll] in H.
    rewrite H1, (proj2 (Rleb_true _ _) Hs') in H.
    erewrite (run_cons env (ScrollTo s')) by reflexivity.
    erewrite (run_cons env (Commit now') [] _ (fst (commit env now' _))
                       [snd (commit env now' _)])
      by (unfold step; destruct (commit env now' _); reflexivity).
    cbn [run fst]. rewrite H1. exact H.
Qed.

(** C3.  The run in which the code departs from the claim: the timer
    started at 0 ms is cleared at 500 ms (scroll back to 0.30), a new one is
    started at 600 ms (scroll to 0.50), but the timeout scheduled for the
    first timer still fires at 1000 ms and grants the permission, so that at
    1001 ms, 401 ms after the re-entry, scroll position 0.60 is handed out
    as Expand. *)
Theorem C3_stale_timeout_grants_expand_early :
  snd (run env0 staleTimeoutTrace (initialState dom0)) =
    [mkEmission 0 0.4 Float None; mkEmission 1 0.4 Float (Some 0%Z);
     mkEmission 500 0.3 Release (Some 0%Z); mkEmission 501 0.3 Release None;
     mkEmission 600 0.5 Fall None; mkEmission 601 0.5 Fall (Some 600%Z);
     mkEmission 1001 0.6 Expand (Some 600%Z)] /\
  (1001 - 600 < minFallDuration)%Z.
Proof.
  unfold staleTimeoutTrace, initialState. run_trace.
  split; [reflexivity|]. unfold minFallDuration. lia.
Qed.

(** *** The colour of the expanding square *)

Lemma normalizeProgress_bounds (current min max : R) :
  0 <= normalizeProgress current min max <= 1.
Proof.
  unfold normalizeProgress. split.
  - apply Rmin_glb; [lra | apply Rmax_l].
  - apply Rmin_l.
Qed.

Lemma easeOutQuint_bounds (x : R) : 0 <= x <= 1 -> 0 <= easeOutQuint x <= 1.
Proof.
  intros [H0 H1]. unfold easeOutQuint.
  assert (0 <= (1 - x) ^ 5) by (apply pow_le; lra).
  assert ((1 - x) ^ 5 <= 1 ^ 5) by (apply pow_incr; lra).
  rewrite pow1 in *. lra.
Qed.

Lemma easeOutQuint_mono (x y : R) :
  0 <= x -> x <= y -> y <= 1 -> easeOutQuint x <= easeOutQuint y.
Proof.
  intros H0 Hxy H1. unfold easeOutQuint.
  assert ((1 - y) ^ 5 <= (1 - x) ^ 5) by (apply pow_incr; lra). lra.
Qed.

(** The background colour that the expansion branch leaves on the square. *)
Lemma expansionWrites_backgroundColor (i : Inputs) (p : R) (d : Dom)
    (sq : SquareStyle) :
  square d = Some sq ->
  exists sq', square (expansionWrites i p d) = Some sq' /\
              backgroundColor sq' =
              rgb (Rmax 0 (255 * (1 - easeOutQuint p))) 0 0.
Proof.
  intros E. destruct d as [sq0 vc v sl]. simpl in E. subst sq0.
  eexists. split; reflexivity.
Qed.

(** C6.  In a render of the Expand or Final stage (stage 5 or 6 with the
    expand permission) the square's background colour is
    [rgb(255 * (1 - e), 0, 0)], [e] being the eased expansion progress, which
    lies in [0, 1]; green and blue are 0; and since the easing is monotone,
    a larger raw progress gives a red channel that is no larger, from 255 at
    progress 0 down to 0 at progress 1. *)
Theorem C6_expand_colour_red_to_black
    (i : Inputs) (d : Dom) (sq : SquareStyle) (p1 p2 : R) :
  square d = Some sq ->
  in_animationStage i = Expand \/ in_animationStage i = Final ->
  in_canExpand i = true ->
  0 <= p1 -> p1 <= p2 -> p2 <= 1 ->
  let e := easeOutQuint (expansionProgressOf i) in
  (exists sq', square (out_dom (calculateStages i d)) = Some sq' /\
               backgroundColor sq' = rgb (255 * (1 - e)) 0 0) /\
  0 <= e <= 1 /\
  255 * (1 - easeOutQuint p2) <= 255 * (1 - easeOutQuint p1) /\
  255 * (1 - easeOutQuint 0) = 255 /\ 255 * (1 - easeOutQuint 1) = 0.
Proof.
  intros E Hstage Hce H0 H12 H1 e.
  assert (He : 0 <= e <= 1).
  { unfold e, expansionProgressOf. apply easeOutQuint_bounds.
    destruct (Nat.eqb _ 5); apply normalizeProgress_bounds. }
  split; [|split; [exact He|split; [|split]]].
  - destruct d as [sq0 vc v sl]. simpl in E. subst sq0.
    clear He. subst e. unfold expansionProgressOf.
    destruct i as [s ce stg prev sc w h now].
    cbn [in_animationStage in_canExpand in_interpolatedScroll] in *.
    subst ce.
    destruct Hstage as [Hs|Hs]; subst stg;
      (eexists; split; [reflexivity|]);
      cbn [backgroundColor setTransform setBackgroundColor Nat.eqb Expand Final];
      f_equal; apply Rmax_right;
      match goal with
      | |- 0 <= 255 * (1 - easeOutQuint ?p) =>
        assert (0 <= easeOutQuint p <= 1)
          by (apply easeOutQuint_bounds; apply normalizeProgress_bounds); lra
      end.
  - pose proof (easeOutQuint_mono p1 p2 H0 H12 H1). lra.
  - unfold easeOutQuint. lra.
  - unfold easeOutQuint. lra.
Qed.

Lemma C6_expand_colour_witness :
  square mountedDom = Some mountedSquare /\
  (in_animationStage expandInputs = Expand \/
   in_animationStage expandInputs = Final) /\
  in_canExpand expandInputs = true /\
  0 <= 0.25 /\ 0.25 <= 0.75 /\ 0.75 <= 1 /\
  255 * (1 - easeOutQuint 0.75) <= 255 * (1 - easeOutQuint 0.25).
Proof.
  assert (H0 : 0 <= 0.25) by lra.
  assert (H12 : 0.25 <= 0.75) by lra.
  assert (H1 : 0.75 <= 1) by lra.
  split; [reflexivity|]. split; [left; reflexivity|]. split; [reflexivity|].
  split; [exact H0|]. split; [exact H12|]. split; [exact H1|].
  exact (proj1 (proj2 (proj2
    (C6_expand_colour_red_to_black expandInputs mountedDom mountedSquare
       0.25 0.75 eq_refl (or_introl eq_refl) eq_refl H0 H12 H1)))).
Defined.

(** *** Repeating the per-frame computations *)

Lemma calculateStages_idempotent (i : Inputs) (d : Dom) :
  out_dom (calculateStages i (out_dom (calculateStages i d))) =
  out_dom (calculateStages i d).
Proof.
  destruct i as [s ce stg prev sc w h now].
  destruct d as [[sq|] [vc|] [v|] [sl|]];
  destruct ce;
  destruct stg as [|[|[|[|[|[|[|n]]]]]]];
  reflexivity.
Qed.

Lemma animateEffects_idempotent_outside_fall (stage : nat) (now : Z) (d : Dom) :
  stage <> Fall ->
  animateEffects stage now (animateEffects stage now d) =
  animateEffects stage now d.
Proof.
  intros Hs. unfold animateEffects.
  destruct (Nat.eqb stage 3) eqn:E3.
  - destruct d as [[sq|] vc v sl]; reflexivity.
  - destruct (Nat.eqb stage 4) eqn:E4; [|reflexivity].
    apply Nat.eqb_eq in E4. contradiction.
Qed.

(** C7, as the code has it: the style writes of
    [calculateStages] are a function of what the render captured, the
    viewport and the clock, and writing them twice is the same as writing
    them once; one run of the frame callback [animateEffects] is repeatable
    in every stage but Fall (in the Fall stage it reads back the rotation it
    finds on the element and adds to it). *)
Theorem C7_style_writes_repeatable_outside_fall_frame
    (i : Inputs) (stage : nat) (now : Z) (d : Dom) :
  stage <> Fall ->
  out_dom (calculateStages i (out_dom (calculateStages i d))) =
  out_dom (calculateStages i d) /\
  animateEffects stage now (animateEffects stage now d) =
  animateEffects stage now d.
Proof.
  intros Hs. split.
  - apply calculateStages_idempotent.
  - apply animateEffects_idempotent_outside_fall. exact Hs.
Qed.

Lemma C7_style_writes_witness :
  Float <> Fall /\
  animateEffects Float 200 (animateEffects Float 200 mountedDom) =
  animateEffects Float 200 mountedDom.
Proof.
  assert (H : Float <> Fall) by discriminate.
  split; [exact H|].
  exact (proj2 (C7_style_writes_repeatable_outside_fall_frame
                  fallInputs Float 200 mountedDom H)).
Defined.

(** The rotation left on the square by the render [fallInputs]. *)
Lemma fallingDom_square :
  exists sq, square fallingDom = Some sq /\
             transform sq = Rotate (1 * (8 * sin (0.95 * PI))).
Proof.
  unfold fallingDom, calculateStages, fallInputs, mountedDom.
  cbn [square in_animationStage in_canExpand in_interpolatedScroll
       Nat.leb Nat.eqb Nat.ltb andb orb out_dom].
  unfold fallWrites.
  cbn [in_canExpand in_interpolatedScroll in_previousScrollProgress].
  rewrite displayFallProgress_half.
  rdecide. eexists. split; reflexivity.
Qed.

(** In the Fall stage two runs of the frame callback at the same instant
    leave two different rotations on the square. *)
Lemma C7_counterexample_fall_frame_accumulates :
  animateEffects Fall 200 (animateEffects Fall 200 fallingDom) <>
  animateEffects Fall 200 fallingDom.
Proof.
  destruct fallingDom_square as (sq & E & Et).
  assert (Hr : 0 < 1 * (8 * sin (0.95 * PI))).
  { pose proof PI_RGT_0.
    assert (0 < sin (0.95 * PI)) by (apply sin_gt_0; lra). lra. }
  set (r := 1 * (8 * sin (0.95 * PI))) in *.
  assert (Hd : 0 < sin (IZR 200 / 200) * 1.5 * 0.1).
  { replace (IZR 200 / 200) with 1 by lra.
    assert (0 < sin 1) by (apply sin_pos_tech; lra). lra. }
  set (delta := sin (IZR 200 / 200) * 1.5 * 0.1) in *.
  assert (Hp : forall x, 0 < x -> x <= parsedRotation x).
  { intros x Hx. unfold parsedRotation.
    destruct (Req_dec_T (frac_part x) 0); lra. }
  destruct (square fallingDom) as [sq0|] eqn:Esq; [|discriminate].
  injection E as ->.
  destruct fallingDom as [sqo vc v sl]. cbn [square] in Esq. subst sqo.
  unfold animateEffects. cbn [Nat.eqb Fall square onSquare option_map].
  rewrite Et. cbn [square onSquare option_map transform setTransform].
  fold delta. intros Heq.
  injection Heq as Heq.
  pose proof (Hp r Hr).
  pose proof (Hp (parsedRotation r + delta) ltac:(lra)). lra.
Qed.

End LogoProofs.

(** ** The particle field *)

Module ParticlesProofs.
Import Browser ParticlesCanvas.

(** The boundary handling on one coordinate. *)
Lemma wrap_bounds (v limit : R) :
  0 <= limit ->
  let v1 := if v <? 0 then limit else v in
  let v2 := if v1 >? limit then 0 else v1 in
  0 <= v2 <= limit.
Proof.
  intros Hl. cbv zeta. rcompare; lra.
Qed.

Lemma moveParticle_bounds (dimensions : Dimensions) (mousePosition : Point)
    (scrollProgress : R) (p : Particle) :
  0 <= width dimensions -> 0 <= height dimensions ->
  0 <= x (moveParticle dimensions mousePosition scrollProgress p)
    <= width dimensions /\
  0 <= y (moveParticle dimensions mousePosition scrollProgress p)
    <= height dimensions.
Proof.
  intros Hw Hh. unfold moveParticle.
  destruct (if _ <? mouseRadius then _ else _) as [px py].
  cbn [x y]. split; apply wrap_bounds; assumption.
Qed.

(** C5, as the code has it: on a canvas of positive width and
    height, the position of a particle after the boundary handling of one
    frame lies in the closed rectangle [0, width] x [0, height]; no
    coordinate is negative and none exceeds the canvas dimension (a particle
    that left through the left or the top edge is put exactly on the
    opposite edge). *)
Theorem C5_particle_position_within_closed_canvas
    (dimensions : Dimensions) (mousePosition : Point) (scrollProgress : R)
    (p : Particle) :
  0 < width dimensions -> 0 < height dimensions ->
  0 <= x (moveParticle dimensions mousePosition scrollProgress p)
    <= width dimensions /\
  0 <= y (moveParticle dimensions mousePosition scrollProgress p)
    <= height dimensions.
Proof.
  intros Hw Hh. apply moveParticle_bounds; lra.
Qed.

Lemma C5_particle_position_witness :
  0 < width sampleDimensions /\ 0 < height sampleDimensions /\
  0 <= x (moveParticle sampleDimensions farMouse 0 edgeParticle)
    <= width sampleDimensions.
Proof.
  assert (Hw : 0 < width sampleDimensions) by (simpl; lra).
  assert (Hh : 0 < height sampleDimensions) by (simpl; lra).
  split; [exact Hw|]. split; [exact Hh|].
  exact (proj1 (C5_particle_position_within_closed_canvas
                  sampleDimensions farMouse 0 edgeParticle Hw Hh)).
Defined.

(** A particle 0.1 px from the left edge that moves 0.2 px to the left, the
    pointer being 500 px away, ends the frame at [x = width]: inside the
    closed rectangle, outside the half-open one. *)
Lemma C5_counterexample_left_exit_lands_on_width :
  x (moveParticle sampleDimensions farMouse 0 edgeParticle)
  = width sampleDimensions /\
  ~ x (moveParticle sampleDimensions farMouse 0 edgeParticle)
    < width sampleDimensions.
Proof.
  assert (E : x (moveParticle sampleDimensions farMouse 0 edgeParticle) = 800).
  { unfold moveParticle, sampleDimensions, farMouse, edgeParticle,
           mouseRadius, mouseStrength.
    cbn [Browser.x Browser.y x y speedX speedY width height].
    replace ((300.1 - 0.1) * (300.1 - 0.1) + (700 - 300) * (700 - 300))
      with (500 * 500) by lra.
    rewrite sqrt_square by lra.
    rewrite (proj2 (Rltb_false 500 100)) by lra.
    unfold Rgtb.
    rewrite (proj2 (Rltb_true (0.1 + -0.2) 0)) by lra.
    rewrite (proj2 (Rltb_false 800 800)) by lra.
    reflexivity. }
  rewrite E. simpl. split; [reflexivity | lra].
Qed.

End ParticlesProofs.

(** ** Reasoning about the browser *)

Module BrowserProofs.
Import Browser.

Section Registry.

Variable C : Type.

Lemma paints_ret {A : Type} (a : A) (P : A -> Prop) : P a -> paints (C := C) (ret a) P.
Proof. intros H w. exists a, w. repeat split; auto. Qed.

Lemma paints_bind {A B : Type} (m : JS C A) (k : A -> JS C B)
    (P : A -> Prop) (Q : B -> Prop) :
  paints m P -> (forall a, P a -> paints (k a) Q) -> paints (bind m k) Q.
Proof.
  intros Hm Hk w. destruct (Hm w) as (a & w1 & E & H1 & H2 & H3 & H4 & Pa).
  destruct (Hk a Pa w1) as (b & w2 & E' & H1' & H2' & H3' & H4' & Qb).
  exists b, w2. unfold bind. rewrite E, E'.
  repeat split; auto; congruence.
Qed.

Lemma paints_weaken {A : Type} (m : JS C A) (P Q : A -> Prop) :
  paints m P -> (forall a, P a -> Q a) -> paints m Q.
Proof.
  intros Hm HPQ w. destruct (Hm w) as (a & w1 & E & H1 & H2 & H3 & H4 & Pa).
  exists a, w1. repeat split; auto.
Qed.

Lemma paints_invoke (c : Context) (call : DrawCall) :
  paints (invoke (C := C) (Some c) call) (fun _ => True).
Proof. intros w. eexists. eexists. repeat split; reflexivity. Qed.

Lemma paints_mathRandom : paints (mathRandom (C := C)) (fun _ => True).
Proof. intros w. eexists. eexists. repeat split; reflexivity. Qed.

Lemma paints_forEach {A : Type} (body : A -> JS C unit) (l : list A) :
  (forall a, paints (body a) (fun _ => True)) ->
  paints (forEach body l) (fun _ => True).
Proof.
  intros Hb. induction l as [|a l IH]; simpl.
  - apply paints_ret. exact I.
  - eapply paints_bind; [apply Hb|]. intros _ _. exact IH.
Qed.

End Registry.

End BrowserProofs.

Module ParticlesLifecycle.
Import Browser BrowserProofs ParticlesCanvas.
Local Open Scope js_scope.

Lemma paints_drawParticle (c : Context) (lightness : R) (p : Particle) :
  paints (drawParticle (Some c) lightness p) (fun _ => True).
Proof.
  unfold drawParticle.
  repeat (eapply paints_bind; [apply paints_invoke|intros _ _]).
  apply paints_invoke.
Qed.

Lemma paints_drawLine (c : Context) (lightness : R) (p p2 : Particle) :
  paints (drawLine (Some c) lightness p p2) (fun _ => True).
Proof.
  unfold drawLine. destruct (_ <? 100).
  - repeat (eapply paints_bind; [apply paints_invoke|intros _ _]).
    apply paints_invoke.
  - apply paints_ret. exact I.
Qed.

(** One pass over the particles moves each of them once. *)
Lemma paints_forEachParticle (cl : Closure) (c : Context) (todo : list Particle) :
  ctx cl = Some c ->
  forall done,
    paints (forEachParticle cl done todo)
           (fun ps => ps = done ++
              map (moveParticle (cl_dimensions cl) (cl_mousePosition cl)
                                (cl_scrollProgress cl)) todo).
Proof.
  intros Hc. induction todo as [|p rest IH]; intros done; simpl.
  - apply paints_ret. rewrite app_nil_r. reflexivity.
  - rewrite Hc.
    eapply paints_bind; [apply paints_drawParticle|intros _ _].
    eapply paints_bind;
      [apply paints_forEach; intros; apply paints_drawLine|intros _ _].
    eapply paints_weaken; [apply IH|].
    intros ps ->. rewrite <- app_assoc. reflexivity.
Qed.

(** One run of [animate] with a context: it ends normally, every particle
    has moved once, and exactly one new frame request is pending, whose
    handle is in [animationRef]. *)
Lemma particles_animate_spec (cl : Closure) (c : Context) (st : State) (w : World Callback) :
  ctx cl = Some c ->
  exists st' w',
    animate cl st w = Normal st' w' /\
    frames w' = frames w ++ [(nextHandle w, Animate cl)] /\
    listeners w' = listeners w /\
    animationRef st' = nextHandle w /\
    loopCleanup st' = loopCleanup st /\
    canvas st' = canvas st /\ dimensions st' = dimensions st /\
    mousePosition st' = mousePosition st /\
    scrollProgress st' = scrollProgress st /\
    particles st' =
      map (moveParticle (cl_dimensions cl) (cl_mousePosition cl)
                        (cl_scrollProgress cl)) (particles st).
Proof.
  intros Hc. unfold animate.
  assert (Hp : paints
    (invoke (ctx cl)
       (Call "clearRect" [0; 0; width (cl_dimensions cl);
                          height (cl_dimensions cl)]) ;;
     forEachParticle cl [] (particles st))
    (fun ps => ps = map (moveParticle (cl_dimensions cl) (cl_mousePosition cl)
                                      (cl_scrollProgress cl)) (particles st))).
  { rewrite Hc. eapply paints_bind; [apply paints_invoke|intros _ _].
    eapply paints_weaken; [apply (paints_forEachParticle cl c); exact Hc|].
    intros ps ->. reflexivity. }
  destruct (Hp w) as (ps & w1 & E & H1 & H2 & H3 & H4 & Hps).
  unfold bind in *.
  destruct (invoke (ctx cl) _ w) as [u w0|e w0]; [|discriminate].
  rewrite E. unfold requestAnimationFrame, ret. 
  eexists. eexists. split; [reflexivity|].
  cbn. rewrite H1, H2, H3. repeat split; auto.
Qed.

Lemma animationLoopCleanup_frames (st : State) (w : World Callback) :
  (if loopCleanup st
   then exists cl c, frames w = [(animationRef st, Animate cl)] /\ ctx cl = Some c
   else frames w = []) ->
  exists w', animationLoopCleanup st w = Normal tt w' /\
             frames w' = [] /\ listeners w' = listeners w /\
             drawn w' = drawn w.
Proof.
  intros Hf. unfold animationLoopCleanup.
  destruct (loopCleanup st).
  - destruct Hf as (cl & c & Hf & _).
    eexists. split; [reflexivity|]. cbn. rewrite Hf. cbn.
    rewrite Nat.eqb_refl. auto.
  - exists w. auto.
Qed.

Lemma particles_animationLoopCleanup_spec (st : State) (w : World Callback) :
  mounted st w ->
  exists w', animationLoopCleanup st w = Normal tt w' /\
             frames w' = [] /\ listeners w' = listeners w /\
             drawn w' = drawn w.
Proof. intros [_ Hf]. apply animationLoopCleanup_frames. exact Hf. Qed.

Lemma particles_animationLoopEffect_spec (st : State) (w : World Callback) :
  frames w = [] -> listeners w = [mouseMoveListener; resizeListener] ->
  exists st' w',
    animationLoopEffect st w = Normal st' w' /\ mounted st' w' /\
    canvas st' = canvas st /\ dimensions st' = dimensions st /\
    (contextOf st = None -> w' = w /\ loopCleanup st' = false).
Proof.
  intros Hf Hl. unfold animationLoopEffect, contextOf.
  destruct (canvas st) as [cv|] eqn:Ecv.
  2:{ eexists. eexists. split; [reflexivity|]. repeat split; auto. }
  destruct (falsy _ || falsy _).
  { eexists. eexists. split; [reflexivity|]. repeat split; auto. }
  destruct (context2d cv) as [c|] eqn:Ectx.
  2:{ eexists. eexists. split; [reflexivity|]. repeat split; auto. }
  set (cl := mkClosure (Some c) (dimensions st) (mousePosition st)
                       (scrollProgress st)).
  destruct (particles_animate_spec cl c st w eq_refl)
    as (st' & w' & E & F & L & R & _ & Cv & D & _).
  unfold bind. rewrite E. eexists. eexists. split; [reflexivity|].
  split; [|split; [cbn; congruence | split; [cbn; congruence|discriminate]]].
  split; [cbn; congruence|]. cbn.
  exists cl, c. rewrite F, Hf, R. auto.
Qed.

Lemma initParticlesEffect_spec (st : State) (w : World Callback) :
  exists st' w',
    initParticlesEffect st w = Normal st' w' /\
    frames w' = frames w /\ listeners w' = listeners w /\
    drawn w' = drawn w /\
    canvas st' = canvas st /\ dimensions st' = dimensions st /\
    animationRef st' = animationRef st /\ loopCleanup st' = loopCleanup st.
Proof.
  unfold initParticlesEffect. destruct (falsy _ || falsy _).
  - exists st, w. repeat split; auto.
  - set (n := Z.to_nat _).
    assert (H : forall k (v : World Callback), exists ps v',
               newParticles k (dimensions st) v = Normal ps v' /\
               frames v' = frames v /\ listeners v' = listeners v /\
               drawn v' = drawn v).
    { clear. intros k. induction k as [|k IH]; intros v; simpl.
      - exists [], v. repeat split; auto.
      - unfold newParticle, bind, mathRandom. cbn.
        match goal with
        | |- context [if ?b then _ else _] => destruct b
        end; cbn;
        match goal with
        | |- context [newParticles k ?d ?v0] =>
          destruct (IH v0) as (ps & v' & E & F & L & D); rewrite E
        end; eexists; eexists; (split; [reflexivity|]); cbn in *; auto. }
    destruct (H n w) as (ps & w' & E & F & L & D).
    unfold bind. rewrite E. eexists. eexists. split; [reflexivity|].
    repeat split; auto.
Qed.

Lemma contextOf_handleResize (st : State) :
  contextOf (handleResize st) = contextOf st.
Proof.
  unfold handleResize, contextOf.
  destruct (canvas st) eqn:E; cbn; rewrite ?E; reflexivity.
Qed.

(** The animation-loop effect runs again. *)
Lemma particles_rerunAnimationLoop_spec (st : State) (w : World Callback) :
  mounted st w ->
  exists st' w',
    rerunAnimationLoop st w = Normal st' w' /\ mounted st' w' /\
    canvas st' = canvas st /\
    (contextOf st = None -> loopCleanup st = false ->
     w' = w /\ loopCleanup st' = false).
Proof.
  intros Hm. unfold rerunAnimationLoop.
  destruct (particles_animationLoopCleanup_spec st w Hm) as (w1 & E1 & F1 & L1 & D1).
  destruct Hm as [Hl Hf].
  destruct (particles_animationLoopEffect_spec st w1 F1 (eq_trans L1 Hl))
    as (st' & w' & E & Hm' & Cv & D & Hn).
  unfold bind. rewrite E1, E. exists st', w'.
  split; [reflexivity|]. split; [exact Hm'|]. split; [exact Cv|].
  intros Hc Hlc. destruct (Hn Hc) as [-> Hlc']. split; [|exact Hlc'].
  unfold animationLoopCleanup in E1. rewrite Hlc in E1.
  injection E1 as <-. reflexivity.
Qed.

Lemma particles_handle_spec (e : Event) (st : State) (w : World Callback) :
  mountedBlind st w ->
  exists st' w',
    handle e st w = Normal st' w' /\ mountedBlind st' w' /\
    contextOf st' = contextOf st /\
    (contextOf st = None -> drawn w' = drawn w).
Proof.
  intros [Hm Hb]. destruct e as [|position|s|]; unfold handle.
  - (* Frame *)
    destruct Hm as [Hl Hf]. destruct (loopCleanup st) eqn:Elc.
    + destruct Hf as (cl & c & Hf & Hc). rewrite Hf.
      cbn [runFrames]. unfold bind, takeFrame, cancelAnimationFrame.
      rewrite Hf. cbn [filter fst]. rewrite Nat.eqb_refl. cbn [negb].
      match goal with
      | |- context [animate cl st ?v] =>
        destruct (particles_animate_spec cl c st v Hc)
          as (st' & w' & E & F & L & R & Lc & Cv & _)
      end.
      rewrite E. exists st', w'. split; [reflexivity|].
      cbn in F, L, R.
      split; [split; [split; [congruence|]|]|split].
      * rewrite Lc, Elc. exists cl, c. rewrite F, R. auto.
      * intros Hn. exfalso.
        assert (Hn0 : contextOf st = None)
          by (unfold contextOf in *; rewrite <- Cv; exact Hn).
        specialize (Hb Hn0). discriminate.
      * unfold contextOf. rewrite Cv. reflexivity.
      * intros Hn. specialize (Hb Hn). discriminate.
    + rewrite Hf. exists st, w. split; [reflexivity|].
      repeat split; auto. rewrite Elc. exact Hf.
  - (* MouseMove *)
    set (st0 := mkState _ _ _ _ position _ _).
    assert (Hm0 : mounted st0 w) by exact Hm.
    destruct (particles_rerunAnimationLoop_spec st0 w Hm0)
      as (st' & w' & E & Hm' & Cv & Hn).
    exists st', w'. split; [exact E|].
    assert (Hctx : contextOf st' = contextOf st)
      by (unfold contextOf; rewrite Cv; reflexivity).
    split; [split; [exact Hm'|]|split; [exact Hctx|]].
    + intros Hc. rewrite Hctx in Hc. apply (Hn Hc (Hb Hc)).
    + intros Hc. destruct (Hn Hc (Hb Hc)) as [-> _]. reflexivity.
  - (* Scroll *)
    destruct (Req_dec_T s (scrollProgress st)).
    { exists st, w. split; [reflexivity|]. repeat split; auto; apply Hm. }
    set (st0 := mkState _ _ _ _ _ s _).
    assert (Hm0 : mounted st0 w) by exact Hm.
    destruct (particles_rerunAnimationLoop_spec st0 w Hm0)
      as (st' & w' & E & Hm' & Cv & Hn).
    exists st', w'. split; [exact E|].
    assert (Hctx : contextOf st' = contextOf st)
      by (unfold contextOf; rewrite Cv; reflexivity).
    split; [split; [exact Hm'|]|split; [exact Hctx|]].
    + intros Hc. rewrite Hctx in Hc. apply (Hn Hc (Hb Hc)).
    + intros Hc. destruct (Hn Hc (Hb Hc)) as [-> _]. reflexivity.
  - (* Resize *)
    destruct (canvas st) as [cv|] eqn:Ecv.
    2:{ exists st, w. split; [reflexivity|]. repeat split; auto; apply Hm. }
    destruct (particles_animationLoopCleanup_spec st w Hm) as (w1 & E1 & F1 & L1 & D1).
    destruct (initParticlesEffect_spec (handleResize st) w1)
      as (st2 & w2 & E2 & F2 & L2 & D2 & Cv2 & _).
    destruct Hm as [Hl Hf].
    destruct (particles_animationLoopEffect_spec st2 w2)
      as (st' & w' & E & Hm' & Cv & _ & Hn);
      [congruence | congruence |].
    unfold bind. rewrite E1, E2, E. exists st', w'. split; [reflexivity|].
    assert (Hctx : contextOf st' = contextOf st).
    { transitivity (contextOf (handleResize st)).
      - unfold contextOf. rewrite Cv, Cv2. reflexivity.
      - apply contextOf_handleResize. }
    assert (Hctx2 : contextOf st2 = contextOf st).
    { transitivity (contextOf (handleResize st)).
      - unfold contextOf. rewrite Cv2. reflexivity.
      - apply contextOf_handleResize. }
    split; [split; [exact Hm'|]|split; [exact Hctx|]].
    + intros Hc. rewrite Hctx in Hc. rewrite <- Hctx2 in Hc. apply (Hn Hc).
    + intros Hc. rewrite <- Hctx2 in Hc. destruct (Hn Hc) as [-> _].
      congruence.
Qed.

Lemma particles_handleAll_spec (evs : list Event) :
  forall (st : State) (w : World Callback),
    mountedBlind st w ->
    exists st' w',
      handleAll evs st w = Normal st' w' /\ mountedBlind st' w' /\
      contextOf st' = contextOf st /\
      (contextOf st = None -> drawn w' = drawn w).
Proof.
  induction evs as [|e rest IH]; intros st w Hm; simpl.
  - exists st, w. repeat split; auto; apply Hm.
  - destruct (particles_handle_spec e st w Hm) as (st1 & w1 & E1 & Hm1 & C1 & D1).
    destruct (IH st1 w1 Hm1) as (st2 & w2 & E2 & Hm2 & C2 & D2).
    unfold bind. rewrite E1, E2. exists st2, w2. split; [reflexivity|].
    split; [exact Hm2|]. split; [congruence|].
    intros Hc. rewrite D2, D1; auto. congruence.
Qed.

Lemma falsy_zero : falsy 0 = true.
Proof.
  unfold falsy.
  destruct (Req_dec_T 0 0) as [|n]; [reflexivity|exfalso; apply n; reflexivity].
Qed.

(** With the initial 0 by 0 [dimensions], the two effects that depend on
    them return at once. *)
Lemma initParticlesEffect_initial (cv : option Canvas) (scroll : R)
    (w : World Callback) :
  initParticlesEffect (initialState cv scroll) w
  = Normal (initialState cv scroll) w.
Proof.
  unfold initParticlesEffect, initialState. cbn [dimensions width height].
  rewrite falsy_zero. reflexivity.
Qed.

Lemma animationLoopEffect_initial (cv : option Canvas) (scroll : R)
    (w : World Callback) :
  animationLoopEffect (initialState cv scroll) w
  = Normal (initialState cv scroll) w.
Proof.
  unfold animationLoopEffect, initialState.
  cbn [dimensions width height canvas]. rewrite falsy_zero.
  destruct cv; reflexivity.
Qed.

Lemma particles_mount_spec (cv : option Canvas) (scroll : R) (random : nat -> R) :
  exists st w,
    mount (initialState cv scroll) (emptyWorld random) = Normal st w /\
    mountedBlind st w /\
    contextOf st = contextOf (initialState cv scroll) /\
    (contextOf st = None -> drawn w = []).
Proof.
  set (w1 := mkWorld Callback 1 [] [mouseMoveListener; resizeListener] [] []
                     random 0).
  assert (Hstep : mount (initialState cv scroll) (emptyWorld random) =
    (st <- initParticlesEffect (initialState cv scroll) ;;
     st <- animationLoopEffect st ;;
     match canvas st with
     | Some _ =>
       st <- initParticlesEffect (handleResize st) ;;
       rerunAnimationLoop st
     | None => ret st
     end)%js w1) by reflexivity.
  rewrite Hstep. unfold bind at 1.
  rewrite initParticlesEffect_initial. unfold bind at 1.
  rewrite animationLoopEffect_initial.
  destruct cv as [cv|]; cbn [canvas initialState].
  - match goal with
    | |- context [initParticlesEffect ?s0] =>
      destruct (initParticlesEffect_spec s0 w1)
        as (st2 & w2 & E2 & F2 & L2 & D2 & Cv2 & _ & _ & Lc2)
    end.
    unfold bind. rewrite E2.
    assert (Hm2 : mounted st2 w2).
    { split; [rewrite L2; reflexivity|]. rewrite Lc2. cbn. rewrite F2.
      reflexivity. }
    destruct (particles_rerunAnimationLoop_spec st2 w2 Hm2)
      as (st' & w' & E & Hm' & Cv & Hn).
    rewrite E. exists st', w'. split; [reflexivity|].
    assert (Hctx2 : contextOf st2 = context2d cv).
    { unfold contextOf. rewrite Cv2. reflexivity. }
    assert (Hctx : contextOf st' = context2d cv).
    { unfold contextOf. rewrite Cv, Cv2. reflexivity. }
    split; [split; [exact Hm'|]|split; [exact Hctx|]].
    + intros Hc. rewrite Hctx in Hc. apply Hn; [congruence|exact Lc2].
    + intros Hc. rewrite Hctx in Hc.
      destruct Hn as [-> _]; [congruence|exact Lc2|]. rewrite D2.
      reflexivity.
  - eexists. eexists. split; [reflexivity|].
    repeat split; auto.
Qed.

(** Mounting, any sequence of frames, pointer moves, scroll changes and
    resizes, then unmounting: nothing is thrown, no frame request and no
    listener is left, and nothing was drawn if no 2D context could be
    acquired. *)
Lemma particles_lifecycle_spec (cv : option Canvas) (scroll : R) (random : nat -> R)
    (evs : list Event) :
  exists w,
    lifecycle evs (initialState cv scroll) (emptyWorld random) = Normal tt w /\
    frames w = [] /\ listeners w = [] /\
    (contextOf (initialState cv scroll) = None -> drawn w = []).
Proof.
  unfold lifecycle.
  destruct (particles_mount_spec cv scroll random) as (st1 & w1 & E1 & Hm1 & C1 & D1).
  destruct (particles_handleAll_spec evs st1 w1 Hm1) as (st2 & w2 & E2 & Hm2 & C2 & D2).
  destruct Hm2 as [[Hl Hf] Hb2].
  unfold bind. rewrite E1, E2. unfold unmount, bind, removeEventListener.
  rewrite Hl. cbn [listeners filter Listener_eqb mouseMoveListener
                   resizeListener eventType handler String.eqb Ascii.eqb
                   Bool.eqb andb negb].
  match goal with
  | |- context [animationLoopCleanup st2 ?v] =>
    destruct (animationLoopCleanup_frames st2 v Hf)
      as (w3 & E3 & F3 & L3 & D3); rewrite E3
  end.
  exists w3. split; [reflexivity|]. split; [exact F3|]. split; [exact L3|].
  intros Hc. rewrite D3. cbn. rewrite D2, D1; congruence.
Qed.


End ParticlesLifecycle.

(** ** The audio grid *)

Module GridProofs.
Import Browser BrowserProofs AudioReactiveGrid.
Local Open Scope js_scope.

(** *** The simulated audio level *)

Lemma normalizedLevel_bounds (now : Z) (random : R) :
  0 <= normalizedLevel now random <= 1.
Proof.
  unfold normalizedLevel. split.
  - apply Rmax_l.
  - apply Rmax_lub; [lra | apply Rmin_l].
Qed.

Lemma simulateAudio_spec (now : Z) (g : Grid) (w : World Callback) :
  exists g' w',
    simulateAudio now g w = Normal g' w' /\
    g' = setAnimationFrameId (nextHandle w)
           (setAudioData (normalizedLevel now (randomSource w (randomIndex w))) g) /\
    frames w' = frames w ++ [(nextHandle w, SimulateAudio)] /\
    nextHandle w' = S (nextHandle w) /\
    listeners w' = listeners w /\ drawn w' = drawn w /\
    consoleErrors w' = consoleErrors w.
Proof.
  unfold simulateAudio, bind, mathRandom, requestAnimationFrame, ret.
  eexists. eexists. split; [reflexivity|]. repeat split; reflexivity.
Qed.

(** Calls on an acquired context: nothing but the list of calls changes. *)
Lemma invokeAll_spec (c : Context) (calls : list DrawCall) :
  forall w : World Callback,
  exists w',
    forEach (invoke (Some c)) calls w = Normal tt w' /\
    frames w' = frames w /\ nextHandle w' = nextHandle w /\
    listeners w' = listeners w /\ consoleErrors w' = consoleErrors w /\
    drawn w' = drawn w ++ calls.
Proof.
  induction calls as [|call calls IH]; intros w.
  - exists w. rewrite app_nil_r. repeat split; reflexivity.
  - cbn [forEach]. unfold bind, invoke at 1.
    match goal with
    | |- context [forEach _ calls ?v] =>
      destruct (IH v) as (w' & E & F & N & L & Ce & D); rewrite E
    end.
    exists w'. cbn in F, N, L, Ce, D. rewrite D, <- app_assoc.
    repeat split; auto.
Qed.

Lemma frameCalls_level (cl : Closure) (cv : Canvas) (now : Z) :
  0 <= cl_audioLevel cl <= 1 -> Forall levelCall (frameCalls cl cv now).
Proof.
  intros H. unfold frameCalls.
  repeat (apply Forall_cons; [try (intro; discriminate)|]);
    try apply Forall_nil.
  intros _ v [<-|[]]. exact H.
Qed.

(** One run of [animate] with a context. *)
Lemma grid_animate_spec (cl : Closure) (c : Context) (now : Z) (g : Grid)
    (w : World Callback) :
  cl_gl cl = Some c -> 0 <= cl_audioLevel cl <= 1 -> levelsOk w ->
  exists g' w',
    animate cl now g w = Normal g' w' /\
    listeners w' = listeners w /\ consoleErrors w' = consoleErrors w /\
    levelsOk w' /\
    ((g' = g /\ w' = w) \/
     (g' = setAnimationRef (nextHandle w) g /\
      frames w' = frames w ++ [(nextHandle w, Animate cl)] /\
      nextHandle w' = S (nextHandle w))).
Proof.
  intros Hc Hl Hok. unfold animate. rewrite Hc.
  destruct (canvas g) as [cv|].
  - destruct (invokeAll_spec c (frameCalls cl cv now) w)
      as (w1 & E & F & N & L & Ce & D).
    unfold bind. rewrite E. eexists. eexists. split; [reflexivity|].
    cbn. rewrite F, N, L, Ce. repeat split; auto.
    unfold levelsOk. cbn. rewrite D. apply Forall_app. split; [exact Hok|].
    apply frameCalls_level. exact Hl.
  - exists g, w. repeat split; auto.
Qed.

(** *** The animation loop of the grid *)

Lemma cancel_keeps_other (h h' : nat) (c : Callback) :
  h <> h' ->
  filter (fun f : nat * Callback => negb (Nat.eqb (fst f) h')) [(h, c)] = [(h, c)].
Proof.
  intros N. cbn. rewrite (proj2 (Nat.eqb_neq h h') N). reflexivity.
Qed.

Lemma cancel_removes (h : nat) (c : Callback) :
  filter (fun f : nat * Callback => negb (Nat.eqb (fst f) h)) [(h, c)] = [].
Proof. cbn. rewrite Nat.eqb_refl. reflexivity. Qed.

(** The cleanup of the animation loop leaves the [simulateAudio] request
    alone. *)
Lemma grid_animationLoopCleanup_spec (g : Grid) (w : World Callback)
    (rest : list (nat * Callback)) :
  frames w = (animationFrameId g, SimulateAudio) :: rest ->
  loopPart g rest -> animationRef g <> animationFrameId g ->
  exists w',
    animationLoopCleanup g w = Normal tt w' /\
    frames w' = [(animationFrameId g, SimulateAudio)] /\
    nextHandle w' = nextHandle w /\ listeners w' = listeners w /\
    drawn w' = drawn w /\ consoleErrors w' = consoleErrors w.
Proof.
  intros Hf Hp Hne. unfold animationLoopCleanup.
  destruct (loopCleanup g) eqn:Elc.
  - eexists. split; [reflexivity|]. cbn. rewrite Hf.
    split; [|auto].
    change ((animationFrameId g, SimulateAudio) :: rest)
      with ([(animationFrameId g, SimulateAudio)] ++ rest).
    rewrite filter_app, cancel_keeps_other by auto.
    destruct Hp as [->|(_ & cl & c & -> & _)].
    + reflexivity.
    + rewrite cancel_removes. reflexivity.
  - exists w. split; [reflexivity|].
    destruct Hp as [->|(Hc & _)]; [|congruence]. auto.
Qed.

(** The animation-loop effect, run when only the [simulateAudio] request is
    pending. *)
Lemma grid_animationLoopEffect_spec (now : Z) (g : Grid) (w : World Callback) :
  frames w = [(animationFrameId g, SimulateAudio)] ->
  (animationFrameId g < nextHandle w)%nat ->
  (animationRef g < nextHandle w)%nat ->
  animationRef g <> animationFrameId g ->
  0 <= renderedAudioLevel g <= 1 -> levelsOk w ->
  exists g' w',
    animationLoopEffect now g w = Normal g' w' /\
    (exists rest, frames w' = (animationFrameId g', SimulateAudio) :: rest /\
                  loopPart g' rest) /\
    (animationFrameId g' < nextHandle w')%nat /\
    (animationRef g' < nextHandle w')%nat /\
    animationRef g' <> animationFrameId g' /\
    (gl (glContextRef g) = None -> loopCleanup g' = false /\ w' = w) /\
    listeners w' = listeners w /\ consoleErrors w' = consoleErrors w /\
    levelsOk w' /\
    canvas g' = canvas g /\ glContextRef g' = glContextRef g /\
    glCleanup g' = glCleanup g /\ audioDirty g' = audioDirty g /\
    audioLevel g' = audioLevel g /\
    renderedAudioLevel g' = renderedAudioLevel g.
Proof.
  intros Hf Hfid Href Hne Hr Hok. unfold animationLoopEffect.
  destruct (gl (glContextRef g)) as [c|] eqn:Egl.
  2:{ eexists. eexists. split; [reflexivity|]. cbn.
      split; [exists []; split; [exact Hf|left; reflexivity]|].
      repeat split; auto. }
  destruct (program (glContextRef g)).
  2:{ eexists. eexists. split; [reflexivity|]. cbn.
      split; [exists []; split; [exact Hf|left; reflexivity]|].
      repeat split; auto; discriminate. }
  set (cl := mkClosure _ _ _ _ _).
  destruct (grid_animate_spec cl c now g w eq_refl Hr Hok)
    as (g1 & w1 & E & L & Ce & Hok1 & [[-> ->]|(-> & F & N)]);
    unfold bind; rewrite E; eexists; eexists; (split; [reflexivity|]); cbn.
  - split; [exists []; split; [exact Hf|left; reflexivity]|].
    repeat split; auto; discriminate.
  - split.
    + exists [(nextHandle w, Animate cl)]. rewrite F, Hf. split; [reflexivity|].
      right. split; [reflexivity|]. exists cl, c.
      split; [reflexivity|]. split; [reflexivity|exact Hr].
    + rewrite N. repeat split; auto; try lia; discriminate.
Qed.

Lemma grid_rerunAnimationLoop_spec (now : Z) (g : Grid) (w : World Callback) :
  gridMounted g w -> 0 <= renderedAudioLevel g <= 1 -> levelsOk w ->
  exists g' w',
    rerunAnimationLoop now g w = Normal g' w' /\ gridMounted g' w' /\
    (gl (glContextRef g) = None -> drawn w' = drawn w) /\
    listeners w' = listeners w /\ consoleErrors w' = consoleErrors w /\
    levelsOk w' /\
    canvas g' = canvas g /\ glContextRef g' = glContextRef g /\
    audioDirty g' = audioDirty g /\ audioLevel g' = audioLevel g /\
    renderedAudioLevel g' = renderedAudioLevel g.
Proof.
  intros ((rest & Hf & Hp) & Hfid & Href & Hne & Hgl & Hno) Hr Hok.
  destruct (grid_animationLoopCleanup_spec g w rest Hf Hp Hne)
    as (w1 & E1 & F1 & N1 & L1 & D1 & C1).
  assert (Hok1 : levelsOk w1) by (unfold levelsOk; rewrite D1; exact Hok).
  destruct (grid_animationLoopEffect_spec now g w1 F1)
    as (g' & w' & E & Hfr & Hfid' & Href' & Hne' & Hnone & L & Ce & Hok'
        & Cv & Gl & Gc & Ad & Al & Rl);
    try (rewrite N1; assumption); auto.
  unfold rerunAnimationLoop, bind. rewrite E1, E. exists g', w'.
  split; [reflexivity|]. split.
  - split; [exact Hfr|]. repeat split; auto.
    + intros H. rewrite Gl. apply Hgl. congruence.
    + intros H. rewrite Gl in H. apply (Hnone H).
  - repeat split; auto; try congruence.
    intros H. destruct (Hnone H) as [_ ->]. exact D1.
Qed.

(** *** The WebGL setup *)

(** Run a piece of JavaScript on an explicit grid and an explicit world. *)
Ltac js_compute :=
  cbv [bind invoke consoleError ret handleResize createGeometry
       initWebGLCleanup initWebGLEffect negb orb andb
       canvas glContextRef audioLevel renderedAudioLevel audioDirty
       animationFrameId animationRef mousePosition scrollProgress
       devicePixelRatio glCleanup loopCleanup gl program startTime
       nextHandle frames listeners consoleErrors drawn randomSource randomIndex
       setGL contextOf levelsOk
       createsVertexShader createsFragmentShader compilesVertexShader
       compilesFragmentShader createsProgram linksProgram].

(** Calls other than the audio-level uniform, added to the list. *)
Ltac levels_ok Hok :=
  repeat (apply Forall_app; split);
  first [ exact Hok
        | repeat (apply Forall_cons; [intro; discriminate|]);
          apply Forall_nil ].

Ltac finish :=
  repeat (first [split | intro]); auto; try discriminate; try congruence;
  try contradiction.

(** A branch of the setup that logs and returns. *)
Ltac fails_with Hok :=
  js_compute; eexists; eexists; (split; [reflexivity|]);
  (split; [levels_ok Hok|]); solve [finish].

Lemma initWebGLEffect_spec (now : Z) (g : Grid) (w : World Callback) :
  gl (glContextRef g) = None -> glCleanup g = false -> levelsOk w ->
  exists g' w',
    initWebGLEffect now g w = Normal g' w' /\
    levelsOk w' /\
    frames w' = frames w /\ nextHandle w' = nextHandle w /\
    listeners w' = listeners w /\
    animationFrameId g' = animationFrameId g /\
    animationRef g' = animationRef g /\
    loopCleanup g' = loopCleanup g /\ audioDirty g' = audioDirty g /\
    audioLevel g' = audioLevel g /\
    renderedAudioLevel g' = renderedAudioLevel g /\
    contextOf g' = contextOf g /\
    (glCleanup g' = true -> exists c, gl (glContextRef g') = Some c) /\
    (contextOf g = None ->
     g' = g /\ drawn w' = drawn w /\
     (canvas g <> None ->
      consoleErrors w' = consoleErrors w ++ ["WebGL not supported"%string]) /\
     (canvas g = None -> consoleErrors w' = consoleErrors w)).
Proof.
  intros Hgl Hgc Hok.
  destruct w as [nh fr ls ce dr rs ri].
  destruct g as [cvo [glo pr stt] al ral ad fid aref mp sp dpr gc lc].
  cbn in Hgl, Hgc. subst glo gc. unfold levelsOk in Hok. cbn in Hok.
  destruct cvo as [cv|]; [|fails_with Hok].
  destruct (getWebGL cv) as [d|] eqn:Ed;
    [|js_compute; rewrite Ed; fails_with Hok].
  destruct d as [b1 b2 b3 b4 b5 b6].
  destruct b1;
    [|js_compute; rewrite Ed; destruct b2; fails_with Hok].
  destruct b2; [|js_compute; rewrite Ed; fails_with Hok].
  destruct b3; [|js_compute; rewrite Ed; fails_with Hok].
  destruct b4; [|js_compute; rewrite Ed; fails_with Hok].
  destruct b5; [|js_compute; rewrite Ed; fails_with Hok].
  destruct b6; [|js_compute; rewrite Ed; fails_with Hok].
  js_compute. rewrite Ed. js_compute.
  eexists; eexists; (split; [reflexivity|]).
  split; [levels_ok Hok|].
  unfold getWebGL in *. cbn [webgl experimentalWebgl]. rewrite Ed.
  finish. eexists. reflexivity.
Qed.

Lemma initWebGLCleanup_spec (g : Grid) (w : World Callback) :
  (glCleanup g = true -> exists c, gl (glContextRef g) = Some c) ->
  levelsOk w ->
  exists w',
    initWebGLCleanup g w = Normal tt w' /\
    frames w' = frames w /\ nextHandle w' = nextHandle w /\
    listeners w' = listeners w /\ consoleErrors w' = consoleErrors w /\
    levelsOk w' /\ (glCleanup g = false -> w' = w).
Proof.
  intros Hgl Hok.
  destruct w as [nh fr ls ce dr rs ri].
  destruct g as [cvo [glo pr stt] al ral ad fid aref mp sp dpr gc lc].
  cbn in Hgl. unfold levelsOk in Hok. cbn in Hok.
  destruct gc.
  - destruct Hgl as (c & E); [reflexivity|]. subst glo.
    js_compute. eexists. split; [reflexivity|].
    repeat split; auto; try discriminate. levels_ok Hok.
  - eexists. split; [reflexivity|]. repeat split; auto.
Qed.

Lemma handleResize_spec (g : Grid) (w : World Callback) :
  levelsOk w ->
  exists g' w',
    handleResize g w = Normal g' w' /\ levelsOk w' /\
    frames w' = frames w /\ nextHandle w' = nextHandle w /\
    listeners w' = listeners w /\ consoleErrors w' = consoleErrors w /\
    animationFrameId g' = animationFrameId g /\
    animationRef g' = animationRef g /\
    loopCleanup g' = loopCleanup g /\ audioDirty g' = audioDirty g /\
    audioLevel g' = audioLevel g /\
    renderedAudioLevel g' = renderedAudioLevel g /\
    glContextRef g' = glContextRef g /\ glCleanup g' = glCleanup g /\
    contextOf g' = contextOf g /\
    (gl (glContextRef g) = None -> g' = g /\ w' = w).
Proof.
  intros Hok.
  destruct w as [nh fr ls ce dr rs ri].
  destruct g as [cvo [glo pr stt] al ral ad fid aref mp sp dpr gc lc].
  unfold levelsOk in Hok. cbn in Hok.
  destruct cvo as [cv|]; [|eexists; eexists; split; [reflexivity|];
                            repeat split; auto].
  destruct glo as [c|]; [|eexists; eexists; split; [reflexivity|];
                           repeat split; auto].
  js_compute. eexists. eexists. split; [reflexivity|].
  split; [levels_ok Hok|].
  repeat split; auto; discriminate.
Qed.

(** *** The wrapper, whose [canvasRef] is never attached *)

(** The wrapper's effects run again after [isVRMode] changed to [b]. *)
Lemma vrToggle_spec (b : bool) (v : Wrapper) (w : World Callback) :
  wrapperMounted v w ->
  exists v' w',
    (orientationEffectCleanup v ;;
     v1 <- vrEffectCleanup v ;;
     v2 <- orientationEffect
             (mkWrapper b (deviceOrientation v1) (vrCanvas v1)
                        (orientationCleanup v1) (vrCleanup v1)) ;;
     vrEffect v2)%js w = Normal v' w' /\
    wrapperMounted v' w' /\
    frames w' = frames w /\ nextHandle w' = nextHandle w /\
    drawn w' = drawn w /\ consoleErrors w' = consoleErrors w.
Proof.
  intros (Hc & Hv & Hl). destruct v as [vr o cvs oc vc].
  destruct w as [nh fr ls ce dr rs ri]. cbn in Hc, Hv, Hl.
  subst cvs vc ls.
  destruct oc, b; eexists; eexists; (split; [reflexivity|]);
    repeat split; reflexivity.
Qed.

(** A [deviceorientation] event while the listener is registered. *)
Lemma orientation_spec (o : Orientation) (v : Wrapper) (w : World Callback) :
  wrapperMounted v w ->
  exists v',
    (v1 <- vrEffectCleanup v ;;
     vrEffect (mkWrapper (isVRMode v1) o (vrCanvas v1)
                         (orientationCleanup v1) (vrCleanup v1)))%js w
    = Normal v' w /\
    wrapperMounted v' w.
Proof.
  intros (Hc & Hv & Hl). destruct v as [vr o0 cvs oc vc]. cbn in Hc, Hv, Hl.
  subst cvs vc.
  eexists. split; [reflexivity|]. repeat split; auto.
Qed.

(** Were the wrapper's [canvasRef] attached, the head-tracking loop would
    outlive its cleanup: the callback asks for the next frame without keeping
    the handle, and the cleanup cancels the first handle only.  As the ref
    stays [null] ([initialWrapper], [vrToggle_spec]), this loop never starts. *)
Example headTracking_loop_if_attached :
  exists v w,
    (v <- vrEffect attachedWrapper ;;
     takeFrame 1 ;;
     v <- headTrackingFrame 5 5 v ;;
     vrEffectCleanup v)%js (emptyWorld sampleRandom) = Normal v w /\
    frames w = [(2%nat, HeadTracking 5 5)].
Proof. eexists. eexists. split; reflexivity. Qed.

(** *** One animation frame *)

Lemma frame_spec (now : Z) (st : State) (w : World Callback) :
  mounted st w ->
  exists g' w',
    runFrames now (frames w) st w = Normal (mkState g' (wrapper st)) w' /\
    gridMounted g' w' /\ audioOk g' /\ levelsOk w' /\
    listeners w' = listeners w /\ consoleErrors w' = consoleErrors w /\
    canvas g' = canvas (grid st) /\ glContextRef g' = glContextRef (grid st) /\
    (gl (glContextRef (grid st)) = None -> drawn w' = drawn w).
Proof.
  intros (((rest & Hf & Hp) & Hfid & Href & Hne & Hgl & Hno) & Hw & Hd
          & [Ha Hr] & Hok).
  destruct st as [g v]. cbn [grid wrapper] in *.
  rewrite Hf. cbn [runFrames].
  unfold bind at 1. unfold takeFrame at 1, cancelAnimationFrame at 1.
  rewrite Hf.
  change ((animationFrameId g, SimulateAudio) :: rest)
    with ([(animationFrameId g, SimulateAudio)] ++ rest).
  rewrite filter_app, cancel_removes. cbn [app].
  assert (Hrest : filter (fun f : nat * Callback =>
                            negb (Nat.eqb (fst f) (animationFrameId g))) rest
                  = rest).
  { destruct Hp as [->|(_ & cl & c & -> & _)]; [reflexivity|].
    apply cancel_keeps_other. exact Hne. }
  rewrite Hrest. unfold bind at 1. unfold bind at 1. cbn [grid wrapper].
  match goal with
  | |- context [simulateAudio now g ?v] =>
    destruct (simulateAudio_spec now g v)
      as (g1 & w1 & E1 & -> & F1 & N1 & L1 & D1 & C1); rewrite E1
  end.
  cbn [ret grid wrapper]. cbn in F1, N1, L1, D1, C1.
  set (level := normalizedLevel now _) in *.
  assert (Hlevel : 0 <= level <= 1) by apply normalizedLevel_bounds.
  assert (Hok1 : levelsOk w1) by (unfold levelsOk; rewrite D1; exact Hok).
  destruct Hp as [->|(Hlc & cl & c & -> & Hcl & Hclb)].
  - (* only simulateAudio was pending *)
    cbn [runFrames ret]. eexists. eexists. split; [reflexivity|].
    split.
    + split; [exists []; split; [exact F1|left; reflexivity]|].
      cbn. rewrite N1. repeat split; auto; try lia.
    + unfold audioOk. cbn. repeat split; auto; lra.
  - (* animate was pending too *)
    cbn [runFrames]. unfold bind at 1.
    unfold takeFrame at 1, cancelAnimationFrame at 1. rewrite F1.
    cbn [app filter fst].
    rewrite Nat.eqb_refl. cbn [negb].
    rewrite (proj2 (Nat.eqb_neq (nextHandle w) (animationRef g)))
      by lia.
    cbn [negb]. unfold bind at 1. unfold bind at 1.
    match goal with
    | |- context [animate cl now ?g0 ?v] =>
      assert (Hokv : levelsOk v) by exact Hok1;
      destruct (grid_animate_spec cl c now g0 v Hcl Hclb Hokv)
        as (g2 & w2 & E2 & L2 & C2 & Hok2 & [[-> ->]|(-> & F2 & N2)]);
      rewrite E2
    end; cbn [ret grid wrapper runFrames];
      eexists; eexists; (split; [reflexivity|]).
    + split.
      * split; [exists []; split; [reflexivity|left; reflexivity]|].
        cbn. rewrite N1. repeat split; auto; try lia.
      * unfold audioOk. cbn.
        repeat split; auto; try lra;
          try (intros H; apply Hno in H; congruence).
    + cbn in F2, N2, L2, C2. split.
      * split.
        -- exists [(S (nextHandle w), Animate cl)]. rewrite F2, N1.
           split; [reflexivity|]. right. split; [exact Hlc|].
           exists cl, c. split; [reflexivity|]. split; [exact Hcl|exact Hclb].
        -- cbn. rewrite N2, N1. repeat split; auto; try lia.
      * unfold audioOk. cbn.
        repeat split; auto; try lra; try congruence;
          try (intros H; apply Hno in H; congruence).
Qed.

(** The render after [setAudioData]. *)
Lemma renderIfDirty_spec (now : Z) (g : Grid) (w : World Callback) :
  gridMounted g w -> audioOk g -> levelsOk w ->
  exists g' w',
    renderIfDirty now g w = Normal g' w' /\ gridMounted g' w' /\
    audioDirty g' = false /\ audioOk g' /\ levelsOk w' /\
    (gl (glContextRef g) = None -> drawn w' = drawn w) /\
    listeners w' = listeners w /\ consoleErrors w' = consoleErrors w /\
    canvas g' = canvas g /\ glContextRef g' = glContextRef g.
Proof.
  intros Hm [Ha Hr] Hok. unfold renderIfDirty. destruct (audioDirty g) eqn:Ed.
  - assert (Hm' : gridMounted (renderAudioData g) w) by exact Hm.
    destruct (grid_rerunAnimationLoop_spec now (renderAudioData g) w Hm' Ha Hok)
      as (g' & w' & E & Hg & Hdr & L & Ce & Hok' & Cv & Gl & Ad & Al & Rl).
    exists g', w'. split; [exact E|]. cbn in Ad, Al, Rl.
    repeat split; auto; try apply Hg; try (rewrite ?Al, ?Rl; lra).
  - exists g, w. split; [reflexivity|].
    repeat split; auto; try apply Hm; lra.
Qed.


(** *** Events *)

Lemma grid_handle_spec (e : Event) (st : State) (w : World Callback) :
  mounted st w ->
  exists st' w',
    handle e st w = Normal st' w' /\ mounted st' w' /\
    consoleErrors w' = consoleErrors w /\
    glContextRef (grid st') = glContextRef (grid st) /\
    (gl (glContextRef (grid st)) = None -> drawn w' = drawn w).
Proof.
  intros Hm. pose proof Hm as (Hg & Hw & Hd & Ha & Hok).
  destruct e as [now|now position|now s| |b|o]; unfold handle.
  - (* Frame *)
    destruct (frame_spec now st w Hm)
      as (g1 & w1 & E1 & Hg1 & Ha1 & Hok1 & L1 & C1 & Cv1 & Gl1 & D1).
    unfold bind. cbv beta. rewrite E1. cbn [grid wrapper].
    destruct (renderIfDirty_spec now g1 w1 Hg1 Ha1 Hok1)
      as (g2 & w2 & E2 & Hg2 & Ad2 & Ha2 & Hok2 & D2 & L2 & C2 & Cv2 & Gl2).
    rewrite E2. eexists. eexists. split; [reflexivity|]. cbn [grid wrapper].
    split; [|split; [congruence|split; [congruence|]]].
    + split; [exact Hg2|]. split; [|cbn [grid]; auto].
      destruct Hw as (H1 & H2 & H3). cbn [wrapper].
      split; [exact H1|]. split; [exact H2|]. congruence.
    + intros H. rewrite D2, D1; auto. congruence.
  - (* MouseMove *)
    set (g0 := setPointer _ _ _).
    assert (Hg0 : gridMounted g0 w) by exact Hg.
    destruct (grid_rerunAnimationLoop_spec now g0 w Hg0 (proj2 Ha) Hok)
      as (g' & w' & E & Hg' & Hdr & L & Ce & Hok' & Cv & Gl & Ad & Al & Rl).
    unfold bind. rewrite E. eexists. eexists. split; [reflexivity|].
    cbn [grid wrapper]. cbn in Ad, Al, Rl, Gl, Hdr.
    split; [|split; [exact Ce|split; [exact Gl|exact Hdr]]].
    split; [exact Hg'|]. destruct Hw as (H1 & H2 & H3).
    unfold audioOk. cbn [grid wrapper]. rewrite Al, Rl.
    repeat split; auto; try congruence; apply Ha.
  - (* Scroll *)
    destruct (Req_dec_T s (scrollProgress (grid st))).
    { exists st, w. repeat split; auto; apply Hm. }
    set (g0 := setPointer _ _ _).
    assert (Hg0 : gridMounted g0 w) by exact Hg.
    destruct (grid_rerunAnimationLoop_spec now g0 w Hg0 (proj2 Ha) Hok)
      as (g' & w' & E & Hg' & Hdr & L & Ce & Hok' & Cv & Gl & Ad & Al & Rl).
    unfold bind. rewrite E. eexists. eexists. split; [reflexivity|].
    cbn [grid wrapper]. cbn in Ad, Al, Rl, Gl, Hdr.
    split; [|split; [exact Ce|split; [exact Gl|exact Hdr]]].
    split; [exact Hg'|]. destruct Hw as (H1 & H2 & H3).
    unfold audioOk. cbn [grid wrapper]. rewrite Al, Rl.
    repeat split; auto; try congruence; apply Ha.
  - (* Resize *)
    destruct (handleResize_spec (grid st) w Hok)
      as (g' & w' & E & Hok' & F & N & L & Ce & Fid & Ref & Lc & Ad & Al & Rl
          & Gl & Gc & Cx & Hnone).
    unfold bind. rewrite E. eexists. eexists. split; [reflexivity|].
    cbn [grid wrapper].
    split; [|split; [exact Ce|split; [exact Gl|]]].
    + destruct Hg as ((rest & Hf & Hp) & Hfid & Href & Hne & Hgl & Hno).
      destruct Hw as (H1 & H2 & H3). unfold mounted, audioOk.
      cbn [grid wrapper]. rewrite Al, Rl.
      split; [|repeat split; auto; try congruence; apply Ha].
      split.
      * exists rest. rewrite F, Fid. split; [exact Hf|].
        destruct Hp as [->|(Hlc & cl & c & -> & Hcl)]; [left; reflexivity|].
        right. split; [congruence|]. exists cl, c. rewrite Ref. auto.
      * rewrite N, Fid, Ref, Gc, Gl, Lc. repeat split; auto.
    + intros H. destruct (Hnone H) as [_ ->]. reflexivity.
  - (* VRModeToggle *)
    destruct (Bool_eqb b (isVRMode (wrapper st))).
    { exists st, w. repeat split; auto; apply Hm. }
    destruct (vrToggle_spec b (wrapper st) w Hw)
      as (v' & w' & E & Hw' & F & N & D & Ce).
    unfold bind in *.
    destruct (orientationEffectCleanup (wrapper st) w) as [[] w1| ];
      [|discriminate].
    destruct (vrEffectCleanup (wrapper st) w1) as [v1 w2| ]; [|discriminate].
    destruct (orientationEffect _ w2) as [v2 w3| ]; [|discriminate].
    rewrite E. eexists. eexists. split; [reflexivity|]. cbn [grid wrapper].
    split; [|split; [exact Ce|split; [reflexivity|intros _; exact D]]].
    split; [|split; [exact Hw'|]].
    + destruct Hg as ((rest & Hf & Hp) & Hfid & Href & Hne & Hgl & Hno).
      split; [exists rest; rewrite F; auto|]. rewrite N. repeat split; auto.
    + repeat split; auto; try apply Ha.
      unfold levelsOk. rewrite D. exact Hok.
  - (* DeviceOrientation *)
    destruct (orientationCleanup (wrapper st)).
    2:{ exists st, w. repeat split; auto; apply Hm. }
    destruct (orientation_spec o (wrapper st) w Hw) as (v' & E & Hw').
    unfold bind in *.
    destruct (vrEffectCleanup (wrapper st) w) as [v1 w1| ]; [|discriminate].
    rewrite E. eexists. eexists. split; [reflexivity|]. cbn [grid wrapper].
    repeat split; auto; try apply Hg; try apply Hw'; apply Ha.
Qed.

Lemma grid_handleAll_spec (evs : list Event) :
  forall (st : State) (w : World Callback),
    mounted st w ->
    exists st' w',
      handleAll evs st w = Normal st' w' /\ mounted st' w' /\
      consoleErrors w' = consoleErrors w /\
      glContextRef (grid st') = glContextRef (grid st) /\
      (gl (glContextRef (grid st)) = None -> drawn w' = drawn w).
Proof.
  induction evs as [|e rest IH]; intros st w Hm; simpl.
  - exists st, w. repeat split; auto; apply Hm.
  - destruct (grid_handle_spec e st w Hm) as (st1 & w1 & E1 & Hm1 & C1 & G1 & D1).
    destruct (IH st1 w1 Hm1) as (st2 & w2 & E2 & Hm2 & C2 & G2 & D2).
    unfold bind. rewrite E1, E2. exists st2, w2. split; [reflexivity|].
    split; [exact Hm2|]. split; [congruence|]. split; [congruence|].
    intros H. rewrite D2, D1; auto. congruence.
Qed.


(** *** Mounting and unmounting *)

Lemma addEventListener_spec (l : Listener) (w : World Callback) :
  existsb (Listener_eqb l) (listeners w) = false ->
  exists w',
    addEventListener l w = Normal tt w' /\
    listeners w' = listeners w ++ [l] /\
    frames w' = frames w /\ nextHandle w' = nextHandle w /\
    drawn w' = drawn w /\ consoleErrors w' = consoleErrors w.
Proof.
  intros H. unfold addEventListener. rewrite H.
  eexists. split; [reflexivity|]. repeat split; reflexivity.
Qed.

Lemma grid_mount_spec (cv : option Canvas) (scroll dpr : R) (now : Z)
    (random : nat -> R) :
  exists st w,
    mount now (initialState cv scroll dpr now) (emptyWorld random)
    = Normal st w /\
    mounted st w /\
    (contextOf (initialGrid cv scroll dpr now) = None ->
     gl (glContextRef (grid st)) = None /\ drawn w = [] /\
     consoleErrors w = match cv with
                       | Some _ => ["WebGL not supported"%string]
                       | None => []
                       end).
Proof.
  unfold mount. cbn [initialState grid wrapper].
  destruct (addEventListener_spec mouseMoveListener (emptyWorld random))
    as (w0 & E0 & L0 & F0 & N0 & D0 & C0); [reflexivity|].
  unfold bind at 1. rewrite E0.
  destruct (simulateAudio_spec now (initialGrid cv scroll dpr now) w0)
    as (g1 & w1 & E1 & Hg1 & F1 & N1 & L1 & D1 & C1).
  unfold bind at 1. rewrite E1.
  assert (Hok1 : levelsOk w1).
  { unfold levelsOk. rewrite D1, D0. apply Forall_nil. }
  destruct (initWebGLEffect_spec now g1 w1)
    as (g2 & w2 & E2 & Hok2 & F2 & N2 & L2 & Fid2 & Ref2 & Lc2 & Ad2 & Al2
        & Rl2 & Cx2 & Gc2 & Hnone2);
    [subst g1; reflexivity | subst g1; reflexivity | exact Hok1 |].
  unfold bind at 1. rewrite E2.
  destruct (addEventListener_spec resizeListener w2)
    as (w3 & E3 & L3 & F3 & N3 & D3 & C3);
    [rewrite L2, L1, L0; reflexivity|].
  unfold bind at 1. rewrite E3.
  assert (Hfid2 : animationFrameId g2 = 1%nat)
    by (rewrite Fid2; subst g1; cbn; rewrite N0; reflexivity).
  assert (Href2 : animationRef g2 = 0%nat)
    by (rewrite Ref2; subst g1; reflexivity).
  assert (Hn3 : nextHandle w3 = 2%nat)
    by (rewrite N3, N2, N1, N0; reflexivity).
  assert (Hrl2 : renderedAudioLevel g2 = 0)
    by (rewrite Rl2; subst g1; reflexivity).
  destruct (grid_animationLoopEffect_spec now g2 w3)
    as (g4 & w4 & E4 & Hfr4 & Hfid4 & Href4 & Hne4 & Hnone4 & L4 & C4 & Hok4
        & Cv4 & Gl4 & Gc4 & Ad4 & Al4 & Rl4).
  { rewrite F3, F2, F1, F0, Hfid2, N0. reflexivity. }
  { rewrite Hfid2, Hn3. lia. }
  { rewrite Href2, Hn3. lia. }
  { rewrite Hfid2, Href2. discriminate. }
  { rewrite Hrl2. lra. }
  { unfold levelsOk. rewrite D3. exact Hok2. }
  unfold bind at 1. rewrite E4.
  destruct (addEventListener_spec vrToggleListener w4)
    as (w5 & E5 & L5 & F5 & N5 & D5 & C5);
    [rewrite L4, L3, L2, L1, L0; reflexivity|].
  unfold bind at 1. rewrite E5.
  unfold bind at 1. unfold orientationEffect at 1.
  cbn [initialWrapper isVRMode deviceOrientation vrCanvas vrCleanup
       orientationCleanup ret].
  unfold bind at 1. unfold vrEffect at 1.
  cbn [isVRMode deviceOrientation vrCanvas vrCleanup orientationCleanup ret].
  assert (Hg4 : gridMounted g4 w5).
  { destruct Hfr4 as (rest & Hf & Hp).
    split; [exists rest; rewrite F5; auto|]. rewrite N5.
    repeat split; auto.
    - rewrite Gc4, Gl4. exact Gc2.
    - rewrite Gl4. intros H. apply (Hnone4 H). }
  assert (Ha4 : audioOk g4).
  { unfold audioOk. rewrite Al4, Rl4, Al2, Hrl2. subst g1. cbn.
    split; [apply normalizedLevel_bounds|lra]. }
  assert (Hok5 : levelsOk w5) by (unfold levelsOk; rewrite D5; exact Hok4).
  destruct (renderIfDirty_spec now g4 w5 Hg4 Ha4 Hok5)
    as (g6 & w6 & E6 & Hg6 & Ad6 & Ha6 & Hok6 & D6 & L6 & C6 & Cv6 & Gl6).
  unfold bind at 1. rewrite E6. eexists. eexists. split; [reflexivity|].
  split.
  - split; [exact Hg6|]. cbn [grid wrapper].
    split; [|auto]. split; [reflexivity|]. split; [reflexivity|].
    rewrite L6, L5, L4, L3, L2, L1, L0. reflexivity.
  - intros Hcx. cbn [grid].
    assert (Hcx1 : contextOf g1 = None) by (subst g1; exact Hcx).
    destruct (Hnone2 Hcx1) as (-> & Hd2 & Hsome & Hnull).
    assert (Hgl2 : gl (glContextRef g1) = None) by (subst g1; reflexivity).
    destruct (Hnone4 Hgl2) as [_ ->].
    split; [rewrite Gl6, Gl4; exact Hgl2|]. split.
    + rewrite D6 by (rewrite Gl4; exact Hgl2).
      rewrite D5, D3, Hd2, D1, D0. reflexivity.
    + rewrite C6, C5, C3. destruct cv as [cv|].
      * rewrite Hsome by (subst g1; discriminate). rewrite C1, C0. reflexivity.
      * rewrite Hnull by (subst g1; reflexivity). rewrite C1, C0. reflexivity.
Qed.

Lemma grid_unmount_spec (st : State) (w : World Callback) :
  mounted st w ->
  exists w',
    unmount st w = Normal tt w' /\
    frames w' = [] /\ listeners w' = [] /\ levelsOk w' /\
    consoleErrors w' = consoleErrors w /\
    (gl (glContextRef (grid st)) = None -> drawn w' = drawn w).
Proof.
  intros (((rest & Hf & Hp) & Hfid & Href & Hne & Hgl & Hno)
          & (Hc & Hv & Hl) & Hd & Ha & Hok).
  destruct st as [g v]. destruct v as [vr o cvs oc vc].
  destruct w as [nh fr ls ce dr rs ri].
  cbn [grid wrapper vrCanvas vrCleanup orientationCleanup listeners frames
       nextHandle] in *.
  subst cvs vc ls fr.
  set (w3 := mkWorld Callback nh rest [resizeListener] ce dr rs ri).
  assert (E3 : (removeEventListener vrToggleListener ;;
                orientationEffectCleanup (mkWrapper vr o None oc None) ;;
                _ <- vrEffectCleanup (mkWrapper vr o None oc None) ;;
                removeEventListener mouseMoveListener ;;
                cancelAnimationFrame (animationFrameId g))%js
               (mkWorld Callback nh
                  ((animationFrameId g, SimulateAudio) :: rest)
                  (baseListeners ++
                   (if oc then [orientationListener] else []))
                  ce dr rs ri)
               = Normal tt w3).
  { unfold w3, bind, removeEventListener, orientationEffectCleanup,
      vrEffectCleanup, cancelAnimationFrame, ret.
    cbn [orientationCleanup vrCleanup listeners frames nextHandle
         consoleErrors drawn randomSource randomIndex].
    assert (Hrest : filter (fun f : nat * Callback =>
                              negb (Nat.eqb (fst f) (animationFrameId g)))
                           ((animationFrameId g, SimulateAudio) :: rest)
                    = rest).
    { cbn [filter fst]. rewrite Nat.eqb_refl. cbn [negb].
      destruct Hp as [->|(_ & cl & c & -> & _)]; [reflexivity|].
      apply cancel_keeps_other. exact Hne. }
    destruct oc; cbn [removeEventListener listeners frames nextHandle
                      consoleErrors drawn randomSource randomIndex];
      rewrite Hrest; reflexivity. }
  assert (Hok3 : levelsOk w3) by exact Hok.
  destruct (initWebGLCleanup_spec g w3 Hgl Hok3)
    as (w4 & E4 & F4 & N4 & L4 & C4 & Hok4 & Hsame).
  set (w5 := mkWorld Callback (nextHandle w4) (frames w4) []
                     (consoleErrors w4) (drawn w4) (randomSource w4)
                     (randomIndex w4)).
  assert (E5 : removeEventListener resizeListener w4 = Normal tt w5).
  { unfold removeEventListener, w5. rewrite L4. reflexivity. }
  assert (E : unmount (mkState g (mkWrapper vr o None oc None))
                (mkWorld Callback nh
                   ((animationFrameId g, SimulateAudio) :: rest)
                   (baseListeners ++
                    (if oc then [orientationListener] else []))
                   ce dr rs ri)
              = animationLoopCleanup g w5).
  { unfold unmount. cbn [grid wrapper].
    unfold bind in E3. unfold bind.
    destruct (removeEventListener vrToggleListener _) as [[] v1|];
      [|discriminate].
    destruct (orientationEffectCleanup _ v1) as [[] v2|]; [|discriminate].
    destruct (vrEffectCleanup _ v2) as [v3' v3|]; [|discriminate].
    destruct (removeEventListener mouseMoveListener v3) as [[] v4|];
      [|discriminate].
    rewrite E3, E4, E5. reflexivity. }
  rewrite E. unfold animationLoopCleanup.
  assert (Hdr : gl (glContextRef g) = None -> drawn w4 = dr).
  { intros H. rewrite Hsame; [reflexivity|].
    destruct (glCleanup g); [|reflexivity].
    destruct Hgl as (c & Hc); [reflexivity|]. congruence. }
  destruct (loopCleanup g) eqn:Elc.
  - eexists. split; [reflexivity|]. cbn. rewrite F4. cbn.
    split; [|split; [reflexivity|split; [exact Hok4|split; [exact C4|exact Hdr]]]].
    destruct Hp as [->|(_ & cl & c & -> & _)]; [reflexivity|].
    apply cancel_removes.
  - exists w5. split; [reflexivity|]. cbn. rewrite F4. cbn.
    split; [|split; [reflexivity|split; [exact Hok4|split; [exact C4|exact Hdr]]]].
    destruct Hp as [->|(Hlc & _)]; [reflexivity|congruence].
Qed.

(** Mounting the wrapper with its grid, any sequence of events, then
    unmounting: nothing is thrown, no frame request and no listener is left,
    every audio level passed to the shader was in [0, 1], and without a
    WebGL context nothing was drawn and the one message was logged. *)
Lemma grid_lifecycle_spec (cv : option Canvas) (scroll dpr : R) (now : Z)
    (random : nat -> R) (evs : list Event) :
  exists w,
    lifecycle now evs (initialState cv scroll dpr now) (emptyWorld random)
    = Normal tt w /\
    frames w = [] /\ listeners w = [] /\ levelsOk w /\
    (contextOf (initialGrid cv scroll dpr now) = None ->
     drawn w = [] /\
     consoleErrors w = match cv with
                       | Some _ => ["WebGL not supported"%string]
                       | None => []
                       end).
Proof.
  unfold lifecycle.
  destruct (grid_mount_spec cv scroll dpr now random)
    as (st1 & w1 & E1 & Hm1 & Hn1).
  destruct (grid_handleAll_spec evs st1 w1 Hm1)
    as (st2 & w2 & E2 & Hm2 & C2 & G2 & D2).
  destruct (grid_unmount_spec st2 w2 Hm2) as (w3 & E3 & F3 & L3 & Hok3 & C3 & D3).
  unfold bind. rewrite E1, E2, E3. exists w3. split; [reflexivity|].
  split; [exact F3|]. split; [exact L3|]. split; [exact Hok3|].
  intros Hcx. destruct (Hn1 Hcx) as (Hgl & Hd & Hce).
  split.
  - rewrite D3, D2; auto. congruence.
  - congruence.
Qed.

End GridProofs.

(** ** The portal *)

Module PortalProofs.
Import Browser BrowserProofs DigitalPortal.
Local Open Scope js_scope.

(** *** The listeners *)

Lemma dragListener_self (run : nat) :
  Listener_eqb (dragListener run) (dragListener run) = true.
Proof.
  unfold Listener_eqb. rewrite !String.eqb_refl. reflexivity.
Qed.

Lemma dragListener_not_mouse (run : nat) :
  Listener_eqb (dragListener run) mouseMoveListener = false.
Proof. reflexivity. Qed.

Lemma mouse_not_dragListener (run : nat) :
  Listener_eqb mouseMoveListener (dragListener run) = false.
Proof. reflexivity. Qed.

(** *** Drawing *)

Ltac paint_invoke := eapply paints_bind; [apply paints_invoke|intros _ _].
Ltac paint_random := eapply paints_bind; [apply paints_mathRandom|intros ? _].

Lemma paints_addNoise (c : Context) (width height : R) (n : nat) :
  paints (addNoise (Some c) width height n) (fun _ => True).
Proof.
  induction n as [|n IH]; cbn [addNoise].
  - apply paints_ret. exact I.
  - do 3 paint_random. do 2 paint_invoke. exact IH.
Qed.

Lemma paints_addDust (c : Context) (width height : R) (n : nat) :
  paints (addDust (Some c) width height n) (fun _ => True).
Proof.
  induction n as [|n IH]; cbn [addDust].
  - apply paints_ret. exact I.
  - do 3 paint_random. do 2 paint_invoke. paint_random. do 2 paint_invoke.
    exact IH.
Qed.

Lemma paints_floatingObject (c : Context) (time width height : R) (i : nat) :
  paints (floatingObject (Some c) time width height i) (fun _ => True).
Proof.
  unfold floatingObject. do 4 paint_invoke.
  destruct (0 <? i)%nat.
  - do 4 paint_invoke. apply paints_invoke.
  - apply paints_ret. exact I.
Qed.

Lemma paints_ripple (c : Context) (portal : option Rect) (mouse : Point)
    (time width height : R) :
  paints (ripple (Some c) portal mouse time width height) (fun _ => True).
Proof.
  unfold ripple. destruct portal as [portalRect|].
  - destruct (_ && _).
    + do 4 paint_invoke. apply paints_invoke.
    + apply paints_ret. exact I.
  - apply paints_ret. exact I.
Qed.

Lemma paints_drawFrame (c : Context) (portal : option Rect) (mouse : Point)
    (time width height : R) :
  paints (drawFrame (Some c) portal mouse time width height) (fun _ => True).
Proof.
  unfold drawFrame. do 4 paint_invoke.
  eapply paints_bind; [apply paints_addNoise|intros _ _].
  eapply paints_bind;
    [apply paints_forEach; intros; apply paints_floatingObject|intros _ _].
  eapply paints_bind; [apply paints_ripple|intros _ _].
  apply paints_addDust.
Qed.

(** One run of [animate]: it returns at once without a canvas; otherwise it
    ends normally with exactly one new frame request, whose handle is in
    [animationRef]. *)
Lemma portal_animate_spec (cl : Closure) (now : Z) (st : State) (w : World Callback) :
  exists st' w',
    animate cl now st w = Normal st' w' /\
    listeners w' = listeners w /\
    match canvas st with
    | None => st' = st /\ w' = w
    | Some _ =>
      st' = setAnimationRef (nextHandle w) st /\
      frames w' = frames w ++ [(nextHandle w, Animate cl)]
    end.
Proof.
  unfold animate. destruct (canvas st) as [cv|].
  2:{ exists st, w. repeat split; reflexivity. }
  cbv zeta.
  destruct (paints_drawFrame (ctx cl) (portalRef st) (cl_mousePosition cl)
              (IZR now / 1000) (canvasWidth cv) (canvasHeight cv) w)
    as ([] & w1 & E & N & F & L & Ce & _).
  unfold bind. rewrite E. unfold requestAnimationFrame, ret.
  eexists. eexists. split; [reflexivity|].
  cbn [listeners frames nextHandle]. rewrite N, F, L.
  split; [reflexivity|]. split; reflexivity.
Qed.

(** Without a 2D context [startSimulation] returns at once. *)
Lemma startSimulation_blind (now : Z) (st : State) (w : World Callback) :
  contextOf st = None -> startSimulation now st w = Normal st w.
Proof.
  unfold contextOf, startSimulation. destruct (canvas st) as [cv|].
  - intros ->. reflexivity.
  - reflexivity.
Qed.

(** With one, it leaves exactly one new frame request. *)
Lemma startSimulation_sighted (now : Z) (st : State) (w : World Callback)
    (c : Context) :
  contextOf st = Some c ->
  exists st' w' cl,
    startSimulation now st w = Normal st' w' /\
    listeners w' = listeners w /\
    frames w' = frames w ++ [(animationRef st', Animate cl)] /\
    contextOf st' = Some c /\
    dragCleanup st' = dragCleanup st /\
    isDragging st' = isDragging st /\
    dragRuns st' = dragRuns st.
Proof.
  unfold contextOf, startSimulation. destruct (canvas st) as [cv|] eqn:Ecv;
    [|intros H; exfalso; congruence].
  intros Hc. rewrite Hc. cbv zeta.
  match goal with
  | |- context [animate ?cl now ?st0 w] =>
    destruct (portal_animate_spec cl now st0 w) as (st' & w' & E & L & Hst);
    exists st', w', cl
  end.
  cbn [setCanvas canvas] in Hst. destruct Hst as [-> F].
  split; [exact E|]. split; [exact L|].
  cbn [setAnimationRef setCanvas animationRef canvas contextOf context2d
       dragCleanup isDragging dragRuns].
  split; [exact F|]. rewrite <- Hc. repeat split; reflexivity.
Qed.

(** *** The effects *)

Lemma removeDrag (run : nat) :
  filter (fun l' => negb (Listener_eqb (dragListener run) l'))
         [mouseMoveListener; dragListener run]
  = [mouseMoveListener].
Proof.
  cbn [filter]. rewrite dragListener_not_mouse, dragListener_self.
  reflexivity.
Qed.

(** The drag effect runs again: the cleanup made by the render [st], then
    the effect of the render [st0]. *)
Lemma dragRerun_spec (st st0 : State) (w : World Callback) :
  listening st w ->
  exists st' w',
    (dragEffectCleanup st ;; dragEffect st0)%js w = Normal st' w' /\
    listening st' w' /\
    frames w' = frames w /\ drawn w' = drawn w /\
    contextOf st' = contextOf st0 /\
    simulationCleanup st' = simulationCleanup st0 /\
    animationRef st' = animationRef st0.
Proof.
  intros [Hl Hrun]. destruct w as [nh fr ls ce dr rs ri]. cbn in Hl. subst ls.
  assert (E : exists w1,
             dragEffectCleanup st
               (mkWorld Callback nh fr
                  (mouseMoveListener ::
                   match dragCleanup st with Some l => [l] | None => [] end)
                  ce dr rs ri) = Normal tt w1 /\
             w1 = mkWorld Callback nh fr [mouseMoveListener] ce dr rs ri).
  { unfold dragEffectCleanup. destruct (dragCleanup st) as [l|].
    - destruct (Hrun l eq_refl) as (run & ->).
      eexists. split; [reflexivity|].
      unfold removeEventListener. cbn [listeners nextHandle frames
        consoleErrors drawn randomSource randomIndex].
      rewrite removeDrag. reflexivity.
    - eexists. split; reflexivity. }
  destruct E as (w1 & E & ->). unfold bind. rewrite E. clear E.
  unfold dragEffect. destruct (isDragging st0).
  - eexists. eexists. split; [reflexivity|].
    split; [split|repeat split; reflexivity].
    + reflexivity.
    + intros l H. cbn in H. injection H as <-. eexists. reflexivity.
  - eexists. eexists. split; [reflexivity|].
    split; [split|repeat split; reflexivity].
    + reflexivity.
    + intros l H. discriminate H.
Qed.

Lemma simulationEffectCleanup_spec (st : State) (w : World Callback) :
  looping st w ->
  exists w',
    simulationEffectCleanup st w = Normal tt w' /\
    frames w' = [] /\ listeners w' = listeners w /\ drawn w' = drawn w /\
    nextHandle w' = nextHandle w.
Proof.
  intros [Hf _]. unfold simulationEffectCleanup.
  destruct (simulationCleanup st).
  - eexists. split; [reflexivity|]. cbn.
    split; [|repeat split; reflexivity].
    destruct Hf as [->|(_ & cl & ->)]; [reflexivity|].
    cbn. rewrite Nat.eqb_refl. reflexivity.
  - exists w. split; [reflexivity|].
    destruct Hf as [Hf|(Hc & _)]; [|discriminate Hc].
    repeat split; auto.
Qed.

(** The simulation effect, run while no frame request is pending. *)
Lemma simulationEffect_spec (now : Z) (st : State) (w : World Callback) :
  frames w = [] ->
  exists st' w',
    simulationEffect now st w = Normal st' w' /\
    looping st' w' /\
    listeners w' = listeners w /\
    contextOf st' = contextOf st /\
    dragCleanup st' = dragCleanup st /\
    (contextOf st = None -> w' = w).
Proof.
  intros Hf. unfold simulationEffect.
  destruct (negb (isPortalOpen st)).
  { eexists. eexists. split; [reflexivity|].
    split; [split; [left; exact Hf|intros _; exact Hf]|].
    repeat split; reflexivity. }
  destruct (canvas st) as [cv|] eqn:Ecv.
  2:{ eexists. eexists. split; [reflexivity|].
      split; [split; [left; exact Hf|intros _; exact Hf]|].
      unfold contextOf. cbn. rewrite Ecv. repeat split; reflexivity. }
  destruct (contextOf st) as [c|] eqn:Ec.
  - destruct (startSimulation_sighted now st w c Ec)
      as (st' & w' & cl & E & L & F & Cx & Dc & _).
    unfold bind. rewrite E. eexists. eexists. split; [reflexivity|].
    split; [split|].
    + right. split; [reflexivity|]. exists cl. rewrite F, Hf. reflexivity.
    + intros H. exfalso. unfold contextOf in H. cbn in H.
      unfold contextOf in Cx. congruence.
    + split; [exact L|]. split; [exact Cx|]. split; [exact Dc|].
      intros H. discriminate H.
  - unfold bind. rewrite (startSimulation_blind now st w Ec).
    eexists. eexists. split; [reflexivity|].
    split; [split; [left; exact Hf|intros _; exact Hf]|].
    repeat split; auto.
Qed.

(** *** Events *)

Lemma portal_handle_spec (e : Event) (st : State) (w : World Callback) :
  mounted st w ->
  exists st' w',
    handle e st w = Normal st' w' /\ mounted st' w' /\
    contextOf st' = contextOf st /\
    (contextOf st = None -> drawn w' = drawn w).
Proof.
  intros [Hl Hf]. destruct e as [now|position|now| |]; unfold handle.
  - (* Frame *)
    destruct Hf as [[Hf|(Hsc & cl & Hf)] Hb]; rewrite Hf.
    { exists st, w. repeat split; auto; try apply Hl. }
    cbn [runFrames]. unfold bind, takeFrame, cancelAnimationFrame.
    rewrite Hf. cbn [filter fst]. rewrite Nat.eqb_refl. cbn [negb].
    match goal with
    | |- context [animate cl now st ?v] =>
      destruct (portal_animate_spec cl now st v) as (st' & w' & E & L & Hst)
    end.
    rewrite E. exists st', w'. split; [reflexivity|].
    cbn [listeners frames nextHandle] in L, Hst.
    assert (Hcx : contextOf st = None -> False).
    { intros H. specialize (Hb H). rewrite Hb in Hf. discriminate Hf. }
    destruct (canvas st) as [cv|] eqn:Ecv.
    + destruct Hst as [-> F].
      split; [split; [split|split]|split].
      * rewrite L. apply Hl.
      * apply Hl.
      * right. split; [exact Hsc|]. exists cl. exact F.
      * intros H. exfalso. apply Hcx. unfold contextOf in *. cbn in H.
        exact H.
      * unfold contextOf. cbn. reflexivity.
      * intros H. exfalso. exact (Hcx H).
    + destruct Hst as [-> ->].
      split; [split; [split|split]|split].
      * apply Hl.
      * apply Hl.
      * left. reflexivity.
      * intros _. reflexivity.
      * reflexivity.
      * intros H. exfalso. exact (Hcx H).
  - (* MouseMove *)
    set (st1 := match dragCleanup st with
                | Some _ => handleMouseMove (mousePosition st) st
                | None => st
                end).
    assert (Hsame : dragCleanup st1 = dragCleanup st /\
                    contextOf st1 = contextOf st /\
                    simulationCleanup st1 = simulationCleanup st /\
                    animationRef st1 = animationRef st).
    { unfold st1. destruct (dragCleanup st) eqn:Edc;
        repeat split; try reflexivity; exact Edc. }
    destruct Hsame as (Hdc & Hcx & Hsc & Har).
    assert (Hl1 : listening (setMousePosition position st1) w).
    { destruct Hl as [H1 H2]. split; cbn [setMousePosition dragCleanup].
      - rewrite Hdc. exact H1.
      - rewrite Hdc. exact H2. }
    destruct (dragRerun_spec _ (setMousePosition position st1) w Hl1)
      as (st' & w' & E & Hl' & F & D & Cx & Sc & Ar).
    cbv zeta. fold st1. rewrite E. exists st', w'. split; [reflexivity|].
    assert (Cx' : contextOf st' = contextOf st) by (rewrite Cx; exact Hcx).
    split; [split; [exact Hl'|]|split; [exact Cx'|intros _; exact D]].
    destruct Hf as [Hf Hb]. split.
    + rewrite F, Sc, Ar. cbn [setMousePosition simulationCleanup animationRef].
      rewrite Hsc, Har. exact Hf.
    + rewrite F, Cx'. exact Hb.
  - (* Toggle *)
    cbv zeta. destruct (isPortalOpen st); cbn [negb Bool.eqb].
    { exists st, w. repeat split; auto; try apply Hl; apply Hf. }
    destruct (simulationEffectCleanup_spec st w Hf)
      as (w1 & E1 & F1 & L1 & D1 & N1).
    destruct (simulationEffect_spec now (setIsPortalOpen true st) w1 F1)
      as (st' & w' & E & Hf' & L & Cx & Dc & Hnone).
    unfold bind. rewrite E1, E. exists st', w'. split; [reflexivity|].
    split; [split; [|exact Hf']|split; [exact Cx|]].
    + destruct Hl as [H1 H2]. split; rewrite Dc; cbn [setIsPortalOpen dragCleanup].
      * rewrite L, L1. exact H1.
      * exact H2.
    + intros H. rewrite (Hnone H). exact D1.
  - (* StartDrag *)
    destruct (isDragging st).
    { exists st, w. repeat split; auto; try apply Hl; apply Hf. }
    destruct (dragRerun_spec st (setIsDragging true st) w Hl)
      as (st' & w' & E & Hl' & F & D & Cx & Sc & Ar).
    rewrite E. exists st', w'. split; [reflexivity|].
    split; [split; [exact Hl'|]|split; [exact Cx|intros _; exact D]].
    destruct Hf as [Hf Hb]. split.
    + rewrite F, Sc, Ar. exact Hf.
    + rewrite F, Cx. exact Hb.
  - (* StopDrag *)
    destruct (isDragging st).
    2:{ exists st, w. repeat split; auto; try apply Hl; apply Hf. }
    destruct (dragRerun_spec st (setIsDragging false st) w Hl)
      as (st' & w' & E & Hl' & F & D & Cx & Sc & Ar).
    rewrite E. exists st', w'. split; [reflexivity|].
    split; [split; [exact Hl'|]|split; [exact Cx|intros _; exact D]].
    destruct Hf as [Hf Hb]. split.
    + rewrite F, Sc, Ar. exact Hf.
    + rewrite F, Cx. exact Hb.
Qed.

Lemma portal_handleAll_spec (evs : list Event) :
  forall (st : State) (w : World Callback),
    mounted st w ->
    exists st' w',
      handleAll evs st w = Normal st' w' /\ mounted st' w' /\
      contextOf st' = contextOf st /\
      (contextOf st = None -> drawn w' = drawn w).
Proof.
  induction evs as [|e rest IH]; intros st w Hm; cbn [handleAll].
  - exists st, w. repeat split; auto; apply Hm.
  - destruct (portal_handle_spec e st w Hm) as (st1 & w1 & E1 & Hm1 & C1 & D1).
    destruct (IH st1 w1 Hm1) as (st2 & w2 & E2 & Hm2 & C2 & D2).
    unfold bind. rewrite E1, E2. exists st2, w2. split; [reflexivity|].
    split; [exact Hm2|]. split; [congruence|].
    intros Hc. rewrite D2, D1; auto. congruence.
Qed.

(** *** Mounting and unmounting *)

Lemma portal_mount_spec (portal : option Rect) (cv : option Canvas)
    (innerWidth innerHeight : R) (now : Z) (random : nat -> R) :
  exists st w,
    mount now (initialState portal cv innerWidth innerHeight)
          (emptyWorld random) = Normal st w /\
    mounted st w /\ drawn w = [] /\
    contextOf st = contextOf (initialState portal cv innerWidth innerHeight).
Proof.
  destruct portal; (eexists; eexists; split; [reflexivity|]);
    (split; [split; split|split; reflexivity]);
    try reflexivity; try (left; reflexivity); intros; discriminate.
Qed.

Lemma portal_unmount_spec (st : State) (w : World Callback) :
  mounted st w ->
  exists w',
    unmount st w = Normal tt w' /\
    frames w' = [] /\ listeners w' = [] /\ drawn w' = drawn w.
Proof.
  intros [[Hl Hrun] Hf]. unfold unmount.
  set (w1 := mkWorld Callback (nextHandle w) (frames w)
               match dragCleanup st with Some l => [l] | None => [] end
               (consoleErrors w) (drawn w) (randomSource w) (randomIndex w)).
  assert (E1 : removeEventListener mouseMoveListener w = Normal tt w1).
  { unfold removeEventListener, w1. rewrite Hl.
    destruct (dragCleanup st) as [l|]; [|reflexivity].
    destruct (Hrun l eq_refl) as (run & ->). reflexivity. }
  assert (Hf1 : looping st w1) by exact Hf.
  destruct (simulationEffectCleanup_spec st w1 Hf1)
    as (w2 & E2 & F2 & L2 & D2 & N2).
  unfold bind. rewrite E1, E2. unfold dragEffectCleanup.
  destruct (dragCleanup st) as [l|] eqn:Edc.
  - destruct (Hrun l eq_refl) as (run & ->).
    eexists. split; [reflexivity|].
    cbn [removeEventListener listeners frames drawn].
    rewrite L2. cbn [w1 listeners filter]. rewrite dragListener_self.
    repeat split; auto.
  - exists w2. split; [reflexivity|]. rewrite L2. repeat split; auto.
Qed.

(** Mounting the portal, any sequence of frames, pointer moves, toggles and
    drags, then unmounting: nothing is thrown, no frame request and no
    listener is left, and nothing was drawn if no 2D context could be
    acquired. *)
Lemma portal_lifecycle_spec (portal : option Rect) (cv : option Canvas)
    (innerWidth innerHeight : R) (now : Z) (random : nat -> R)
    (evs : list Event) :
  exists w,
    lifecycle now evs (initialState portal cv innerWidth innerHeight)
              (emptyWorld random) = Normal tt w /\
    frames w = [] /\ listeners w = [] /\
    (contextOf (initialState portal cv innerWidth innerHeight) = None ->
     drawn w = []).
Proof.
  unfold lifecycle.
  destruct (portal_mount_spec portal cv innerWidth innerHeight now random)
    as (st1 & w1 & E1 & Hm1 & D1 & C1).
  destruct (portal_handleAll_spec evs st1 w1 Hm1) as (st2 & w2 & E2 & Hm2 & C2 & D2).
  destruct (portal_unmount_spec st2 w2 Hm2) as (w3 & E3 & F3 & L3 & D3).
  unfold bind. rewrite E1, E2, E3. exists w3. split; [reflexivity|].
  split; [exact F3|]. split; [exact L3|].
  intros Hc. rewrite D3, D2, D1; congruence.
Qed.

End PortalProofs.

(** ** The three renderers together *)

Module RendererProofs.
Import Browser.

(** C8.  When no drawing context can be acquired (no 2D context for the
    particle field and for the portal, no WebGL context for the audio grid),
    mounting the renderer, any sequence of events and unmounting end
    normally, so nothing is thrown to the caller, and no call was made on a
    context; the audio grid has logged "WebGL not supported" if its canvas
    is present, and nothing else. *)
Theorem C8_renderers_without_context_draw_nothing_and_do_not_throw
    (random : nat -> R)
    (pcv : option ParticlesCanvas.Canvas) (pscroll : R)
    (pevs : list ParticlesCanvas.Event)
    (portal : option DigitalPortal.Rect) (dcv : option DigitalPortal.Canvas)
    (innerWidth innerHeight : R) (dnow : Z) (devs : list DigitalPortal.Event)
    (gcv : option AudioReactiveGrid.Canvas) (gscroll dpr : R) (gnow : Z)
    (gevs : list AudioReactiveGrid.Event) :
  ParticlesCanvas.contextOf (ParticlesCanvas.initialState pcv pscroll) = None ->
  DigitalPortal.contextOf
    (DigitalPortal.initialState portal dcv innerWidth innerHeight) = None ->
  AudioReactiveGrid.contextOf
    (AudioReactiveGrid.initialGrid gcv gscroll dpr gnow) = None ->
  (exists w,
     ParticlesCanvas.lifecycle pevs (ParticlesCanvas.initialState pcv pscroll)
                               (emptyWorld random) = Normal tt w /\
     drawn w = []) /\
  (exists w,
     DigitalPortal.lifecycle dnow devs
       (DigitalPortal.initialState portal dcv innerWidth innerHeight)
       (emptyWorld random) = Normal tt w /\
     drawn w = []) /\
  (exists w,
     AudioReactiveGrid.lifecycle gnow gevs
       (AudioReactiveGrid.initialState gcv gscroll dpr gnow)
       (emptyWorld random) = Normal tt w /\
     drawn w = [] /\
     consoleErrors w = match gcv with
                       | Some _ => ["WebGL not supported"%string]
                       | None => []
                       end).
Proof.
  intros Hp Hd Hg. split; [|split].
  - destruct (ParticlesLifecycle.particles_lifecycle_spec pcv pscroll random pevs)
      as (w & E & _ & _ & D).
    exists w. split; [exact E|exact (D Hp)].
  - destruct (PortalProofs.portal_lifecycle_spec portal dcv innerWidth
                innerHeight dnow random devs) as (w & E & _ & _ & D).
    exists w. split; [exact E|exact (D Hd)].
  - destruct (GridProofs.grid_lifecycle_spec gcv gscroll dpr gnow random gevs)
      as (w & E & _ & _ & _ & D).
    exists w. split; [exact E|exact (D Hg)].
Qed.

Lemma C8_renderers_without_context_witness :
  (exists w,
     ParticlesCanvas.lifecycle ParticlesCanvas.sampleEvents
       (ParticlesCanvas.initialState (Some ParticlesCanvas.blindCanvas) 0)
       (emptyWorld sampleRandom) = Normal tt w /\
     drawn w = []) /\
  (exists w,
     DigitalPortal.lifecycle 0 DigitalPortal.sampleEvents
       (DigitalPortal.initialState (Some (DigitalPortal.mkRect 0 0))
                                   (Some DigitalPortal.blindCanvas) 1280 720)
       (emptyWorld sampleRandom) = Normal tt w /\
     drawn w = []) /\
  (exists w,
     AudioReactiveGrid.lifecycle 0 AudioReactiveGrid.sampleEvents
       (AudioReactiveGrid.initialState (Some AudioReactiveGrid.blindCanvas)
                                       0 1 0)
       (emptyWorld sampleRandom) = Normal tt w /\
     drawn w = [] /\
     consoleErrors w = ["WebGL not supported"%string]).
Proof.
  apply (C8_renderers_without_context_draw_nothing_and_do_not_throw
           sampleRandom
           (Some ParticlesCanvas.blindCanvas) 0 ParticlesCanvas.sampleEvents
           (Some (DigitalPortal.mkRect 0 0)) (Some DigitalPortal.blindCanvas)
           1280 720 0%Z DigitalPortal.sampleEvents
           (Some AudioReactiveGrid.blindCanvas) 0 1 0%Z
           AudioReactiveGrid.sampleEvents);
    reflexivity.
Defined.

(** C9.  For the particle field, the portal and the audio grid with its VR
    wrapper: after mounting, any sequence of events and unmounting, no
    frame request is pending and no listener is registered on [window]. *)
Theorem C9_unmount_leaves_no_frame_request_and_no_listener
    (random : nat -> R)
    (pcv : option ParticlesCanvas.Canvas) (pscroll : R)
    (pevs : list ParticlesCanvas.Event)
    (portal : option DigitalPortal.Rect) (dcv : option DigitalPortal.Canvas)
    (innerWidth innerHeight : R) (dnow : Z) (devs : list DigitalPortal.Event)
    (gcv : option AudioReactiveGrid.Canvas) (gscroll dpr : R) (gnow : Z)
    (gevs : list AudioReactiveGrid.Event) :
  (exists w,
     ParticlesCanvas.lifecycle pevs (ParticlesCanvas.initialState pcv pscroll)
                               (emptyWorld random) = Normal tt w /\
     frames w = [] /\ listeners w = []) /\
  (exists w,
     DigitalPortal.lifecycle dnow devs
       (DigitalPortal.initialState portal dcv innerWidth innerHeight)
       (emptyWorld random) = Normal tt w /\
     frames w = [] /\ listeners w = []) /\
  (exists w,
     AudioReactiveGrid.lifecycle gnow gevs
       (AudioReactiveGrid.initialState gcv gscroll dpr gnow)
       (emptyWorld random) = Normal tt w /\
     frames w = [] /\ listeners w = []).
Proof.
  split; [|split].
  - destruct (ParticlesLifecycle.particles_lifecycle_spec pcv pscroll random pevs)
      as (w & E & F & L & _).
    exists w. auto.
  - destruct (PortalProofs.portal_lifecycle_spec portal dcv innerWidth
                innerHeight dnow random devs) as (w & E & F & L & _).
    exists w. auto.
  - destruct (GridProofs.grid_lifecycle_spec gcv gscroll dpr gnow random gevs)
      as (w & E & F & L & _).
    exists w. auto.
Qed.

(** C10.  The level that [simulateAudio] stores is the clamped one, which
    lies in [0, 1] for every timestamp and every random sample; a frame
    passes the level of its render as the audioLevel uniform; and over the
    whole life of the grid every value passed as that uniform lies in
    [0, 1]. *)
Theorem C10_audio_level_uniform_within_unit_interval :
  (forall (now : Z) (random : R),
     0 <= AudioReactiveGrid.normalizedLevel now random <= 1) /\
  (forall (now : Z) (g : AudioReactiveGrid.Grid)
          (w : World AudioReactiveGrid.Callback),
     exists g' w',
       AudioReactiveGrid.simulateAudio now g w = Normal g' w' /\
       AudioReactiveGrid.audioLevel g' =
       AudioReactiveGrid.normalizedLevel now (randomSource w (randomIndex w))) /\
  (forall (cl : AudioReactiveGrid.Closure) (cv : AudioReactiveGrid.Canvas)
          (now : Z),
     In (Call "uniform1f audioLevel" [AudioReactiveGrid.cl_audioLevel cl])
        (AudioReactiveGrid.frameCalls cl cv now)) /\
  (forall (cv : option AudioReactiveGrid.Canvas) (scroll dpr : R) (now : Z)
          (random : nat -> R) (evs : list AudioReactiveGrid.Event),
     exists w,
       AudioReactiveGrid.lifecycle now evs
         (AudioReactiveGrid.initialState cv scroll dpr now)
         (emptyWorld random) = Normal tt w /\
       Forall AudioReactiveGrid.levelCall (drawn w)).
Proof.
  split; [exact GridProofs.normalizedLevel_bounds|]. split; [|split].
  - intros now g w.
    destruct (GridProofs.simulateAudio_spec now g w)
      as (g' & w' & E & -> & _).
    eexists. exists w'. split; [exact E|reflexivity].
  - intros cl cv now. unfold AudioReactiveGrid.frameCalls.
    do 12 right. left. reflexivity.
  - intros cv scroll dpr now random evs.
    destruct (GridProofs.grid_lifecycle_spec cv scroll dpr now random evs)
      as (w & E & _ & _ & Hok & _).
    exists w. split; [exact E|exact Hok].
Qed.

End RendererProofs.

(** ** More about the logo animation: progress, easing and geometry *)

Module LogoGeometry.
Import InteractiveLogoAnimation.

(** X1.  For a range with [min < max], [normalizeProgress] yields a value in
    [0, 1]: 0 up to [min], 1 from [max] on, the linear ratio in between; and
    it never decreases when [current] grows. *)
Theorem X1_normalizeProgress_clamps_linear_ratio
    (current current' min max : R) :
  min < max ->
  0 <= normalizeProgress current min max <= 1 /\
  (current <= min -> normalizeProgress current min max = 0) /\
  (max <= current -> normalizeProgress current min max = 1) /\
  (min <= current <= max ->
   normalizeProgress current min max = (current - min) / (max - min)) /\
  (current <= current' ->
   normalizeProgress current min max <= normalizeProgress current' min max).
Proof.
  intros Hlt. unfold normalizeProgress.
  assert (Hd : 0 < max - min) by lra.
  assert (Hdiv : forall c, (0 <= (c - min) / (max - min) <-> min <= c) /\
                           ((c - min) / (max - min) <= 1 <-> c <= max)).
  { intros c. split; split; intros H.
    - apply Rmult_le_compat_r with (r := max - min) in H; [|lra].
      unfold Rdiv in H. rewrite Rmult_assoc, Rinv_l in H; lra.
    - apply Rmult_le_pos; [lra|]. left. apply Rinv_0_lt_compat. exact Hd.
    - apply Rmult_le_compat_r with (r := max - min) in H; [|lra].
      unfold Rdiv in H. rewrite Rmult_assoc, Rinv_l in H; lra.
    - apply Rmult_le_reg_r with (r := max - min); [exact Hd|].
      unfold Rdiv. rewrite Rmult_assoc, Rinv_l; lra. }
  split; [|split; [|split; [|split]]].
  - split; [apply Rmin_glb; [lra|apply Rmax_l] | apply Rmin_l].
  - intros H.
    assert ((current - min) / (max - min) <= 0).
    { destruct (Rle_dec ((current - min) / (max - min)) 0) as [|N]; [lra|].
      exfalso. assert (min <= current) by (apply Hdiv; lra).
      assert (current = min) by lra. subst current.
      apply N. unfold Rdiv. rewrite Rminus_diag. lra. }
    rewrite Rmax_left by lra. rewrite Rmin_right; lra.
  - intros H.
    assert (1 <= (current - min) / (max - min)).
    { apply Rmult_le_reg_r with (r := max - min); [exact Hd|].
      unfold Rdiv. rewrite Rmult_assoc, Rinv_l; lra. }
    rewrite Rmax_right by lra. rewrite Rmin_left; lra.
  - intros [H1 H2].
    rewrite Rmax_right by (apply Hdiv; exact H1).
    rewrite Rmin_right; [reflexivity|apply Hdiv; exact H2].
  - intros H.
    assert ((current - min) / (max - min) <= (current' - min) / (max - min)).
    { apply Rmult_le_compat_r; [|lra]. left. apply Rinv_0_lt_compat.
      exact Hd. }
    apply Rle_min_compat_l. apply Rle_max_compat_l. assumption.
Qed.

Lemma X1_normalizeProgress_witness :
  0.35 < 0.45 /\ normalizeProgress 0.5 0.35 0.45 = 1.
Proof.
  assert (H : 0.35 < 0.45) by lra.
  split; [exact H|].
  apply (X1_normalizeProgress_clamps_linear_ratio 0.5 0.5 0.35 0.45 H). lra.
Defined.

Lemma cube_mono (a b : R) : 0 <= a -> a <= b -> a ^ 3 <= b ^ 3.
Proof. intros. apply pow_incr. lra. Qed.

Lemma quint_mono (a b : R) : 0 <= a -> a <= b -> a ^ 5 <= b ^ 5.
Proof. intros. apply pow_incr. lra. Qed.

Lemma easeInOutCubic_low (x : R) : x < 0.5 -> easeInOutCubic x = 4 * x ^ 3.
Proof.
  intros H. unfold easeInOutCubic.
  rewrite (proj2 (Rltb_true _ _) H). ring.
Qed.

Lemma easeInOutCubic_high (x : R) :
  0.5 <= x -> easeInOutCubic x = 1 - (2 - 2 * x) ^ 3 / 2.
Proof.
  intros H. unfold easeInOutCubic.
  rewrite (proj2 (Rltb_false _ _) H). field.
Qed.

Lemma easeInOutCubic_mono (x y : R) :
  0 <= x -> x <= y -> y <= 1 -> easeInOutCubic x <= easeInOutCubic y.
Proof.
  intros H0 Hxy H1.
  destruct (Rlt_dec x 0.5) as [Hx|Hx]; destruct (Rlt_dec y 0.5) as [Hy|Hy].
  - rewrite !easeInOutCubic_low by assumption.
    pose proof (cube_mono x y H0 Hxy). lra.
  - rewrite easeInOutCubic_low by assumption.
    rewrite easeInOutCubic_high by lra.
    pose proof (cube_mono x 0.5 H0 ltac:(lra)) as A.
    pose proof (cube_mono (2 - 2 * y) 1 ltac:(lra) ltac:(lra)) as B.
    replace (0.5 ^ 3) with 0.125 in A by lra.
    replace (1 ^ 3) with 1 in B by lra. lra.
  - lra.
  - rewrite !easeInOutCubic_high by lra.
    pose proof (cube_mono (2 - 2 * y) (2 - 2 * x) ltac:(lra) ltac:(lra)). lra.
Qed.

(** X2.  The three easing functions map [0, 1] into [0, 1], leave 0 and 1
    where they are, and never decrease on [0, 1]; [easeInOutCubic] is
    symmetric about the midpoint, where its two branches meet at 1/2. *)
Theorem X2_easings_are_monotone_maps_of_the_unit_interval (x y : R) :
  0 <= x -> x <= y -> y <= 1 ->
  (0 <= easeInOutCubic x <= 1 /\ 0 <= easeOutQuint x <= 1 /\
   0 <= easeInQuint x <= 1) /\
  (easeInOutCubic x <= easeInOutCubic y /\ easeOutQuint x <= easeOutQuint y /\
   easeInQuint x <= easeInQuint y) /\
  (easeInOutCubic 0 = 0 /\ easeOutQuint 0 = 0 /\ easeInQuint 0 = 0) /\
  (easeInOutCubic 1 = 1 /\ easeOutQuint 1 = 1 /\ easeInQuint 1 = 1) /\
  easeInOutCubic 0.5 = 0.5 /\
  (x <> 0.5 -> easeInOutCubic (1 - x) = 1 - easeInOutCubic x).
Proof.
  intros H0 Hxy H1.
  assert (E0 : easeInOutCubic 0 = 0)
    by (rewrite easeInOutCubic_low by lra; lra).
  assert (E1 : easeInOutCubic 1 = 1)
    by (rewrite easeInOutCubic_high by lra; lra).
  assert (Q : forall a, easeInQuint a = a ^ 5) by (intros; unfold easeInQuint; ring).
  split; [|split; [|split; [|split; [|split]]]].
  - split; [|split].
    + pose proof (easeInOutCubic_mono 0 x ltac:(lra) H0 ltac:(lra)).
      pose proof (easeInOutCubic_mono x 1 H0 ltac:(lra) ltac:(lra)). lra.
    + unfold easeOutQuint.
      pose proof (quint_mono 0 (1 - x) ltac:(lra) ltac:(lra)) as A.
      pose proof (quint_mono (1 - x) 1 ltac:(lra) ltac:(lra)) as B.
      replace (0 ^ 5) with 0 in A by lra. replace (1 ^ 5) with 1 in B by lra.
      lra.
    + rewrite Q.
      pose proof (quint_mono 0 x ltac:(lra) H0) as A.
      pose proof (quint_mono x 1 H0 ltac:(lra)) as B.
      replace (0 ^ 5) with 0 in A by lra. replace (1 ^ 5) with 1 in B by lra.
      lra.
  - split; [apply easeInOutCubic_mono; assumption|split].
    + unfold easeOutQuint.
      pose proof (quint_mono (1 - y) (1 - x) ltac:(lra) ltac:(lra)). lra.
    + rewrite !Q. apply quint_mono; assumption.
  - split; [exact E0|]. unfold easeOutQuint, easeInQuint. split; lra.
  - split; [exact E1|]. unfold easeOutQuint, easeInQuint. split; lra.
  - rewrite easeInOutCubic_high by lra. lra.
  - intros Hne. destruct (Rlt_dec x 0.5) as [Hx|Hx].
    + rewrite (easeInOutCubic_low x) by assumption.
      rewrite easeInOutCubic_high by lra. field.
    + rewrite (easeInOutCubic_high x) by lra.
      rewrite easeInOutCubic_low by lra. field.
Qed.

Lemma X2_easings_witness :
  easeInOutCubic 0.25 <= easeInOutCubic 0.75 /\
  easeOutQuint 0.25 <= easeOutQuint 0.75.
Proof.
  assert (H0 : 0 <= 0.25) by lra.
  assert (H1 : 0.25 <= 0.75) by lra.
  assert (H2 : 0.75 <= 1) by lra.
  pose proof (X2_easings_are_monotone_maps_of_the_unit_interval
                0.25 0.75 H0 H1 H2) as H.
  split; apply H.
Defined.

(** *** The square while it expands and while it falls *)

(** The box that a render of stage 5 or 6 with the permission leaves on the
    square. *)
Lemma expansion_box (i : Inputs) (d : Dom) (sq : SquareStyle) :
  square d = Some sq ->
  in_animationStage i = Expand \/ in_animationStage i = Final ->
  in_canExpand i = true ->
  let e := easeOutQuint (expansionProgressOf i) in
  let w := 64 + e * (innerWidth i - 64) in
  let h := 64 + e * (innerHeight i - 64) in
  exists sq',
    square (out_dom (calculateStages i d)) = Some sq' /\
    width sq' = w /\ height sq' = h /\ left sq' = (innerWidth i - w) / 2 /\
    top sq' = innerHeight i * 0.6
              + e * ((innerHeight i - h) / 2 - innerHeight i * 0.6).
Proof.
  intros E Hstage Hce. destruct d as [sq0 vc v sl]. simpl in E. subst sq0.
  unfold expansionProgressOf.
  destruct i as [s ce stg prev sc w h now].
  cbn [in_animationStage in_canExpand in_interpolatedScroll innerWidth
       innerHeight] in *.
  subst ce.
  destruct Hstage as [Hs|Hs]; subst stg;
    (eexists; split; [reflexivity|]); repeat split; reflexivity.
Qed.

(** X3.  In a render of the Expand or Final stage on a viewport of at least
    64 by 64 px, the square is between 64 px and the viewport in each
    dimension, is centred horizontally, lies inside the viewport with its top
    edge between 0 and 60% of the height, and from scroll position 0.65 on it
    covers the viewport exactly. *)
Theorem X3_expanding_square_stays_inside_and_ends_covering_the_viewport
    (i : Inputs) (d : Dom) (sq : SquareStyle) :
  square d = Some sq ->
  in_animationStage i = Expand \/ in_animationStage i = Final ->
  in_canExpand i = true ->
  64 <= innerWidth i -> 64 <= innerHeight i ->
  exists sq',
    square (out_dom (calculateStages i d)) = Some sq' /\
    64 <= width sq' <= innerWidth i /\ 64 <= height sq' <= innerHeight i /\
    left sq' + width sq' / 2 = innerWidth i / 2 /\
    0 <= left sq' /\ left sq' + width sq' <= innerWidth i /\
    0 <= top sq' <= innerHeight i * 0.6 /\
    (0.65 <= in_interpolatedScroll i ->
     width sq' = innerWidth i /\ height sq' = innerHeight i /\
     left sq' = 0 /\ top sq' = 0).
Proof.
  intros E Hstage Hce Hw Hh.
  destruct (expansion_box i d sq E Hstage Hce)
    as (sq' & Esq & Ew & Ehh & El & Et).
  exists sq'. split; [exact Esq|].
  assert (He : 0 <= easeOutQuint (expansionProgressOf i) <= 1).
  { unfold expansionProgressOf. apply LogoProofs.easeOutQuint_bounds.
    destruct (Nat.eqb _ 5); apply LogoProofs.normalizeProgress_bounds. }
  set (e := easeOutQuint (expansionProgressOf i)) in *.
  rewrite Ew, Ehh, El, Et.
  set (W := innerWidth i) in *. set (H := innerHeight i) in *.
  assert (0 <= e * (W - 64) <= W - 64) by nra.
  assert (0 <= e * (H - 64) <= H - 64) by nra.
  split; [lra|]. split; [lra|]. split; [lra|]. split; [lra|].
  split; [lra|]. split; [split; nra|].
  intros Hs.
  assert (E1 : e = 1).
  { unfold e, expansionProgressOf, normalizeProgress, easeOutQuint.
    destruct (Nat.eqb _ 5); cbn [lo hi fallToExpand expandToFinal].
    - assert (1 <= (in_interpolatedScroll i - 0.45) / (0.55 - 0.45)).
      { apply Rmult_le_reg_r with (r := 0.55 - 0.45); [lra|].
        unfold Rdiv. rewrite Rmult_assoc, Rinv_l; lra. }
      rewrite Rmax_right by lra. rewrite Rmin_left by lra. lra.
    - assert (1 <= (in_interpolatedScroll i - 0.55) / (0.65 - 0.55)).
      { apply Rmult_le_reg_r with (r := 0.65 - 0.55); [lra|].
        unfold Rdiv. rewrite Rmult_assoc, Rinv_l; lra. }
      rewrite Rmax_right by lra. rewrite Rmin_left by lra. lra. }
  rewrite E1. repeat split; lra.
Qed.

Lemma X3_expanding_square_witness :
  exists sq',
    square (out_dom (calculateStages expandInputs mountedDom)) = Some sq' /\
    64 <= width sq' <= 1280.
Proof.
  assert (Hw : 64 <= innerWidth expandInputs) by (simpl; lra).
  assert (Hh : 64 <= innerHeight expandInputs) by (simpl; lra).
  destruct (X3_expanding_square_stays_inside_and_ends_covering_the_viewport
              expandInputs mountedDom mountedSquare eq_refl
              (or_introl eq_refl) eq_refl Hw Hh) as (sq' & E & B & _).
  exists sq'. split; [exact E|exact B].
Defined.

(** The square that a render of stage 4 leaves. *)
Lemma fall_box (i : Inputs) (d : Dom) (sq : SquareStyle) :
  square d = Some sq ->
  in_animationStage i = Fall ->
  let p := displayFallProgress
             (normalizeProgress (in_interpolatedScroll i) (lo floatToFall)
                                (hi floatToFall)) (in_canExpand i) in
  let direction :=
    if in_previousScrollProgress i >? in_interpolatedScroll i then -1 else 1 in
  square (out_dom (calculateStages i d)) =
  Some (mkSquare 1 64 64 (innerWidth i * 0.4)
          (96 + easeInQuint p * (innerHeight i * 0.6 - 96))
          (rgb 220 38 38) (Rotate (direction * (8 * sin (p * PI))))
          (shadow (easeInQuint p * 20) 15 (easeInQuint p * 0.3))).
Proof.
  intros E Hstage. destruct d as [sq0 vc v sl]. simpl in E. subst sq0.
  destruct i as [s ce stg prev sc w h now].
  cbn [in_animationStage in_canExpand in_interpolatedScroll innerWidth
       innerHeight in_previousScrollProgress] in *.
  subst stg. reflexivity.
Qed.

Lemma displayFallProgress_bounds (fallProgress : R) (canExpand : bool) :
  0 <= fallProgress <= 1 ->
  0 <= displayFallProgress fallProgress canExpand <= 1 /\
  (canExpand = false -> displayFallProgress fallProgress canExpand <= 0.95).
Proof.
  intros H. unfold displayFallProgress, Rgtb.
  destruct canExpand; cbn [negb andb].
  - split; [exact H|discriminate].
  - destruct (Rltb 0.95 fallProgress) eqn:E.
    + split; [lra|intros _; lra].
    + apply Rltb_false in E. split; [exact H|intros _; exact E].
Qed.

(** X4.  In a render of the Fall stage the square is the 64 px box at 40% of
    the width, fully opaque; its top edge lies between 96 px and 60% of the
    viewport height; it is turned by at most 8 degrees, against the clock
    when the scroll position went down and with it otherwise; and as long as
    the expand permission is missing it gets no further than 0.95^5 (about
    77%) of the way down. *)
Theorem X4_falling_square_stays_on_its_track
    (i : Inputs) (d : Dom) (sq : SquareStyle) :
  square d = Some sq ->
  in_animationStage i = Fall ->
  96 <= innerHeight i * 0.6 ->
  exists sq' rotation,
    square (out_dom (calculateStages i d)) = Some sq' /\
    transform sq' = Rotate rotation /\
    opacity sq' = 1 /\ width sq' = 64 /\ height sq' = 64 /\
    left sq' = innerWidth i * 0.4 /\
    96 <= top sq' <= innerHeight i * 0.6 /\
    -8 <= rotation <= 8 /\
    (in_previousScrollProgress i > in_interpolatedScroll i -> rotation <= 0) /\
    (in_previousScrollProgress i <= in_interpolatedScroll i -> 0 <= rotation) /\
    (in_canExpand i = false ->
     top sq' <= 96 + 0.95 ^ 5 * (innerHeight i * 0.6 - 96)).
Proof.
  intros E Hstage Hh. rewrite (fall_box i d sq E Hstage).
  destruct (displayFallProgress_bounds
              (normalizeProgress (in_interpolatedScroll i) (lo floatToFall)
                                 (hi floatToFall)) (in_canExpand i)
              (LogoProofs.normalizeProgress_bounds _ _ _)) as [Hp Hcap].
  set (p := displayFallProgress _ _) in *.
  assert (Q : easeInQuint p = p ^ 5) by (unfold easeInQuint; ring).
  assert (Hq : 0 <= p ^ 5 <= 1).
  { pose proof (quint_mono 0 p ltac:(lra) ltac:(lra)) as A.
    pose proof (quint_mono p 1 ltac:(lra) ltac:(lra)) as B.
    replace (0 ^ 5) with 0 in A by lra. replace (1 ^ 5) with 1 in B by lra.
    lra. }
  assert (Hsin : 0 <= sin (p * PI) <= 1).
  { pose proof PI_RGT_0. split.
    - apply sin_ge_0; nra.
    - apply SIN_bound. }
  eexists. eexists. split; [reflexivity|].
  cbn [transform opacity width height left top]. rewrite Q.
  split; [reflexivity|]. split; [reflexivity|]. split; [reflexivity|].
  split; [reflexivity|]. split; [reflexivity|].
  split; [split; nra|].
  unfold Rgtb.
  destruct (Rltb (in_interpolatedScroll i) (in_previousScrollProgress i)) eqn:Ed;
    [apply Rltb_true in Ed|apply Rltb_false in Ed].
  - split; [lra|]. split; [intros _; lra|]. split; [intros N; lra|].
    intros Hce. specialize (Hcap Hce).
    pose proof (quint_mono p 0.95 ltac:(lra) Hcap). nra.
  - split; [lra|]. split; [intros N; lra|]. split; [intros _; lra|].
    intros Hce. specialize (Hcap Hce).
    pose proof (quint_mono p 0.95 ltac:(lra) Hcap). nra.
Qed.

Lemma X4_falling_square_witness :
  exists sq' rotation,
    square (out_dom (calculateStages fallInputs mountedDom)) = Some sq' /\
    transform sq' = Rotate rotation /\ opacity sq' = 1.
Proof.
  assert (Hh : 96 <= innerHeight fallInputs * 0.6) by (simpl; lra).
  destruct (X4_falling_square_stays_on_its_track
              fallInputs mountedDom mountedSquare eq_refl eq_refl Hh)
    as (sq' & rotation & E & T & O & _).
  exists sq', rotation. split; [exact E|]. split; [exact T|exact O].
Defined.

(** The opacity that a render of stage 5 or 6 with the permission gives to
    the video container and to the video. *)
Lemma expansion_video (i : Inputs) (d : Dom) (sq : SquareStyle) :
  square d = Some sq ->
  in_animationStage i = Expand \/ in_animationStage i = Final ->
  in_canExpand i = true ->
  let e := easeOutQuint (expansionProgressOf i) in
  let v := if e >? 0.7 then easeInOutCubic (Rmin 1 ((e - 0.7) * 3.33))
           else 0 in
  videoContainer (out_dom (calculateStages i d))
  = option_map (fun _ => v) (videoContainer d) /\
  video (out_dom (calculateStages i d)) = option_map (fun _ => v) (video d).
Proof.
  intros E Hstage Hce. destruct d as [sq0 vc v sl]. simpl in E. subst sq0.
  unfold expansionProgressOf.
  destruct i as [s ce stg prev sc w h now].
  cbn [in_animationStage in_canExpand in_interpolatedScroll innerWidth
       innerHeight] in *.
  subst ce.
  destruct Hstage as [Hs|Hs]; subst stg; split; reflexivity.
Qed.

(** X5.  In a render of the Expand or Final stage the video container and
    the video get the same opacity; it is 0 until the eased expansion
    progress exceeds 0.7, it lies in [0, 1), and it never reaches 1: the
    factor 3.33 leaves the argument of the easing at 0.999 at most. *)
Theorem X5_video_fades_in_late_and_never_fully
    (i : Inputs) (d : Dom) (sq : SquareStyle) :
  square d = Some sq ->
  in_animationStage i = Expand \/ in_animationStage i = Final ->
  in_canExpand i = true ->
  exists v,
    videoContainer (out_dom (calculateStages i d))
    = option_map (fun _ => v) (videoContainer d) /\
    video (out_dom (calculateStages i d)) = option_map (fun _ => v) (video d) /\
    0 <= v < 1 /\
    (easeOutQuint (expansionProgressOf i) <= 0.7 -> v = 0).
Proof.
  intros E Hstage Hce.
  destruct (expansion_video i d sq E Hstage Hce) as [Ec Ev].
  assert (He : 0 <= easeOutQuint (expansionProgressOf i) <= 1).
  { unfold expansionProgressOf. apply LogoProofs.easeOutQuint_bounds.
    destruct (Nat.eqb _ 5); apply LogoProofs.normalizeProgress_bounds. }
  set (e := easeOutQuint (expansionProgressOf i)) in *.
  eexists. split; [exact Ec|]. split; [exact Ev|].
  unfold Rgtb. destruct (Rltb 0.7 e) eqn:Ed;
    [apply Rltb_true in Ed|apply Rltb_false in Ed].
  - assert (Ha : 0 <= (e - 0.7) * 3.33 <= 0.999) by lra.
    rewrite Rmin_right by lra.
    set (a := (e - 0.7) * 3.33) in *.
    pose proof (easeInOutCubic_mono 0 a ltac:(lra) ltac:(lra) ltac:(lra)) as A.
    pose proof (easeInOutCubic_mono a 0.999 ltac:(lra) ltac:(lra) ltac:(lra))
      as B.
    rewrite easeInOutCubic_low in A by lra.
    rewrite (easeInOutCubic_high 0.999) in B by lra.
    split; [split; lra|intros N; lra].
  - split; [lra|reflexivity].
Qed.

Lemma X5_video_witness :
  exists v,
    videoContainer (out_dom (calculateStages expandInputs mountedDom)) = Some v /\
    0 <= v < 1.
Proof.
  destruct (X5_video_fades_in_late_and_never_fully
              expandInputs mountedDom mountedSquare eq_refl
              (or_introl eq_refl) eq_refl) as (v & Ec & _ & B & _).
  exists v. split; [exact Ec|exact B].
Defined.

End LogoGeometry.

(** ** The frame loops of the logo animation *)

Module ScrollInterpolationProofs.
Import Browser ScrollInterpolation.
Local Open Scope js_scope.

(** [n] frames in a row. *)
Lemma interpolation_frames_alone (cl : Closure) (n : nat) :
  Rabs (cl_scrollProgress cl - cl_interpolatedScroll cl) > 0.0001 ->
  forall (st : State) (w : World Callback),
    frames w = [(animationFrameId st, SmoothScrollInterpolation cl)] ->
    exists st' w',
      handleAll (repeat Frame n) st w = Normal st' w' /\
      frames w' = [(animationFrameId st', SmoothScrollInterpolation cl)] /\
      scrollProgress st' = scrollProgress st /\
      interpolatedScroll st' =
      interpolatedScroll st
      + INR n * ((cl_scrollProgress cl - cl_interpolatedScroll cl) * 0.12).
Proof.
  intros Hd. induction n as [|n IH]; intros st w Hf.
  - exists st, w. cbn [repeat handleAll]. repeat split; auto.
    cbn [INR]. lra.
  - cbn [repeat handleAll]. unfold bind at 1. unfold handle. rewrite Hf.
    cbn [runFrames]. unfold bind at 1.
    unfold takeFrame at 1, cancelAnimationFrame at 1. rewrite Hf.
    cbn [filter fst]. rewrite Nat.eqb_refl. cbn [negb].
    unfold bind at 1. unfold smoothScrollInterpolation at 1. cbv zeta.
    unfold Rgtb. rewrite (proj2 (Rltb_true _ _) Hd).
    unfold bind at 1. unfold requestAnimationFrame at 1.
    cbn [nextHandle frames listeners consoleErrors drawn randomSource
         randomIndex app ret].
    match goal with
    | |- context [handleAll _ ?st1 ?w1] =>
      destruct (IH st1 w1 eq_refl) as (st' & w' & E & F & S & I)
    end.
    rewrite E. exists st', w'. split; [reflexivity|]. split; [exact F|].
    split; [exact S|]. rewrite I. cbn [interpolatedScroll].
    rewrite S_INR. lra.
Qed.

(** X6.  After the effect ran for scroll progress [s] with the interpolated
    value [i0] more than 0.0001 away, every frame adds the same step
    0.12 * (s - i0), computed from the captured [i0]: after [n] frames the
    interpolated value is i0 + n * 0.12 * (s - i0), the loop is still
    running, and from the ninth frame on the value lies beyond [s]. *)
Theorem X6_interpolation_steps_are_constant_and_pass_the_target
    (s i0 : R) (handle0 n : nat) (random : nat -> R) :
  Rabs (s - i0) > 0.0001 ->
  exists st w,
    (st0 <- effect (mkState s i0 handle0) ;;
     handleAll (repeat Frame n) st0)%js (emptyWorld random) = Normal st w /\
    interpolatedScroll st = i0 + INR n * 0.12 * (s - i0) /\
    frames w =
      [(animationFrameId st, SmoothScrollInterpolation (mkClosure s i0))] /\
    ((9 <= n)%nat -> Rabs (interpolatedScroll st - i0) > Rabs (s - i0)).
Proof.
  intros Hd. unfold bind at 1, effect at 1, bind at 1.
  unfold requestAnimationFrame at 1.
  cbn [emptyWorld nextHandle frames listeners consoleErrors drawn randomSource
       randomIndex app ret scrollProgress interpolatedScroll].
  match goal with
  | |- context [handleAll _ ?st1 ?w1] =>
    destruct (interpolation_frames_alone (mkClosure s i0) n Hd st1 w1 eq_refl)
      as (st & w & E & F & S & I)
  end.
  exists st, w. split; [exact E|].
  cbn [cl_scrollProgress cl_interpolatedScroll interpolatedScroll] in I.
  split; [rewrite I; lra|]. split; [exact F|].
  intros Hn. rewrite I.
  replace (i0 + INR n * ((s - i0) * 0.12) - i0)
    with ((INR n * 0.12) * (s - i0)) by lra.
  assert (H9 : 9 <= INR n).
  { apply le_INR in Hn. simpl in Hn. lra. }
  rewrite Rabs_mult, (Rabs_right (INR n * 0.12)) by lra.
  assert (0 < Rabs (s - i0)) by lra. nra.
Qed.

Lemma X6_interpolation_witness :
  exists st w,
    (st0 <- effect (initialState 0.5) ;;
     handleAll (repeat Frame 9) st0)%js (emptyWorld sampleRandom)
    = Normal st w /\
    interpolatedScroll st = 0 + INR 9 * 0.12 * (0.5 - 0).
Proof.
  assert (H : Rabs (0.5 - 0) > 0.0001).
  { rewrite Rabs_right; lra. }
  destruct (X6_interpolation_steps_are_constant_and_pass_the_target
              0.5 0 0 9 sampleRandom H) as (st & w & E & I & _).
  exists st, w. split; [exact E|exact I].
Defined.

Lemma interpolation_handle_spec (e : Event) (st : State) (w : World Callback) :
  mounted st w ->
  exists st' w', handle e st w = Normal st' w' /\ mounted st' w' /\
                 listeners w' = listeners w.
Proof.
  intros Hm. destruct e as [|s]; unfold handle.
  - destruct Hm as [Hf|(cl & Hf)]; rewrite Hf.
    { exists st, w. repeat split; auto. left. exact Hf. }
    cbn [runFrames]. unfold bind at 1.
    unfold takeFrame at 1, cancelAnimationFrame at 1. rewrite Hf.
    cbn [filter fst]. rewrite Nat.eqb_refl. cbn [negb].
    unfold bind at 1. unfold smoothScrollInterpolation at 1. cbv zeta.
    destruct (_ >? _).
    + eexists. eexists. split; [reflexivity|]. split; [|reflexivity].
      right. exists cl. reflexivity.
    + eexists. eexists. split; [reflexivity|]. split; [|reflexivity].
      left. reflexivity.
  - destruct (Req_dec_T s (scrollProgress st)).
    { exists st, w. repeat split; auto. }
    eexists. eexists. split; [reflexivity|]. split; [|reflexivity].
    right. eexists. cbn.
    destruct Hm as [->|(cl & ->)]; cbn; rewrite ?Nat.eqb_refl; reflexivity.
Qed.

Lemma interpolation_handleAll_spec (evs : list Event) :
  forall (st : State) (w : World Callback),
    mounted st w ->
    exists st' w', handleAll evs st w = Normal st' w' /\ mounted st' w' /\
                   listeners w' = listeners w.
Proof.
  induction evs as [|e rest IH]; intros st w Hm; cbn [handleAll].
  - exists st, w. repeat split; auto.
  - destruct (interpolation_handle_spec e st w Hm) as (st1 & w1 & E1 & Hm1 & L1).
    destruct (IH st1 w1 Hm1) as (st2 & w2 & E2 & Hm2 & L2).
    unfold bind. rewrite E1, E2. exists st2, w2. split; [reflexivity|].
    split; [exact Hm2|congruence].
Qed.

(** X7.  When the effect runs with the interpolated value within 0.0001 of
    the scroll progress, the first frame sets it to the scroll progress and
    asks for no further frame.  And whatever frames and new scroll
    progresses come between mounting and unmounting, the cleanup leaves no
    frame request pending. *)
Theorem X7_interpolation_settles_within_tolerance_and_is_cancelled
    (s i0 : R) (handle0 : nat) (random : nat -> R) (evs : list Event) :
  (Rabs (s - i0) <= 0.0001 ->
   exists st w,
     (st0 <- effect (mkState s i0 handle0) ;; handle Frame st0)%js
       (emptyWorld random) = Normal st w /\
     interpolatedScroll st = s /\ frames w = []) /\
  exists w,
    lifecycle evs (mkState s i0 handle0) (emptyWorld random) = Normal tt w /\
    frames w = [].
Proof.
  split.
  - intros Hd.
    cbv [bind effect handle requestAnimationFrame takeFrame
         cancelAnimationFrame smoothScrollInterpolation runFrames emptyWorld
         nextHandle frames listeners consoleErrors drawn randomSource
         randomIndex app ret filter fst Nat.eqb negb cl_scrollProgress
         cl_interpolatedScroll scrollProgress interpolatedScroll].
    unfold Rgtb. rewrite (proj2 (Rltb_false _ _) Hd).
    eexists. eexists. split; [reflexivity|]. split; reflexivity.
  - unfold lifecycle.
    assert (Hm : exists st1 w1,
               effect (mkState s i0 handle0) (emptyWorld random)
               = Normal st1 w1 /\ mounted st1 w1).
    { eexists. eexists. split; [reflexivity|]. right. eexists. reflexivity. }
    destruct Hm as (st1 & w1 & E1 & Hm1).
    destruct (interpolation_handleAll_spec evs st1 w1 Hm1) as (st2 & w2 & E2 & Hm2 & _).
    unfold bind. rewrite E1, E2. unfold cleanup, cancelAnimationFrame.
    eexists. split; [reflexivity|]. cbn [frames].
    destruct Hm2 as [->|(cl & ->)]; cbn; rewrite ?Nat.eqb_refl; reflexivity.
Qed.

End ScrollInterpolationProofs.

Module StageEffectProofs.
Import Browser InteractiveLogoAnimation StageEffect.
Local Open Scope js_scope.

Lemma filter_other (h : nat) (l : list (nat * Callback)) :
  ~ In h (map fst l) ->
  filter (fun f : nat * Callback => negb (Nat.eqb (fst f) h)) l = l.
Proof.
  induction l as [|[h' c] l IH]; intros Hn; cbn [filter fst].
  - reflexivity.
  - cbn [map fst In] in Hn.
    rewrite (proj2 (Nat.eqb_neq h' h)) by tauto. cbn [negb].
    rewrite IH by tauto. reflexivity.
Qed.

Lemma filter_one (h : nat) (l : list (nat * Callback)) :
  NoDup (map fst l) -> In h (map fst l) ->
  List.length (filter (fun f : nat * Callback => negb (Nat.eqb (fst f) h)) l)
  = pred (List.length l) /\
  ~ In h (map fst (filter (fun f : nat * Callback =>
                             negb (Nat.eqb (fst f) h)) l)) /\
  NoDup (map fst (filter (fun f : nat * Callback =>
                            negb (Nat.eqb (fst f) h)) l)) /\
  incl (filter (fun f : nat * Callback => negb (Nat.eqb (fst f) h)) l) l.
Proof.
  induction l as [|[h' c] l IH]; intros Hd Hi.
  - destruct Hi.
  - cbn [map fst] in Hd, Hi. inversion Hd as [|? ? Hn Hd']; subst.
    cbn [filter fst]. destruct (Nat.eqb h' h) eqn:E; cbn [negb].
    + apply Nat.eqb_eq in E. subst h'. rewrite filter_other by exact Hn.
      split; [reflexivity|]. split; [exact Hn|]. split; [exact Hd'|].
      apply incl_tl, incl_refl.
    + apply Nat.eqb_neq in E.
      destruct Hi as [Hi|Hi]; [contradiction|].
      destruct (IH Hd' Hi) as (L & N & D & I).
      split; [|split; [|split]].
      * cbn [List.length]. rewrite L. destruct l; [destruct Hi|reflexivity].
      * cbn [map fst In]. tauto.
      * cbn [map fst]. constructor; [|exact D].
        intros Hin. apply Hn. apply in_map_iff in Hin.
        destruct Hin as (f & Ef & Hf). apply in_map_iff. exists f.
        split; [exact Ef|apply I; exact Hf].
      * apply incl_cons; [left; reflexivity|apply incl_tl; exact I].
Qed.

(** Serving the requests [pending], the first ones of the pending list:
    each callback puts one new request at the end. *)
Lemma stage_runFrames_spec (now : Z) (pending : list (nat * Callback)) :
  forall (rest : list (nat * Callback)) (st : State) (w : World Callback),
    frames w = pending ++ rest ->
    NoDup (handles w) ->
    Forall (fun h => (h < nextHandle w)%nat) (handles w) ->
    exists st' w' new,
      runFrames now pending st w = Normal st' w' /\
      frames w' = rest ++ new /\
      List.length new = List.length pending /\
      Forall (fun h => (nextHandle w <= h)%nat) (map fst new) /\
      NoDup (handles w') /\
      Forall (fun h => (h < nextHandle w')%nat) (handles w') /\
      (nextHandle w <= nextHandle w')%nat /\
      animationFrame st' = animationFrame st.
Proof.
  induction pending as [|[h [stage]] pending IH]; intros rest st w Hf Hd Hlt.
  - exists st, w, []. cbn [runFrames ret]. rewrite app_nil_r.
    repeat split; auto.
  - cbn [runFrames]. unfold bind at 1.
    unfold takeFrame at 1, cancelAnimationFrame at 1.
    unfold handles in Hd, Hlt. rewrite Hf in Hd, Hlt.
    cbn [app map fst] in Hd, Hlt.
    inversion Hd as [|? ? Hn Hd']; subst.
    inversion Hlt as [|? ? Hh Hlt']; subst.
    rewrite Hf. cbn [app filter fst]. rewrite Nat.eqb_refl. cbn [negb].
    rewrite filter_other by exact Hn.
    unfold bind at 1. unfold animateEffectsFrame at 1.
    unfold bind at 1. unfold requestAnimationFrame at 1.
    cbn [nextHandle frames listeners consoleErrors drawn randomSource
         randomIndex ret].
    set (entry := (nextHandle w, AnimateEffects stage)).
    match goal with
    | |- context [runFrames now pending ?st1 ?w1] =>
      destruct (IH (rest ++ [entry]) st1 w1)
        as (st' & w' & new & E & F & L & G & D & Lt & N & A)
    end.
    + cbn [frames]. rewrite <- app_assoc. reflexivity.
    + unfold handles. cbn [frames]. rewrite map_app. cbn [map fst entry].
      apply NoDup_app_remove_l with (l := []). cbn [app].
      rewrite <- (app_nil_r [nextHandle w]).
      apply NoDup_app; [exact Hd'|repeat constructor; intros []|].
      intros x Hx [<-|[]]. rewrite Forall_forall in Hlt'.
      specialize (Hlt' _ Hx). lia.
    + unfold handles. cbn [frames nextHandle]. rewrite map_app.
      apply Forall_app. split.
      * eapply Forall_impl; [|exact Hlt']. cbv beta. intros; lia.
      * cbn [map fst entry]. constructor; [lia|constructor].
    + rewrite E. exists st', w', (entry :: new). split; [reflexivity|].
      cbn [nextHandle] in G, N.
      split; [rewrite F, <- app_assoc; reflexivity|].
      split; [cbn [List.length]; rewrite L; reflexivity|].
      split; [cbn [map fst entry]; constructor;
              [lia|eapply Forall_impl; [|exact G]; cbv beta; intros; lia]|].
      split; [exact D|]. split; [exact Lt|]. split; [lia|exact A].
Qed.

(** The cleanup of the current run: it can cancel the request of the run
    itself, and only as long as no frame has served it. *)
Lemma stage_cleanup_spec (k : nat) (fresh : bool) (st : State) (w : World Callback) :
  mounted k fresh st w ->
  exists w',
    cleanup st w = Normal tt w' /\
    List.length (frames w') = k /\
    NoDup (handles w') /\
    Forall (fun h => (h < nextHandle w')%nat) (handles w') /\
    nextHandle w' = nextHandle w.
Proof.
  intros (Hd & Hlt & Ha & Hf). unfold cleanup, cancelAnimationFrame.
  eexists. split; [reflexivity|]. unfold handles in *. cbn [frames nextHandle].
  destruct fresh.
  - destruct Hf as [Hi Hl].
    destruct (filter_one (animationFrame st) (frames w) Hd Hi)
      as (L & N & D & I).
    split; [rewrite L, Hl; reflexivity|]. split; [exact D|].
    split; [|reflexivity].
    rewrite Forall_forall in *. intros h Hh. apply Hlt.
    apply in_map_iff in Hh. destruct Hh as (f & <- & Hf).
    apply in_map. apply I. exact Hf.
  - destruct Hf as [Hn Hl]. rewrite filter_other by exact Hn.
    repeat split; auto.
Qed.

Lemma stage_handle_spec (e : Event) (k : nat) (fresh : bool) (st : State)
    (w : World Callback) :
  mounted k fresh st w ->
  exists st' w',
    handle e st w = Normal st' w' /\
    match e with
    | Frame _ => mounted ((if fresh then 1 else 0) + k) false st' w'
    | Render _ => mounted k true st' w'
    end.
Proof.
  intros Hm. destruct e as [now|i]; unfold handle.
  - destruct Hm as (Hd & Hlt & Ha & Hf).
    destruct (stage_runFrames_spec now (frames w) [] st w)
      as (st' & w' & new & E & F & L & G & D & Lt & N & A);
      [rewrite app_nil_r; reflexivity|exact Hd|exact Hlt|].
    exists st', w'. split; [exact E|]. cbn [app] in F.
    split; [exact D|]. split; [exact Lt|]. split; [rewrite A; lia|].
    split.
    + unfold handles. rewrite F, A. intros Hin.
      rewrite Forall_forall in G. specialize (G _ Hin). lia.
    + rewrite F, L. destruct fresh; destruct Hf as [_ ->]; reflexivity.
  - destruct (stage_cleanup_spec k fresh st w Hm) as (w1 & E1 & L1 & D1 & Lt1 & N1).
    unfold bind. rewrite E1. unfold effect, bind, requestAnimationFrame, ret.
    eexists. eexists. split; [reflexivity|].
    unfold mounted, handles in *. cbn [frames nextHandle animationFrame].
    rewrite map_app. cbn [map fst]. split; [|split; [|split; [|split]]].
    + apply NoDup_app_remove_l with (l := []). cbn [app].
      rewrite <- (app_nil_r [nextHandle w1]).
      apply NoDup_app; [exact D1|repeat constructor; intros []|].
      intros x Hx [<-|[]]. rewrite Forall_forall in Lt1.
      specialize (Lt1 _ Hx). lia.
    + apply Forall_app. split.
      * eapply Forall_impl; [|exact Lt1]. cbv beta. intros; lia.
      * constructor; [lia|constructor].
    + lia.
    + apply in_or_app. right. left. reflexivity.
    + rewrite length_app, L1. cbn [List.length]. lia.
Qed.

Lemma stage_handleAll_spec (evs : list Event) :
  forall (k : nat) (fresh : bool) (st : State) (w : World Callback),
    mounted k fresh st w ->
    exists st' w' fresh',
      handleAll evs st w = Normal st' w' /\
      mounted (orphans fresh evs + k) fresh' st' w'.
Proof.
  induction evs as [|e rest IH]; intros k fresh st w Hm; cbn [handleAll].
  - exists st, w, fresh. split; [reflexivity|exact Hm].
  - destruct (stage_handle_spec e k fresh st w Hm) as (st1 & w1 & E1 & Hm1).
    unfold bind. rewrite E1. destruct e as [now|i]; cbn [orphans].
    + destruct (IH _ _ st1 w1 Hm1) as (st2 & w2 & fresh2 & E2 & Hm2).
      exists st2, w2, fresh2. split; [exact E2|].
      replace ((if fresh then 1 else 0) + orphans false rest + k)%nat
        with (orphans false rest + ((if fresh then 1 else 0) + k))%nat by lia.
      exact Hm2.
    + destruct (IH _ _ st1 w1 Hm1) as (st2 & w2 & fresh2 & E2 & Hm2).
      exists st2, w2, fresh2. split; [exact E2|exact Hm2].
Qed.

Lemma orphans_frame (evs : list Event) (now : Z) :
  In (Frame now) evs -> (1 <= orphans true evs)%nat.
Proof.
  induction evs as [|e rest IH]; intros Hin; [destruct Hin|].
  destruct e as [now'|i]; cbn [orphans].
  - lia.
  - destruct Hin as [Hin|Hin]; [discriminate Hin|]. apply IH. exact Hin.
Qed.

(** X8.  The frame callback [animateEffects] asks for the next frame
    without keeping the handle, and the cleanup cancels the first handle of
    its run only.  So after mounting, any sequence of frames and renders, and
    unmounting, one request is still pending for every run of the effect
    that saw a frame; as soon as one frame was served while mounted, the
    loop runs on after the unmount. *)
Theorem X8_animateEffects_requests_outlive_the_cleanup
    (i : Inputs) (evs : list Event) (d : Dom) (random : nat -> R) :
  exists w,
    lifecycle i evs d (emptyWorld random) = Normal tt w /\
    List.length (frames w) = orphans true evs /\
    ((exists now, In (Frame now) evs) -> frames w <> []).
Proof.
  unfold lifecycle.
  assert (Hm : exists st1 w1,
             effect i (mkState d 0) (emptyWorld random) = Normal st1 w1 /\
             mounted 0 true st1 w1).
  { eexists. eexists. split; [reflexivity|].
    unfold mounted, handles. cbn.
    split; [repeat constructor; intros []|].
    split; [repeat constructor|]. split; [lia|]. split; [auto|reflexivity]. }
  destruct Hm as (st1 & w1 & E1 & Hm1).
  destruct (stage_handleAll_spec evs 0 true st1 w1 Hm1)
    as (st2 & w2 & fresh2 & E2 & Hm2).
  destruct (stage_cleanup_spec _ _ st2 w2 Hm2) as (w3 & E3 & L3 & _).
  unfold bind. rewrite E1, E2, E3. exists w3. split; [reflexivity|].
  rewrite Nat.add_0_r in L3. split; [exact L3|].
  intros (now & Hin). pose proof (orphans_frame evs now Hin) as Ho.
  intros Hnil. rewrite Hnil in L3. cbn in L3. lia.
Qed.

Lemma X8_animateEffects_witness :
  exists w,
    lifecycle fallInputs sampleEvents mountedDom (emptyWorld sampleRandom)
    = Normal tt w /\
    List.length (frames w) = 2%nat.
Proof.
  destruct (X8_animateEffects_requests_outlive_the_cleanup
              fallInputs sampleEvents mountedDom sampleRandom)
    as (w & E & L & _).
  exists w. split; [exact E|exact L].
Defined.

End StageEffectProofs.

(** ** Home *)

Module HomeProofs.
Import Browser Home.
Local Open Scope js_scope.

Lemma easeOutCubic_bounds (x : R) : 0 <= x <= 1 -> 0 <= easeOutCubic x <= 1.
Proof.
  intros [H0 H1]. unfold easeOutCubic.
  assert (0 <= (1 - x) ^ 3) by (apply pow_le; lra).
  assert ((1 - x) ^ 3 <= 1 ^ 3) by (apply pow_incr; lra).
  replace (1 ^ 3) with 1 in * by lra. lra.
Qed.

Lemma ratio_bounds (y : R) : 0 <= y -> 0 <= Rmin 1 (y / 400) <= 1.
Proof.
  intros H. split; [|apply Rmin_l].
  apply Rmin_glb; [lra|]. unfold Rdiv. apply Rmult_le_pos; lra.
Qed.

(** One frame. *)
Lemma home_animateScroll_spec (scrollY : R) (st : State) (w : World Callback) :
  0 <= scrollY -> tracking st ->
  exists st',
    animateScroll scrollY st w
    = Normal st' (mkWorld Callback (S (nextHandle w))
                          (frames w ++ [(nextHandle w, AnimateScroll)])
                          (listeners w) (consoleErrors w) (drawn w)
                          (randomSource w) (randomIndex w)) /\
    requestRef st' = Some (nextHandle w) /\
    mouseTrailPoints st' = mouseTrailPoints st /\
    tracking st' /\ Rabs (scrollY - previousScrollY st') <= 1.
Proof.
  intros Hy Ht. unfold animateScroll. cbv zeta. unfold Rgtb.
  destruct (Rltb 1 (Rabs (scrollY - previousScrollY st))) eqn:E;
    [apply Rltb_true in E|apply Rltb_false in E];
    (eexists; split; [reflexivity|]);
    cbn [requestRef mouseTrailPoints previousScrollY];
    (split; [reflexivity|]); (split; [reflexivity|]).
  - split.
    + unfold tracking. cbn [scale scrollProgress previousScrollY].
      repeat split; auto.
    + rewrite Rminus_diag, Rabs_R0. lra.
  - split; [|exact E]. destruct Ht as (A & B & C). repeat split; assumption.
Qed.

(** The trail keeps the last 20 points. *)
Lemma addTrailPoint_keeps (p : Point) (prev : list Point) :
  addTrailPoint p prev
  = skipn (List.length (prev ++ [p]) - 20) (prev ++ [p]).
Proof.
  unfold addTrailPoint. cbv zeta.
  destruct (20 <? List.length (prev ++ [p]))%nat eqn:E; [reflexivity|].
  apply Nat.ltb_ge in E.
  replace (List.length (prev ++ [p]) - 20)%nat with 0%nat by lia.
  reflexivity.
Qed.

Lemma keep_app (l : list Point) (p : Point) :
  skipn (List.length (skipn (List.length l - 20) l ++ [p]) - 20)
        (skipn (List.length l - 20) l ++ [p])
  = skipn (List.length (l ++ [p]) - 20) (l ++ [p]).
Proof.
  rewrite !length_app, length_skipn. cbn [List.length].
  destruct (Nat.le_gt_cases (List.length l) 20) as [H|H].
  - replace (List.length l - 20)%nat with 0%nat by lia.
    cbn [skipn]. rewrite Nat.sub_0_r. reflexivity.
  - replace (List.length l - (List.length l - 20) + 1 - 20)%nat
      with 1%nat by lia.
    replace (List.length l + 1 - 20)%nat
      with (1 + (List.length l - 20))%nat by lia.
    rewrite (skipn_app (1 + (List.length l - 20)) l).
    replace (1 + (List.length l - 20) - List.length l)%nat with 0%nat by lia.
    rewrite skipn_app, length_skipn.
    replace (1 - (List.length l - (List.length l - 20)))%nat with 0%nat by lia.
    rewrite skipn_skipn. reflexivity.
Qed.

Lemma home_handle_spec (e : Event) (st : State) (w : World Callback) :
  mounted st w ->
  exists st' w',
    handle e st w = Normal st' w' /\ mounted st' w' /\
    listeners w' = listeners w /\
    mouseTrailPoints st' =
    match e with
    | Frame _ => mouseTrailPoints st
    | MouseMove p => if atOrigin p then mouseTrailPoints st
                     else addTrailPoint p (mouseTrailPoints st)
    end /\
    (match e with Frame y => 0 <= y | MouseMove _ => True end ->
     tracking st ->
     tracking st' /\
     match e with
     | Frame y => Rabs (y - previousScrollY st') <= 1
     | MouseMove p => True
     end).
Proof.
  intros [(n & Hr & Hf) Hn]. destruct e as [y|p]; unfold handle.
  - rewrite Hf. cbn [runFrames]. unfold bind at 1.
    unfold takeFrame at 1, cancelAnimationFrame at 1. rewrite Hf.
    cbn [filter fst]. rewrite Nat.eqb_refl. cbn [negb]. unfold bind at 1.
    match goal with
    | |- context [animateScroll y st ?v] => set (w1 := v)
    end.
    assert (Hrun : exists st',
               animateScroll y st w1
               = Normal st' (mkWorld Callback (S (nextHandle w))
                               [(nextHandle w, AnimateScroll)]
                               (listeners w) (consoleErrors w) (drawn w)
                               (randomSource w) (randomIndex w)) /\
               requestRef st' = Some (nextHandle w) /\
               mouseTrailPoints st' = mouseTrailPoints st /\
               (0 <= y -> tracking st ->
                tracking st' /\ Rabs (y - previousScrollY st') <= 1)).
    { assert (Hsame : forall st', animateScroll y st w1 = Normal st'
                 (mkWorld Callback (S (nextHandle w1))
                          (frames w1 ++ [(nextHandle w1, AnimateScroll)])
                          (listeners w1) (consoleErrors w1) (drawn w1)
                          (randomSource w1) (randomIndex w1)) ->
               animateScroll y st w1 = Normal st'
                 (mkWorld Callback (S (nextHandle w))
                          [(nextHandle w, AnimateScroll)]
                          (listeners w) (consoleErrors w) (drawn w)
                          (randomSource w) (randomIndex w)))
        by (intros st' H; exact H).
      unfold animateScroll in *. cbv zeta in *.
      destruct (_ >? _) eqn:E.
      - eexists. split; [apply Hsame; reflexivity|].
        split; [reflexivity|]. split; [reflexivity|]. intros Hy Ht.
        destruct (home_animateScroll_spec y st w1 Hy Ht) as (st' & E' & _ & _ & T & A).
        unfold animateScroll in E'. cbv zeta in E'. rewrite E in E'.
        injection E' as <-. split; [exact T|exact A].
      - eexists. split; [apply Hsame; reflexivity|].
        split; [reflexivity|]. split; [reflexivity|]. intros Hy Ht.
        destruct (home_animateScroll_spec y st w1 Hy Ht) as (st' & E' & _ & _ & T & A).
        unfold animateScroll in E'. cbv zeta in E'. rewrite E in E'.
        injection E' as <-. split; [exact T|exact A]. }
    destruct Hrun as (st' & E & R & M & T). rewrite E. cbn [runFrames ret].
    exists st'. eexists. split; [reflexivity|].
    cbn [nextHandle frames listeners].
    split; [split; [|cbn [nextHandle]; lia]
          |split; [reflexivity|split; [exact M|exact T]]].
    destruct (nextHandle w) as [|m] eqn:En; [lia|].
    exists m. split; [exact R|reflexivity].
  - exists (trailEffect p st), w. split; [reflexivity|].
    unfold trailEffect.
    split; [split; [|exact Hn]|split; [reflexivity|split]].
    + exists n. destruct (atOrigin p); auto.
    + destruct (atOrigin p); reflexivity.
    + intros _ Ht. destruct (atOrigin p); auto.
Qed.

Lemma home_handleAll_spec (evs : list Event) :
  forall (st : State) (w : World Callback),
    mounted st w ->
    exists st' w',
      handleAll evs st w = Normal st' w' /\ mounted st' w' /\
      listeners w' = listeners w /\
      (Forall (fun y => 0 <= y) (scrollsOf evs) -> tracking st ->
       tracking st') /\
      (forall l,
         mouseTrailPoints st = skipn (List.length l - 20) l ->
         let qs := l ++ filter (fun p => negb (atOrigin p)) (positionsOf evs) in
         mouseTrailPoints st' = skipn (List.length qs - 20) qs).
Proof.
  induction evs as [|e rest IH]; intros st w Hm; cbn [handleAll].
  - exists st, w. split; [reflexivity|]. split; [exact Hm|].
    split; [reflexivity|]. split; [auto|].
    intros l Hl. cbn. rewrite app_nil_r. exact Hl.
  - destruct (home_handle_spec e st w Hm) as (st1 & w1 & E1 & Hm1 & L1 & M1 & T1).
    destruct (IH st1 w1 Hm1) as (st2 & w2 & E2 & Hm2 & L2 & T2 & M2).
    unfold bind. rewrite E1, E2. exists st2, w2. split; [reflexivity|].
    split; [exact Hm2|]. split; [congruence|]. split.
    + intros Hall Ht. destruct e as [y|p];
        cbn [scrollsOf flat_map app] in Hall; fold (scrollsOf rest) in Hall.
      * inversion Hall as [|? ? Hy Hall']; subst.
        apply (T2 Hall'). apply (T1 Hy Ht).
      * apply (T2 Hall). apply (T1 I Ht).
    + intros l Hl. destruct e as [y|p];
        cbn [positionsOf flat_map app filter]; fold (positionsOf rest).
      * apply M2. rewrite M1. exact Hl.
      * destruct (atOrigin p) eqn:Ep; cbn [negb].
        -- apply M2. rewrite M1. exact Hl.
        -- cbv zeta.
           replace (l ++ p :: filter (fun p0 => negb (atOrigin p0))
                               (positionsOf rest))
             with ((l ++ [p]) ++ filter (fun p0 => negb (atOrigin p0))
                               (positionsOf rest))
             by (rewrite <- app_assoc; reflexivity).
           apply M2. rewrite M1, addTrailPoint_keeps, Hl.
           apply keep_app.
Qed.

Lemma home_handleAll_app (evs evs' : list Event) :
  forall (st : State) (w : World Callback),
    handleAll (evs ++ evs') st w
    = (st' <- handleAll evs st ;; handleAll evs' st')%js w.
Proof.
  induction evs as [|e rest IH]; intros st w; cbn [app handleAll].
  - reflexivity.
  - unfold bind. destruct (handle e st w) as [st1 w1|]; [|reflexivity].
    rewrite IH. reflexivity.
Qed.

Lemma home_mount_spec (random : nat -> R) :
  exists st w,
    mount initialState (emptyWorld random) = Normal st w /\
    mounted st w /\ tracking st /\ mouseTrailPoints st = [] /\
    listeners w = [].
Proof.
  eexists. eexists. split; [reflexivity|].
  unfold mounted, tracking, trailEffect, atOrigin. cbn [x y].
  destruct (Req_dec_T 0 0) as [_|N]; [|exfalso; apply N; reflexivity].
  cbn. split; [split; [exists 0%nat; split; reflexivity|lia]|].
  split; [|split; reflexivity].
  unfold easeOutCubic. split; [|split; [|lra]].
  - rewrite Rmin_right; lra.
  - rewrite Rmax_right; lra.
Qed.

(** X9.  After mounting and any events in which the page is never scrolled
    above its top, followed by a frame at scroll position [y]: the scroll
    progress is min(1, recorded position / 400) and lies in [0, 1], the
    scale lies in [0.15, 1] and is 0.15 once the recorded position is 400 px
    or more, the logo offset lies in [-601, -550], and the recorded position
    is within 1 px of [y]. *)
Theorem X9_scroll_loop_keeps_progress_and_scale_in_range
    (evs : list Event) (y : R) (random : nat -> R) :
  Forall (fun y' => 0 <= y') (scrollsOf evs) -> 0 <= y ->
  exists st w,
    (st0 <- mount initialState ;; handleAll (evs ++ [Frame y]) st0)%js
      (emptyWorld random) = Normal st w /\
    scrollProgress st = Rmin 1 (previousScrollY st / 400) /\
    0 <= scrollProgress st <= 1 /\
    0.15 <= scale st <= 1 /\
    (400 <= previousScrollY st -> scale st = 0.15) /\
    -601 <= yPosition (scale st) <= -550 /\
    Rabs (y - previousScrollY st) <= 1.
Proof.
  intros Hall Hy.
  destruct (home_mount_spec random) as (st0 & w0 & E0 & Hm0 & Ht0 & _).
  destruct (home_handleAll_spec evs st0 w0 Hm0) as (st1 & w1 & E1 & Hm1 & _ & T1 & _).
  specialize (T1 Hall Ht0).
  destruct (home_handle_spec (Frame y) st1 w1 Hm1)
    as (st2 & w2 & E2 & Hm2 & _ & _ & T2).
  destruct (T2 Hy T1) as ((A & B & C) & D).
  unfold bind at 1. rewrite E0, home_handleAll_app. unfold bind at 1. rewrite E1.
  cbn [handleAll]. unfold bind at 1. rewrite E2. cbn [ret].
  exists st2, w2. split; [reflexivity|].
  pose proof (ratio_bounds _ C) as Hr. rewrite <- A in Hr.
  pose proof (easeOutCubic_bounds _ Hr) as He.
  assert (Hs : scale st2 = 1 - easeOutCubic (scrollProgress st2) * (1 - 0.15)).
  { rewrite B. apply Rmax_right. lra. }
  split; [exact A|]. split; [exact Hr|]. split; [rewrite Hs; lra|].
  split.
  - intros H4. rewrite Hs, A. rewrite Rmin_left.
    + unfold easeOutCubic. lra.
    + apply Rmult_le_reg_r with (r := 400); [lra|].
      unfold Rdiv. rewrite Rmult_assoc, Rinv_l; lra.
  - split; [|exact D]. unfold yPosition. rewrite Hs. lra.
Qed.

Lemma X9_scroll_loop_witness :
  exists st w,
    (st0 <- mount initialState ;;
     handleAll (sampleEvents ++ [Frame 1000]) st0)%js
      (emptyWorld sampleRandom) = Normal st w /\
    0.15 <= scale st <= 1 /\ Rabs (1000 - previousScrollY st) <= 1.
Proof.
  assert (Hall : Forall (fun y' => 0 <= y') (scrollsOf sampleEvents))
    by (cbn; repeat constructor; lra).
  assert (Hy : 0 <= 1000) by lra.
  destruct (X9_scroll_loop_keeps_progress_and_scale_in_range
              sampleEvents 1000 sampleRandom Hall Hy)
    as (st & w & E & _ & _ & S & _ & _ & A).
  exists st, w. split; [exact E|]. split; [exact S|exact A].
Defined.

(** X10.  The mouse trail holds the pointer positions other than the origin
    in the order they came, the last 20 of them at most. *)
Theorem X10_mouse_trail_keeps_the_last_twenty_points
    (evs : list Event) (random : nat -> R) :
  exists st w,
    (st0 <- mount initialState ;; handleAll evs st0)%js (emptyWorld random)
    = Normal st w /\
    mouseTrailPoints st
    = skipn (List.length (filter (fun p => negb (atOrigin p))
                                 (positionsOf evs)) - 20)
            (filter (fun p => negb (atOrigin p)) (positionsOf evs)) /\
    (List.length (mouseTrailPoints st) <= 20)%nat.
Proof.
  destruct (home_mount_spec random) as (st0 & w0 & E0 & Hm0 & Ht0 & M0 & _).
  destruct (home_handleAll_spec evs st0 w0 Hm0) as (st1 & w1 & E1 & Hm1 & _ & _ & M1).
  specialize (M1 [] M0). cbn [app] in M1. cbv zeta in M1.
  unfold bind. rewrite E0, E1. exists st1, w1. split; [reflexivity|].
  split; [exact M1|]. rewrite M1, length_skipn. lia.
Qed.

(** X11.  The scroll loop of the home page: from mounting on, whatever
    frames and pointer moves come, exactly one frame request is pending, the
    one whose handle [requestRef] holds; the cleanup cancels it, so that
    none is left after unmounting. *)
Theorem X11_scroll_loop_has_one_request_and_is_cancelled
    (evs : list Event) (random : nat -> R) :
  exists st w w',
    (st0 <- mount initialState ;; handleAll evs st0)%js (emptyWorld random)
    = Normal st w /\
    (exists handle, requestRef st = Some handle /\
                    frames w = [(handle, AnimateScroll)]) /\
    lifecycle evs (emptyWorld random) = Normal tt w' /\ frames w' = [].
Proof.
  destruct (home_mount_spec random) as (st0 & w0 & E0 & Hm0 & _).
  destruct (home_handleAll_spec evs st0 w0 Hm0) as (st1 & w1 & E1 & Hm1 & _).
  destruct Hm1 as [(n & Hr & Hf) _].
  exists st1, w1. eexists. unfold lifecycle, bind. rewrite E0, E1.
  split; [reflexivity|]. split; [exists (S n); auto|].
  unfold cleanup. rewrite Hr. split; [reflexivity|].
  cbn [frames cancelAnimationFrame]. rewrite Hf.
  cbn [filter fst]. rewrite Nat.eqb_refl. reflexivity.
Qed.

End HomeProofs.

(** ** More about the audio grid: level, geometry, matrices, setup *)

Module GridSetup.
Import Browser AudioReactiveGrid.
Local Open Scope js_scope.

(** X12.  For every timestamp and every sample of [Math.random()], which
    lies in [0, 1), the simulated level lies in [0, 0.52): the clamp to
    [0, 1] never changes it, and the level never exceeds 0.52. *)
Theorem X12_simulated_level_needs_no_clamp (now : Z) (random : R) :
  0 <= random < 1 ->
  0 <= simulatedLevel now random < 0.52 /\
  normalizedLevel now random = simulatedLevel now random.
Proof.
  intros Hr.
  assert (H : 0 <= simulatedLevel now random < 0.52).
  { unfold simulatedLevel. cbv zeta.
    pose proof (SIN_bound (IZR now / 1000 * 0.5)).
    pose proof (SIN_bound (IZR now / 1000 * 1.3)).
    pose proof (SIN_bound (IZR now / 1000 * 3.7)).
    split; lra. }
  split; [exact H|]. unfold normalizedLevel.
  rewrite Rmin_right by lra. rewrite Rmax_right by lra. reflexivity.
Qed.

Lemma X12_simulated_level_witness :
  0 <= simulatedLevel 16 0.5 < 0.52.
Proof.
  assert (H : 0 <= 0.5 < 1) by lra.
  apply (X12_simulated_level_needs_no_clamp 16 0.5 H).
Defined.

(** *** The grid geometry *)

Lemma length_flat_map_const {A B : Type} (f : A -> list B) (k : nat)
    (l : list A) :
  (forall a, List.length (f a) = k) ->
  List.length (flat_map f l) = (List.length l * k)%nat.
Proof.
  intros H. induction l as [|a l IH]; cbn [flat_map List.length].
  - reflexivity.
  - rewrite length_app, H, IH. lia.
Qed.

(** X13.  The grid has 31 x 31 vertices, with three position coordinates
    and two texture coordinates each; the index buffer has 30 x 30 x 6
    entries, each the number of an existing vertex (below 31 x 31 = 961, so
    it fits the 16-bit index type), and 30 x 30 x 6 is the count every frame
    passes to [drawElements]. *)
Theorem X13_grid_indices_name_existing_vertices
    (cl : Closure) (cv : Canvas) (now : Z) :
  List.length positions = (31 * 31 * 3)%nat /\
  List.length uvs = (31 * 31 * 2)%nat /\
  List.length indices = (30 * 30 * 6)%nat /\
  Forall (fun v => exists n, v = INR n /\ (n < 31 * 31)%nat) indices /\
  In (Call "drawElements" [INR (List.length indices); 0])
     (frameCalls cl cv now).
Proof.
  assert (Hi : List.length indices = (30 * 30 * 6)%nat).
  { unfold indices.
    rewrite (length_flat_map_const _ 180).
    - rewrite length_seq. reflexivity.
    - intros i. rewrite (length_flat_map_const _ 6).
      + rewrite length_seq. reflexivity.
      + reflexivity. }
  split; [|split; [|split; [exact Hi|split]]].
  - unfold positions.
    rewrite (length_flat_map_const _ 93).
    + rewrite length_seq. reflexivity.
    + intros i. cbv zeta. rewrite (length_flat_map_const _ 3).
      * rewrite length_seq. reflexivity.
      * reflexivity.
  - unfold uvs. rewrite (length_flat_map_const _ 62).
    + rewrite length_seq. reflexivity.
    + intros i. rewrite (length_flat_map_const _ 2).
      * rewrite length_seq. reflexivity.
      * reflexivity.
  - apply Forall_forall. intros v Hv. unfold indices in Hv.
    apply in_flat_map in Hv. destruct Hv as (i & Hi' & Hv).
    apply in_flat_map in Hv. destruct Hv as (j & Hj & Hv).
    apply in_seq in Hi'. apply in_seq in Hj. unfold gridDivisions in *.
    cbv zeta in Hv. apply in_map_iff in Hv. destruct Hv as (n & <- & Hn).
    exists n. split; [reflexivity|].
    cbn [In] in Hn. decompose [or] Hn; subst; try contradiction; lia.
  - rewrite Hi. unfold frameCalls. cbv zeta.
    do 17 right. left. f_equal. f_equal.
    rewrite !mult_INR. replace (INR 30) with 30 by (simpl; lra).
    replace (INR 6) with 6 by (simpl; lra). reflexivity.
Qed.

(** *** The matrices *)

(** [multiplyMatrices] always yields 16 entries, and so does
    [rotateMatrix]; for a 4 x 4 matrix (16 entries) the identity matrix is
    neutral on both sides, and a rotation by the angles 0, 0, 0 returns the
    matrix unchanged. *)
Lemma identity_is_neutral
    (a b matrix : list R) (rotX rotY rotZ : R) :
  List.length (multiplyMatrices a b) = 16%nat /\
  List.length (rotateMatrix matrix rotX rotY rotZ) = 16%nat /\
  (List.length matrix = 16%nat ->
   multiplyMatrices matrix
     [1; 0; 0; 0;  0; 1; 0; 0;  0; 0; 1; 0;  0; 0; 0; 1] = matrix /\
   multiplyMatrices
     [1; 0; 0; 0;  0; 1; 0; 0;  0; 0; 1; 0;  0; 0; 0; 1] matrix = matrix /\
   rotateMatrix matrix 0 0 0 = matrix).
Proof.
  assert (Hl : forall u v, List.length (multiplyMatrices u v) = 16%nat)
    by (intros; reflexivity).
  split; [apply Hl|]. split; [apply Hl|].
  intros H.
  do 16 (destruct matrix as [|? matrix]; [discriminate H|]).
  destruct matrix; [|discriminate H].
  split; [|split].
  - unfold multiplyMatrices.
    cbn [seq flat_map map fold_left app nth Nat.mul Nat.add].
    repeat f_equal; ring.
  - unfold multiplyMatrices.
    cbn [seq flat_map map fold_left app nth Nat.mul Nat.add].
    repeat f_equal; ring.
  - unfold rotateMatrix. cbv zeta. rewrite cos_0, sin_0.
    replace (- 0) with 0 by ring.
    unfold multiplyMatrices.
    cbn [seq flat_map map fold_left app nth Nat.mul Nat.add].
    repeat f_equal; ring.
Qed.

(** *** A WebGL context that cannot be set up *)

(** A branch of the setup that logs and returns. *)
Ltac fail_branch Hloop :=
  cbv [bind invoke consoleError ret negb orb andb nextHandle frames
       listeners consoleErrors drawn randomSource randomIndex];
  eexists; eexists; eexists; (split; [reflexivity|]);
  cbn [consoleErrors drawn frames listeners];
  (split; [reflexivity|]);
  (split; [cbn; tauto|]);
  (split; [rewrite <- ?app_assoc; cbn [app]; reflexivity|]);
  (split; [repeat constructor; discriminate|]);
  (split; [reflexivity|]); (split; [reflexivity|]); apply Hloop.

(** X15.  When a WebGL context is acquired but a shader or the program
    cannot be created, compiled or linked, the setup effect logs one
    message and returns: the component state is unchanged, so
    [glContextRef.current.gl] stays null, no cleanup is registered and the
    animation effect does not start; and the objects created before the
    failure are not deleted. *)
Theorem X15_failed_shader_setup_logs_once_and_leaves_the_grid_idle
    (now : Z) (g : Grid) (w : World Callback) (cv : Canvas) (d : GLDriver) :
  canvas g = Some cv -> getWebGL cv = Some d ->
  createsVertexShader d && createsFragmentShader d && compilesVertexShader d
  && compilesFragmentShader d && createsProgram d && linksProgram d = false ->
  exists w' message calls,
    initWebGLEffect now g w = Normal g w' /\
    consoleErrors w' = consoleErrors w ++ [message] /\
    In message ["Could not create shaders"; "Vertex shader compilation failed:";
                "Fragment shader compilation failed:";
                "Could not create program"; "Program linking failed:"]%string /\
    drawn w' = drawn w ++ calls /\
    Forall (fun c => match c with
                     | Call method _ =>
                       method <> "deleteShader"%string /\
                       method <> "deleteProgram"%string
                     end) calls /\
    frames w' = frames w /\ listeners w' = listeners w /\
    (gl (glContextRef g) = None ->
     animationLoopEffect now g w' = Normal (setLoopCleanup false g) w').
Proof.
  intros Hcv Hd Hbad.
  assert (Hloop : forall v, gl (glContextRef g) = None ->
                  animationLoopEffect now g v = Normal (setLoopCleanup false g) v).
  { intros v Hgl. unfold animationLoopEffect. rewrite Hgl. reflexivity. }
  unfold initWebGLEffect. rewrite Hcv, Hd.
  destruct d as [b1 b2 b3 b4 b5 b6].
  cbn [createsVertexShader createsFragmentShader compilesVertexShader
       compilesFragmentShader createsProgram linksProgram] in *.
  destruct w as [nh fr ls ce dr rs ri].
  destruct b1; [|destruct b2; fail_branch Hloop].
  destruct b2; [|fail_branch Hloop].
  destruct b3; [|fail_branch Hloop].
  destruct b4; [|fail_branch Hloop].
  destruct b5; [|fail_branch Hloop].
  destruct b6; [discriminate Hbad|fail_branch Hloop].
Qed.

Lemma X15_failed_shader_setup_witness :
  exists w' message,
    initWebGLEffect 0
      (initialGrid (Some (mkCanvas (Some (mkGLDriver true true false true true true))
                                   None 800 600 300 150)) 0 1 0)
      (emptyWorld sampleRandom)
    = Normal (initialGrid
                (Some (mkCanvas (Some (mkGLDriver true true false true true true))
                                None 800 600 300 150)) 0 1 0) w' /\
    consoleErrors w' = [message].
Proof.
  destruct (X15_failed_shader_setup_logs_once_and_leaves_the_grid_idle
              0 (initialGrid
                   (Some (mkCanvas
                            (Some (mkGLDriver true true false true true true))
                            None 800 600 300 150)) 0 1 0)
              (emptyWorld sampleRandom)
              (mkCanvas (Some (mkGLDriver true true false true true true))
                        None 800 600 300 150)
              (mkGLDriver true true false true true true)
              eq_refl eq_refl eq_refl)
    as (w' & message & calls & E & C & _).
  exists w', message. split; [exact E|exact C].
Defined.

End GridSetup.

(** ** More about the particle field *)

Module ParticlesField.
Import Browser BrowserProofs ParticlesCanvas ParticleRanges.
Local Open Scope js_scope.

Lemma newParticle_spec (dimensions : Dimensions) (w : World Callback) :
  (forall k, 0 <= randomSource w k < 1) ->
  0 <= width dimensions -> 0 <= height dimensions ->
  exists p w',
    newParticle dimensions w = Normal p w' /\
    randomSource w' = randomSource w /\ inRange dimensions p.
Proof.
  intros Hr Hw Hh. destruct w as [nh fr ls ce dr rs ri].
  cbn [randomSource] in Hr.
  pose proof (Hr ri). pose proof (Hr (S ri)). pose proof (Hr (S (S ri))).
  pose proof (Hr (S (S (S ri)))). pose proof (Hr (S (S (S (S ri))))).
  pose proof (Hr (S (S (S (S (S ri)))))).
  unfold newParticle.
  cbv [bind mathRandom ret nextHandle frames listeners consoleErrors drawn
       randomSource randomIndex].
  destruct (_ >? 0.7).
  - eexists. eexists. split; [reflexivity|]. split; [reflexivity|].
    unfold inRange. cbn [x y size speedX speedY opacity hue].
    repeat split; try lra; try nra; auto.
  - destruct (_ >? 0.5);
      (eexists; eexists; split; [reflexivity|]; split; [reflexivity|]);
      unfold inRange; cbn [x y size speedX speedY opacity hue];
      repeat split; try lra; try nra; auto.
Qed.

Lemma newParticles_spec (n : nat) (dimensions : Dimensions) :
  0 <= width dimensions -> 0 <= height dimensions ->
  forall w : World Callback,
    (forall k, 0 <= randomSource w k < 1) ->
    exists ps w',
      newParticles n dimensions w = Normal ps w' /\
      randomSource w' = randomSource w /\
      List.length ps = n /\ Forall (inRange dimensions) ps.
Proof.
  intros Hw Hh. induction n as [|n IH]; intros w Hr; cbn [newParticles].
  - exists [], w. repeat split; auto.
  - destruct (newParticle_spec dimensions w Hr Hw Hh) as (p & w1 & E1 & R1 & P1).
    assert (Hr1 : forall k, 0 <= randomSource w1 k < 1)
      by (rewrite R1; exact Hr).
    destruct (IH w1 Hr1) as (ps & w2 & E2 & R2 & L2 & P2).
    unfold bind. rewrite E1, E2. exists (p :: ps), w2.
    split; [reflexivity|]. split; [congruence|].
    split; [cbn; congruence|]. constructor; assumption.
Qed.

(** X16.  On a canvas of positive width and height, with [Math.random()]
    in [0, 1), "Initialize particles" creates floor(width * height / 20000)
    particles; each lies on the canvas, has a size in [1, 4), speeds in
    [-0.25, 0.25), an opacity in [0.1, 0.6) and one of the hues 0, 350 and
    220. *)
Theorem X16_initial_particles_are_counted_and_in_range
    (st : State) (w : World Callback) :
  (forall k, 0 <= randomSource w k < 1) ->
  0 < width (dimensions st) -> 0 < height (dimensions st) ->
  exists st' w',
    initParticlesEffect st w = Normal st' w' /\
    List.length (particles st')
    = Z.to_nat (Int_part (width (dimensions st) * height (dimensions st)
                          / 20000)) /\
    Forall (fun p =>
              0 <= x p <= width (dimensions st) /\
              0 <= y p <= height (dimensions st) /\
              1 <= size p < 4 /\
              -0.25 <= speedX p < 0.25 /\ -0.25 <= speedY p < 0.25 /\
              0.1 <= opacity p < 0.6 /\
              (hue p = 0 \/ hue p = 350 \/ hue p = 220)) (particles st').
Proof.
  intros Hr Hw Hh. unfold initParticlesEffect.
  assert (Fw : falsy (width (dimensions st)) = false).
  { unfold falsy. destruct (Req_dec_T _ 0); [lra|reflexivity]. }
  assert (Fh : falsy (height (dimensions st)) = false).
  { unfold falsy. destruct (Req_dec_T _ 0); [lra|reflexivity]. }
  rewrite Fw, Fh. cbn [orb]. cbv zeta.
  destruct (newParticles_spec
              (Z.to_nat (Int_part (width (dimensions st)
                                   * height (dimensions st) / 20000)))
              (dimensions st) ltac:(lra) ltac:(lra) w Hr)
    as (ps & w' & E & _ & L & P).
  unfold bind. rewrite E. eexists. eexists. split; [reflexivity|].
  cbn [particles]. split; [exact L|exact P].
Qed.

Lemma X16_initial_particles_witness :
  exists st' w',
    initParticlesEffect
      (mkState None sampleDimensions [] 0 (mkPoint 0 0) 0 false)
      (emptyWorld sampleRandom) = Normal st' w' /\
    List.length (particles st') = Z.to_nat (Int_part (800 * 600 / 20000)).
Proof.
  assert (Hr : forall k, 0 <= randomSource (emptyWorld (C := Callback)
                                              sampleRandom) k < 1)
    by (intros k; unfold sampleRandom; simpl; lra).
  assert (Hw : 0 < width (dimensions
                 (mkState None sampleDimensions [] 0 (mkPoint 0 0) 0 false)))
    by (simpl; lra).
  assert (Hh : 0 < height (dimensions
                 (mkState None sampleDimensions [] 0 (mkPoint 0 0) 0 false)))
    by (simpl; lra).
  destruct (X16_initial_particles_are_counted_and_in_range _ _ Hr Hw Hh)
    as (st' & w' & E & L & _).
  exists st', w'. split; [exact E|exact L].
Defined.

Lemma moveParticle_keeps (dimensions : Dimensions) (mouse : Point)
    (scroll : R) (p : Particle) :
  let p' := moveParticle dimensions mouse scroll p in
  size p' = size p /\ speedX p' = speedX p /\ speedY p' = speedY p /\
  opacity p' = opacity p /\ hue p' = hue p.
Proof.
  unfold moveParticle.
  destruct (if _ <? mouseRadius then _ else _) as [px py].
  repeat split; reflexivity.
Qed.

(** X17.  One frame with a 2D context keeps the number of particles and
    changes nothing but positions: size, speeds, opacity and hue of every
    particle stay as they were created (the pointer pushes a particle away
    without changing its velocity). *)
Theorem X17_a_frame_moves_particles_and_changes_nothing_else
    (cl : Closure) (c : Context) (st : State) (w : World Callback) :
  ctx cl = Some c ->
  exists st' w',
    animate cl st w = Normal st' w' /\
    Forall2 (fun p p' =>
               size p' = size p /\ speedX p' = speedX p /\
               speedY p' = speedY p /\ opacity p' = opacity p /\
               hue p' = hue p)
            (particles st) (particles st').
Proof.
  intros Hc.
  destruct (ParticlesLifecycle.particles_animate_spec cl c st w Hc)
    as (st' & w' & E & _ & _ & _ & _ & _ & _ & _ & _ & P).
  exists st', w'. split; [exact E|]. rewrite P. clear P.
  induction (particles st) as [|p ps IH]; cbn [map]; constructor.
  - apply moveParticle_keeps.
  - exact IH.
Qed.

Lemma X17_a_frame_witness :
  exists st' w',
    animate (mkClosure (Some Context2D) sampleDimensions farMouse 0)
            (mkState None sampleDimensions [edgeParticle] 0 farMouse 0 false)
            (emptyWorld sampleRandom) = Normal st' w' /\
    List.length (particles st') = 1%nat.
Proof.
  destruct (X17_a_frame_moves_particles_and_changes_nothing_else
              (mkClosure (Some Context2D) sampleDimensions farMouse 0)
              Context2D
              (mkState None sampleDimensions [edgeParticle] 0 farMouse 0 false)
              (emptyWorld sampleRandom) eq_refl) as (st' & w' & E & F).
  exists st', w'. split; [exact E|].
  apply Forall2_length in F. cbn in F. symmetry. exact F.
Defined.

End ParticlesField.

(** ** More about the portal *)

Module PortalInteraction.
Import Browser BrowserProofs DigitalPortal PortalProofs PortalDrag.
Local Open Scope js_scope.

Lemma animate_keeps (cl : Closure) (now : Z) (st st' : State)
    (w w' : World Callback) :
  animate cl now st w = Normal st' w' ->
  st' = st \/ exists handle, st' = setAnimationRef handle st.
Proof.
  intros H.
  destruct (portal_animate_spec cl now st w) as (st1 & w1 & E & _ & Hst).
  rewrite E in H. injection H as <- <-.
  destruct (canvas st).
  - right. eexists. apply Hst.
  - left. apply Hst.
Qed.

Lemma startSimulation_keeps (now : Z) (st st' : State)
    (w w' : World Callback) :
  startSimulation now st w = Normal st' w' ->
  isPortalOpen st' = isPortalOpen st.
Proof.
  unfold startSimulation. destruct (canvas st) as [cv|].
  - destruct (context2d cv) as [c|].
    + cbv zeta. intros H. apply animate_keeps in H.
      destruct H as [->|(handle & ->)]; reflexivity.
    + intros H. injection H as <- _. reflexivity.
  - intros H. injection H as <- _. reflexivity.
Qed.

Lemma simulationEffect_open (now : Z) (st st' : State)
    (w w' : World Callback) :
  simulationEffect now st w = Normal st' w' ->
  isPortalOpen st' = isPortalOpen st.
Proof.
  unfold simulationEffect. destruct (negb (isPortalOpen st)).
  - intros H. injection H as <- _. reflexivity.
  - destruct (canvas st).
    + unfold bind. destruct (startSimulation now st w) as [st1 w1|] eqn:E.
      * intros H. injection H as <- _. cbn [setSimulationCleanup isPortalOpen].
        apply (startSimulation_keeps now st st1 w w1 E).
      * intros H. discriminate H.
    + intros H. injection H as <- _. reflexivity.
Qed.

Lemma dragEffect_open (st st' : State) (w w' : World Callback) :
  dragEffect st w = Normal st' w' -> isPortalOpen st' = isPortalOpen st.
Proof.
  unfold dragEffect. destruct (isDragging st); intros H;
    injection H as <- _; reflexivity.
Qed.

Lemma handle_open (e : Event) (st st' : State) (w w' : World Callback) :
  mounted st w ->
  handle e st w = Normal st' w' ->
  isPortalOpen st' = match e with
                     | Toggle _ => true
                     | _ => isPortalOpen st
                     end.
Proof.
  intros [Hl Hf] H. destruct e as [now|position|now| |]; unfold handle in H.
  - destruct Hf as [[Hf|(_ & cl & Hf)] _]; rewrite Hf in H.
    + injection H as <- _. reflexivity.
    + cbn [runFrames] in H. unfold bind in H.
      destruct (takeFrame (animationRef st) w) as [[] w0|]; [|discriminate H].
      destruct (animate cl now st w0) as [st1 w1|] eqn:E; [|discriminate H].
      cbn [runFrames ret] in H. injection H as <- _.
      apply animate_keeps in E. destruct E as [->|(handle & ->)]; reflexivity.
  - cbv zeta in H. unfold bind in H.
    destruct (dragEffectCleanup _ w) as [[] w0|]; [|discriminate H].
    apply dragEffect_open in H. rewrite H.
    destruct (dragCleanup st); reflexivity.
  - cbv zeta in H. destruct (isPortalOpen st) eqn:Eo; cbn [negb Bool.eqb] in H.
    + injection H as <- _. exact Eo.
    + unfold bind in H.
      destruct (simulationEffectCleanup st w) as [[] w0|]; [|discriminate H].
      apply simulationEffect_open in H. exact H.
  - destruct (isDragging st).
    + injection H as <- _. reflexivity.
    + unfold bind in H.
      destruct (dragEffectCleanup st w) as [[] w0|]; [|discriminate H].
      apply dragEffect_open in H. exact H.
  - destruct (isDragging st).
    + unfold bind in H.
      destruct (dragEffectCleanup st w) as [[] w0|]; [|discriminate H].
      apply dragEffect_open in H. exact H.
    + injection H as <- _. reflexivity.
Qed.

Lemma handleAll_open (evs : list Event) :
  forall (st : State) (w : World Callback),
    mounted st w ->
    exists st' w',
      handleAll evs st w = Normal st' w' /\
      (isPortalOpen st' = true <->
       isPortalOpen st = true \/ exists now, In (Toggle now) evs).
Proof.
  induction evs as [|e rest IH]; intros st w Hm; cbn [handleAll].
  - exists st, w. split; [reflexivity|]. split; [auto|].
    intros [H|(now & [])]. exact H.
  - destruct (portal_handle_spec e st w Hm) as (st1 & w1 & E1 & Hm1 & _).
    pose proof (handle_open e st st1 w w1 Hm E1) as Ho.
    destruct (IH st1 w1 Hm1) as (st2 & w2 & E2 & Ho2).
    unfold bind. rewrite E1, E2. exists st2, w2. split; [reflexivity|].
    rewrite Ho2, Ho. split.
    + intros [H|(now & Hin)].
      * destruct e; auto; right; eexists; left; reflexivity.
      * right. exists now. right. exact Hin.
    + intros [H|(now & [->|Hin])].
      * left. destruct e; auto.
      * left. reflexivity.
      * right. exists now. exact Hin.
Qed.


Lemma animate_drag (cl : Closure) (now : Z) (st st' : State)
    (w w' : World Callback) :
  animate cl now st w = Normal st' w' -> dragPart st' = dragPart st.
Proof.
  intros H. apply animate_keeps in H.
  destruct H as [->|(handle & ->)]; reflexivity.
Qed.

Lemma startSimulation_drag (now : Z) (st st' : State)
    (w w' : World Callback) :
  startSimulation now st w = Normal st' w' -> dragPart st' = dragPart st.
Proof.
  unfold startSimulation. destruct (canvas st) as [cv|].
  - destruct (context2d cv) as [c|].
    + cbv zeta. intros H. apply animate_drag in H. rewrite H. reflexivity.
    + intros H. injection H as <- _. reflexivity.
  - intros H. injection H as <- _. reflexivity.
Qed.

Lemma simulationEffect_drag (now : Z) (st st' : State)
    (w w' : World Callback) :
  simulationEffect now st w = Normal st' w' -> dragPart st' = dragPart st.
Proof.
  unfold simulationEffect. destruct (negb (isPortalOpen st)).
  - intros H. injection H as <- _. reflexivity.
  - destruct (canvas st).
    + unfold bind. destruct (startSimulation now st w) as [st1 w1|] eqn:E.
      * intros H. injection H as <- _.
        apply startSimulation_drag in E. rewrite <- E. reflexivity.
      * intros H. discriminate H.
    + intros H. injection H as <- _. reflexivity.
Qed.

Lemma dragInvariant_part (st st' : State) :
  dragPart st' = dragPart st -> dragInvariant st -> dragInvariant st'.
Proof.
  unfold dragPart, dragInvariant. intros H. injection H as _ -> -> _ -> _.
  auto.
Qed.

(** The drag effect runs again, in full. *)
Lemma dragRerun_exact (st st0 : State) (w : World Callback) :
  listening st w ->
  exists w',
    (dragEffectCleanup st ;; dragEffect st0)%js w =
    Normal (if isDragging st0
            then setDragCleanup (Some (dragListener (dragRuns st0)))
                   (S (dragRuns st0)) (handleMouseMove (mousePosition st0) st0)
            else setDragCleanup None (dragRuns st0) st0) w' /\
    listeners w' =
    mouseMoveListener ::
    (if isDragging st0 then [dragListener (dragRuns st0)] else []).
Proof.
  intros [Hl Hrun]. destruct w as [nh fr ls ce dr rs ri]. cbn in Hl. subst ls.
  assert (E : exists w1,
             dragEffectCleanup st
               (mkWorld Callback nh fr
                  (mouseMoveListener ::
                   match dragCleanup st with Some l => [l] | None => [] end)
                  ce dr rs ri) = Normal tt w1 /\
             w1 = mkWorld Callback nh fr [mouseMoveListener] ce dr rs ri).
  { unfold dragEffectCleanup. destruct (dragCleanup st) as [l|].
    - destruct (Hrun l eq_refl) as (run & ->).
      eexists. split; [reflexivity|].
      unfold removeEventListener. cbn [listeners nextHandle frames
        consoleErrors drawn randomSource randomIndex].
      rewrite removeDrag. reflexivity.
    - eexists. split; reflexivity. }
  destruct E as (w1 & E & ->). unfold bind. rewrite E. clear E.
  unfold dragEffect. destruct (isDragging st0).
  - eexists. split; reflexivity.
  - eexists. split; reflexivity.
Qed.

Lemma centred (p : Point) (st : State) :
  portalSize st = mkSize 300 400 ->
  centredOn p (handleMouseMove p st).
Proof.
  intros H. unfold centredOn, handleMouseMove.
  cbn [portalPosition setPortalPosition]. rewrite H. cbn [width height].
  f_equal; lra.
Qed.

Lemma handle_drag (e : Event) (st st' : State) (w w' : World Callback) :
  mounted st w -> dragInvariant st ->
  handle e st w = Normal st' w' ->
  dragInvariant st' /\
  match e with
  | MouseMove p =>
    isDragging st' = isDragging st /\
    if isDragging st then centredOn p st'
    else portalPosition st' = portalPosition st
  | StartDrag => isDragging st' = true
  | StopDrag =>
    isDragging st' = false /\ portalPosition st' = portalPosition st
  | _ => dragPart st' = dragPart st
  end.
Proof.
  intros [Hl Hf] Hinv H.
  destruct e as [now|position|now| |]; unfold handle in H.
  - assert (Hp : dragPart st' = dragPart st).
    { destruct Hf as [[Hf|(_ & cl & Hf)] _]; rewrite Hf in H.
      - injection H as <- _. reflexivity.
      - cbn [runFrames] in H. unfold bind in H.
        destruct (takeFrame (animationRef st) w) as [[] w0|]; [|discriminate H].
        destruct (animate cl now st w0) as [st1 w1|] eqn:E; [|discriminate H].
        cbn [runFrames ret] in H. injection H as <- _.
        apply animate_drag in E. exact E. }
    split; [exact (dragInvariant_part st st' Hp Hinv)|exact Hp].
  - cbv zeta in H. destruct Hinv as [Hsize Hc].
    assert (Hl2 : listening
                    (setMousePosition position
                       match dragCleanup st with
                       | Some _ => handleMouseMove (mousePosition st) st
                       | None => st
                       end) w).
    { destruct Hl as [Hl1 Hl2].
      split; destruct (dragCleanup st) eqn:Edc;
        cbn [dragCleanup setMousePosition handleMouseMove setPortalPosition];
        rewrite Edc; [exact Hl1|exact Hl1|exact Hl2|exact Hl2]. }
    match type of Hl2 with
    | listening ?s w =>
      destruct (dragRerun_exact s s w Hl2) as (w1 & E & _)
    end.
    rewrite E in H. clear E Hl2. injection H as <- _.
    destruct (isDragging st) eqn:Ed.
    + destruct (dragCleanup st) as [l|] eqn:Edc; [|contradiction].
      cbn [isDragging setMousePosition handleMouseMove setPortalPosition].
      rewrite Ed. cbv iota. unfold dragInvariant, centredOn.
      cbn [portalSize isDragging dragCleanup portalPosition setDragCleanup
           handleMouseMove setPortalPosition setMousePosition mousePosition
           x y].
      rewrite Ed, Hsize. cbn [width height].
      split; [split; [reflexivity|discriminate]|].
      split; [reflexivity|f_equal; lra].
    + rewrite Hc.
      cbn [isDragging setMousePosition]. rewrite Ed. cbv iota.
      unfold dragInvariant.
      cbn [portalSize isDragging dragCleanup portalPosition setDragCleanup
           setMousePosition].
      rewrite Ed. repeat split. exact Hsize.
  - cbv zeta in H.
    assert (Hp : dragPart st' = dragPart st).
    { destruct (isPortalOpen st) eqn:Eo; cbn [negb Bool.eqb] in H.
      - injection H as <- _. reflexivity.
      - unfold bind in H.
        destruct (simulationEffectCleanup st w) as [[] w0|]; [|discriminate H].
        apply simulationEffect_drag in H. exact H. }
    split; [exact (dragInvariant_part st st' Hp Hinv)|exact Hp].
  - destruct Hinv as [Hsize Hc]. destruct (isDragging st) eqn:Ed.
    + injection H as <- _. split; [split|exact Ed].
      * exact Hsize.
      * rewrite Ed. exact Hc.
    + destruct (dragRerun_exact st (setIsDragging true st) w Hl)
        as (w1 & E & _).
      rewrite E in H. clear E. injection H as <- _.
      split; [split|reflexivity].
      * exact Hsize.
      * cbn [isDragging setIsDragging setDragCleanup handleMouseMove
             setPortalPosition dragCleanup]. discriminate.
  - destruct Hinv as [Hsize Hc]. destruct (isDragging st) eqn:Ed.
    + destruct (dragRerun_exact st (setIsDragging false st) w Hl)
        as (w1 & E & _).
      rewrite E in H. clear E. injection H as <- _.
      split; [split|split; reflexivity].
      * exact Hsize.
      * reflexivity.
    + injection H as <- _. split; [split|split].
      * exact Hsize.
      * rewrite Ed. exact Hc.
      * exact Ed.
      * reflexivity.
Qed.

Lemma handleAll_drag (evs : list Event) :
  forall (st : State) (w : World Callback),
    mounted st w -> dragInvariant st ->
    exists st' w',
      handleAll evs st w = Normal st' w' /\ mounted st' w' /\
      dragInvariant st'.
Proof.
  induction evs as [|e rest IH]; intros st w Hm Hinv; cbn [handleAll].
  - exists st, w. auto.
  - destruct (portal_handle_spec e st w Hm) as (st1 & w1 & E1 & Hm1 & _).
    destruct (handle_drag e st st1 w w1 Hm Hinv E1) as [Hinv1 _].
    destruct (IH st1 w1 Hm1 Hinv1) as (st2 & w2 & E2 & H2).
    unfold bind. rewrite E1, E2. exists st2, w2. split; [reflexivity|exact H2].
Qed.

Lemma portal_handleAll_app (evs evs' : list Event) :
  forall (st : State) (w : World Callback),
    handleAll (evs ++ evs') st w =
    (st1 <- handleAll evs st ;; handleAll evs' st1)%js w.
Proof.
  induction evs as [|e rest IH]; intros st w; cbn [handleAll app].
  - reflexivity.
  - unfold bind. destruct (handle e st w) as [st1 w1|]; [|reflexivity].
    rewrite IH. reflexivity.
Qed.

Lemma moves_drag (ps : list Point) :
  forall (st : State) (w : World Callback),
    mounted st w -> dragInvariant st ->
    exists st' w',
      handleAll (map MouseMove ps) st w = Normal st' w' /\
      mounted st' w' /\ dragInvariant st' /\
      isDragging st' = isDragging st /\
      (isDragging st = false -> portalPosition st' = portalPosition st).
Proof.
  induction ps as [|p rest IH]; intros st w Hm Hinv; cbn [handleAll map].
  - exists st, w. auto.
  - destruct (portal_handle_spec (MouseMove p) st w Hm)
      as (st1 & w1 & E1 & Hm1 & _).
    destruct (handle_drag (MouseMove p) st st1 w w1 Hm Hinv E1)
      as [Hinv1 [Hd1 Hp1]].
    destruct (IH st1 w1 Hm1 Hinv1) as (st2 & w2 & E2 & Hm2 & Hinv2 & Hd2 & Hp2).
    unfold bind. rewrite E1, E2. exists st2, w2.
    split; [reflexivity|]. split; [exact Hm2|]. split; [exact Hinv2|].
    split; [congruence|].
    intros Ed. rewrite Ed in Hp1. rewrite Hp2 by congruence. exact Hp1.
Qed.

(** X18.  A drag: after the pointer went down on the portal, every pointer
    move leaves the portal centred on the pointer (150 px left of it and
    200 px above), with exactly one [handleMouseMove] listener registered
    beside the one of [useMousePosition].  Once the pointer is released the
    portal stays where the last move put it, whatever the pointer does, and
    only the listener of [useMousePosition] remains. *)
Theorem X18_dragged_portal_is_centred_on_the_pointer
    (portal : option Rect) (cv : option Canvas) (innerWidth innerHeight : R)
    (now : Z) (random : nat -> R) (evs : list Event)
    (ps qs : list Point) (p : Point) :
  exists st st' w w',
    (st0 <- mount now (initialState portal cv innerWidth innerHeight) ;;
     handleAll (evs ++ StartDrag :: map MouseMove ps ++ [MouseMove p]) st0)%js
      (emptyWorld random) = Normal st w /\
    centredOn p st /\
    (exists run, listeners w = [mouseMoveListener; dragListener run]) /\
    handleAll (StopDrag :: map MouseMove qs) st w = Normal st' w' /\
    centredOn p st' /\
    listeners w' = [mouseMoveListener].
Proof.
  destruct (portal_mount_spec portal cv innerWidth innerHeight now random)
    as (st0 & w0 & E0 & Hm0 & _).
  assert (Hinv0 : dragInvariant st0).
  { destruct portal; cbv in E0; injection E0 as <- _; split; reflexivity. }
  destruct (handleAll_drag evs st0 w0 Hm0 Hinv0) as (st1 & w1 & E1 & Hm1 & Hinv1).
  destruct (portal_handle_spec StartDrag st1 w1 Hm1)
    as (st2 & w2 & E2 & Hm2 & _).
  destruct (handle_drag StartDrag st1 st2 w1 w2 Hm1 Hinv1 E2) as [Hinv2 Hd2].
  destruct (moves_drag ps st2 w2 Hm2 Hinv2)
    as (st3 & w3 & E3 & Hm3 & Hinv3 & Hd3 & _).
  rewrite Hd2 in Hd3.
  destruct (portal_handle_spec (MouseMove p) st3 w3 Hm3)
    as (st4 & w4 & E4 & Hm4 & _).
  destruct (handle_drag (MouseMove p) st3 st4 w3 w4 Hm3 Hinv3 E4)
    as [Hinv4 [Hd4 Hp4]].
  rewrite Hd3 in Hd4, Hp4.
  destruct (portal_handle_spec StopDrag st4 w4 Hm4)
    as (st5 & w5 & E5 & Hm5 & _).
  destruct (handle_drag StopDrag st4 st5 w4 w5 Hm4 Hinv4 E5)
    as [Hinv5 [Hd5 Hp5]].
  destruct (moves_drag qs st5 w5 Hm5 Hinv5)
    as (st6 & w6 & E6 & [[Hl6 _] _] & [_ Hc6] & Hd6 & Hp6).
  rewrite Hd5 in Hd6. rewrite Hd6 in Hc6.
  exists st4, st6, w4, w6. split; [|split; [exact Hp4|split; [|split; [|split]]]].
  - unfold bind. rewrite E0. rewrite portal_handleAll_app.
    unfold bind. rewrite E1. cbn [handleAll]. unfold bind. rewrite E2.
    rewrite portal_handleAll_app. unfold bind. rewrite E3.
    cbn [handleAll]. unfold bind. rewrite E4. reflexivity.
  - destruct Hm4 as [[Hl4 Hrun4] _]. destruct Hinv4 as [_ Hc4].
    rewrite Hd4 in Hc4.
    destruct (dragCleanup st4) as [l|]; [|contradiction].
    destruct (Hrun4 l eq_refl) as (run & ->). exists run. exact Hl4.
  - cbn [handleAll]. unfold bind. rewrite E5. exact E6.
  - unfold centredOn. rewrite (Hp6 Hd5), Hp5. exact Hp4.
  - rewrite Hc6 in Hl6. exact Hl6.
Qed.

(** X19.  [portalController.toggle] holds the [togglePortal] of the first
    render, which always opens: after mounting and any sequence of events
    the portal is open exactly when the toggle was called at least once, and
    no later event closes it. *)
Theorem X19_portal_toggle_opens_and_never_closes
    (portal : option Rect) (cv : option Canvas) (innerWidth innerHeight : R)
    (now : Z) (random : nat -> R) (evs evs' : list Event) :
  exists st st' w w',
    (st0 <- mount now (initialState portal cv innerWidth innerHeight) ;;
     handleAll evs st0)%js (emptyWorld random) = Normal st w /\
    handleAll evs' st w = Normal st' w' /\
    (isPortalOpen st = true <-> exists t, In (Toggle t) evs) /\
    (isPortalOpen st = true -> isPortalOpen st' = true).
Proof.
  destruct (portal_mount_spec portal cv innerWidth innerHeight now random)
    as (st0 & w0 & E0 & Hm0 & _).
  assert (Hc : isPortalOpen st0 = false).
  { destruct portal; cbv in E0; injection E0 as <- _; reflexivity. }
  destruct (handleAll_open evs st0 w0 Hm0) as (st & w & E & Ho).
  destruct (portal_handleAll_spec evs st0 w0 Hm0) as (st1 & w1 & E1 & Hm1 & _).
  rewrite E in E1. injection E1 as <- <-.
  destruct (handleAll_open evs' st w Hm1) as (st' & w' & E' & Ho').
  exists st, st', w, w'. unfold bind. rewrite E0.
  split; [exact E|]. split; [exact E'|]. split.
  - rewrite Ho, Hc. split; [intros [H|H]; [discriminate H|exact H]|auto].
  - intros H. apply Ho'. left. exact H.
Qed.

End PortalInteraction.

(** ** Components that follow the pointer *)

Module PointerProofs.
Import Browser Layout.

Lemma div_bounds (a b c : R) :
  0 < c -> - b * c <= a <= b * c -> - b <= a / c <= b.
Proof.
  intros Hc [Hlo Hhi]. unfold Rdiv.
  assert (Hi : 0 < / c) by (apply Rinv_0_lt_compat; exact Hc).
  assert (E : forall t, t * c * / c = t) by (intros t; field; lra).
  split.
  - rewrite <- (E (- b)). apply Rmult_le_compat_r; lra.
  - rewrite <- (E b). apply Rmult_le_compat_r; lra.
Qed.

(** X20.  While the pointer is over the button, [handleMouseMove] displaces
    the button by a fifth of the pointer's distance from the button's
    centre: never by more than a tenth of the button's width or height, and
    not at all with the pointer on the centre.  Without a mounted button
    nothing changes, and [handleMouseLeave] puts the button back. *)
Theorem X20_magnetic_button_moves_at_most_a_tenth_of_its_size
    (r : DOMRect) (clientX clientY : R) (p : Point) :
  over r clientX clientY ->
  let st := MagneticButton.handleMouseMove clientX clientY
              (MagneticButton.mkState (Some r) p) in
  - (width r / 10) <= x (MagneticButton.position st) <= width r / 10 /\
  - (height r / 10) <= y (MagneticButton.position st) <= height r / 10 /\
  x (MagneticButton.position st) * 5 = clientX - (left r + width r / 2) /\
  y (MagneticButton.position st) * 5 = clientY - (top r + height r / 2) /\
  MagneticButton.position (MagneticButton.handleMouseLeave st) = mkPoint 0 0 /\
  MagneticButton.handleMouseMove clientX clientY
    (MagneticButton.mkState None p) = MagneticButton.mkState None p.
Proof.
  intros [[Hx1 Hx2] [Hy1 Hy2]] st. subst st.
  cbn [MagneticButton.handleMouseMove MagneticButton.buttonRef
       MagneticButton.position MagneticButton.handleMouseLeave x y].
  repeat split; try lra.
Qed.

Lemma X20_magnetic_button_witness :
  x (MagneticButton.position
       (MagneticButton.handleMouseMove 100 40
          (MagneticButton.mkState (Some (mkDOMRect 0 0 100 40))
                                  (mkPoint 0 0)))) <= 100 / 10.
Proof.
  pose proof (X20_magnetic_button_moves_at_most_a_tenth_of_its_size
                (mkDOMRect 0 0 100 40) 100 40 (mkPoint 0 0)) as H.
  cbv [over left top width height] in H.
  assert (Hover : (0 <= 100 <= 0 + 100) /\ (0 <= 40 <= 0 + 40)) by lra.
  destruct (H Hover) as [[_ Hx] _]. exact Hx.
Defined.

(** X21.  While the pointer is over a card of positive size,
    [handleMouseMove] tilts the card by at most 10 degrees about each axis
    (the 20 of the source is the span from edge to edge): to the right of
    the centre the rotation about the vertical axis is positive, above the
    centre the rotation about the horizontal axis is positive, and on the
    centre both are zero. *)
Theorem X21_service_card_tilts_at_most_ten_degrees
    (r : DOMRect) (clientX clientY : R) (rot : Point) (hovered : bool) :
  0 < width r -> 0 < height r ->
  over r clientX clientY ->
  let st := ServiceCard.handleMouseMove clientX clientY
              (ServiceCard.mkState (Some r) rot hovered) in
  let centerX := left r + width r / 2 in
  let centerY := top r + height r / 2 in
  -10 <= x (ServiceCard.rotation st) <= 10 /\
  -10 <= y (ServiceCard.rotation st) <= 10 /\
  (clientX > centerX -> y (ServiceCard.rotation st) > 0) /\
  (clientY < centerY -> x (ServiceCard.rotation st) > 0) /\
  (clientX = centerX -> y (ServiceCard.rotation st) = 0) /\
  (clientY = centerY -> x (ServiceCard.rotation st) = 0) /\
  (clientX = left r + width r -> y (ServiceCard.rotation st) = 10) /\
  (clientY = top r -> x (ServiceCard.rotation st) = 10) /\
  ServiceCard.isHovered st = hovered.
Proof.
  intros Hw Hh [[Hx1 Hx2] [Hy1 Hy2]] st centerX centerY.
  subst st centerX centerY.
  cbn [ServiceCard.handleMouseMove ServiceCard.cardRef ServiceCard.rotation
       ServiceCard.isHovered x y].
  assert (HX : -(1/2) <= (clientX - (left r + width r / 2)) / width r <= 1/2)
    by (apply div_bounds; lra).
  assert (HY : -(1/2) <= (top r + height r / 2 - clientY) / height r <= 1/2)
    by (apply div_bounds; lra).
  assert (Hiw : 0 < / width r) by (apply Rinv_0_lt_compat; exact Hw).
  assert (Hih : 0 < / height r) by (apply Rinv_0_lt_compat; exact Hh).
  split; [lra|]. split; [lra|].
  split; [intros H; unfold Rdiv; nra|].
  split; [intros H; unfold Rdiv; nra|].
  split; [intros ->; unfold Rdiv; ring|].
  split; [intros ->; unfold Rdiv; ring|].
  split; [intros ->; field; lra|].
  split; [intros ->; field; lra|].
  reflexivity.
Qed.

Lemma X21_service_card_witness :
  y (ServiceCard.rotation
       (ServiceCard.handleMouseMove 300 0
          (ServiceCard.mkState (Some (mkDOMRect 0 0 300 200))
                               (mkPoint 0 0) true))) <= 10.
Proof.
  pose proof (X21_service_card_tilts_at_most_ten_degrees
                (mkDOMRect 0 0 300 200) 300 0 (mkPoint 0 0) true) as H.
  cbv [over left top width height] in H.
  assert (Hw : 0 < 300) by lra.
  assert (Hh : 0 < 200) by lra.
  assert (Hover : (0 <= 300 <= 0 + 300) /\ (0 <= 0 <= 0 + 200)) by lra.
  destruct (H Hw Hh Hover) as [_ [[_ Hy] _]]. exact Hy.
Defined.

(** X22.  The tilt effect of an image of positive size: with the pointer
    over the image the tilt is at most 10 degrees about each axis, the scale
    is 1.05 and the glow lies inside the image (0 to 100 percent),
    following the pointer; with the pointer elsewhere the tilt is reset and
    the glow stays where it was. *)
Theorem X22_tilt_image_tilt_and_glow_stay_in_range
    (r : DOMRect) (mousePosition : Point) (t : TiltImage.Tilt)
    (glow : Point) :
  0 < width r -> 0 < height r ->
  let st := TiltImage.effect mousePosition
              (TiltImage.mkState (Some r) t glow) in
  (over r (x mousePosition) (y mousePosition) ->
   -10 <= TiltImage.tiltX (TiltImage.tilt st) <= 10 /\
   -10 <= TiltImage.tiltY (TiltImage.tilt st) <= 10 /\
   TiltImage.tiltScale (TiltImage.tilt st) = 1.05 /\
   0 <= x (TiltImage.glowPosition st) <= 100 /\
   0 <= y (TiltImage.glowPosition st) <= 100 /\
   x (TiltImage.glowPosition st) * width r =
   (x mousePosition - left r) * 100 /\
   y (TiltImage.glowPosition st) * height r =
   (y mousePosition - top r) * 100) /\
  (~ over r (x mousePosition) (y mousePosition) ->
   TiltImage.tilt st = TiltImage.mkTilt 0 0 1 /\
   TiltImage.glowPosition st = glow).
Proof.
  intros Hw Hh st. subst st. unfold TiltImage.effect.
  cbn [TiltImage.tiltRef].
  assert (Hiw : 0 < / width r) by (apply Rinv_0_lt_compat; exact Hw).
  assert (Hih : 0 < / height r) by (apply Rinv_0_lt_compat; exact Hh).
  destruct ((x mousePosition >=? left r) &&
            (x mousePosition <=? left r + width r) &&
            (y mousePosition >=? top r) &&
            (y mousePosition <=? top r + height r)) eqn:E.
  - apply andb_prop in E. destruct E as [E Hy2].
    apply andb_prop in E. destruct E as [E Hy1].
    apply andb_prop in E. destruct E as [Hx1 Hx2].
    apply Rleb_true in Hx1, Hx2, Hy1, Hy2.
    split; [intros _|intros Hn; exfalso; apply Hn; unfold over; lra].
    cbn [TiltImage.tilt TiltImage.glowPosition TiltImage.tiltX TiltImage.tiltY
         TiltImage.tiltScale x y].
    assert (HX : -1 <= (x mousePosition - (left r + width r / 2))
                       / (width r / 2) <= 1)
      by (apply div_bounds; lra).
    assert (HY : -1 <= (y mousePosition - (top r + height r / 2))
                       / (height r / 2) <= 1)
      by (apply div_bounds; lra).
    assert (GX : -1 <= (x mousePosition - left r) / width r <= 1)
      by (apply div_bounds; lra).
    assert (GY : -1 <= (y mousePosition - top r) / height r <= 1)
      by (apply div_bounds; lra).
    assert (GX0 : 0 <= (x mousePosition - left r) / width r)
      by (unfold Rdiv; apply Rmult_le_pos; lra).
    assert (GY0 : 0 <= (y mousePosition - top r) / height r)
      by (unfold Rdiv; apply Rmult_le_pos; lra).
    split; [lra|]. split; [lra|]. split; [reflexivity|].
    split; [lra|]. split; [lra|].
    split; field; lra.
  - split.
    + intros [[Hx1 Hx2] [Hy1 Hy2]]. exfalso.
      apply Rleb_true in Hx1, Hx2, Hy1, Hy2.
      unfold Rgeb in E. rewrite Hx1, Hx2, Hy1, Hy2 in E. discriminate E.
    + intros _. split; reflexivity.
Qed.

Lemma X22_tilt_image_witness :
  TiltImage.tiltX
    (TiltImage.tilt
       (TiltImage.effect (mkPoint 10 20)
          (TiltImage.mkState (Some (mkDOMRect 0 0 200 100))
                             (TiltImage.mkTilt 0 0 1) (mkPoint 50 50))))
  <= 10.
Proof.
  pose proof (X22_tilt_image_tilt_and_glow_stay_in_range
                (mkDOMRect 0 0 200 100) (mkPoint 10 20)
                (TiltImage.mkTilt 0 0 1) (mkPoint 50 50)) as H.
  cbv [over left top width height x y] in H.
  assert (Hw : 0 < 200) by lra.
  assert (Hh : 0 < 100) by lra.
  assert (Hover : (0 <= 10 <= 0 + 200) /\ (0 <= 20 <= 0 + 100)) by lra.
  destruct (H Hw Hh) as [Hin _].
  destruct (Hin Hover) as [[_ Hx] _]. exact Hx.
Defined.

End PointerProofs.

(** ** GlowingParticlesEffect *)

Module GlowProofs.
Import Browser Layout GlowingParticlesEffect.
Local Open Scope js_scope.

Lemma glow_newParticle_spec (relativeX relativeY : R) (w : World Callback) :
  (forall k, 0 <= randomSource w k < 1) ->
  exists p w',
    newParticle relativeX relativeY w = Normal p w' /\
    randomSource w' = randomSource w /\ frames w' = frames w /\
    nextHandle w' = nextHandle w /\
    fresh relativeX relativeY p.
Proof.
  intros Hr. destruct w as [nh fr ls ce dr rs ri].
  cbn [randomSource] in Hr.
  pose proof (Hr ri). pose proof (Hr (S ri)). pose proof (Hr (S (S ri))).
  unfold newParticle.
  cbv [bind mathRandom ret nextHandle frames listeners consoleErrors drawn
       randomSource randomIndex].
  eexists. eexists. split; [reflexivity|].
  split; [reflexivity|]. split; [reflexivity|]. split; [reflexivity|].
  unfold fresh. cbn [x y size life color].
  split; [lra|]. split; [lra|]. split; [lra|]. split; [reflexivity|].
  destruct (_ >? 0.7); auto.
Qed.

Lemma glow_newParticles_spec (n : nat) (relativeX relativeY : R) :
  forall w : World Callback,
    (forall k, 0 <= randomSource w k < 1) ->
    exists ps w',
      newParticles n relativeX relativeY w = Normal ps w' /\
      randomSource w' = randomSource w /\ frames w' = frames w /\
      nextHandle w' = nextHandle w /\
      List.length ps = n /\ Forall (fresh relativeX relativeY) ps.
Proof.
  induction n as [|n IH]; intros w Hr; cbn [newParticles].
  - exists [], w. repeat split; auto.
  - destruct (glow_newParticle_spec relativeX relativeY w Hr)
      as (p & w1 & E1 & R1 & F1 & N1 & P1).
    assert (Hr1 : forall k, 0 <= randomSource w1 k < 1)
      by (rewrite R1; exact Hr).
    destruct (IH w1 Hr1) as (ps & w2 & E2 & R2 & F2 & N2 & L2 & P2).
    unfold bind. rewrite E1, E2. exists (p :: ps), w2.
    split; [reflexivity|]. split; [congruence|]. split; [congruence|].
    split; [congruence|]. split; [cbn; congruence|].
    constructor; assumption.
Qed.

(** [Math.floor(Math.random() * 3) + 1] is 1, 2 or 3. *)
Lemma one_to_three (r : R) :
  0 <= r < 1 -> (1 <= Z.to_nat (Int_part (r * 3)) + 1 <= 3)%nat.
Proof.
  intros Hr. destruct (base_Int_part (r * 3)) as [Hlo Hhi].
  assert (H0 : (0 <= Int_part (r * 3))%Z).
  { apply Z.lt_succ_r, lt_IZR. rewrite succ_IZR. lra. }
  assert (H2 : (Int_part (r * 3) < 3)%Z).
  { apply lt_IZR. lra. }
  lia.
Qed.

Lemma inside_true (r : DOMRect) (p : Point) :
  over r (Browser.x p) (Browser.y p) ->
  (Browser.x p >=? left r) && (Browser.x p <=? left r + width r) &&
  (Browser.y p >=? top r) && (Browser.y p <=? top r + height r) = true.
Proof.
  intros [[Hx1 Hx2] [Hy1 Hy2]]. apply Rleb_true in Hx1, Hx2, Hy1, Hy2.
  unfold Rgeb. rewrite Hx1, Hx2, Hy1, Hy2. reflexivity.
Qed.

Lemma inside_false (r : DOMRect) (p : Point) :
  ~ over r (Browser.x p) (Browser.y p) ->
  (Browser.x p >=? left r) && (Browser.x p <=? left r + width r) &&
  (Browser.y p >=? top r) && (Browser.y p <=? top r + height r) = false.
Proof.
  intros Hn.
  destruct ((Browser.x p >=? left r) && (Browser.x p <=? left r + width r) &&
            (Browser.y p >=? top r) && (Browser.y p <=? top r + height r))
    eqn:E; [|reflexivity].
  exfalso. apply Hn.
  apply andb_prop in E. destruct E as [E Hy2].
  apply andb_prop in E. destruct E as [E Hy1].
  apply andb_prop in E. destruct E as [Hx1 Hx2].
  apply Rleb_true in Hx1, Hx2, Hy1, Hy2. unfold over. lra.
Qed.

(** X23.  With [Math.random()] in [0, 1), a pointer position over the
    container, other than (0, 0), adds one, two or three particles behind
    the existing ones: each within 10 px of the pointer in both directions,
    with a size in [2, 10), full life, and red or white.  A pointer
    elsewhere adds none. *)
Theorem X23_pointer_over_the_container_spawns_one_to_three_particles
    (r : DOMRect) (old : list Particle) (interval : option nat)
    (mousePosition : Point) (w : World Callback) :
  (forall k, 0 <= randomSource w k < 1) ->
  atOrigin mousePosition = false ->
  let st := mkState (Some r) old interval in
  (over r (Browser.x mousePosition) (Browser.y mousePosition) ->
   exists new w',
     spawnEffect mousePosition st w
     = Normal (Some (mkState (Some r) (old ++ new) interval)) w' /\
     (1 <= List.length new <= 3)%nat /\
     Forall (fresh (Browser.x mousePosition - left r)
                   (Browser.y mousePosition - top r)) new) /\
  (~ over r (Browser.x mousePosition) (Browser.y mousePosition) ->
   spawnEffect mousePosition st w = Normal None w).
Proof.
  intros Hr Ho st. subst st. unfold spawnEffect.
  cbn [containerRef particles intervalCleanup]. rewrite Ho. split.
  - intros Hin. rewrite (inside_true r mousePosition Hin). cbv zeta.
    unfold bind at 1. unfold mathRandom at 1.
    set (w1 := mkWorld Callback (nextHandle w) (frames w) (listeners w)
                       (consoleErrors w) (drawn w) (randomSource w)
                       (S (randomIndex w))).
    assert (Hr1 : forall k, 0 <= randomSource w1 k < 1) by exact Hr.
    destruct (glow_newParticles_spec
                (Z.to_nat (Int_part (randomSource w (randomIndex w) * 3)) + 1)
                (Browser.x mousePosition - left r)
                (Browser.y mousePosition - top r) w1 Hr1)
      as (ps & w2 & E & _ & _ & _ & L & P).
    unfold bind. rewrite E. exists ps, w2. split; [reflexivity|].
    split; [|exact P].
    rewrite L. apply one_to_three, Hr.
  - intros Hout. rewrite (inside_false r mousePosition Hout). reflexivity.
Qed.

Lemma always_in_range : forall k : nat, 0 <= sampleRandom k < 1.
Proof. intros k. unfold sampleRandom. lra. Qed.

Lemma X23_pointer_over_the_container_witness :
  exists new w',
    spawnEffect (mkPoint 100 100) (mkState (Some sampleContainer) [] None)
                (emptyWorld sampleRandom)
    = Normal (Some (mkState (Some sampleContainer) ([] ++ new) None)) w' /\
    (1 <= List.length new <= 3)%nat.
Proof.
  assert (Ho : atOrigin (mkPoint 100 100) = false).
  { unfold atOrigin. cbn [Browser.x Browser.y].
    destruct (Req_dec_T 100 0); [lra|reflexivity]. }
  assert (Hin : over sampleContainer 100 100).
  { unfold over, sampleContainer. cbn [left top width height]. lra. }
  destruct (X23_pointer_over_the_container_spawns_one_to_three_particles
              sampleContainer [] None (mkPoint 100 100)
              (emptyWorld sampleRandom) always_in_range Ho) as [H _].
  destruct (H Hin) as (new & w' & E & L & _).
  exists new, w'. split; [exact E|exact L].
Defined.

Lemma tick_in (prev : list Particle) (q : Particle) :
  In q (tick prev) ->
  exists p, In p prev /\
    life q = life p - 0.02 /\ size q = size p * 0.97 /\
    x q = x p /\ y q = y p /\ color q = color p /\ 0 < life q.
Proof.
  unfold tick. intros H. apply filter_In in H. destruct H as [H Hl].
  apply in_map_iff in H. destruct H as (p & <- & Hp).
  exists p. cbn [life size x y color] in *.
  apply Rltb_true in Hl. repeat split; auto.
Qed.

Lemma tick_length (prev : list Particle) :
  (List.length (tick prev) <= List.length prev)%nat.
Proof.
  unfold tick.
  etransitivity; [apply filter_length_le|].
  rewrite length_map. apply Nat.le_refl.
Qed.

(** X24.  What [k] firings of the interval do to the particles: a particle
    still there is one of the original ones with the same position and
    colour, its life lowered by 0.02 per firing and still positive, its
    size multiplied by 0.97 per firing; no particle is added; and particles
    that start with a life of at most 1 are all gone after 50 firings. *)
Theorem X24_particles_fade_out_within_fifty_ticks
    (k : nat) (prev : list Particle) :
  (forall q, In q (Nat.iter k tick prev) ->
     exists p, In p prev /\
       life q = life p - 0.02 * INR k /\ size q = size p * 0.97 ^ k /\
       x q = x p /\ y q = y p /\ color q = color p /\
       ((0 < k)%nat -> 0 < life q)) /\
  (List.length (Nat.iter k tick prev) <= List.length prev)%nat /\
  (Forall (fun p => life p <= 1) prev -> (50 <= k)%nat ->
   Nat.iter k tick prev = []).
Proof.
  assert (Hin : forall k q, In q (Nat.iter k tick prev) ->
     exists p, In p prev /\
       life q = life p - 0.02 * INR k /\ size q = size p * 0.97 ^ k /\
       x q = x p /\ y q = y p /\ color q = color p /\
       ((0 < k)%nat -> 0 < life q)).
  { clear k. induction k as [|k IH]; intros q Hq.
    - exists q. change (In q prev) in Hq. cbn [INR pow].
      repeat split; auto; try lra. intros H. inversion H.
    - change (In q (tick (Nat.iter k tick prev))) in Hq. apply tick_in in Hq.
      destruct Hq as (q' & Hq' & Hl & Hs & Hx & Hy & Hc & Hpos).
      destruct (IH q' Hq') as (p & Hp & Hl' & Hs' & Hx' & Hy' & Hc' & _).
      exists p. rewrite S_INR. cbn [pow].
      split; [exact Hp|]. split; [lra|]. split; [rewrite Hs, Hs'; ring|].
      split; [congruence|]. split; [congruence|]. split; [congruence|].
      intros _. exact Hpos. }
  split; [apply Hin|]. split.
  - induction k as [|k IH].
    + apply Nat.le_refl.
    + change (Nat.iter (S k) tick prev) with (tick (Nat.iter k tick prev)).
      pose proof (tick_length (Nat.iter k tick prev)). lia.
  - intros Hlife Hk.
    destruct (Nat.iter k tick prev) as [|q rest] eqn:E; [reflexivity|].
    exfalso.
    assert (Hq : In q (Nat.iter k tick prev)) by (rewrite E; left; reflexivity).
    destruct (Hin k q Hq) as (p & Hp & Hl & _ & _ & _ & _ & Hpos).
    rewrite Forall_forall in Hlife. specialize (Hlife p Hp). cbv beta in Hlife.
    assert (H50 : 50 <= INR k).
    { apply le_INR in Hk. rewrite (INR_IZR_INZ 50) in Hk.
      cbn [Z.of_nat Pos.of_succ_nat Pos.succ] in Hk. exact Hk. }
    assert (0 < life q) by (apply Hpos; lia).
    lra.
Qed.

Lemma glow_newParticles_frames (n : nat) (relativeX relativeY : R) :
  forall w : World Callback,
    exists ps w',
      newParticles n relativeX relativeY w = Normal ps w' /\
      frames w' = frames w /\ nextHandle w' = nextHandle w /\
      List.length ps = n.
Proof.
  induction n as [|n IH]; intros w; cbn [newParticles].
  - exists [], w. repeat split; auto.
  - unfold bind at 1. unfold newParticle.
    cbv [bind mathRandom ret].
    match goal with
    | |- context [newParticles n relativeX relativeY ?w1] =>
      destruct (IH w1) as (ps & w2 & E & F & N & L); rewrite E
    end.
    eexists. exists w2. split; [reflexivity|].
    split; [exact F|]. split; [exact N|]. cbn [List.length]. congruence.
Qed.

Lemma spawnEffect_spec (position : Point) (st : State) (w : World Callback) :
  exists spawned w',
    spawnEffect position st w = Normal spawned w' /\
    frames w' = frames w /\ nextHandle w' = nextHandle w /\
    match spawned with
    | Some st' =>
      intervalCleanup st' = intervalCleanup st /\ particles st' <> []
    | None => True
    end.
Proof.
  unfold spawnEffect. destruct (containerRef st) as [r|].
  - destruct (atOrigin position).
    + exists None, w. repeat split; auto.
    + destruct (_ && _).
      * cbv zeta. unfold bind at 1. unfold mathRandom at 1.
        destruct (glow_newParticles_frames
                    (Z.to_nat (Int_part (randomSource w (randomIndex w) * 3))
                     + 1)
                    (Browser.x position - left r) (Browser.y position - top r)
                    (mkWorld Callback (nextHandle w) (frames w) (listeners w)
                       (consoleErrors w) (drawn w) (randomSource w)
                       (S (randomIndex w))))
          as (ps & w2 & E & F & N & L).
        unfold bind. rewrite E. eexists. exists w2.
        split; [reflexivity|]. split; [exact F|]. split; [exact N|].
        cbn [intervalCleanup particles]. split; [reflexivity|].
        destruct ps as [|p ps]; [cbn in L; lia|].
        destruct (particles st); discriminate.
      * exists None, w. repeat split; auto.
  - exists None, w. repeat split; auto.
Qed.

(** The interval effect runs again: the cleanup of the render [st], then
    the effect of the render [st']. *)
Lemma glow_rerun_spec (st st' : State) (w : World Callback) :
  frames w = match intervalCleanup st with
             | Some interval => [(interval, Tick)]
             | None => []
             end ->
  exists st'' w',
    (intervalEffectCleanup st ;; intervalEffect st') w = Normal st'' w' /\
    particles st'' = particles st' /\ mounted st'' w'.
Proof.
  intros Hf. destruct w as [nh fr ls ce dr rs ri]. cbn [frames] in Hf.
  subst fr. unfold bind, intervalEffectCleanup, intervalEffect, mounted.
  destruct (intervalCleanup st) as [id|];
    cbv [clearInterval cancelAnimationFrame setInterval requestAnimationFrame
         ret bind nextHandle frames listeners consoleErrors drawn randomSource
         randomIndex filter fst];
    try rewrite Nat.eqb_refl; cbn [negb app];
    destruct (particles st') as [|p ps] eqn:Ep;
    (eexists; eexists; split; [reflexivity|]);
    cbn [particles intervalCleanup frames]; (split; [reflexivity|]);
    (split; [reflexivity|]); split; intros H; try reflexivity;
    discriminate H.
Qed.

Lemma glow_handle_spec (e : Event) (st : State) (w : World Callback) :
  mounted st w ->
  exists st' w', handle e st w = Normal st' w' /\ mounted st' w'.
Proof.
  intros [Hf Hp]. destruct e as [position|]; unfold handle.
  - destruct (spawnEffect_spec position st w) as (o & w1 & E & F & _ & Ho).
    unfold bind at 1. rewrite E. destruct o as [st1|].
    + assert (Hf1 : frames w1 = match intervalCleanup st with
                                | Some interval => [(interval, Tick)]
                                | None => []
                                end) by congruence.
      destruct (glow_rerun_spec st st1 w1 Hf1) as (st2 & w2 & E2 & _ & Hm).
      exists st2, w2. split; [exact E2|exact Hm].
    + exists st, w1. split; [reflexivity|]. split; [congruence|exact Hp].
  - destruct (frames w) as [|[id []] rest] eqn:Ef.
    + exists st, w. split; [reflexivity|]. split; [congruence|exact Hp].
    + cbv zeta.
      assert (Hf1 : frames w = match intervalCleanup st with
                               | Some interval => [(interval, Tick)]
                               | None => []
                               end) by congruence.
      destruct (glow_rerun_spec st
                  (mkState (containerRef st) (tick (particles st))
                           (intervalCleanup st)) w Hf1)
        as (st2 & w2 & E2 & _ & Hm).
      exists st2, w2. split; [exact E2|exact Hm].
Qed.

Lemma glow_handleAll_spec (evs : list Event) :
  forall (st : State) (w : World Callback),
    mounted st w ->
    exists st' w', handleAll evs st w = Normal st' w' /\ mounted st' w'.
Proof.
  induction evs as [|e rest IH]; intros st w Hm; cbn [handleAll].
  - exists st, w. auto.
  - destruct (glow_handle_spec e st w Hm) as (st1 & w1 & E1 & Hm1).
    destruct (IH st1 w1 Hm1) as (st2 & w2 & E2 & Hm2).
    unfold bind. rewrite E1, E2. exists st2, w2. auto.
Qed.

(** X25.  From mounting on, through any pointer moves and timer firings,
    exactly one interval is running while there are particles and none
    while there are not; unmounting clears it, so that no timer of the
    component is left. *)
Theorem X25_one_interval_runs_exactly_while_there_are_particles
    (container : option DOMRect) (evs : list Event) (random : nat -> R) :
  exists st w w',
    (st0 <- mount (initialState container) ;; handleAll evs st0)
      (emptyWorld random) = Normal st w /\
    (particles st = [] -> frames w = []) /\
    (particles st <> [] -> exists interval, frames w = [(interval, Tick)]) /\
    unmount st w = Normal tt w' /\ frames w' = [] /\
    lifecycle evs (initialState container) (emptyWorld random) = Normal tt w'.
Proof.
  assert (E0 : mount (initialState container) (emptyWorld random)
               = Normal (initialState container) (emptyWorld random)).
  { unfold mount, spawnEffect, initialState. cbn [containerRef].
    assert (Ho : atOrigin (mkPoint 0 0) = true).
    { unfold atOrigin. cbn [Browser.x Browser.y].
      destruct (Req_dec_T 0 0); [reflexivity|lra]. }
    rewrite Ho. destruct container; reflexivity. }
  assert (Hm0 : mounted (initialState container) (emptyWorld random)).
  { split; [reflexivity|]. split; reflexivity. }
  destruct (glow_handleAll_spec evs _ _ Hm0) as (st & w & E & [Hf Hp]).
  assert (Eu : exists w', unmount st w = Normal tt w' /\ frames w' = []).
  { unfold unmount, intervalEffectCleanup.
    destruct (intervalCleanup st) as [id|].
    - eexists. split; [reflexivity|].
      cbv [clearInterval cancelAnimationFrame frames]. 
      destruct w as [nh fr ls ce dr rs ri]. cbn [frames] in Hf. subst fr.
      cbn [filter fst]. rewrite Nat.eqb_refl. reflexivity.
    - exists w. split; [reflexivity|exact Hf]. }
  destruct Eu as (w' & Eu & Hf').
  exists st, w, w'. unfold lifecycle, bind. rewrite E0, E.
  split; [reflexivity|]. split; [|split; [|split; [exact Eu|split; [exact Hf'|exact Eu]]]].
  - intros Hn. apply Hp in Hn. rewrite Hn in Hf. exact Hf.
  - intros Hn. destruct (intervalCleanup st) as [id|].
    + exists id. exact Hf.
    + exfalso. apply Hn, Hp. reflexivity.
Qed.

End GlowProofs.

(** ** ParallaxText *)

Module ParallaxProofs.
Import Browser ParallaxText.
Local Open Scope js_scope.

Lemma filter_absent (h : nat) (l : list (nat * Callback)) :
  ~ In h (map fst l) ->
  filter (fun f : nat * Callback => negb (Nat.eqb (fst f) h)) l = l.
Proof.
  induction l as [|[h' c] l IH]; intros Hn; cbn [filter fst].
  - reflexivity.
  - cbn [map fst In] in Hn.
    rewrite (proj2 (Nat.eqb_neq h' h)) by tauto. cbn [negb].
    rewrite IH by tauto. reflexivity.
Qed.

(** One run of [rotate]: the text stays within its track, and one request
    is made. *)
Lemma rotate_spec (run : nat) (v t velocityFactor : R) (st : State)
    (w : World Callback) :
  -10000 <= baseX st <= 10000 ->
  exists st',
    rotate run v t velocityFactor st w =
    Normal st'
      (mkWorld Callback (S (nextHandle w))
               (frames w ++ [(nextHandle w, Rotate run v)])
               (listeners w) (consoleErrors w) (drawn w) (randomSource w)
               (randomIndex w)) /\
    -10000 <= baseX st' <= 10000 /\ runs st' = runs st.
Proof.
  intros Hb. unfold rotate. destruct (Req_dec_T (prevT st run) 0).
  - eexists. split; [reflexivity|]. cbn [baseX runs setPrevT]. auto.
  - cbv zeta. eexists. split; [reflexivity|].
    cbn [baseX runs setPrevT setBaseX].
    set (b := baseX st + _).
    destruct (b <? -10000) eqn:E1; cbn [baseX runs setPrevT setBaseX].
    + assert (E2 : (0 >? 10000) = false)
        by (unfold Rgtb; apply Rltb_false; lra).
      rewrite E2. cbn [baseX runs setPrevT setBaseX]. split; [lra|reflexivity].
    + apply Rltb_false in E1.
      destruct (b >? 10000) eqn:E2; cbn [baseX runs setPrevT setBaseX].
      * split; [lra|reflexivity].
      * unfold Rgtb in E2. apply Rltb_false in E2. split; [lra|reflexivity].
Qed.

(** Serving the requests [pending], the first ones of the pending list. *)
Lemma parallax_runFrames_spec (t velocityFactor : R)
    (pending : list (nat * Callback)) :
  forall (rest : list (nat * Callback)) (st : State) (w : World Callback),
    frames w = pending ++ rest ->
    NoDup (map fst (frames w)) ->
    Forall (fun h => (h < nextHandle w)%nat) (map fst (frames w)) ->
    -10000 <= baseX st <= 10000 ->
    exists st' w',
      runFrames t velocityFactor pending st w = Normal st' w' /\
      List.length (frames w') = List.length (frames w) /\
      (exists new, frames w' = rest ++ new) /\
      NoDup (map fst (frames w')) /\
      Forall (fun h => (h < nextHandle w')%nat) (map fst (frames w')) /\
      -10000 <= baseX st' <= 10000 /\ runs st' = runs st.
Proof.
  induction pending as [|[h [run v]] pending IH]; intros rest st w Hf Hd Hlt Hb.
  - exists st, w. cbn [runFrames ret]. cbn [app] in Hf.
    split; [reflexivity|]. split; [reflexivity|].
    split; [exists []; rewrite app_nil_r; exact Hf|]. auto.
  - cbn [runFrames]. unfold bind at 1.
    unfold takeFrame at 1, cancelAnimationFrame at 1.
    pose proof Hd as Hd0. pose proof Hlt as Hlt0.
    rewrite Hf in Hd0, Hlt0. cbn [app map fst] in Hd0, Hlt0.
    inversion Hd0 as [|? ? Hn Hd']; subst.
    inversion Hlt0 as [|? ? Hh Hlt']; subst.
    rewrite Hf. cbn [app filter fst]. rewrite Nat.eqb_refl. cbn [negb].
    rewrite filter_absent by exact Hn.
    unfold bind at 1.
    match goal with
    | |- context [rotate run v t velocityFactor st ?w1] =>
      destruct (rotate_spec run v t velocityFactor st w1 Hb)
        as (st1 & E1 & Hb1 & Hr1); rewrite E1; clear E1
    end.
    cbn [nextHandle frames listeners consoleErrors drawn randomSource
         randomIndex].
    match goal with
    | |- context [runFrames t velocityFactor pending st1 ?w1] =>
      destruct (IH (rest ++ [(nextHandle w, Rotate run v)]) st1 w1)
        as (st' & w' & E & L & (new & F) & D & Lt & B & R)
    end.
    + cbn [frames]. rewrite <- app_assoc. reflexivity.
    + cbn [frames]. rewrite map_app. cbn [map fst].
      apply NoDup_app_remove_l with (l := []). cbn [app].
      rewrite <- (app_nil_r [nextHandle w]).
      apply NoDup_app; [exact Hd'|repeat constructor; intros []|].
      intros x Hx [<-|[]]. rewrite Forall_forall in Hlt'.
      specialize (Hlt' _ Hx). lia.
    + cbn [frames nextHandle]. rewrite map_app.
      apply Forall_app. split.
      * eapply Forall_impl; [|exact Hlt']. cbv beta. intros; lia.
      * cbn [map fst]. constructor; [lia|constructor].
    + exact Hb1.
    + rewrite E. exists st', w'. split; [reflexivity|].
      split; [rewrite L; cbn [frames]; rewrite !length_app;
              cbn [List.length]; rewrite length_app; lia|].
      split; [exists ((nextHandle w, Rotate run v) :: new);
              rewrite F, <- app_assoc; reflexivity|].
      split; [exact D|]. split; [exact Lt|]. split; [exact B|congruence].
Qed.

Lemma parallax_effect_spec (st : State) (w : World Callback) :
  mounted st w ->
  exists st' w',
    effect st w = Normal st' w' /\ mounted st' w' /\ runs st' = S (runs st).
Proof.
  intros (Hb & Hl & Hd & Hlt). unfold effect. cbv zeta.
  eexists. eexists. split; [reflexivity|].
  split; [|reflexivity]. unfold mounted.
  cbn [baseX runs setPrevT frames nextHandle].
  split; [exact Hb|].
  split; [rewrite length_app; cbn [List.length]; lia|].
  rewrite map_app. cbn [map fst]. split.
  - apply NoDup_app_remove_l with (l := []). cbn [app].
    rewrite <- (app_nil_r [nextHandle w]).
    apply NoDup_app; [exact Hd|repeat constructor; intros []|].
    intros x Hx [<-|[]]. rewrite Forall_forall in Hlt.
    specialize (Hlt _ Hx). lia.
  - apply Forall_app. split.
    + eapply Forall_impl; [|exact Hlt]. cbv beta. intros; lia.
    + constructor; [lia|constructor].
Qed.

Lemma parallax_handle_spec (e : Event) (st : State) (w : World Callback) :
  mounted st w ->
  exists st' w',
    handle e st w = Normal st' w' /\ mounted st' w' /\
    (runs st <= runs st')%nat.
Proof.
  intros Hm. destruct e as [t velocityFactor|v]; unfold handle.
  - destruct Hm as (Hb & Hl & Hd & Hlt).
    destruct (parallax_runFrames_spec t velocityFactor (frames w) [] st w)
      as (st' & w' & E & L & _ & D & Lt & B & R);
      [rewrite app_nil_r; reflexivity|exact Hd|exact Hlt|exact Hb|].
    exists st', w'. split; [exact E|].
    split; [|lia]. split; [exact B|]. split; [congruence|]. auto.
  - destruct (Req_dec_T v (baseVelocity st)).
    + exists st, w. split; [reflexivity|]. split; [exact Hm|lia].
    + destruct (parallax_effect_spec
                  (mkState (baseX st) (directionFactor st) v (prevT st)
                           (runs st)) w Hm)
        as (st' & w' & E & Hm' & R).
      exists st', w'. split; [exact E|]. split; [exact Hm'|].
      cbn [runs] in R. lia.
Qed.

Lemma parallax_handleAll_spec (evs : list Event) :
  forall (st : State) (w : World Callback),
    mounted st w ->
    exists st' w',
      handleAll evs st w = Normal st' w' /\ mounted st' w' /\
      (runs st <= runs st')%nat.
Proof.
  induction evs as [|e rest IH]; intros st w Hm; cbn [handleAll].
  - exists st, w. auto.
  - destruct (parallax_handle_spec e st w Hm) as (st1 & w1 & E1 & Hm1 & R1).
    destruct (IH st1 w1 Hm1) as (st2 & w2 & E2 & Hm2 & R2).
    unfold bind. rewrite E1, E2. exists st2, w2.
    split; [reflexivity|]. split; [exact Hm2|lia].
Qed.

(** X26.  Whatever the frame times, the scroll velocities and the changes
    of [baseVelocity]: the text never leaves the track from -10000 to
    10000, and because the effect returns no cleanup every run of it keeps
    one frame request pending, also after the component is unmounted. *)
Theorem X26_parallax_text_stays_on_track_and_its_loops_never_stop
    (baseVelocity : R) (evs : list Event) (random : nat -> R) :
  exists st w,
    lifecycle baseVelocity evs (emptyWorld random) = Normal st w /\
    -10000 <= baseX st <= 10000 /\
    List.length (frames w) = runs st /\
    (1 <= runs st)%nat.
Proof.
  assert (Hm0 : mounted (initialState baseVelocity)
                        (emptyWorld (C := Callback) random)).
  { unfold mounted, initialState, emptyWorld.
    cbn [baseX runs frames map List.length nextHandle].
    split; [lra|]. split; [reflexivity|]. split; constructor. }
  destruct (parallax_effect_spec _ _ Hm0) as (st0 & w0 & E0 & Hm1 & R0).
  destruct (parallax_handleAll_spec evs st0 w0 Hm1)
    as (st & w & E & (Hb & Hl & _) & R).
  exists st, w. unfold lifecycle, bind, unmount. rewrite E0, E.
  split; [reflexivity|]. split; [exact Hb|]. split; [exact Hl|].
  cbn [runs initialState] in R0. lia.
Qed.

End ParallaxProofs.

(** ** CustomCursor *)

Module CursorProofs.
Import CustomCursor.

Lemma not_registered (t : Target) (type : string) (f : nat)
    (l : list Registration) :
  Forall (fun r => (function r < f)%nat) l ->
  existsb (sameListener t type f) l = false.
Proof.
  induction 1 as [|r l Hr _ IH]; cbn [existsb]; [reflexivity|].
  rewrite IH, orb_false_r. unfold sameListener.
  rewrite (proj2 (Nat.eqb_neq f (function r))) by lia.
  apply andb_false_r.
Qed.

Lemma remove_absent (t : Target) (type : string) (f : nat)
    (l : list Registration) :
  Forall (fun r => (function r < f)%nat) l ->
  filter (fun r => negb (sameListener t type f r)) l = l.
Proof.
  induction 1 as [|r l Hr _ IH]; cbn [filter]; [reflexivity|].
  unfold sameListener at 1.
  rewrite (proj2 (Nat.eqb_neq f (function r))) by lia.
  rewrite andb_false_r. cbn [negb]. rewrite IH. reflexivity.
Qed.

Lemma known_weaken (f g : nat) (l : list Registration) :
  (f <= g)%nat ->
  Forall (fun r => (function r < f)%nat) l ->
  Forall (fun r => (function r < g)%nat) l.
Proof.
  intros Hfg H. eapply Forall_impl; [|exact H]. cbv beta. intros; lia.
Qed.

Lemma add_new (t : Target) (type : string) (f : nat) (a : Action)
    (p : Page) :
  Forall (fun r => (function r < f)%nat) (registry p) ->
  addEventListener t type f a p
  = mkPage (registry p ++ [mkRegistration t type f a]) (functions p).
Proof.
  intros H. unfold addEventListener. rewrite (not_registered _ _ _ _ H).
  reflexivity.
Qed.

(** The first [forEach] registers two new listeners on the element. *)
Lemma listen_spec (el : nat) (p : Page) :
  known p ->
  listen el p =
  mkPage (registry p ++
          [mkRegistration (Element el) "mouseenter" (functions p)
                          (SetCursorType "pointer");
           mkRegistration (Element el) "mouseleave" (S (functions p))
                          (SetCursorType "default")])
         (S (S (functions p))).
Proof.
  intros Hk. unfold known in Hk. destruct p as [regs f].
  cbn [registry functions] in *.
  unfold listen, newFunction, addEventListener. cbn [registry functions].
  rewrite (not_registered _ _ f regs Hk). cbn [registry functions].
  rewrite not_registered.
  - rewrite <- app_assoc. reflexivity.
  - apply Forall_app. split.
    + apply (known_weaken f); [lia|exact Hk].
    + constructor; [cbn [function]; lia|constructor].
Qed.

(** The [forEach] of the cleanup removes nothing. *)
Lemma unlisten_spec (el : nat) (p : Page) :
  known p -> unlisten el p = mkPage (registry p) (S (S (functions p))).
Proof.
  intros Hk. unfold known in Hk. destruct p as [regs f].
  cbn [registry functions] in *.
  unfold unlisten, newFunction, removeEventListener. cbn [registry functions].
  rewrite (remove_absent _ _ f regs Hk).
  rewrite remove_absent; [reflexivity|].
  apply (known_weaken f); [lia|exact Hk].
Qed.

Lemma unlisten_all (n : nat) :
  forall (a : nat) (p : Page),
    known p ->
    registry (fold_left (fun p el => unlisten el p) (seq a n) p) = registry p /\
    known (fold_left (fun p el => unlisten el p) (seq a n) p).
Proof.
  induction n as [|n IH]; intros a p Hk; cbn [seq fold_left].
  - auto.
  - rewrite (unlisten_spec a p Hk).
    destruct (IH (S a) (mkPage (registry p) (S (S (functions p))))) as [R K].
    + unfold known in *. cbn [registry functions].
      apply (known_weaken (functions p)); [lia|exact Hk].
    + split; [rewrite R; reflexivity|exact K].
Qed.

Lemma pair_filter (el a enter leave : nat) :
  filter (fun r => Target_eqb (Element el) (target r))
         [mkRegistration (Element a) "mouseenter" enter
                         (SetCursorType "pointer");
          mkRegistration (Element a) "mouseleave" leave
                         (SetCursorType "default")]
  = if Nat.eqb el a
    then [mkRegistration (Element a) "mouseenter" enter
                         (SetCursorType "pointer");
          mkRegistration (Element a) "mouseleave" leave
                         (SetCursorType "default")]
    else [].
Proof.
  cbn [filter target Target_eqb]. destruct (Nat.eqb el a); reflexivity.
Qed.

(** The listeners on the element [el] among those the first [forEach]
    registers on the elements from [a] to [a + n - 1]. *)
Lemma listen_all (n : nat) :
  forall (a : nat) (p : Page),
    known p ->
    exists new,
      registry (fold_left (fun p el => listen el p) (seq a n) p)
      = registry p ++ new /\
      known (fold_left (fun p el => listen el p) (seq a n) p) /\
      Forall hover new /\
      List.length new = (2 * n)%nat /\
      (forall el,
         (a <= el < a + n)%nat ->
         exists enter leave,
           filter (fun r => Target_eqb (Element el) (target r)) new
           = [mkRegistration (Element el) "mouseenter" enter
                             (SetCursorType "pointer");
              mkRegistration (Element el) "mouseleave" leave
                             (SetCursorType "default")]) /\
      (forall el,
         ~ (a <= el < a + n)%nat ->
         filter (fun r => Target_eqb (Element el) (target r)) new = []).
Proof.
  induction n as [|n IH]; intros a p Hk; cbn [seq fold_left].
  - exists []. rewrite app_nil_r. repeat split; auto. intros el H. lia.
  - rewrite (listen_spec a p Hk).
    match goal with
    | |- context [fold_left _ _ ?p1] =>
      destruct (IH (S a) p1) as (new & R & K & H & L & F & G)
    end.
    + unfold known in *. cbn [registry functions].
      apply Forall_app. split.
      * apply (known_weaken (functions p)); [lia|exact Hk].
      * repeat constructor; cbn [function]; lia.
    + cbn [registry] in R.
      eexists. split; [rewrite R, <- app_assoc; reflexivity|].
      split; [exact K|]. split; [|split; [|split]].
      * apply Forall_app. split; [|exact H].
        repeat constructor; exists a; cbn [target eventType action]; auto.
      * rewrite length_app. cbn [List.length]. lia.
      * intros el Hel. rewrite filter_app, pair_filter.
        destruct (Nat.eqb el a) eqn:E.
        -- apply Nat.eqb_eq in E. subst el.
           rewrite G by lia. eexists. eexists. reflexivity.
        -- apply Nat.eqb_neq in E. cbn [app]. apply F. lia.
      * intros el Hel. rewrite filter_app, pair_filter.
        rewrite (proj2 (Nat.eqb_neq el a)) by lia.
        cbn [app]. apply G. lia.
Qed.

Lemma hover_not_document (l : list Registration) :
  Forall hover l ->
  filter (fun r => Target_eqb Document (target r)) l = [].
Proof.
  induction 1 as [|r l (el & Ht & _) _ IH]; cbn [filter]; [reflexivity|].
  rewrite Ht. cbn [Target_eqb]. exact IH.
Qed.

Lemma hover_kept (type : string) (f : nat) (l : list Registration) :
  Forall hover l ->
  filter (fun r => negb (sameListener Document type f r)) l = l.
Proof.
  induction 1 as [|r l (el & Ht & _) _ IH]; cbn [filter]; [reflexivity|].
  unfold sameListener at 1. rewrite Ht. cbn [Target_eqb andb negb].
  rewrite IH. reflexivity.
Qed.

(** One mount and unmount: the listeners on [document] are gone, those on
    the elements have stayed. *)
Lemma cycle_spec (elements : nat) (p : Page) :
  known p -> Forall hover (registry p) ->
  exists new,
    registry (cleanup (fst (effect elements initialState p))
                      (snd (effect elements initialState p)))
    = registry p ++ new /\
    known (cleanup (fst (effect elements initialState p))
                   (snd (effect elements initialState p))) /\
    Forall hover new /\
    List.length new = (2 * elements)%nat /\
    (forall el,
       (el < elements)%nat ->
       exists enter leave,
         filter (fun r => Target_eqb (Element el) (target r)) new
         = [mkRegistration (Element el) "mouseenter" enter
                           (SetCursorType "pointer");
            mkRegistration (Element el) "mouseleave" leave
                           (SetCursorType "default")]).
Proof.
  intros Hk Hh. unfold known in Hk. destruct p as [regs f].
  cbn [registry functions] in *.
  unfold effect, newFunction. cbn [registry functions fst snd].
  rewrite (add_new Document "mouseenter" f) by exact Hk.
  cbn [registry functions].
  rewrite (add_new Document "mouseleave" (S f)).
  2:{ cbn [registry]. apply Forall_app. split.
      - apply (known_weaken f); [lia|exact Hk].
      - constructor; [cbn [function]; lia|constructor]. }
  cbn [registry functions].
  set (doc := [mkRegistration Document "mouseenter" f (SetIsVisible true);
               mkRegistration Document "mouseleave" (S f)
                              (SetIsVisible false)]).
  rewrite <- app_assoc. change ([_] ++ [_]) with doc.
  destruct (listen_all elements 0 (mkPage (regs ++ doc) (S (S f))))
    as (new & R & K & H & L & F & _).
  { unfold known. cbn [registry functions]. apply Forall_app. split.
    - apply (known_weaken f); [lia|exact Hk].
    - subst doc. repeat constructor; cbn [function]; lia. }
  cbn [registry] in R.
  destruct (fold_left _ (seq 0 elements) _) as [regs' f'] eqn:Ef.
  cbn [registry functions] in *. subst regs'.
  cbn [fst snd]. unfold cleanup.
  cbn [handleMouseEnter handleMouseLeave interactiveElements].
  assert (Er : removeEventListener Document "mouseleave" (S f)
                 (removeEventListener Document "mouseenter" f
                    (mkPage ((regs ++ doc) ++ new) f'))
               = mkPage (regs ++ new) f').
  { unfold removeEventListener. cbn [registry functions]. f_equal.
    rewrite (filter_app _ (regs ++ doc) new), (filter_app _ regs doc).
    rewrite (hover_kept "mouseenter" f regs Hh),
            (hover_kept "mouseenter" f new H).
    assert (E1 : filter (fun r => negb (sameListener Document "mouseenter" f r))
                        doc
                 = [mkRegistration Document "mouseleave" (S f)
                                   (SetIsVisible false)]).
    { subst doc. cbn [filter]. unfold sameListener.
      cbn [target eventType function Target_eqb].
      rewrite Nat.eqb_refl. reflexivity. }
    rewrite E1.
    rewrite (filter_app _ (regs ++ _) new), (filter_app _ regs _).
    rewrite (hover_kept "mouseleave" (S f) regs Hh),
            (hover_kept "mouseleave" (S f) new H).
    cbn [filter]. unfold sameListener.
    cbn [target eventType function Target_eqb].
    rewrite Nat.eqb_refl. cbn [String.eqb Ascii.eqb Bool.eqb andb negb].
    rewrite app_nil_r. reflexivity. }
  rewrite Er.
  assert (Hk' : known (mkPage (regs ++ new) f')).
  { unfold known in *. cbn [registry functions] in *.
    apply Forall_app in K. destruct K as [K1 K2].
    apply Forall_app in K1. destruct K1 as [K1 _].
    apply Forall_app. split; assumption. }
  destruct (unlisten_all elements 0 _ Hk') as [R' K'].
  exists new. split; [rewrite R'; reflexivity|]. split; [exact K'|].
  split; [exact H|]. split; [exact L|].
  intros el Hel. apply F. lia.
Qed.

Lemma remount_spec (elements cycles : nat) :
  forall p : Page,
    known p -> Forall hover (registry p) ->
    exists new,
      registry (remount cycles elements p) = registry p ++ new /\
      Forall hover new /\
      List.length new = (2 * elements * cycles)%nat /\
      forall el,
        (el < elements)%nat ->
        List.length (filter (fun r => Target_eqb (Element el) (target r)) new)
        = (2 * cycles)%nat /\
        ((0 < cycles)%nat ->
         exists r, In r new /\ target r = Element el /\
                   eventType r = "mouseenter"%string).
Proof.
  induction cycles as [|cycles IH]; intros p Hk Hh; cbn [remount].
  - exists []. rewrite app_nil_r. split; [reflexivity|]. split; [constructor|].
    split; [cbn [List.length]; lia|]. intros el Hel.
    split; [reflexivity|]. intros H. inversion H.
  - destruct (cycle_spec elements p Hk Hh) as (new & R & K & H & L & F).
    destruct (effect elements initialState p) as [st p1]. cbn [fst snd] in *.
    destruct (IH (cleanup st p1) K) as (new' & R' & H' & L' & F').
    { rewrite R. apply Forall_app. split; assumption. }
    exists (new ++ new'). split; [rewrite R', R, app_assoc; reflexivity|].
    split; [apply Forall_app; split; assumption|].
    split; [rewrite length_app; lia|].
    intros el Hel. destruct (F el Hel) as (enter & leave & E).
    destruct (F' el Hel) as [Lel _].
    split.
    + rewrite filter_app, length_app, E, Lel. cbn [List.length]. lia.
    + intros _. eexists. split; [|split].
      * apply in_or_app. left.
        assert (Hin : In (mkRegistration (Element el) "mouseenter" enter
                                         (SetCursorType "pointer"))
                         (filter (fun r => Target_eqb (Element el) (target r))
                                 new))
          by (rewrite E; left; reflexivity).
        apply filter_In in Hin. apply Hin.
      * reflexivity.
      * reflexivity.
Qed.

Lemma all_pointer (l : list Registration) :
  forall st : State,
    Forall (fun r => action r = SetCursorType "pointer") l -> l <> [] ->
    cursorType (fold_left (fun st r => run (action r) st) l st)
    = "pointer"%string.
Proof.
  induction l as [|r l IH]; intros st Hall Hne; [contradiction|].
  inversion Hall as [|? ? Hr Hall']; subst. cbn [fold_left].
  destruct l as [|r' l'].
  - cbn [fold_left]. rewrite Hr. reflexivity.
  - apply IH; [exact Hall'|discriminate].
Qed.

(** X27.  The cleanup of the cursor effect removes the two listeners on
    [document], but hands [removeEventListener] new arrow functions for the
    interactive elements, which removes nothing: after the component was
    mounted and unmounted [cycles] times on a page with [elements]
    interactive elements, no listener is left on [document], every element
    still carries two listeners per cycle, and entering an element still
    calls [setCursorType('pointer')]. *)
Theorem X27_custom_cursor_leaves_its_element_listeners
    (cycles elements el : nat) (st : State) :
  (el < elements)%nat ->
  listenersOn Document (remount cycles elements emptyPage) = [] /\
  List.length (listenersOn (Element el) (remount cycles elements emptyPage))
  = (2 * cycles)%nat /\
  List.length (registry (remount cycles elements emptyPage))
  = (2 * elements * cycles)%nat /\
  ((0 < cycles)%nat ->
   cursorType (dispatch (Element el) "mouseenter"
                        (remount cycles elements emptyPage) st)
   = "pointer"%string).
Proof.
  intros Hel.
  destruct (remount_spec elements cycles emptyPage) as (new & R & H & L & F);
    [constructor|constructor|].
  cbn [registry emptyPage app] in R.
  unfold listenersOn, dispatch. rewrite R.
  destruct (F el Hel) as [Lel Hin].
  split; [apply hover_not_document; exact H|].
  split; [exact Lel|]. split; [exact L|].
  intros Hc. destruct (Hin Hc) as (r & Hr & Ht & He).
  apply all_pointer.
  - rewrite Forall_forall. intros r' Hr'. apply filter_In in Hr'.
    destruct Hr' as [Hr' Hb]. apply andb_prop in Hb. destruct Hb as [_ Hb].
    apply String.eqb_eq in Hb.
    rewrite Forall_forall in H. destruct (H r' Hr') as (el' & _ & [[_ A]|[E _]]).
    + exact A.
    + rewrite <- Hb in E. discriminate E.
  - intros Hn.
    assert (Hf : In r (filter (fun r => Target_eqb (Element el) (target r) &&
                                        String.eqb "mouseenter" (eventType r))
                              new)).
    { apply filter_In. split; [exact Hr|]. rewrite Ht, He.
      cbn [Target_eqb]. rewrite Nat.eqb_refl. reflexivity. }
    rewrite Hn in Hf. destruct Hf.
Qed.

Lemma X27_custom_cursor_witness :
  List.length (registry (remount 1 2 emptyPage)) = (2 * 2 * 1)%nat.
Proof.
  assert (Hel : (0 < 2)%nat) by lia.
  destruct (X27_custom_cursor_leaves_its_element_listeners 1 2 0 initialState
              Hel) as (_ & _ & L & _).
  exact L.
Defined.

End CursorProofs.

(** ** VRModeButton and the grid *)

Module VRProofs.
Import Browser AudioReactiveGrid GridProofs.
Local Open Scope js_scope.

(** The grid's listener of 'vr-mode-toggle' takes over what the event says. *)
Lemma vrToggle_exact (b : bool) (st : State) (w : World Callback) :
  mounted st w ->
  exists st' w',
    handle (VRModeToggle b) st w = Normal st' w' /\ mounted st' w' /\
    isVRMode (wrapper st') = b /\
    consoleErrors w' = consoleErrors w.
Proof.
  intros Hm.
  destruct (grid_handle_spec (VRModeToggle b) st w Hm)
    as (st' & w' & E & Hm' & C & _).
  exists st', w'. split; [exact E|]. split; [exact Hm'|].
  split; [|exact C].
  destruct Hm as (_ & (Hc & Hv & _) & _).
  destruct st as [g [vr o cvs oc vc]]. cbn [wrapper vrCanvas vrCleanup] in *.
  subst cvs vc. unfold handle in E. cbn [wrapper grid isVRMode] in E.
  cbv zeta in E.
  destruct (Bool_eqb b vr) eqn:Eb.
  - injection E as <- _. cbn [wrapper isVRMode].
    unfold Bool_eqb in Eb. apply Bool.eqb_prop in Eb. congruence.
  - clear Eb. revert E.
    cbv [bind ret orientationEffectCleanup vrEffectCleanup orientationEffect
         vrEffect removeEventListener addEventListener orientationCleanup
         vrCleanup isVRMode deviceOrientation vrCanvas].
    destruct oc, b; intros E; injection E as <- _; reflexivity.
Qed.

Lemma consoleError_mounted (message : string) (st : State)
    (w : World Callback) :
  mounted st w ->
  exists w', consoleError message w = Normal tt w' /\ mounted st w'.
Proof.
  intros Hm. destruct w as [nh fr ls ce dr rs ri].
  eexists. split; [reflexivity|]. exact Hm.
Qed.

Lemma enterFullscreen_mounted (p : VRModeButton.Platform) (st : State)
    (w : World Callback) :
  mounted st w ->
  exists w', VRModeButton.enterFullscreen p w = Normal tt w' /\ mounted st w'.
Proof.
  intros Hm. unfold VRModeButton.enterFullscreen.
  destruct (VRModeButton.fullscreen p);
    try (exists w; split; [reflexivity|exact Hm]).
  apply consoleError_mounted. exact Hm.
Qed.

Lemma requestOrientationPermission_spec (p : VRModeButton.Platform)
    (outcome : VRModeButton.Outcome) (button : VRModeButton.State)
    (st : State) (w : World Callback) :
  mounted st w ->
  VRModeButton.isVRMode button = false ->
  VRModeButton.needsPermission button = true ->
  exists button' w',
    VRModeButton.requestOrientationPermission p outcome button w
    = Normal button' w' /\
    mounted st w' /\
    VRModeButton.isVRMode button'
    = (if VRModeButton.refused p outcome button then false else true).
Proof.
  intros Hm Hoff Hneeds.
  unfold VRModeButton.requestOrientationPermission, VRModeButton.refused.
  rewrite Hoff, Hneeds. cbn [negb andb].
  destruct (VRModeButton.hasRequestPermission p).
  - destruct outcome as [permission|].
    + eexists. exists w. split; [reflexivity|]. split; [exact Hm|].
      destruct (String.eqb permission "granted"); cbn [negb];
        [reflexivity|exact Hoff].
    + destruct (consoleError_mounted
                  "Error requesting device orientation permission:" st w Hm)
        as (w' & E & Hm').
      unfold bind. rewrite E. eexists. exists w'.
      split; [reflexivity|]. split; [exact Hm'|exact Hoff].
  - eexists. exists w. split; [reflexivity|]. split; [exact Hm|reflexivity].
Qed.

(** X28.  A click on the VR button, with the grid mounted: the event that
    the click dispatches always announces the opposite of the button's
    state, and the grid takes that over.  The button itself follows, except
    when the click asks for the orientation permission and does not get it:
    then the button stays off while the grid is in VR mode. *)
Theorem X28_a_refused_permission_leaves_the_grid_in_vr_mode_alone
    (cv : option Canvas) (scroll dpr : R) (now : Z) (random : nat -> R)
    (evs : list Event) (p : VRModeButton.Platform)
    (outcome : VRModeButton.Outcome) (button : VRModeButton.State) :
  VRModeButton.isVRSupported button = true ->
  exists st w button' st' w',
    (st0 <- mount now (initialState cv scroll dpr now) ;; handleAll evs st0)
      (emptyWorld random) = Normal st w /\
    VRModeButton.toggleVRMode p outcome button st w
    = Normal (button', st') w' /\
    isVRMode (wrapper st') = negb (VRModeButton.isVRMode button) /\
    VRModeButton.isVRMode button'
    = (if VRModeButton.refused p outcome button then false
       else negb (VRModeButton.isVRMode button)) /\
    mounted st' w'.
Proof.
  intros Hs.
  destruct (grid_mount_spec cv scroll dpr now random)
    as (st0 & w0 & E0 & Hm0 & _).
  destruct (grid_handleAll_spec evs st0 w0 Hm0) as (st & w & E & Hm & _).
  assert (Hl : existsb (Listener_eqb vrToggleListener) (listeners w) = true).
  { destruct Hm as (_ & (_ & _ & Hl) & _). rewrite Hl.
    destruct (orientationCleanup (wrapper st)); reflexivity. }
  destruct (vrToggle_exact (negb (VRModeButton.isVRMode button)) st w Hm)
    as (st1 & w1 & E1 & Hm1 & Hvr & _).
  destruct (enterFullscreen_mounted p st1 w1 Hm1) as (w2 & E2 & Hm2).
  assert (E3 : exists w3,
             (if negb (VRModeButton.isVRMode button)
              then VRModeButton.enterFullscreen p else ret tt) w1
             = Normal tt w3 /\ mounted st1 w3).
  { destruct (VRModeButton.isVRMode button); cbn [negb].
    - exists w1. split; [reflexivity|exact Hm1].
    - exists w2. split; [exact E2|exact Hm2]. }
  destruct E3 as (w3 & E3 & Hm3).
  exists st, w. unfold VRModeButton.toggleVRMode. rewrite Hs. cbn [negb].
  cbv zeta. unfold bind at 2. unfold VRModeButton.dispatchVRModeToggle.
  rewrite Hl, E1. unfold bind at 2. rewrite E3.
  unfold VRModeButton.refused.
  destruct (VRModeButton.isVRMode button) eqn:Eon; cbn [negb andb] in *.
  - eexists. exists st1, w3. unfold bind. rewrite E0, E.
    split; [reflexivity|]. split; [reflexivity|].
    split; [exact Hvr|]. split; [reflexivity|exact Hm3].
  - destruct (VRModeButton.needsPermission button) eqn:En.
    + destruct (requestOrientationPermission_spec p outcome button st1 w3
                  Hm3 Eon En) as (button' & w4 & E4 & Hm4 & Hb).
      exists button', st1, w4. unfold bind. rewrite E0, E, E4.
      split; [reflexivity|]. split; [reflexivity|].
      split; [exact Hvr|]. split; [|exact Hm4].
      rewrite Hb. unfold VRModeButton.refused. rewrite Eon, En.
      reflexivity.
    + eexists. exists st1, w3. unfold bind. rewrite E0, E.
      split; [reflexivity|]. split; [reflexivity|].
      split; [exact Hvr|]. split; [reflexivity|exact Hm3].
Qed.

Lemma X28_a_refused_permission_witness :
  exists st w button' st' w',
    (st0 <- mount 0 (initialState None 0 1 0) ;; handleAll [] st0)
      (emptyWorld sampleRandom) = Normal st w /\
    VRModeButton.toggleVRMode VRModeButton.iOS
      (VRModeButton.Resolves "denied")
      (VRModeButton.mkState false true (Some "need-permission"%string)) st w
    = Normal (button', st') w' /\
    isVRMode (wrapper st') = true /\
    VRModeButton.isVRMode button' = false.
Proof.
  destruct (X28_a_refused_permission_leaves_the_grid_in_vr_mode_alone
              None 0 1 0 sampleRandom [] VRModeButton.iOS
              (VRModeButton.Resolves "denied")
              (VRModeButton.mkState false true
                 (Some "need-permission"%string)) eq_refl)
    as (st & w & button' & st' & w' & E & E' & Hg & Hb & _).
  exists st, w, button', st', w'.
  split; [exact E|]. split; [exact E'|]. split; [exact Hg|exact Hb].
Defined.

End VRProofs.

(** ** MainMenu *)

Module MenuProofs.
Import Browser MainMenu.
Local Open Scope js_scope.

Lemma render_spec (b : bool) (st : State) (w : World Callback) :
  mounted st w ->
  exists st' w',
    render b st w = Normal st' w' /\ mounted st' w' /\ isOpen st' = b /\
    frames w' = frames w.
Proof.
  intros [Hc Hl]. destruct st as [o c]. cbn [clickOutsideCleanup isOpen] in *.
  subst c. destruct w as [nh fr ls ce dr rs ri]. cbn [listeners] in Hl.
  subst ls. unfold render. cbn [isOpen].
  destruct b, o; cbn [Bool.eqb];
    (eexists; eexists; split; [reflexivity|]);
    repeat split; reflexivity.
Qed.

Lemma menu_handle_spec (e : Event) (st : State) (w : World Callback) :
  mounted st w ->
  exists st' w',
    handle e st w = Normal st' w' /\ mounted st' w' /\
    frames w' = frames w /\
    isOpen st' = match e with
                 | MouseDown inside => isOpen st && inside
                 | ClickButton => negb (isOpen st)
                 end.
Proof.
  intros Hm. destruct e as [inside|]; unfold handle.
  - pose proof Hm as [Hc Hl]. rewrite Hl. destruct (isOpen st) eqn:Eo.
    + cbn [existsb]. 
      assert (El : Listener_eqb clickOutsideListener clickOutsideListener
                   = true) by reflexivity.
      rewrite El. cbn [orb].
      destruct (render_spec (isOpen (handleClickOutside inside st)) st w Hm)
        as (st' & w' & E & Hm' & Ho & Hf).
      exists st', w'. split; [exact E|]. split; [exact Hm'|].
      split; [exact Hf|]. rewrite Ho. unfold handleClickOutside.
      rewrite Eo. destruct inside; cbn [negb andb isOpen setIsOpen];
        [exact Eo|reflexivity].
    + cbn [existsb]. exists st, w. split; [reflexivity|].
      split; [exact Hm|]. split; [reflexivity|]. rewrite Eo. reflexivity.
  - destruct (render_spec (isOpen (toggleMenu st)) st w Hm)
      as (st' & w' & E & Hm' & Ho & Hf).
    exists st', w'. split; [exact E|]. split; [exact Hm'|].
    split; [exact Hf|]. rewrite Ho. reflexivity.
Qed.

Lemma menu_handleAll_spec (evs : list Event) :
  forall (st : State) (w : World Callback),
    mounted st w ->
    exists st' w',
      handleAll evs st w = Normal st' w' /\ mounted st' w' /\
      frames w' = frames w.
Proof.
  induction evs as [|e rest IH]; intros st w Hm; cbn [handleAll].
  - exists st, w. auto.
  - destruct (menu_handle_spec e st w Hm) as (st1 & w1 & E1 & Hm1 & F1 & _).
    destruct (IH st1 w1 Hm1) as (st2 & w2 & E2 & Hm2 & F2).
    unfold bind. rewrite E1, E2. exists st2, w2.
    split; [reflexivity|]. split; [exact Hm2|congruence].
Qed.

Lemma menu_handleAll_app (evs evs' : list Event) :
  forall (st : State) (w : World Callback),
    handleAll (evs ++ evs') st w =
    (st1 <- handleAll evs st ;; handleAll evs' st1) w.
Proof.
  induction evs as [|e rest IH]; intros st w; cbn [handleAll app].
  - reflexivity.
  - unfold bind. destruct (handle e st w) as [st1 w1|]; [|reflexivity].
    rewrite IH. reflexivity.
Qed.

(** X29.  The menu listens for 'mousedown' on the document exactly while it
    is open, and unmounting removes the listener.  A 'mousedown' outside the
    open menu closes it.  As the menu button is outside the expanded menu,
    pressing the button with the mouse never closes the menu: if it is open
    the 'mousedown' closes it and the 'click' opens it again. *)
Theorem X29_pressing_the_menu_button_always_leaves_the_menu_open
    (evs : list Event) (random : nat -> R) :
  exists st w st' w' w'',
    (st0 <- mount ;; handleAll evs st0) (emptyWorld random) = Normal st w /\
    listeners w = (if isOpen st then [clickOutsideListener] else []) /\
    handleAll press st w = Normal st' w' /\
    isOpen st' = true /\
    listeners w' = [clickOutsideListener] /\
    unmount st' w' = Normal tt w'' /\
    listeners w'' = [] /\ frames w'' = [].
Proof.
  assert (E0 : mount (emptyWorld random)
               = Normal (mkState false true) (emptyWorld random))
    by reflexivity.
  assert (Hm0 : mounted (mkState false true)
                        (emptyWorld (C := Callback) random))
    by (split; reflexivity).
  destruct (menu_handleAll_spec evs _ _ Hm0) as (st & w & E & Hm & F).
  destruct (menu_handle_spec (MouseDown false) st w Hm)
    as (st1 & w1 & E1 & Hm1 & F1 & Ho1).
  destruct (menu_handle_spec ClickButton st1 w1 Hm1)
    as (st2 & w2 & E2 & Hm2 & F2 & Ho2).
  rewrite Ho1, andb_false_r in Ho2. cbn [negb] in Ho2.
  pose proof Hm2 as [Hc2 Hl2]. rewrite Ho2 in Hl2.
  exists st, w, st2, w2. eexists.
  unfold bind. rewrite E0, E.
  split; [reflexivity|]. split; [apply Hm|].
  split; [unfold press; cbn [handleAll]; unfold bind; rewrite E1, E2;
          reflexivity|].
  split; [exact Ho2|]. split; [exact Hl2|].
  unfold unmount, cleanup. rewrite Hc2. unfold removeEventListener.
  split; [reflexivity|]. cbn [listeners frames]. rewrite Hl2.
  split; [reflexivity|]. cbn [frames emptyWorld] in F. congruence.
Qed.

End MenuProofs.

(** ** CinematicJourneyMode *)

Module JourneyProofs.
Import CinematicJourneyMode.

(** A render of a dormant component runs no effect. *)
Lemma render_dormant (m : Machine) : dormant m -> render m = m.
Proof.
  intros ((A & C & T & I & _) & _ & (A1 & _ & _ & I1 & _) &
          (A2 & C2 & T2 & I2 & _) & (A3 & C3 & T3 & _) & _).
  unfold render, introChanged, beginChanged, keyChanged.
  rewrite A, C, T, I, A1, I1, A2, C2, T2, I2, A3, C3, T3.
  reflexivity.
Qed.

(** No event wakes a dormant component, or lets it touch the page. *)
Lemma dispatch_dormant (e : Event) (m : Machine) :
  dormant m ->
  dormant (dispatch e m) /\
  bodyOverflow (page (dispatch e m)) = bodyOverflow (page m) /\
  scrollY (page (dispatch e m)) = scrollY (page m).
Proof.
  intros Hd. pose proof Hd as (Hs & Ht & Hi & Hb & Hk & Hl & Hr).
  destruct e as [key|w h|q|n|realIndex|]; unfold dispatch.
  - rewrite Hl. unfold handleKeyDown.
    destruct Hk as (A & _). rewrite A. cbn [negb orb]. auto.
  - cbn [resizeListener setPage]. rewrite Hr.
    split; [|split; reflexivity].
    destruct Hs as (A & C & T & I & P & N & S).
    unfold dormant, updateDimensions, setState, setPage, idle.
    cbn [state timers introRender beginRender keyRender keyDownListener
         resizeListener isActive currentScene isTransitioning isIntroComplete
         cameraPosition narrativeText showNarrative page].
    repeat split; auto; try apply Hi; try apply Hb; try apply Hk.
  - split; [|split; reflexivity]. exact Hd.
  - rewrite Ht. destruct n; cbn [nth_error]; auto.
  - unfold focusPointRendered. destruct Hs as (A & _). rewrite A.
    cbn [andb]. auto.
  - destruct Hs as (A & _). rewrite A. auto.
Qed.

Lemma handle_dormant (e : Event) (m : Machine) :
  dormant m ->
  dormant (handle e m) /\
  bodyOverflow (page (handle e m)) = bodyOverflow (page m) /\
  scrollY (page (handle e m)) = scrollY (page m).
Proof.
  intros Hd. unfold handle.
  destruct (dispatch_dormant e m Hd) as (Hd' & Ho & Hy).
  rewrite (render_dormant _ Hd'). auto.
Qed.

Lemma handleAll_dormant (evs : list Event) :
  forall m : Machine,
    dormant m ->
    dormant (handleAll evs m) /\
    bodyOverflow (page (handleAll evs m)) = bodyOverflow (page m) /\
    scrollY (page (handleAll evs m)) = scrollY (page m).
Proof.
  unfold handleAll.
  induction evs as [|e rest IH]; intros m Hd; cbn [fold_left].
  - auto.
  - destruct (handle_dormant e m Hd) as (Hd' & Ho & Hy).
    destruct (IH _ Hd') as (Hd'' & Ho' & Hy').
    split; [exact Hd''|]. split; congruence.
Qed.

Lemma mount_dormant (p : Page) :
  dormant (mount p) /\ page (mount p) = p.
Proof.
  assert (E : mount p
              = mkMachine (mkState false 0 false (mkCamera 0 0 1)
                             (mkDimensions (innerWidth p) (innerHeight p))
                             false "" false)
                          p [] true (Some initialState)
                          initialState initialState initialState)
    by reflexivity.
  rewrite E. split; [|reflexivity].
  unfold dormant, idle, initialState.
  cbn [state timers introRender beginRender keyRender keyDownListener
       resizeListener isActive currentScene isTransitioning isIntroComplete
       cameraPosition narrativeText showNarrative].
  repeat split; reflexivity.
Qed.

(** X30.  Nothing can start the journey: the component comes up inactive,
    its key handler and its buttons work only while it is active, and
    nothing else calls [toggleJourneyMode].  So whatever keys are pressed,
    however the window and the page change and whatever is clicked, the
    component stays inactive at scene 0 (it renders [null]), no timeout is
    ever pending, and it leaves the scroll position and the overflow of the
    body alone; only its unmounting sets that overflow, to the empty
    string. *)
Theorem X30_the_cinematic_journey_never_begins
    (p : Page) (evs : list Event) :
  isActive (state (handleAll evs (mount p))) = false /\
  currentScene (state (handleAll evs (mount p))) = 0%nat /\
  isIntroComplete (state (handleAll evs (mount p))) = false /\
  showNarrative (state (handleAll evs (mount p))) = false /\
  cameraPosition (state (handleAll evs (mount p))) = mkCamera 0 0 1 /\
  timers (handleAll evs (mount p)) = [] /\
  bodyOverflow (page (handleAll evs (mount p))) = bodyOverflow p /\
  scrollY (page (handleAll evs (mount p))) = scrollY p /\
  bodyOverflow (page (unmount (handleAll evs (mount p)))) = ""%string /\
  keyDownListener (unmount (handleAll evs (mount p))) = None /\
  resizeListener (unmount (handleAll evs (mount p))) = false.
Proof.
  destruct (mount_dormant p) as (Hd0 & Hp0).
  destruct (handleAll_dormant evs _ Hd0) as (Hd & Ho & Hy).
  rewrite Hp0 in Ho, Hy.
  pose proof Hd as ((A & C & T & I & P & N & S) & Ht & (A1 & _) & _).
  repeat (split; [assumption|]).
  unfold unmount, introCleanup, keyCleanup.
  cbn [introRender]. rewrite A1. cbn [negb]. repeat split; reflexivity.
Qed.

End JourneyProofs.

(** ** The matrices of the grid *)

From Stdlib Require Import RNsatz.

Module RotationProofs.
Import AudioReactiveGrid MatrixRows.

(** [rotateMatrix] multiplies by three rotations: the inner products of the
    rows stay, and so does the fourth column. *)
Lemma rotateMatrix_isometry (matrix : list R) (rotX rotY rotZ : R)
    (i j : nat) :
  List.length matrix = 16%nat -> (i < 4)%nat -> (j < 4)%nat ->
  dot3 (rotateMatrix matrix rotX rotY rotZ) i j = dot3 matrix i j /\
  entry (rotateMatrix matrix rotX rotY rotZ) i 3 = entry matrix i 3.
Proof.
  intros H Hi Hj.
  do 16 (destruct matrix as [|? matrix]; [discriminate H|]).
  destruct matrix; [|discriminate H]. clear H.
  unfold rotateMatrix. cbv zeta.
  pose proof (sin2_cos2 rotX) as Hx. pose proof (sin2_cos2 rotY) as Hy.
  pose proof (sin2_cos2 rotZ) as Hz. unfold Rsqr in Hx, Hy, Hz.
  set (cx := cos rotX) in *. set (sx := sin rotX) in *.
  set (cy := cos rotY) in *. set (sy := sin rotY) in *.
  set (cz := cos rotZ) in *. set (sz := sin rotZ) in *.
  unfold dot3, entry, multiplyMatrices.
  cbn [seq flat_map map fold_left app nth Nat.mul Nat.add].
  destruct i as [|[|[|[|i]]]]; try lia; destruct j as [|[|[|[|j]]]]; try lia;
    cbn [nth Nat.mul Nat.add]; (split; [nsatz|ring]).
Qed.

(** X14.  The matrix helpers of the grid, on a 4 x 4 matrix (16 entries):
    the identity matrix is neutral for [multiplyMatrices] on both sides, a
    rotation by the angles 0, 0, 0 returns the matrix unchanged, and
    [rotateMatrix] neither scales nor shears: it keeps the inner products of
    the rows (over the first three columns), hence their lengths and the
    angles between them, and leaves the fourth column as it is. *)
Theorem X14_rotateMatrix_keeps_lengths_and_angles
    (matrix : list R) (rotX rotY rotZ : R) (i j : nat) :
  List.length matrix = 16%nat -> (i < 4)%nat -> (j < 4)%nat ->
  List.length (rotateMatrix matrix rotX rotY rotZ) = 16%nat /\
  multiplyMatrices matrix
    [1; 0; 0; 0;  0; 1; 0; 0;  0; 0; 1; 0;  0; 0; 0; 1] = matrix /\
  multiplyMatrices
    [1; 0; 0; 0;  0; 1; 0; 0;  0; 0; 1; 0;  0; 0; 0; 1] matrix = matrix /\
  rotateMatrix matrix 0 0 0 = matrix /\
  dot3 (rotateMatrix matrix rotX rotY rotZ) i j = dot3 matrix i j /\
  entry (rotateMatrix matrix rotX rotY rotZ) i 3 = entry matrix i 3.
Proof.
  intros H Hi Hj.
  destruct (GridSetup.identity_is_neutral matrix matrix matrix rotX rotY rotZ)
    as (_ & L & N).
  destruct (N H) as (N1 & N2 & N3).
  destruct (rotateMatrix_isometry matrix rotX rotY rotZ i j H Hi Hj)
    as (D & E).
  repeat split; assumption.
Qed.

Lemma X14_rotateMatrix_witness :
  dot3 (rotateMatrix [1; 0; 0; 0;  0; 1; 0; 0;  0; 0; 1; 0;  0; 0; 0; 1]
                     1 2 3) 0 0
  = dot3 [1; 0; 0; 0;  0; 1; 0; 0;  0; 0; 1; 0;  0; 0; 0; 1] 0 0.
Proof.
  assert (H0 : (0 < 4)%nat) by lia.
  destruct (X14_rotateMatrix_keeps_lengths_and_angles
              [1; 0; 0; 0;  0; 1; 0; 0;  0; 0; 1; 0;  0; 0; 0; 1]
              1 2 3 0 0 eq_refl H0 H0) as (_ & _ & _ & _ & D & _).
  exact D.
Defined.

End RotationProofs.
